(* ===== verification/_CoqProject ===== *)
-Q . S2P
Prelude.v
Bytes.v
Decimal.v
Hash.v
Ed25519.v
Crdt.v
OrSet.v
OrSetCodec.v
Lww.v
Rga.v
RgaInv.v
RgaMerge.v
RgaProps.v
RgaCodec.v
Merkle.v
Float.v
Bits.v
NodeId.v
Routing.v
DhtWire.v
DhtNode.v
DhtProps.v
DhtClient.v
DhtLookup.v
DhtNet.v
Raft.v
Pow.v
Capability.v
AuditLog.v
Qos.v
FileWire.v
BlockStore.v
Transfer.v
Exchange.v
FileSync.v
Multipath.v
MultipathProps.v
LinkManager.v
Discovery.v
Dns.v
DnsServer.v
Docs.v
DocsCodec.v
Calls.v
Text.v
MailGuard.v
Mail.v
Smtp.v
Imap.v
ImapProps.v
Relay.v
Federation.v
FederationClient.v
Quic.v
Presence.v
DocsServer.v
Registry.v
Messaging.v
DocsExport.v
Noise.v
Handshake.v
HandshakeProps.v
Base64.v
Curve.v
Identity.v
Vpn.v
Mdns.v
Plugins.v
Proto.v
Stores.v
FileStore.v
NatTraversal.v
Distribute.v
Tracks.v
Signaling.v
Dashboard.v
DashboardCalls.v
NodeConfig.v
