(* ===== verification/Prelude.v ===== *)
(** * LocalWEB: a verification development

    LocalWEB is a Go program for networks without infrastructure: nodes find
    each other over whatever links they have, keep a distributed hash table of
    peers and values, replicate data with CRDTs, and offer services (files,
    documents, names, mail, calls) to each other.  This library models the
    parts of it that carry logic of their own and proves what makes them
    correct.  Source paths below are relative to src/pkg, or to src where they
    begin with cmd.

    ** How the parts of the program interact

    A node has a key pair; the handshakes turn a stream to a peer into a
    sealed one and give the identity the peer claims.  It registers in the DHT
    with a proof of work, looks peers up and stores values ([dht]).  The
    security package gates peers: memory-hard proofs of work, signed
    capability tokens, a hash-chained audit log.  QoS shapes what is sent; the
    multipath manager chooses the link for it; a relay carries circuits
    between peers that cannot reach each other.  Discovery modes report
    sightings to an orchestrator; one of them polls a rendezvous server
    ([federation]) at which nodes register.  The CRDTs are what replicas
    exchange: the documents service keeps its characters in an RGA. File
    transfer cuts a file into chunks, offers their content identifiers and
    sends what the other side lacks into its block store; the synchronisation
    engine does the same for whole stores, peer by peer.  The name server, the
    mail server, the calls, the package registry, messaging and the VPN are
    services on top, plugins add others, and the dashboard of the node reads
    and changes them through HTTP.

    ** Files

    - [Prelude], [Bytes], [Decimal], [Bits], [Float], [Text]: errors as values of
      [result], int64 and uint64 with their wrap-around, time, byte strings and
      big-endian integers, byte readers, leading zero bits and nonce search,
      IEEE 754 binary64, Go's string functions; lemmas and tactics.
    - [Hash], [Ed25519]: interfaces to hashing and signing, with SHA3-256
      executable.
    - [Crdt], [OrSet], [OrSetCodec], [Lww], [Rga], [RgaInv], [RgaMerge],
      [RgaProps], [RgaCodec], [Merkle]: crdt/crdt.go and the Merkle proofs of
      dht/server.go.  The linked list of an RGA is the list of its nodes; a
      replica's state is a record, an operation a function on it.
    - [NodeId], [Routing], [DhtWire], [DhtNode], [DhtProps], [DhtClient],
      [DhtLookup], [DhtNet], [Raft]: dht/dht.go, dht/server.go, dht/raft.go.
      [DhtNode] is the request handler with every branch of [handleMessage],
      [DhtClient] the iterative client against an arbitrary network
      ([Network]), [DhtNet] puts handlers behind the network and composes the
      two.  [Raft] makes the mutex explicit, which is where it blocks.
    - [Pow], [Capability], [AuditLog]: security/pow.go, capability.go, audit.go.
    - [Qos]: qos/qos.go, with int64 arithmetic and float64 refills.
    - [FileWire], [BlockStore], [Transfer]: services/files: chunker, frames,
      store, and the two ends of a transfer over an ordered channel.
    - [Exchange], [FileSync]: services/files/exchange.go and sync.go: want lists
      and the four messages, the engine, and [FileSync.sync_round], which runs
      one node's request and the other's answers through the wire format.
    - [Multipath], [MultipathProps]: link/multipath.go.  The order in which a
      map is visited is an argument that may be any permutation.
    - [FileStore]: services/files/store.go on disk, with restarts, the table of
      file metadata, and fuse.go.
    - [LinkManager], [Discovery]: link/manager.go and discovery/discovery.go,
      types.go: tables of peers with their scores, fed by events.
    - [Mdns]: discovery/mdns.go: announcements over multicast DNS, as bytes.
    - [NatTraversal]: nat/nat.go and transport/nat.go: UPnP, circuits over
      relays, hole punching.
    - [Federation], [FederationClient]: the rendezvous server of federation.go
      and rendezvous_limits.go over any store ([Store]; the one in memory is an
      instance), and the client with the polling mode of
      rendezvous_discovery.go against any transport ([RoundTrip]).
    - [Dns], [DnsServer]: services/dns/dns.go: messages, zone, cache, queries.
    - [Docs], [DocsCodec]: services/docs/document.go and the wire formats of
      types.go.  A slice expression that can panic is an [option].
    - [Presence], [DocsServer], [DocsExport]: services/docs/presence.go,
      server.go and export.go: cursors and selections, the service from messages
      to broadcasts, Markdown and HTML.
    - [Registry], [Distribute]: services/registry: manifests, package files, the
      registry in memory with its search, the HTTP handlers; its metadata over
      the DHT of [DhtNet].
    - [Messaging]: services/messaging/messaging.go: channels and their history.
    - [Calls]: services/voice: calls live in a heap, because callers keep
      references to them; the manager's table holds references.
    - [Signaling], [Tracks]: signals over the message store, the service that
      places and accepts calls; codecs, the bitrate controller, tracks.
    - [MailGuard], [Mail], [Smtp]: services/email: rate limiter, proof of work,
      credentials; messages, mailboxes and queue; the SMTP connection from its
      input bytes to its replies and the mailboxes.
    - [Imap], [ImapProps]: services/email/imap.go on the mailboxes of [Mail],
      from input bytes to answers, with the crash as an outcome of its own.
    - [Relay]: transport/relay.go with its pumps as concurrent steps.
    - [Quic]: transport/quic.go after the handshake: connections in a heap, their
      table, stream dispatch, sending, frames.
    - [Noise], [Handshake], [HandshakeProps]: crypto/noise.go and hybrid.go, the
      sessions as state machines, and the drivers of transport/quic.go and
      hybrid.go that run them over a stream.
    - [Base64], [Curve], [Identity]: crypto/crypto.go and storage.go: keys and
      their conversion to X25519, pairing codes, backups, the identity file.
    - [Vpn]: services/vpn: tunnels, routes, and packets between a device and a
      stream.
    - [Plugins]: plugin/plugin.go and host.go: the life of plugins, their services
      and routes.
    - [Proto]: proto/marshal.go: conversions to and from the generated messages.
    - [Stores]: store: the database, and the block and peer stores on it.
    - [Dashboard], [DashboardCalls]: gui: the API of the dashboard and its
      handlers, over [DocsServer], [FileStore], [Signaling], [Identity] and
      [AuditLog].
    - [NodeConfig]: cmd/node/config.go and the readers of addresses of main.go.

    Operations that read the clock, draw random bytes or touch the disk take
    the outcome as an argument.  A mutex held for a whole operation makes it
    atomic and is left out; where it is released in between or taken twice it
    is modelled ([Calls], [Relay], [Raft]).

    ** What is proved

    - Convergence of replicas: ORSet states under any order and duplication of
      merges, last-writer-wins registers, and for the RGA that a merge is a
      join of what is known, that reachable replicas are well formed, that
      siblings converge and deletions last.  How far the RGA falls short of
      convergence is shown by counterexamples ([RgaProps.rga_merge_diverges]).
    - Refinement of specifications: block store by reference counts, capability
      checks by the history of grants, the rate limiter by the full history,
      the SMTP server by a protocol machine.
    - Handshakes: two honest nodes agree on keys and on each other's identity,
      over Noise and over the hybrid of it; and an identity is only claimed, so
      that a node without the key of another completes a handshake in its name.
    - Safety: registration gate of the DHT, replay of proofs of work, tamper
      evidence of the audit log, one copy per send over several links, answers
      of the name server, deliveries of the mail server, records handed out by a
      rendezvous server, streams handed to service handlers, packages served by a
      registry, texts in exported HTML; and that an IMAP connection neither
      depends on nor changes the mail of a user whose password it does not give.
    - Invariants by induction on steps: routing table, links of a peer, peers
      found by discovery, table of calls, circuits of the relay, audit chain, Raft
      log, blocks on disk over restarts, what the database holds whatever writes
      failed.
    - Functional correctness: lookup, closest peers, solvers and verifiers of
      proofs of work, chunking and transfer end to end, a synchronisation round,
      registering and looking up at a rendezvous server, package metadata from
      one node to another over the DHT, packets through a VPN, an offer to the
      callee who waits for it, a document saved from the dashboard, undo and redo,
      token bucket budget, the bitrate controller, selection of relays, precedence
      of the command line over the configuration file.
    - Round trips of every wire and storage format that is modelled, each with
      the sizes at which it stops being one; backups of an identity and pairing
      codes among them.
    - No panics and termination: the documents and their service never index
      out of range, whatever peers send; the
      merge of RGAs and a mail connection end on every input.

    Beside these, lemmas such as [Relay.stop_deadlocks] or
    [Docs.merge_restores_deleted] state behaviour that departs from a comment or
    from the evident intent, on a concrete input.

    ** Interfaces

    What one part needs from another, or from a library, is a class or a
    record with laws, and the theorems are proved against it: [Hash256],
    [Ed25519], [Argon2], [TokenCrypto], [EventJSON], [PeerListGob], [CidLib],
    [Network], [LinkLayer], [Order], [Store], [PeerJSON], [RoundTrip],
    [PackageLib], [MetaJSON], [NoiseCrypto], [Kyber], [IdentityLib],
    [PQSchemes], [SignalJSON], [ProtoCodec], [Badger], [StoreCodec],
    [CidText].  Each has an instance on which the witnesses run. Collision
    freedom and unforgeability are never assumed; where they matter the
    statement says on which inputs.  HMAC-MD5, PBKDF2, the TLS handshake, in
    the mail server also Base64, [net.ParseIP] and the parsing of dates and
    scores are function arguments.

    ** Fuel and bounds

    Loops that are not structural run on fuel, and the theorems show it is
    enough: sweeps of an RGA merge (one per pending node), lookups ([MaxHops]
    rounds), register and audit parsers (one unit per input byte), the SMTP
    connection (one per input byte, each round reads a line), runes of a string.
    Nonce searches are cut in halves so that they can run to the limits of the
    source.  The DNS name reader has no bound in the source: it takes
    fuel, and [Dns.ParseMessage_diverges] shows that none is enough for some
    input.

    ** Not modelled

    Sockets, devices and the tools of the operating system (BLE, WiFi, USB, TUN
    devices, network interfaces): what they answer is an argument.  Goroutines
    that only pass data on or wait for a ticker: what they do at a tick is a
    function.  The start of the services in cmd/node/main.go, the other programs
    under cmd, and the panels of the dashboard that list what a store holds are
    wiring.  WebRTC, the native codecs, BadgerDB, zstd, QUIC itself, TLS and the
    generated protobuf code are libraries: classes with their laws where a
    theorem needs one.  The example plugins, the HTTP gateway and fault injection
    for tests (chaos) have no logic of their own to prove. *)

From stdpp Require Export base gmap sets list strings sorting.
From Stdlib Require Export ZArith Lia.

(** ** Errors and results

    Go functions that return [(T, error)] return a [result T] here.  The
    errors of the Go runtime that callers can observe are constructors; every
    error built by [errors.New] or [fmt.Errorf] is [ErrText] of its constant
    text (the formatted arguments are left out). *)

Inductive goerror :=
| EOF
| ErrUnexpectedEOF
| ErrText (msg : string).

Inductive result (A : Type) :=
| Ok (a : A)
| Err (e : goerror).
Arguments Ok {A} a.
Arguments Err {A} e.

#[global] Instance goerror_eq_dec : EqDecision goerror.
Proof. solve_decision. Defined.

#[global] Instance result_eq_dec `{EqDecision A} : EqDecision (result A).
Proof. solve_decision. Defined.

#[global] Instance result_ret : MRet result := @Ok.

#[global] Instance result_bind : MBind result :=
  fun A B f r => match r with Ok a => f a | Err e => Err e end.

#[global] Instance result_fmap : FMap result :=
  fun A B f r => match r with Ok a => Ok (f a) | Err e => Err e end.

Definition is_ok {A} (r : result A) : bool :=
  match r with Ok _ => true | Err _ => false end.

Declare Scope go_scope.
Delimit Scope go_scope with go.

(** ** Machine integers

    [wrapU w] and [wrapS w] are the conversions to a w-bit unsigned and signed
    integer: what Go's arithmetic and conversions do on overflow. *)

Definition wrapU (w : Z) (z : Z) : Z := (z mod 2 ^ w)%Z.

Definition wrapS (w : Z) (z : Z) : Z :=
  ((z + 2 ^ (w - 1)) mod 2 ^ w - 2 ^ (w - 1))%Z.

Definition int64_min : Z := (- 2 ^ 63)%Z.
Definition int64_max : Z := (2 ^ 63 - 1)%Z.

Lemma wrapU_small w z : (0 <= z < 2 ^ w)%Z -> wrapU w z = z.
Proof. intros H. unfold wrapU. by apply Z.mod_small. Qed.

Lemma wrapU_range w z : (0 <= w)%Z -> (0 <= wrapU w z < 2 ^ w)%Z.
Proof. intros H. unfold wrapU. apply Z.mod_pos_bound. by apply Z.pow_pos_nonneg. Qed.

Lemma wrapS_small w z :
  (0 < w)%Z -> (- 2 ^ (w - 1) <= z < 2 ^ (w - 1))%Z -> wrapS w z = z.
Proof.
  intros Hw H. unfold wrapS.
  assert (2 ^ w = 2 * 2 ^ (w - 1))%Z as Hp.
  { rewrite <- Z.pow_succ_r by lia. f_equal. lia. }
  rewrite Z.mod_small by lia. lia.
Qed.

Lemma wrapS_range w z : (0 < w)%Z -> (- 2 ^ (w - 1) <= wrapS w z < 2 ^ (w - 1))%Z.
Proof.
  intros Hw. unfold wrapS.
  assert (2 ^ w = 2 * 2 ^ (w - 1))%Z as Hp.
  { rewrite <- Z.pow_succ_r by lia. f_equal. lia. }
  pose proof (Z.mod_pos_bound (z + 2 ^ (w - 1)) (2 ^ w)) as Hm.
  assert (0 < 2 ^ (w - 1))%Z by (apply Z.pow_pos_nonneg; lia).
  lia.
Qed.

Lemma wrapS_wrapU w z : (0 < w)%Z -> wrapS w (wrapU w z) = wrapS w z.
Proof.
  intros Hw. unfold wrapS, wrapU.
  by rewrite Zplus_mod_idemp_l.
Qed.

Lemma wrapS_add_l w a b : (0 < w)%Z -> wrapS w (wrapS w a + b) = wrapS w (a + b).
Proof.
  intros Hw. unfold wrapS. f_equal.
  replace ((a + 2 ^ (w - 1)) mod 2 ^ w - 2 ^ (w - 1) + b + 2 ^ (w - 1))%Z
    with ((a + 2 ^ (w - 1)) mod 2 ^ w + b)%Z by lia.
  rewrite Zplus_mod_idemp_l. f_equal. lia.
Qed.

(** Joining a high part and a low part of a bit pattern. *)
Lemma lor_shiftl_add hi lo n :
  (0 <= n)%Z -> (0 <= lo < 2 ^ n)%Z ->
  Z.lor (Z.shiftl hi n) lo = (hi * 2 ^ n + lo)%Z.
Proof.
  intros Hn Hlo.
  assert (Z.land (Z.shiftl hi n) lo = 0%Z) as Hz.
  { apply Z.bits_inj'. intros i Hi. rewrite Z.land_spec, Z.bits_0.
    destruct (decide (i < n)%Z).
    - by rewrite Z.shiftl_spec_low.
    - rewrite <- (Z.mod_small lo (2 ^ n)) by done.
      by rewrite (Z.mod_pow2_bits_high lo) by lia; rewrite andb_false_r. }
  rewrite <- Z.lxor_lor, <- Z.add_nocarry_lxor by done.
  by rewrite Z.shiftl_mul_pow2.
Qed.

(** ** Time

    A [time.Time] is the number of nanoseconds since the zero time of Go
    (January 1, year 1, UTC), so [time.Time{}] is [0] and [IsZero] is a test
    against it.  A [time.Duration] is an int64 number of nanoseconds; [Sub]
    saturates at the int64 bounds as [time.Time.Sub] documents.  The reading
    of the clock is an argument of every operation that calls [time.Now]. *)

Definition time_is_zero (t : Z) : bool := (t =? 0)%Z.

Definition time_sub (t u : Z) : Z :=
  Z.max int64_min (Z.min int64_max (t - u)).

Definition time_add (t d : Z) : Z := (t + d)%Z.
Definition time_before (t u : Z) : bool := (t <? u)%Z.
Definition time_after (t u : Z) : bool := (u <? t)%Z.

Definition nanosecond : Z := 1.
Definition millisecond : Z := 1000000.
Definition second : Z := 1000000000.
Definition minute : Z := 60 * second.

(** Seconds from the zero time to the Unix epoch. *)
Definition unix_epoch : Z := 62135596800.

Definition time_unix (t : Z) : Z := (t / second - unix_epoch)%Z.
Definition time_unix_nano (t : Z) : Z := wrapS 64 (t - unix_epoch * second).

(** ** Automation *)

Create HintDb localweb.
Create Rewrite HintDb localweb.

(** Case analysis on the tests the code makes, in the goal or a hypothesis. *)
Ltac case_tests :=
  repeat (case_decide || case_match || case_bool_decide); simplify_eq/=.

(** Split hypotheses that are conjunctions, existentials or [andb] tests. *)
Ltac split_hyps :=
  repeat match goal with
  | H : _ /\ _ |- _ => destruct H
  | H : exists _, _ |- _ => destruct H
  | H : (_ && _)%bool = true |- _ => apply andb_true_iff in H
  | H : Is_true (_ && _) |- _ => apply andb_prop_elim in H
  end.

(** Settle a closed decidable goal by evaluating its decision procedure. *)
Ltac decide_vm := cbv zeta; apply (bool_decide_eq_true_1 _); vm_compute; reflexivity.

(** ** Lists *)

Section list_lemmas.
Context {A : Type}.
Implicit Types l k : list A.

Lemma take_app_exact l k n : length l = n -> take n (l ++ k) = l.
Proof. intros <-. apply take_app_length. Qed.

Lemma drop_app_exact l k n : length l = n -> drop n (l ++ k) = k.
Proof. intros <-. apply drop_app_length. Qed.

Lemma sublist_app_mid l1 x l2 : sublist (l1 ++ l2) (l1 ++ x :: l2).
Proof. apply sublist_app; [done|]. by apply sublist_cons. Qed.

Lemma app_mid_Permutation l1 x l2 : l1 ++ x :: l2 ≡ₚ x :: (l1 ++ l2).
Proof. by rewrite Permutation_middle. Qed.

Lemma fmap_app_mid {B} (f : A -> B) l1 x l2 :
  f <$> (l1 ++ x :: l2) = (f <$> l1) ++ f x :: (f <$> l2).
Proof. by rewrite fmap_app. Qed.

Lemma sublist_Forall (P : A -> Prop) l k : sublist l k -> Forall P k -> Forall P l.
Proof. induction 1; intros HF; inversion HF; subst; auto. Qed.

(** A separator splits a list in one way. *)
Lemma split_at_sep x l1 l2 k1 k2 :
  x ∉ l1 -> x ∉ k1 -> l1 ++ x :: l2 = k1 ++ x :: k2 -> l1 = k1 /\ l2 = k2.
Proof.
  revert k1. induction l1 as [|y l1 IH]; intros [|z k1] Hl Hk H; simplify_eq/=.
  - done.
  - destruct Hk. left.
  - destruct Hl. left.
  - rewrite elem_of_cons in Hl, Hk. destruct (IH k1) as [-> ->]; tauto.
Qed.

End list_lemmas.

(** ** Filters *)

Lemma filter_ext_in {A} (P Q : A -> Prop) `{forall x, Decision (P x), forall x, Decision (Q x)} (l : list A) :
  (forall x, x ∈ l -> P x <-> Q x) -> filter P l = filter Q l.
Proof.
  induction l as [|x l IH]; intros HPQ; [done|]. rewrite !filter_cons.
  rewrite IH by (intros y Hy; apply HPQ; by right).
  destruct (decide (P x)) as [HP|HP], (decide (Q x)) as [HQ|HQ]; try done;
    by apply HPQ in HP || apply HPQ in HQ; try left.
Qed.

Lemma filter_ext_Forall {A} (P Q : A -> Prop) `{forall x, Decision (P x), forall x, Decision (Q x)} (l : list A) :
  Forall (fun x => P x <-> Q x) l -> filter P l = filter Q l.
Proof. rewrite Forall_forall. apply filter_ext_in. Qed.

Lemma filter_sublist_Forall {A} (P Q : A -> Prop) `{forall x, Decision (P x), forall x, Decision (Q x)} (l : list A) :
  Forall (fun x => P x -> Q x) l -> sublist (filter P l) (filter Q l).
Proof.
  induction 1 as [|x l HPQ _ IH]; [done|]. rewrite !filter_cons.
  destruct (decide (P x)), (decide (Q x)); [by apply sublist_skip|tauto|by apply sublist_cons|done].
Qed.

#[export] Hint Rewrite @length_app @length_take @length_drop @length_fmap
  @length_replicate @length_cons : localweb.
#[export] Hint Resolve wrapU_small wrapS_small sublist_app_mid : localweb.
