(* ===== verification/Bytes.v ===== *)
(** * Byte strings

    Go's [byte], [[]byte] and [string] values, the fixed-width integer codecs
    of [encoding/binary], the lexicographic order of [bytes.Compare] (which is
    also the order of [<] on Go strings), and the reading side of a
    [bytes.Buffer]: [io.ReadFull], [binary.Read], [Buffer.Read] and
    [Buffer.ReadByte], each with the error it returns and the bytes it has
    consumed when it fails. *)

From coqutil Require Import Byte.
From coqutil Require LittleEndianList.
From S2P Require Import Prelude.

Abbreviation byte := Byte.byte.
Abbreviation bytes := (list Byte.byte).

#[global] Instance byte_eq_dec : EqDecision byte := Byte.byte_eq_dec.

Lemma byte_of_to_N (b : byte) : Byte.of_N (Byte.to_N b) = Some b.
Proof. apply Byte.of_to_N. Qed.

#[global] Program Instance byte_countable : Countable byte :=
  inj_countable Byte.to_N Byte.of_N _.
Next Obligation. apply byte_of_to_N. Qed.

(** The value of a byte and the conversion [byte(z)]. *)
Definition u8 (b : byte) : Z := byte.unsigned b.
Definition byte_of (z : Z) : byte := byte.of_Z z.

(** A Go string literal. *)
Definition str (s : string) : bytes := String.list_byte_of_string s.

Definition zeroes (n : nat) : bytes := replicate n Byte.x00.

(** ** Fixed-width integers *)

(** [binary.BigEndian.PutUintN]: the [n] low bytes of [z], highest first. *)
Definition be_put (n : nat) (z : Z) : bytes := rev (LittleEndianList.le_split n z).

(** [binary.BigEndian.UintN]. *)
Definition be_get (bs : bytes) : Z := LittleEndianList.le_combine (rev bs).

(** [binary.LittleEndian.PutUintN]. *)
Definition le_put (n : nat) (z : Z) : bytes := LittleEndianList.le_split n z.

Definition len (bs : bytes) : Z := Z.of_nat (length bs).

(** ** Comparison *)

Fixpoint bytes_compare (a b : bytes) : comparison :=
  match a, b with
  | [], [] => Eq
  | [], _ :: _ => Lt
  | _ :: _, [] => Gt
  | x :: a', y :: b' =>
      match Z.compare (u8 x) (u8 y) with
      | Eq => bytes_compare a' b'
      | c => c
      end
  end.

Definition bytes_lt (a b : bytes) : bool :=
  match bytes_compare a b with Lt => true | _ => false end.

(** ** Readers

    A reader consumes a prefix of the unread bytes; it also says what is left
    when it fails, because [decodeRGAList] keeps reading after an error. *)

Definition reader (A : Type) : Type := bytes -> result A * bytes.

Definition rret {A} (a : A) : reader A := fun b => (Ok a, b).
Definition rfail {A} (e : goerror) : reader A := fun b => (Err e, b).
Definition rbind {A B} (m : reader A) (f : A -> reader B) : reader B :=
  fun b => match m b with
           | (Ok a, b') => f a b'
           | (Err e, b') => (Err e, b')
           end.
Notation "'let!' x ':=' m 'in' k" := (rbind m (fun x => k))
  (at level 10, x pattern, m at level 100, k at level 200,
   format "'let!'  x  ':='  m  'in' '/' k") : go_scope.

(** [io.ReadFull] into a buffer of [n] bytes. *)
Definition readFull (n : nat) : reader bytes := fun b =>
  if decide (n <= length b) then (Ok (take n b), drop n b)
  else (Err (match b with [] => EOF | _ => ErrUnexpectedEOF end), []).

(** [binary.Read(buf, binary.BigEndian, &v)] with [v] of [n] bytes. *)
Definition readUint (n : nat) : reader Z :=
  rbind (readFull n) (fun bs => rret (be_get bs)).

(** [buf.Read(make([]byte, n))] on a [bytes.Buffer]: a short read is not an
    error, the rest of the destination keeps its zeroes. *)
Definition bufRead (n : nat) : reader bytes := fun b =>
  match b with
  | [] => match n with O => (Ok [], []) | S _ => (Err EOF, []) end
  | _ => (Ok (take n b ++ zeroes (n - length b)), drop n b)
  end.

(** [v, _ := buf.ReadByte()]: the zero byte when nothing is left. *)
Definition readByte_or_zero : reader byte := fun b =>
  match b with [] => (Ok Byte.x00, []) | x :: b' => (Ok x, b') end.

(** Run a reader [n] times and collect what it returns. *)
Fixpoint rrepeat {A} (n : nat) (m : reader A) : reader (list A) :=
  match n with
  | O => rret []
  | S n' => rbind m (fun a => rbind (rrepeat n' m) (fun l => rret (a :: l)))
  end.

(** * Lemmas *)

Lemma u8_range b : (0 <= u8 b < 256)%Z.
Proof. apply byte.unsigned_range. Qed.

Lemma u8_inj a b : u8 a = u8 b -> a = b.
Proof. apply byte.unsigned_inj. Qed.

Lemma u8_byte_of z : u8 (byte_of z) = (z mod 256)%Z.
Proof. apply byte.unsigned_of_Z. Qed.

Lemma byte_of_u8 b : byte_of (u8 b) = b.
Proof. apply u8_inj. rewrite u8_byte_of. apply Z.mod_small, u8_range. Qed.

Lemma len_nonneg b : (0 <= len b)%Z.
Proof. unfold len. lia. Qed.

Lemma len_app a b : len (a ++ b) = (len a + len b)%Z.
Proof. unfold len. rewrite length_app. lia. Qed.

Lemma length_be_put n z : length (be_put n z) = n.
Proof. unfold be_put. by rewrite length_rev, LittleEndianList.length_le_split. Qed.

Lemma length_le_put n z : length (le_put n z) = n.
Proof. apply LittleEndianList.length_le_split. Qed.

Lemma length_zeroes n : length (zeroes n) = n.
Proof. apply length_replicate. Qed.

Lemma be_get_put n z : be_get (be_put n z) = (z mod 2 ^ (Z.of_nat n * 8))%Z.
Proof.
  unfold be_get, be_put. rewrite rev_involutive.
  apply LittleEndianList.le_combine_split.
Qed.

Lemma be_get_put_small n z :
  (0 <= z < 2 ^ (Z.of_nat n * 8))%Z -> be_get (be_put n z) = z.
Proof. intros H. rewrite be_get_put. by apply Z.mod_small. Qed.

Lemma be_put_get bs : be_put (length bs) (be_get bs) = bs.
Proof.
  unfold be_get, be_put.
  rewrite <- (length_rev bs), LittleEndianList.split_le_combine.
  apply rev_involutive.
Qed.

Lemma be_get_range bs : (0 <= be_get bs < 2 ^ (8 * len bs))%Z.
Proof.
  unfold be_get, len. rewrite <- (length_rev bs).
  apply LittleEndianList.le_combine_bound.
Qed.

Lemma be_get_inj a b : length a = length b -> be_get a = be_get b -> a = b.
Proof.
  intros Hl H. rewrite <- (be_put_get a), <- (be_put_get b). by rewrite Hl, H.
Qed.

Lemma be_put_wrap n z : be_put n (z mod 2 ^ (Z.of_nat n * 8)) = be_put n z.
Proof. unfold be_put. by rewrite <- LittleEndianList.le_split_mod. Qed.

#[export] Hint Rewrite length_be_put length_le_put length_zeroes : localweb.

(** A big-endian number as head byte and rest. *)
Lemma be_get_cons x a : be_get (x :: a) = (u8 x * 2 ^ (8 * len a) + be_get a)%Z.
Proof.
  pose proof (be_get_range a) as Hr. unfold be_get, len in *. cbn [rev].
  rewrite LittleEndianList.le_combine_app, LittleEndianList.le_combine_1, length_rev.
  replace (Z.of_nat (length a) * 8)%Z with (8 * Z.of_nat (length a))%Z by lia.
  rewrite Z.lor_comm, lor_shiftl_add by lia. done.
Qed.

Lemma be_get_nil : be_get [] = 0%Z.
Proof. reflexivity. Qed.

(** ** The lexicographic order *)

Lemma bytes_compare_refl a : bytes_compare a a = Eq.
Proof. induction a as [|x a IH]; simpl; [done|]. by rewrite Z.compare_refl. Qed.

Lemma bytes_compare_eq a b : bytes_compare a b = Eq <-> a = b.
Proof.
  split; [|intros ->; apply bytes_compare_refl].
  revert b. induction a as [|x a IH]; intros [|y b]; simpl; try done.
  destruct (Z.compare_spec (u8 x) (u8 y)) as [Hxy|Hxy|Hxy]; try done.
  intros ->%IH. by rewrite (u8_inj _ _ Hxy).
Qed.

Lemma bytes_compare_antisym a b : bytes_compare b a = CompOpp (bytes_compare a b).
Proof.
  revert b. induction a as [|x a IH]; intros [|y b]; simpl; try done.
  rewrite (Z.compare_antisym (u8 x) (u8 y)).
  destruct (Z.compare (u8 x) (u8 y)); simpl; auto.
Qed.

Lemma bytes_compare_trans_lt a b c :
  bytes_compare a b = Lt -> bytes_compare b c = Lt -> bytes_compare a c = Lt.
Proof.
  revert b c. induction a as [|x a IH]; intros [|y b] [|z c]; simpl; try done.
  destruct (Z.compare_spec (u8 x) (u8 y)) as [Hxy|Hxy|Hxy]; try done.
  - rewrite Hxy. destruct (Z.compare (u8 y) (u8 z)); try done. apply IH.
  - intros _. destruct (Z.compare_spec (u8 y) (u8 z)) as [Hyz|Hyz|Hyz]; try done.
    + rewrite <- Hyz. intros _. by apply Z.compare_lt_iff in Hxy as ->.
    + intros _. assert (u8 x < u8 z)%Z as H by lia. by apply Z.compare_lt_iff in H as ->.
Qed.

Lemma bytes_lt_irrefl a : bytes_lt a a = false.
Proof. unfold bytes_lt. by rewrite bytes_compare_refl. Qed.

Lemma bytes_lt_trans a b c : bytes_lt a b = true -> bytes_lt b c = true -> bytes_lt a c = true.
Proof.
  unfold bytes_lt. intros H1 H2.
  destruct (bytes_compare a b) eqn:E1, (bytes_compare b c) eqn:E2; try done.
  by rewrite (bytes_compare_trans_lt _ _ _ E1 E2).
Qed.

Lemma bytes_lt_total a b : bytes_lt a b = false -> bytes_lt b a = false -> a = b.
Proof.
  unfold bytes_lt. rewrite (bytes_compare_antisym a b). intros H1 H2.
  apply bytes_compare_eq. by destruct (bytes_compare a b).
Qed.

Lemma bytes_lt_asym a b : bytes_lt a b = true -> bytes_lt b a = false.
Proof.
  unfold bytes_lt. rewrite (bytes_compare_antisym a b). by destruct (bytes_compare a b).
Qed.

(** The order of [sort.Strings]. *)
Definition bytes_le (a b : bytes) : Prop := bytes_lt b a = false.

#[global] Instance bytes_le_dec : RelDecision bytes_le :=
  fun a b => decide (bytes_lt b a = false).

#[global] Instance bytes_le_total : Total bytes_le.
Proof.
  intros a b. unfold bytes_le. destruct (bytes_lt b a) eqn:E; [right|by left].
  by apply bytes_lt_asym.
Qed.

#[global] Instance bytes_le_trans : Transitive bytes_le.
Proof.
  intros a b c. unfold bytes_le. intros Hab Hbc.
  destruct (bytes_lt c a) eqn:E; [|done].
  destruct (bytes_lt a b) eqn:E2.
  - by rewrite (bytes_lt_trans c a b) in Hbc.
  - pose proof (bytes_lt_total _ _ E2 Hab) as ->. congruence.
Qed.

(** On equal lengths the order is the order of the big-endian numbers. *)
Lemma bytes_compare_be a b :
  length a = length b -> bytes_compare a b = Z.compare (be_get a) (be_get b).
Proof.
  revert b. induction a as [|x a IH]; intros [|y b] Hl; try done.
  injection Hl as Hl. cbn [bytes_compare]. rewrite !be_get_cons, (IH b Hl).
  pose proof (be_get_range a) as Ha. pose proof (be_get_range b) as Hb.
  unfold len in *. rewrite Hl in *.
  set (p := (2 ^ (8 * Z.of_nat (length b)))%Z) in *.
  destruct (Z.compare_spec (u8 x) (u8 y)) as [Hxy|Hxy|Hxy].
  - rewrite Hxy. destruct (Z.compare_spec (be_get a) (be_get b)); symmetry;
      [apply Z.compare_eq_iff|apply Z.compare_lt_iff|apply Z.compare_gt_iff]; lia.
  - symmetry. apply Z.compare_lt_iff. nia.
  - symmetry. apply Z.compare_gt_iff. nia.
Qed.

(** ** What the readers do on an encoded prefix *)

Lemma readFull_app n bs k : length bs = n -> readFull n (bs ++ k) = (Ok bs, k).
Proof.
  intros H. unfold readFull. rewrite decide_True by (rewrite length_app; lia).
  by rewrite take_app_exact, drop_app_exact.
Qed.

Lemma readUint_be_put n z k :
  (0 <= z < 2 ^ (Z.of_nat n * 8))%Z -> readUint n (be_put n z ++ k) = (Ok z, k).
Proof.
  intros H. unfold readUint, rbind. rewrite readFull_app by apply length_be_put.
  unfold rret. by rewrite be_get_put_small.
Qed.

Lemma readUint_wrap n z k :
  readUint n (be_put n z ++ k) = (Ok (z mod 2 ^ (Z.of_nat n * 8))%Z, k).
Proof.
  unfold readUint, rbind. rewrite readFull_app by apply length_be_put.
  unfold rret. by rewrite be_get_put.
Qed.

Lemma bufRead_app n bs k : length bs = n -> bufRead n (bs ++ k) = (Ok bs, k).
Proof.
  intros <-. unfold bufRead. destruct (bs ++ k) eqn:E.
  - by apply app_nil in E as [-> ->].
  - rewrite <- E, take_app_length, drop_app_length, length_app.
    replace (length bs - (length bs + length k)) with 0 by lia.
    by rewrite app_nil_r.
Qed.

Lemma readUint_length n b v k : readUint n b = (Ok v, k) -> length b = n + length k.
Proof.
  unfold readUint, rbind, readFull, rret. intros H. case_tests.
  rewrite length_drop. lia.
Qed.

(** Decoding a list element by element inverts encoding it the same way. *)
Lemma rrepeat_concat {A} (enc : A -> bytes) (m : reader A) (l : list A) k :
  Forall (fun a => forall k', m (enc a ++ k') = (Ok a, k')) l ->
  rrepeat (length l) m (concat (enc <$> l) ++ k) = (Ok l, k).
Proof.
  induction 1 as [|a l Ha Hl IH]; [done|].
  rewrite fmap_cons. cbn [concat length rrepeat].
  unfold rbind, rret in *. by rewrite <- app_assoc, Ha, IH.
Qed.

(** ** A codec for countable types

    For the instances of the codec interfaces that witnesses use: the bits of
    the countable encoding, one per byte. *)

Fixpoint pos_bytes (p : positive) : bytes :=
  match p with
  | xH => []
  | xO p' => Byte.x00 :: pos_bytes p'
  | xI p' => Byte.x01 :: pos_bytes p'
  end.

Fixpoint bytes_pos (b : bytes) : positive :=
  match b with
  | [] => xH
  | x :: b' => if decide (x = Byte.x00) then xO (bytes_pos b') else xI (bytes_pos b')
  end.

Lemma bytes_pos_bytes p : bytes_pos (pos_bytes p) = p.
Proof. induction p as [p IH|p IH|]; simpl; by rewrite ?IH. Qed.

Definition count_encode `{Countable A} (a : A) : bytes := pos_bytes (encode a).
Definition count_decode `{Countable A} (b : bytes) : option A := decode (bytes_pos b).

Lemma count_decode_encode `{Countable A} (a : A) : count_decode (count_encode a) = Some a.
Proof. unfold count_decode, count_encode. by rewrite bytes_pos_bytes, decode_encode. Qed.

(** ** Text *)

(** [hex.EncodeToString] *)
Definition hex_digit (z : Z) : byte := byte_of (if (z <? 10)%Z then 48 + z else 87 + z).

Definition hex_encode (b : bytes) : bytes :=
  concat ((fun x => [hex_digit (u8 x / 16); hex_digit (u8 x mod 16)]) <$> b).
