(* ===== verification/Decimal.v ===== *)
(** * Numbers in decimal

    What [fmt] and [strconv] do with the verb [%d] and with [Atoi]. *)

From S2P Require Import Prelude Bytes.
Local Open Scope Z_scope.

(** The digits of a positive number in front of [acc]: one round per digit,
    an int64 has at most 19. *)
Fixpoint digits (fuel : nat) (n : Z) (acc : bytes) : bytes :=
  match fuel with
  | O => acc
  | S fuel => if 0 <? n then digits fuel (n / 10) (byte_of (48 + n mod 10) :: acc) else acc
  end.

(** [%d] of a number in the range of an int64 or uint64 that is not negative;
    the others get a sign. *)
Definition dec (n : Z) : bytes :=
  if n =? 0 then str "0" else if n <? 0 then byte_of 45 :: digits 20 (- n) [] else digits 20 n [].

(** [strconv.Atoi]: an optional sign and digits, in the range of an int. *)
Fixpoint atoi_digits (n : Z) (s : bytes) : option Z :=
  match s with
  | [] => Some n
  | c :: s => if (48 <=? u8 c) && (u8 c <=? 57) then atoi_digits (10 * n + (u8 c - 48)) s else None
  end.

Definition Atoi (s : bytes) : option Z :=
  let '(neg, ds) :=
    match s with
    | c :: rest => if decide (u8 c = 45) then (true, rest) else if decide (u8 c = 43) then (false, rest) else (false, s)
    | [] => (false, [])
    end in
  match ds with
  | [] => None
  | _ =>
      match atoi_digits 0 ds with
      | Some n => let n := if neg then - n else n in
                  if (int64_min <=? n) && (n <=? int64_max) then Some n else None
      | None => None
      end
  end.

Lemma atoi_digits_app s1 s2 n m :
  atoi_digits n s1 = Some m -> atoi_digits n (s1 ++ s2) = atoi_digits m s2.
Proof.
  revert n. induction s1 as [|c s1 IH]; intros n; simpl; [by intros [= ->]|].
  case_match; [apply IH|done].
Qed.

Lemma u8_digit d : 0 <= d < 10 -> u8 (byte_of (48 + d)) = 48 + d.
Proof. intros Hd. rewrite u8_byte_of, Z.mod_small by lia. done. Qed.

Lemma digits_spec fuel n acc :
  0 <= n < 10 ^ Z.of_nat fuel ->
  exists ds, digits fuel n acc = ds ++ acc /\ atoi_digits 0 ds = Some n /\
    Forall (fun c => 48 <= u8 c <= 57) ds /\ (0 < n -> ds <> []).
Proof.
  revert n acc. induction fuel as [|fuel IH]; intros n acc Hn.
  - exists []. simpl in *. assert (n = 0) as -> by lia. split_and!; (done || lia).
  - cbn [digits]. destruct (Z.ltb_spec 0 n) as [Hp|Hp].
    + destruct (IH (n / 10) (byte_of (48 + n mod 10) :: acc)) as (ds & Hds & Ha & Hf & _).
      { rewrite Nat2Z.inj_succ, Z.pow_succ_r in Hn by lia. split; [apply Z.div_pos; lia|].
        apply Z.div_lt_upper_bound; lia. }
      pose proof (Z.mod_pos_bound n 10 ltac:(lia)) as Hm.
      exists (ds ++ [byte_of (48 + n mod 10)]). rewrite Hds, <- app_assoc. split_and!; [done| | |].
      * rewrite (atoi_digits_app _ _ _ _ Ha). cbn [atoi_digits]. rewrite u8_digit by lia.
        rewrite (proj2 (Z.leb_le _ _)), (proj2 (Z.leb_le _ _)) by lia. simpl. f_equal.
        pose proof (Z.div_mod n 10). lia.
      * rewrite Forall_app. split; [done|]. constructor; [|done]. rewrite u8_digit; lia.
      * by destruct ds.
    + exists []. assert (n = 0) as -> by lia. split_and!; (done || lia).
Qed.

Lemma dec_digits n :
  0 <= n < 10 ^ 20 ->
  atoi_digits 0 (dec n) = Some n /\ Forall (fun c => 48 <= u8 c <= 57) (dec n) /\ dec n <> [].
Proof.
  intros Hn. unfold dec. destruct (Z.eqb_spec n 0) as [->|Hz].
  { split_and!; [done| |done]. repeat constructor; vm_compute; discriminate. }
  rewrite (proj2 (Z.ltb_ge _ _)) by lia.
  destruct (digits_spec 20 n []) as (ds & -> & Ha & Hf & Hne); [done|].
  rewrite app_nil_r. split_and!; [done..|]. apply Hne. lia.
Qed.
