(* ===== verification/Hash.v ===== *)
(** * SHA3-256

    The components hash with SHA3-256 ([crypto/sha3] of the standard library,
    or [golang.org/x/crypto/sha3]).  [Hash256] is the interface their theorems
    are proved against: a function to 32 bytes, nothing more.  [sha3_256] is
    the function itself (FIPS 202: Keccak-f[1600], rate 136, domain byte 6), an
    instance of the interface, so that witnesses can evaluate the models.
    Collision freedom is never part of the interface: the theorems that need
    it say on which inputs. *)

From S2P Require Import Prelude Bytes.

Class Hash256 := {
  sha3 : bytes -> bytes;
  sha3_length : forall b, length (sha3 b) = 32;
}.

(** [crypto.SHA3Hash]: the digest as a [[32]byte]. *)
Definition SHA3Hash `{Hash256} (data : bytes) : bytes := sha3 data.

Module Keccak.
Local Open Scope Z_scope.

Definition mask64 : Z := Z.ones 64.

Definition rotl (x : Z) (n : Z) : Z :=
  Z.lor (Z.land (Z.shiftl x n) mask64) (Z.shiftr x (64 - n)).

Definition lane (st : list Z) (i : nat) : Z := nth i st 0.

Definition rho_offsets : list Z :=
  [0; 1; 62; 28; 27; 36; 44; 6; 55; 20; 3; 10; 43; 25; 39;
   41; 45; 15; 21; 8; 18; 2; 61; 56; 14].

Definition round_constants : list Z :=
  [0x0000000000000001; 0x0000000000008082; 0x800000000000808A; 0x8000000080008000;
   0x000000000000808B; 0x0000000080000001; 0x8000000080008081; 0x8000000000008009;
   0x000000000000008A; 0x0000000000000088; 0x0000000080008009; 0x000000008000000A;
   0x000000008000808B; 0x800000000000008B; 0x8000000000008089; 0x8000000000008003;
   0x8000000000008002; 0x8000000000000080; 0x000000000000800A; 0x800000008000000A;
   0x8000000080008081; 0x8000000000008080; 0x0000000080000001; 0x8000000080008008].

Definition theta (a : list Z) : list Z :=
  let c := (fun x => Z.lxor (lane a x) (Z.lxor (lane a (x + 5)) (Z.lxor (lane a (x + 10))
             (Z.lxor (lane a (x + 15)) (lane a (x + 20))))))%nat <$> seq 0 5 in
  let d := (fun x => Z.lxor (lane c ((x + 4) mod 5)) (rotl (lane c ((x + 1) mod 5)) 1))%nat
             <$> seq 0 5 in
  (fun i => Z.lxor (lane a i) (lane d (i mod 5)))%nat <$> seq 0 25.

(** Lane [(x, y)] of the result comes from lane [(x + 3y, x)]. *)
Definition rho_pi (a : list Z) : list Z :=
  (fun i => let x := (i mod 5)%nat in let y := (i / 5)%nat in
            let src := (((x + 3 * y) mod 5) + 5 * x)%nat in
            rotl (lane a src) (nth src rho_offsets 0)) <$> seq 0 25.

Definition chi (b : list Z) : list Z :=
  (fun i => let x := (i mod 5)%nat in let y := (5 * (i / 5))%nat in
            Z.lxor (lane b i)
              (Z.land (Z.lxor (lane b ((x + 1) mod 5 + y)) mask64)
                      (lane b ((x + 2) mod 5 + y)%nat))) <$> seq 0 25.

Definition iota (rc : Z) (a : list Z) : list Z :=
  match a with [] => [] | h :: t => Z.lxor h rc :: t end.

Definition round (a : list Z) (rc : Z) : list Z := iota rc (chi (rho_pi (theta a))).

Definition keccak_f (a : list Z) : list Z := foldl round a round_constants.

Definition rate : nat := 136.

(** The little-endian lanes of a block. *)
Fixpoint lanes (n : nat) (b : bytes) : list Z :=
  match n with
  | O => []
  | S n' => be_get (rev (take 8 b)) :: lanes n' (drop 8 b)
  end.

Definition absorb_block (st : list Z) (blk : bytes) : list Z :=
  keccak_f ((fun i => Z.lxor (lane st i) (lane (lanes 17 blk) i)) <$> seq 0 25).

Fixpoint absorb (n : nat) (st : list Z) (b : bytes) : list Z :=
  match n with
  | O => st
  | S n' => absorb n' (absorb_block st (take rate b)) (drop rate b)
  end.

(** Domain separation and padding to a multiple of the rate. *)
Definition pad (b : bytes) : bytes :=
  let room := (rate - length b mod rate)%nat in
  match room with
  | S O => b ++ [byte_of 0x86]
  | _ => b ++ byte_of 0x06 :: zeroes (room - 2) ++ [byte_of 0x80]
  end.

Definition sha3_256 (b : bytes) : bytes :=
  let p := pad b in
  let st := absorb (length p / rate)%nat (replicate 25 0) p in
  le_put 8 (lane st 0) ++ le_put 8 (lane st 1) ++ le_put 8 (lane st 2) ++ le_put 8 (lane st 3).

Lemma sha3_256_length b : length (sha3_256 b) = 32%nat.
Proof. unfold sha3_256. cbv zeta. by rewrite !length_app, !length_le_put. Qed.

(** The test vectors of FIPS 202 for the empty message and for "abc". *)
Example sha3_256_empty :
  be_get (sha3_256 []) = 0xa7ffc6f8bf1ed76651c14756a061d662f580ff4de43b49fa82d80a4b80f8434a.
Proof. vm_compute. reflexivity. Qed.

Example sha3_256_abc :
  be_get (sha3_256 (str "abc")) = 0x3a985da74fe225b2045c172d6bd390bd855f086e3e9d525b46bfe24511431532.
Proof. vm_compute. reflexivity. Qed.

End Keccak.

Definition sha3_256_hash : Hash256 :=
  {| sha3 := Keccak.sha3_256; sha3_length := Keccak.sha3_256_length |}.

Lemma SHA3Hash_length `{Hash256} b : length (SHA3Hash b) = 32.
Proof. apply sha3_length. Qed.

#[export] Hint Rewrite @SHA3Hash_length @sha3_length : localweb.
