(* ===== verification/Ed25519.v ===== *)
(** * Ed25519 signatures

    [crypto.Sign] and [crypto.Verify] of pkg/crypto wrap the Ed25519 of the
    standard library.  The interface the components are proved against: a
    signature has 64 bytes, and a signature made with a private key verifies
    under the public key that belongs to it.  Unforgeability is not assumed. *)

From S2P Require Import Prelude Bytes.

Class Ed25519 := {
  ed_public : bytes -> bytes;
  ed_sign : bytes -> bytes -> bytes;
  ed_verify : bytes -> bytes -> bytes -> bool;
  ed_sign_length : forall priv msg, length (ed_sign priv msg) = 64;
  ed_verify_sign : forall priv msg, ed_verify (ed_public priv) msg (ed_sign priv msg) = true;
}.

(** A signature scheme that satisfies the laws (and is not secure). *)
Definition toy_ed25519 : Ed25519.
Proof.
  refine {| ed_public := fun k => k;
            ed_sign := fun k m => take 64 (k ++ m ++ zeroes 64);
            ed_verify := fun k m s => bool_decide (s = take 64 (k ++ m ++ zeroes 64)) |}.
  - intros k m. rewrite length_take, !length_app, length_zeroes. lia.
  - intros k m. by apply bool_decide_eq_true_2.
Defined.
