(* ===== verification/Crdt.v ===== *)
(** * The interface of a state-based CRDT

    A replica state with a merge is convergent when merge is a semilattice
    join.  [Convergent] states the three laws; the strong-convergence theorem
    is proved once against it: what a replica ends up with depends on the set
    of states it merged, not on the order or the number of deliveries. *)

From S2P Require Import Prelude.

Class Convergent (S : Type) (merge : S -> S -> S) := {
  merge_comm : forall a b, merge a b = merge b a;
  merge_assoc : forall a b c, merge a (merge b c) = merge (merge a b) c;
  merge_idem : forall a, merge a a = a;
}.

(** The order in which a state is below another: it adds nothing to it. *)
Definition merge_le {S} (merge : S -> S -> S) (a b : S) : Prop := merge a b = b.

Section convergence.
Context {S : Type} {merge : S -> S -> S} `{!Convergent S merge}.
Local Abbreviation mcomm := (merge_comm (merge := merge)).
Local Abbreviation massoc := (merge_assoc (merge := merge)).
Local Abbreviation midem := (merge_idem (merge := merge)).

#[global] Instance merge_le_partial_order : PartialOrder (merge_le merge).
Proof.
  unfold merge_le. split; [split|].
  - intros a. apply midem.
  - intros a b c Hab Hbc. by rewrite <- Hbc, massoc, Hab.
  - intros a b Hab Hba. by rewrite <- Hab, mcomm, Hba.
Qed.

Lemma merge_le_l a b : merge_le merge a (merge a b).
Proof. unfold merge_le. by rewrite massoc, midem. Qed.

Lemma merge_swap a b c : merge (merge a b) c = merge (merge a c) b.
Proof. by rewrite <- !massoc, (mcomm b c). Qed.

Lemma foldl_merge_absorb x l s : x ∈ l -> foldl merge (merge s x) l = foldl merge s l.
Proof.
  revert s. induction l as [|y l IH]; intros s; [by intros ?%not_elem_of_nil|].
  intros [->|Hx]%elem_of_cons; simpl.
  - by rewrite <- massoc, midem.
  - rewrite merge_swap. by apply IH.
Qed.

Lemma foldl_merge_start l s x : foldl merge (merge s x) l = merge (foldl merge s l) x.
Proof.
  revert s. induction l as [|y l IH]; intros s; simpl; [done|].
  by rewrite merge_swap, IH.
Qed.

Lemma foldl_merge_incl l k s :
  (forall x, x ∈ l -> x ∈ k) -> foldl merge (foldl merge s l) k = foldl merge s k.
Proof.
  revert s. induction l as [|y l IH]; intros s Hl; simpl; [done|].
  rewrite foldl_merge_start, foldl_merge_absorb by (apply Hl; left).
  apply IH. intros x Hx. apply Hl. by right.
Qed.

Lemma foldl_merge_comm l k s :
  foldl merge (foldl merge s l) k = foldl merge (foldl merge s k) l.
Proof.
  revert s. induction l as [|y l IH]; intros s; simpl; [done|].
  by rewrite IH, foldl_merge_start.
Qed.

(** Strong eventual consistency. *)
Lemma deliveries_converge s l k :
  (forall x, x ∈ l <-> x ∈ k) -> foldl merge s l = foldl merge s k.
Proof.
  intros H. rewrite <- (foldl_merge_incl l k s) by (intros; by apply H).
  rewrite foldl_merge_comm. symmetry. apply foldl_merge_incl. intros; by apply H.
Qed.

End convergence.
