(* ===== verification/OrSet.v ===== *)
(** * The observed-remove set of pkg/crdt

    [ORSet] is [struct ORSet]: the tags of each added element and the set of
    removed tags.  The maps to [bool] only ever hold [true], so they are sets
    here.  The mutexes are left out: every method holds the lock of its
    receiver for its whole body, so calls are the steps.  Go iterates over a
    map in an unspecified order; the loops below run over a list of the
    entries, and the lemmas show that the order does not matter. *)

From S2P Require Import Prelude Bytes Hash Crdt.

Record ORSet := mkORSet {
  adds : gmap bytes (gset bytes);
  removes : gset bytes;
}.

Definition NewORSet : ORSet := mkORSet ∅ ∅.

(** [uniqueTag]: [now] is [time.Now().UnixNano()], [tagCounter] the global
    counter before the call; the result carries the counter after it. *)
Definition uniqueTag `{Hash256} (now tagCounter : Z) : bytes * Z :=
  let c := wrapU 32 (tagCounter + 1) in
  (sha3 (le_put 8 now ++ le_put 4 c), c).

(** The part of [Add] after the tag is drawn. *)
Definition addTag (elem tag : bytes) (s : ORSet) : ORSet :=
  let m := match adds s !! elem with
           | Some _ => adds s
           | None => <[elem := ∅]> (adds s)
           end in
  mkORSet (alter (fun tags => {[tag]} ∪ tags) elem m) (removes s).

Definition Add `{Hash256} (now tagCounter : Z) (elem : bytes) (s : ORSet) : ORSet * Z :=
  let '(tag, c) := uniqueTag now tagCounter in (addTag elem tag s, c).

Definition Remove (elem : bytes) (s : ORSet) : ORSet :=
  match adds s !! elem with
  | Some tags =>
      mkORSet (adds s) (foldl (fun acc tag => {[tag]} ∪ acc) (removes s) (elements tags))
  | None => s
  end.

(** The loop shared by [Contains] and [Items]: is some tag not removed? *)
Definition live_tag (s : ORSet) (tags : gset bytes) : bool :=
  existsb (fun tag => negb (bool_decide (tag ∈ removes s))) (elements tags).

Definition Contains (elem : bytes) (s : ORSet) : bool :=
  match adds s !! elem with
  | None => false
  | Some tags => live_tag s tags
  end.

(** [Items]: the elements with a live tag, in the order of [sort.Strings]. *)
Definition Items (s : ORSet) : list bytes :=
  merge_sort bytes_le
    (omap (fun '(elem, tags) => if live_tag s tags then Some elem else None)
          (map_to_list (adds s))).

(** One round of the loop of [Merge] over [other.adds]. *)
Definition merge_entry (m : gmap bytes (gset bytes)) (e : bytes * gset bytes)
    : gmap bytes (gset bytes) :=
  let '(elem, tags) := e in
  let m := match m !! elem with Some _ => m | None => <[elem := ∅]> m end in
  foldl (fun m tag => alter (fun ts => {[tag]} ∪ ts) elem m) m (elements tags).

Definition Merge (s other : ORSet) : ORSet :=
  mkORSet (foldl merge_entry (adds s) (map_to_list (adds other)))
          (foldl (fun acc tag => {[tag]} ∪ acc) (removes s) (elements (removes other))).

(** * Lemmas *)

(** The tags recorded for an element, and the set a replica denotes. *)
Definition tags_of (s : ORSet) (elem : bytes) : gset bytes := default ∅ (adds s !! elem).

Definition member (s : ORSet) (elem : bytes) : Prop :=
  exists tag, tag ∈ tags_of s elem /\ tag ∉ removes s.

Lemma foldl_insert_set (l : list bytes) (acc : gset bytes) :
  foldl (fun acc tag => {[tag]} ∪ acc) acc l = acc ∪ list_to_set l.
Proof.
  revert acc. induction l as [|x l IH]; intros acc; simpl; [set_solver|].
  rewrite IH. set_solver.
Qed.

Lemma foldl_insert_elements (T acc : gset bytes) :
  foldl (fun acc tag => {[tag]} ∪ acc) acc (elements T) = acc ∪ T.
Proof. by rewrite foldl_insert_set, list_to_set_elements_L. Qed.

Lemma live_tag_spec s tags :
  live_tag s tags = true <-> exists tag, tag ∈ tags /\ tag ∉ removes s.
Proof.
  unfold live_tag. rewrite existsb_exists. split.
  - intros (t & Ht & Hn). exists t. rewrite <- list_elem_of_In in Ht.
    apply elem_of_elements in Ht. split; [done|].
    by apply negb_true_iff, bool_decide_eq_false in Hn.
  - intros (t & Ht & Hn). exists t. rewrite <- list_elem_of_In, elem_of_elements.
    split; [done|]. by apply negb_true_iff, bool_decide_eq_false.
Qed.

Lemma Contains_member elem s : Contains elem s = true <-> member s elem.
Proof.
  unfold Contains, member, tags_of. destruct (adds s !! elem) as [T|]; simpl.
  - apply live_tag_spec.
  - split; [done|]. intros (t & Ht & _). set_solver.
Qed.

Lemma tags_of_addTag e e' tag s :
  tags_of (addTag e tag s) e' = if decide (e = e') then {[tag]} ∪ tags_of s e' else tags_of s e'.
Proof.
  unfold tags_of, addTag. simpl.
  destruct (adds s !! e) as [T|] eqn:He; rewrite lookup_alter; case_decide; subst;
    rewrite ?He, ?lookup_insert_eq, ?lookup_insert_ne by done; simpl; set_solver.
Qed.

Lemma tags_of_Remove e e' s : tags_of (Remove e s) e' = tags_of s e'.
Proof. unfold tags_of, Remove. by destruct (adds s !! e). Qed.

Lemma removes_Remove e s : removes (Remove e s) = removes s ∪ tags_of s e.
Proof.
  unfold tags_of, Remove. destruct (adds s !! e); simpl; [|set_solver].
  apply foldl_insert_elements.
Qed.

Lemma foldl_alter_tags elem l m T :
  m !! elem = Some T ->
  foldl (fun m tag => alter (fun ts => {[tag]} ∪ ts) elem m) m l
  = <[elem := T ∪ list_to_set l]> (m : gmap bytes (gset bytes)).
Proof.
  revert m T. induction l as [|x l IH]; intros m T Hm; simpl.
  - rewrite (right_id_L ∅ (∪)). by rewrite insert_id.
  - rewrite (IH _ ({[x]} ∪ T)) by (by rewrite lookup_alter_eq, Hm).
    apply map_eq. intros k. rewrite !lookup_insert, lookup_alter.
    case_decide; [f_equal; set_solver|done].
Qed.

Lemma merge_entry_insert m e T :
  merge_entry m (e, T) = <[e := default ∅ (m !! e) ∪ T]> m.
Proof.
  unfold merge_entry. destruct (m !! e) as [U|] eqn:He; simpl.
  - by rewrite (foldl_alter_tags _ _ _ U), list_to_set_elements_L.
  - rewrite (foldl_alter_tags _ _ _ ∅) by apply lookup_insert_eq.
    by rewrite list_to_set_elements_L, insert_insert_eq.
Qed.

(** The loop over the entries of the other replica, in any order. *)
Lemma foldl_merge_entry (l : list (bytes * gset bytes)) (m : gmap bytes (gset bytes)) :
  NoDup l.*1 ->
  foldl merge_entry m l = union_with (fun a b => Some (a ∪ b)) m (list_to_map l).
Proof.
  revert m. induction l as [|[e T] l IH]; intros m Hnd; simpl.
  - apply map_eq. intros k. rewrite lookup_union_with, lookup_empty. by destruct (m !! k).
  - apply NoDup_cons in Hnd as [Hnotin Hnd]. fold (merge_entry m (e, T)).
    rewrite IH, merge_entry_insert by done. apply map_eq. intros k.
    rewrite !lookup_union_with, !lookup_insert. case_decide as Hk; [subst k|done].
    rewrite (not_elem_of_list_to_map_1 l e) by done.
    destruct (m !! e); simpl; f_equal; set_solver.
Qed.

Lemma foldl_merge_entry_map (l : list (bytes * gset bytes)) (m o : gmap bytes (gset bytes)) :
  l ≡ₚ map_to_list o ->
  foldl merge_entry m l = union_with (fun a b => Some (a ∪ b)) m o.
Proof.
  intros Hl. assert (NoDup l.*1) as Hnd by (rewrite Hl; apply NoDup_fst_map_to_list).
  rewrite foldl_merge_entry by done. f_equal.
  by rewrite (list_to_map_proper l (map_to_list o)), list_to_map_to_list.
Qed.

Lemma Merge_eq s o :
  Merge s o = mkORSet (union_with (fun a b => Some (a ∪ b)) (adds s) (adds o))
                      (removes s ∪ removes o).
Proof. unfold Merge. by rewrite (foldl_merge_entry_map _ _ (adds o)), foldl_insert_elements. Qed.

Lemma tags_of_Merge s o e : tags_of (Merge s o) e = tags_of s e ∪ tags_of o e.
Proof.
  rewrite Merge_eq. unfold tags_of. simpl. rewrite lookup_union_with.
  destruct (adds s !! e), (adds o !! e); simpl; set_solver.
Qed.

Lemma removes_Merge s o : removes (Merge s o) = removes s ∪ removes o.
Proof. by rewrite Merge_eq. Qed.

#[export] Hint Rewrite tags_of_addTag tags_of_Remove tags_of_Merge removes_Remove
  removes_Merge : localweb.

Lemma ORSet_eq s o :
  (forall e, adds s !! e = adds o !! e) -> removes s = removes o -> s = o.
Proof. destruct s, o; simpl. intros ?%map_eq ?. by subst. Qed.

#[global] Instance ORSet_convergent : Convergent ORSet Merge.
Proof.
  split.
  - intros a b. rewrite !Merge_eq. apply ORSet_eq; simpl; [|set_solver].
    intros e. rewrite !lookup_union_with.
    destruct (adds a !! e), (adds b !! e); simpl; f_equal; set_solver.
  - intros a b c. rewrite !Merge_eq. apply ORSet_eq; simpl; [|set_solver].
    intros e. rewrite !lookup_union_with.
    destruct (adds a !! e), (adds b !! e), (adds c !! e); simpl; f_equal; set_solver.
  - intros a. rewrite !Merge_eq. apply ORSet_eq; simpl; [|set_solver].
    intros e. rewrite !lookup_union_with.
    destruct (adds a !! e); simpl; f_equal; set_solver.
Qed.

(** ** Items *)

Lemma elem_of_Items_pre s e :
  e ∈ omap (fun '(elem, tags) => if live_tag s tags then Some elem else None)
        (map_to_list (adds s)) <-> member s e.
Proof.
  rewrite list_elem_of_omap. unfold member, tags_of. split.
  - intros ([e' T] & HT%elem_of_map_to_list & He). case_match; [|done]. simplify_eq.
    rewrite HT. by apply live_tag_spec.
  - intros (t & Ht & Hn). destruct (adds s !! e) as [T|] eqn:HT; simpl in *; [|set_solver].
    exists (e, T). rewrite elem_of_map_to_list. split; [done|].
    by rewrite (proj2 (live_tag_spec s T)) by eauto.
Qed.

Lemma NoDup_Items_pre s :
  NoDup (omap (fun '(elem, tags) => if live_tag s tags then Some elem else None)
           (map_to_list (adds s))).
Proof.
  pose proof (NoDup_fst_map_to_list (adds s)) as Hnd.
  induction (map_to_list (adds s)) as [|[e T] l IH]; simpl; [constructor|].
  apply NoDup_cons in Hnd as [Hnotin Hnd].
  destruct (live_tag s T); [|by apply IH]. constructor; [|by apply IH].
  rewrite list_elem_of_omap. intros ([e' T'] & Hin & He). case_match; simplify_eq.
  apply Hnotin. apply list_elem_of_fmap. by exists (e, T').
Qed.

(** * Properties *)

(** The behaviour of the operations in one statement: what each of them makes
    of the set a replica denotes. *)
Lemma member_addTag e e' tag s :
  tag ∉ removes s -> (member (addTag e tag s) e' <-> e' = e \/ member s e').
Proof.
  intros Hf. unfold member. setoid_rewrite tags_of_addTag. simpl.
  case_decide; subst; set_solver.
Qed.

Lemma member_Remove e e' s :
  (forall e1 e2, e1 <> e2 -> tags_of s e1 ## tags_of s e2) ->
  (member (Remove e s) e' <-> member s e' /\ e' <> e).
Proof.
  intros Hd. unfold member. setoid_rewrite tags_of_Remove.
  setoid_rewrite removes_Remove. destruct (decide (e' = e)) as [->|Hne].
  - set_solver.
  - specialize (Hd _ _ Hne). set_solver.
Qed.

Lemma member_Merge s o e :
  member (Merge s o) e
  <-> exists tag, (tag ∈ tags_of s e \/ tag ∈ tags_of o e)
                  /\ tag ∉ removes s /\ tag ∉ removes o.
Proof.
  unfold member. setoid_rewrite tags_of_Merge. setoid_rewrite removes_Merge. set_solver.
Qed.


Definition orset_a : ORSet := addTag (str "x") (str "t1") NewORSet.
Definition orset_b : ORSet := Remove (str "x") (addTag (str "y") (str "t2") orset_a).


(** [Items] lists exactly the elements [Contains] accepts, each once and in
    increasing byte order. *)
Theorem items_sorted_complete (s : ORSet) :
  Sorted bytes_le (Items s) /\ NoDup (Items s)
  /\ forall e, e ∈ Items s <-> Contains e s = true.
Proof.
  unfold Items. split; [|split].
  - apply Sorted_merge_sort, _.
  - rewrite merge_sort_Permutation. apply NoDup_Items_pre.
  - intros e. rewrite merge_sort_Permutation, elem_of_Items_pre. by rewrite Contains_member.
Qed.

(** add wins over a concurrent remove: if one replica removes [e] while
    another adds it with a tag neither has tombstoned, [e] is in the merge, in
    whichever direction it runs; a remove that has observed every tag of the
    other replica takes [e] out of the merge. *)
Theorem orset_add_wins (s o : ORSet) (e tag : bytes) :
  tag ∉ removes s -> tag ∉ removes o -> tag ∉ tags_of s e ->
  Contains e (Merge (Remove e s) (addTag e tag o)) = true
  /\ Contains e (Merge (addTag e tag o) (Remove e s)) = true
  /\ (tags_of o e ⊆ tags_of s e -> Contains e (Merge (Remove e s) o) = false).
Proof.
  intros Hs Ho Hf. rewrite !Contains_member. split; [|split].
  - apply member_Merge. exists tag. autorewrite with localweb.
    rewrite decide_True by done. simpl. set_solver.
  - apply member_Merge. exists tag. autorewrite with localweb.
    rewrite decide_True by done. simpl. set_solver.
  - intros Hsub. apply not_true_iff_false. rewrite Contains_member.
    rewrite member_Merge. autorewrite with localweb. set_solver.
Qed.

Lemma orset_add_wins_witness :
  Contains (str "x") (Merge (Remove (str "x") orset_a) (addTag (str "x") (str "t9") orset_a)) = true.
Proof.
  apply (orset_add_wins orset_a orset_a (str "x") (str "t9"));
    apply (bool_decide_unpack _); vm_compute; exact I.
Defined.

(** The single-replica contract: with a tag that is not tombstoned, [Add]
    makes the element present and changes no other; [Remove] (tags being
    disjoint between elements) takes out exactly its element, and nothing but
    a later [Add] brings it back: [Merge] with the state before the removal
    does not. *)
Theorem orset_sequential_spec (s : ORSet) (e e' tag : bytes) :
  tag ∉ removes s ->
  (forall e1 e2, e1 <> e2 -> tags_of s e1 ## tags_of s e2) ->
  (Contains e' (addTag e tag s) = true <-> e' = e \/ Contains e' s = true)
  /\ (Contains e' (Remove e s) = true <-> Contains e' s = true /\ e' <> e)
  /\ Merge (Remove e s) s = Remove e s.
Proof.
  intros Hf Hd. rewrite !Contains_member. split; [|split].
  - by apply member_addTag.
  - by apply member_Remove.
  - rewrite Merge_eq. apply ORSet_eq; simpl.
    + intros k. rewrite lookup_union_with. unfold Remove.
      destruct (adds s !! e); simpl; destruct (adds s !! k); simpl; f_equal; set_solver.
    + rewrite removes_Remove. set_solver.
Qed.

Lemma orset_sequential_spec_witness :
  Contains (str "x") (addTag (str "x") (str "t9") orset_a) = true.
Proof.
  refine (proj2 (proj1 (orset_sequential_spec orset_a (str "x") (str "x") (str "t9") _ _)) _).
  - apply (bool_decide_unpack _). vm_compute. exact I.
  - intros e1 e2 Hne. unfold orset_a. rewrite !tags_of_addTag.
    unfold tags_of. simpl. rewrite !lookup_empty. simpl.
    repeat case_decide; set_solver.
  - by left.
Defined.
