(* ===== verification/OrSetCodec.v ===== *)
(** * Serialisation of an ORSet

    [encodeEntries] and [decodeEntries] of pkg/crdt with [Marshal] and
    [Unmarshal].  [Marshal] ranges over Go maps, so it may emit the entries,
    the tags of an entry and the removed tags in any order: the theorems are
    about [encodeEntries] on every enumeration of the state. *)

From S2P Require Import Prelude Bytes Hash Crdt OrSet.
Local Open Scope go_scope.

(** A uint16 length followed by the bytes. *)
Definition put_string16 (b : bytes) : bytes := be_put 2 (len b) ++ b.

Definition encode_entry (e : bytes * list bytes) : bytes :=
  let '(elem, tags) := e in
  put_string16 elem ++ be_put 2 (Z.of_nat (length tags)) ++ concat (put_string16 <$> tags).

Definition encodeEntries (entries : list (bytes * list bytes)) (removes : list bytes) : bytes :=
  be_put 4 (Z.of_nat (length entries)) ++ concat (encode_entry <$> entries)
  ++ be_put 4 (Z.of_nat (length removes)) ++ concat (put_string16 <$> removes).

(** [binary.Read] of a uint16, then [buf.Read] of that many bytes. *)
Definition get_string16 : reader bytes :=
  let! n := readUint 2 in bufRead (Z.to_nat n).

Definition decode_entry : reader (bytes * list bytes) :=
  let! elem := get_string16 in
  let! tCount := readUint 2 in
  let! tags := rrepeat (Z.to_nat tCount) get_string16 in
  rret (elem, tags).

Definition decodeEntries (data : bytes) : result (list (bytes * list bytes) * gset bytes) :=
  fst ((let! elemCount := readUint 4 in
        let! entries := rrepeat (Z.to_nat elemCount) decode_entry in
        let! rmCount := readUint 4 in
        let! removes := rrepeat (Z.to_nat rmCount) get_string16 in
        rret (entries, list_to_set removes)) data).

Definition entries_of (s : ORSet) : list (bytes * list bytes) :=
  (fun '(elem, tags) => (elem, elements tags)) <$> map_to_list (adds s).

Definition Marshal (s : ORSet) : bytes := encodeEntries (entries_of s) (elements (removes s)).

(** The loop of [Unmarshal]: a repeated element starts over. *)
Definition load_entries (entries : list (bytes * list bytes)) : gmap bytes (gset bytes) :=
  foldl (fun m '(elem, tags) => <[elem := list_to_set tags]> m) ∅ entries.

(** The new state and the error; the state is unchanged on error. *)
Definition Unmarshal (data : bytes) (s : ORSet) : ORSet * result unit :=
  match decodeEntries data with
  | Err e => (s, Err e)
  | Ok (entries, removes) => (mkORSet (load_entries entries) removes, Ok tt)
  end.

(** * Lemmas *)

(** What fits the 16-bit and 32-bit length fields. *)
Definition fits16 (b : bytes) : Prop := (len b < 2 ^ 16)%Z.

Definition entry_fits (e : bytes * list bytes) : Prop :=
  fits16 e.1 /\ (Z.of_nat (length e.2) < 2 ^ 16)%Z /\ Forall fits16 e.2.

Definition payload_fits (entries : list (bytes * list bytes)) (removes : list bytes) : Prop :=
  (Z.of_nat (length entries) < 2 ^ 32)%Z /\ Forall entry_fits entries
  /\ (Z.of_nat (length removes) < 2 ^ 32)%Z /\ Forall fits16 removes.

Lemma get_put_string16 b k : fits16 b -> get_string16 (put_string16 b ++ k) = (Ok b, k).
Proof.
  unfold fits16, get_string16, put_string16, rbind, len. intros H.
  rewrite <- app_assoc, readUint_be_put by (simpl; lia).
  apply bufRead_app. lia.
Qed.

Lemma get_put_strings16 l k :
  Forall fits16 l ->
  rrepeat (length l) get_string16 (concat (put_string16 <$> l) ++ k) = (Ok l, k).
Proof.
  intros H. apply rrepeat_concat. eapply Forall_impl; [exact H|].
  intros b Hb k'. by apply get_put_string16.
Qed.

Lemma decode_encode_entry e k : entry_fits e -> decode_entry (encode_entry e ++ k) = (Ok e, k).
Proof.
  destruct e as [elem tags]. intros (He & Hn & Ht). simpl in He, Hn, Ht. unfold decode_entry, encode_entry, rbind.
  rewrite <- !app_assoc, get_put_string16 by done.
  rewrite readUint_be_put by (simpl; lia). rewrite Nat2Z.id.
  by rewrite get_put_strings16.
Qed.

Lemma decode_encodeEntries entries removes :
  payload_fits entries removes ->
  decodeEntries (encodeEntries entries removes) = Ok (entries, list_to_set removes).
Proof.
  intros (He & Hes & Hr & Hrs). unfold decodeEntries, encodeEntries, rbind.
  rewrite readUint_be_put by (simpl; lia). rewrite Nat2Z.id.
  rewrite rrepeat_concat.
  2: { eapply Forall_impl; [exact Hes|]. intros e H k'. by apply decode_encode_entry. }
  rewrite readUint_be_put by (simpl; lia). rewrite Nat2Z.id.
  rewrite <- (app_nil_r (concat _)), get_put_strings16 by done. done.
Qed.

Lemma load_entries_map entries :
  NoDup entries.*1 ->
  load_entries entries = list_to_map (prod_map id list_to_set <$> entries).
Proof.
  unfold load_entries. rewrite <- (map_union_empty (list_to_map _)).
  generalize (∅ : gmap bytes (gset bytes)) as m. revert entries.
  induction entries as [|[e T] l IH]; intros m Hnd; simpl.
  - by rewrite (left_id_L ∅ (∪)).
  - apply NoDup_cons in Hnd as [Hnotin Hnd]. rewrite IH by done.
    rewrite <- insert_union_r, insert_union_l; [done|].
    apply not_elem_of_list_to_map_1. rewrite <- list_fmap_compose. done.
Qed.

(** An enumeration of a state: what [Marshal]'s loops may have collected. *)
Definition enumerates (s : ORSet) (entries : list (bytes * list bytes)) (rm : list bytes) : Prop :=
  NoDup entries.*1 /\ list_to_map (prod_map id list_to_set <$> entries) = adds s
  /\ list_to_set rm = removes s.

Lemma Marshal_enumerates s : enumerates s (entries_of s) (elements (removes s)).
Proof.
  unfold enumerates, entries_of. split; [|split].
  - rewrite <- list_fmap_compose.
    rewrite (list_fmap_ext _ fst) by (by intros ? [] ?). apply NoDup_fst_map_to_list.
  - rewrite <- list_fmap_compose.
    rewrite (list_fmap_ext _ id), list_fmap_id, list_to_map_to_list; [done|].
    intros ? [e T] ?. unfold prod_map. simpl. by rewrite list_to_set_elements_L.
  - apply list_to_set_elements_L.
Qed.

(** * Properties *)

(** a state survives serialisation: whatever order the maps are ranged over,
    decoding the payload of [Marshal] into any replica restores exactly the
    state, provided the strings and counts fit their 16- and 32-bit fields. *)
Theorem orset_marshal_roundtrip (s s0 : ORSet) entries rm :
  enumerates s entries rm -> payload_fits entries rm ->
  Unmarshal (encodeEntries entries rm) s0 = (s, Ok tt).
Proof.
  intros (Hnd & Ha & Hr) Hf. unfold Unmarshal.
  rewrite decode_encodeEntries, load_entries_map by done.
  rewrite Ha, Hr. by destruct s.
Qed.

Lemma orset_marshal_roundtrip_witness : Unmarshal (Marshal orset_b) NewORSet = (orset_b, Ok tt).
Proof.
  apply (orset_marshal_roundtrip orset_b NewORSet (entries_of orset_b) (elements (removes orset_b)));
    [apply Marshal_enumerates|].
  assert (entries_of orset_b = [(str "y", [str "t2"]); (str "x", [str "t1"])]) as ->
    by (vm_compute; reflexivity).
  assert (elements (removes orset_b) = [str "t1"]) as -> by (vm_compute; reflexivity).
  repeat split; repeat constructor.
Defined.

(** A payload cut inside its last string is not rejected: [buf.Read] fills
    what it has and reports no error, so the replica silently loads a removed
    tag that nobody ever removed (here ["t1"] becomes ["t"] and a zero byte)
    and the removal of ["t1"] is lost. *)
Theorem orset_unmarshal_truncated :
  let s := Remove (str "x") orset_a in
  let data := Marshal s in
  let r := Unmarshal (take (length data - 1) data) NewORSet in
  r.2 = Ok tt /\ removes s = {[str "t1"]} /\ removes r.1 = {[str "t" ++ zeroes 1]}
  /\ Contains (str "x") s = false /\ Contains (str "x") r.1 = true.
Proof. decide_vm. Qed.
