(* ===== verification/Lww.v ===== *)
(** * The last-writer-wins register of pkg/crdt

    [LWWRegister] with [Set], [Get], [Merge], [Marshal] and [Unmarshal].
    Timestamps are int64 nanoseconds; the clock of [Set] is an argument. *)

From S2P Require Import Prelude Bytes.

Record LWWRegister := mkLWW {
  Value : bytes;
  Timestamp : Z;
  Author : bytes;
}.

#[global] Instance LWWRegister_eq_dec : EqDecision LWWRegister.
Proof. solve_decision. Defined.

Definition NewLWWRegister (author : bytes) : LWWRegister := mkLWW [] 0 author.

Definition Set_ (now : Z) (value : bytes) (r : LWWRegister) : LWWRegister :=
  mkLWW value now (Author r).

Definition Get (r : LWWRegister) : bytes * Z * bytes := (Value r, Timestamp r, Author r).

(** The test of [Merge]: is [other] newer, ties broken by the author? *)
Definition newer (other r : LWWRegister) : bool :=
  ((Timestamp r <? Timestamp other)%Z
   || ((Timestamp other =? Timestamp r)%Z && bytes_lt (Author r) (Author other)))%bool.

Definition LWWMerge (r other : LWWRegister) : LWWRegister :=
  if newer other r then mkLWW (Value other) (Timestamp other) (Author other) else r.

Definition LWWMarshal (r : LWWRegister) : bytes :=
  be_put 8 (Timestamp r) ++ be_put 4 (len (Value r)) ++ Value r.

(** The timestamp is stored before the length of the value is checked. *)
Definition LWWUnmarshal (data : bytes) (r : LWWRegister) : LWWRegister * result unit :=
  if (len data <? 12)%Z then (r, Err (ErrText "data too short"))
  else
    let r := mkLWW (Value r) (wrapS 64 (be_get (take 8 data))) (Author r) in
    let vLen := be_get (take 4 (drop 8 data)) in
    if (len data <? 12 + vLen)%Z then (r, Err (ErrText "data too short"))
    else (mkLWW (take (Z.to_nat vLen) (drop 12 data)) (Timestamp r) (Author r), Ok tt).

(** * Lemmas *)

(** The stamp of a write, and the order [newer] tests. *)
Definition stamp_le (a b : LWWRegister) : Prop := newer a b = false.

Lemma newer_spec a b :
  newer a b = true <->
  (Timestamp b < Timestamp a)%Z
  \/ (Timestamp a = Timestamp b /\ bytes_lt (Author b) (Author a) = true).
Proof.
  unfold newer. rewrite orb_true_iff, andb_true_iff, Z.ltb_lt, Z.eqb_eq. done.
Qed.

#[global] Instance stamp_le_refl : Reflexive stamp_le.
Proof.
  intros a. unfold stamp_le. apply not_true_iff_false. rewrite newer_spec.
  intros [?|[_ H]]; [lia|]. by rewrite bytes_lt_irrefl in H.
Qed.

Lemma newer_asym a b : newer a b = true -> stamp_le b a.
Proof.
  unfold stamp_le. intros H. apply not_true_iff_false. rewrite !newer_spec in *.
  intros [?|[? Hb]]; destruct H as [?|[? Ha]]; try lia.
  apply bytes_lt_asym in Ha. congruence.
Qed.

#[global] Instance stamp_le_trans : Transitive stamp_le.
Proof.
  unfold stamp_le. intros a b c Hab Hbc. apply not_true_iff_false. intros H.
  apply not_true_iff_false in Hab, Hbc. rewrite !newer_spec in *.
  destruct H as [H|[H1 H2]].
  - apply Hbc. left. destruct (decide (Timestamp b < Timestamp a)%Z); [tauto|lia].
  - destruct (decide (Timestamp b < Timestamp a)%Z); [tauto|].
    destruct (decide (Timestamp c < Timestamp b)%Z); [tauto|].
    assert (Timestamp a = Timestamp b /\ Timestamp b = Timestamp c) as [E1 E2] by lia.
    destruct (bytes_lt (Author b) (Author a)) eqn:Eba; [tauto|].
    destruct (bytes_lt (Author c) (Author b)) eqn:Ecb; [tauto|].
    destruct (bytes_lt (Author a) (Author b)) eqn:Eab.
    + rewrite (bytes_lt_trans _ _ _ H2 Eab) in Ecb. done.
    + rewrite (bytes_lt_total _ _ Eab Eba) in H2. congruence.
Qed.

Lemma stamp_le_antisym a b :
  stamp_le a b -> stamp_le b a -> Timestamp a = Timestamp b /\ Author a = Author b.
Proof.
  unfold stamp_le. intros Hab Hba. apply not_true_iff_false in Hab, Hba.
  rewrite !newer_spec in *. assert (Timestamp a = Timestamp b) as E by lia.
  split; [done|].
  apply bytes_lt_total; apply not_true_iff_false; intros ?; [apply Hba|apply Hab]; auto.
Qed.

Lemma LWWMerge_choice a b : LWWMerge a b = a \/ LWWMerge a b = b.
Proof. unfold LWWMerge. destruct (newer b a); [right; by destruct b|by left]. Qed.

Lemma LWWMerge_upper a b : stamp_le a (LWWMerge a b) /\ stamp_le b (LWWMerge a b).
Proof.
  unfold LWWMerge. destruct (newer b a) eqn:E; [|split; done].
  destruct b; split; [by apply newer_asym|done].
Qed.

(** Merging a sequence of replicas selects a greatest stamp among them. *)
Lemma foldl_LWWMerge s l :
  foldl LWWMerge s l ∈ s :: l /\ forall x, x ∈ s :: l -> stamp_le x (foldl LWWMerge s l).
Proof.
  revert s. induction l as [|y l IH]; intros s; simpl.
  - split; [left|]. intros x [->|?%not_elem_of_nil]%elem_of_cons; done.
  - destruct (IH (LWWMerge s y)) as [Hin Hmax]. destruct (LWWMerge_upper s y) as [Hs Hy].
    split.
    + apply elem_of_cons in Hin as [Hin|Hin]; [|rewrite !elem_of_cons; auto].
      rewrite Hin. destruct (LWWMerge_choice s y) as [-> | ->]; rewrite !elem_of_cons; auto.
    + intros x. rewrite !elem_of_cons. intros [->|[->|Hx]].
      * etrans; [exact Hs|]. apply Hmax. left.
      * etrans; [exact Hy|]. apply Hmax. left.
      * apply Hmax. by right.
Qed.

(** * Properties *)

(** last writer wins: after merging any sequence of replicas, a register
    holds one of the writes it has seen, with a stamp (timestamp, then author)
    that no other write exceeds.  If a stamp identifies a write, two replicas
    that have seen the same writes in any order hold the same value. *)
Theorem lww_last_writer_wins (s : LWWRegister) (l k : list LWWRegister) :
  (forall x, x ∈ s :: l <-> x ∈ s :: k) ->
  (forall x y, x ∈ s :: l -> y ∈ s :: l ->
     Timestamp x = Timestamp y -> Author x = Author y -> Value x = Value y) ->
  foldl LWWMerge s l = foldl LWWMerge s k
  /\ foldl LWWMerge s l ∈ s :: l
  /\ forall x, x ∈ s :: l -> newer x (foldl LWWMerge s l) = false.
Proof.
  intros Hlk Hcoh. destruct (foldl_LWWMerge s l) as [Hl Hlmax].
  destruct (foldl_LWWMerge s k) as [Hk Hkmax]. split; [|done].
  pose proof (Hlmax _ (proj2 (Hlk _) Hk)) as H1.
  pose proof (Hkmax _ (proj1 (Hlk _) Hl)) as H2.
  destruct (stamp_le_antisym _ _ H2 H1) as [Ht Ha].
  pose proof (Hcoh _ _ Hl (proj2 (Hlk _) Hk) Ht Ha) as Hv.
  destruct (foldl LWWMerge s l), (foldl LWWMerge s k); simpl in *; congruence.
Qed.

Definition lww_a : LWWRegister := Set_ 5 (str "one") (NewLWWRegister (str "alice")).
Definition lww_b : LWWRegister := Set_ 7 (str "two") (NewLWWRegister (str "bob")).

Lemma lww_last_writer_wins_witness :
  foldl LWWMerge lww_a [lww_b; lww_a] = foldl LWWMerge lww_a [lww_b].
Proof.
  apply lww_last_writer_wins.
  - intros x. rewrite !elem_of_cons. naive_solver.
  - intros x y. rewrite !elem_of_cons, !elem_of_nil. intros [->|[->|[->|[]]]] [->|[->|[->|[]]]];
      vm_compute; congruence.
Defined.

(** A register survives serialisation except for its author, which is not in
    the payload: the receiving register keeps its own. *)
Theorem lww_marshal_roundtrip (r r0 : LWWRegister) :
  (int64_min <= Timestamp r <= int64_max)%Z -> (len (Value r) < 2 ^ 32)%Z ->
  LWWUnmarshal (LWWMarshal r) r0 = (mkLWW (Value r) (Timestamp r) (Author r0), Ok tt).
Proof.
  unfold int64_min, int64_max. intros Ht Hv. unfold LWWUnmarshal, LWWMarshal.
  rewrite take_app_exact, drop_app_exact by apply length_be_put.
  rewrite take_app_exact by apply length_be_put.
  replace 12 with (8 + 4) by done. rewrite <- drop_drop.
  rewrite !drop_app_exact by apply length_be_put.
  cbv zeta. rewrite (be_get_put 8), (be_get_put_small 4) by (unfold len in *; simpl; lia).
  change (Timestamp r mod 2 ^ (Z.of_nat 8 * 8))%Z with (wrapU 64 (Timestamp r)).
  rewrite wrapS_wrapU, wrapS_small by lia.
  unfold len in *. rewrite !length_app, !length_be_put.
  destruct (Z.ltb_spec (Z.of_nat (8 + (4 + length (Value r)))) 12); [lia|].
  destruct (Z.ltb_spec (Z.of_nat (8 + (4 + length (Value r))))
              (12 + Z.of_nat (length (Value r)))); [lia|].
  rewrite Nat2Z.id, firstn_all. done.
Qed.

Lemma lww_marshal_roundtrip_witness :
  LWWUnmarshal (LWWMarshal lww_a) lww_b = (mkLWW (str "one") 5 (str "bob"), Ok tt).
Proof. apply (lww_marshal_roundtrip lww_a lww_b); vm_compute; split; congruence. Defined.

(** [Merge] copies the author of the winning write into the register, and
    [Set] stamps later writes with it.  Two replicas can therefore write
    different values under the same stamp, after which no exchange of states
    reconciles them. *)
Theorem lww_author_adoption_diverges :
  let a := LWWMerge lww_a lww_b in
  let a' := Set_ 9 (str "from-alice") a in
  let b' := Set_ 9 (str "from-bob") lww_b in
  Author a' = Author b' /\ LWWMerge a' b' = a' /\ LWWMerge b' a' = b' /\ Value a' <> Value b'.
Proof. decide_vm. Qed.

(** [Unmarshal] rejects a short payload, but not atomically: when only the
    value is cut off it returns the error with the timestamp already replaced,
    so the old value is left carrying the stamp of the rejected payload. *)
Theorem lww_unmarshal_error_keeps_timestamp (r : LWWRegister) (data : bytes) :
  (12 <= len data < 12 + be_get (take 4 (drop 8 data)))%Z ->
  LWWUnmarshal data r
  = (mkLWW (Value r) (wrapS 64 (be_get (take 8 data))) (Author r), Err (ErrText "data too short")).
Proof.
  intros H. unfold LWWUnmarshal.
  destruct (Z.ltb_spec (len data) 12); [lia|]. destruct (Z.ltb_spec (len data)
    (12 + be_get (take 4 (drop 8 data)))); [done|lia].
Qed.

Lemma lww_unmarshal_error_keeps_timestamp_witness :
  LWWUnmarshal (take 13 (LWWMarshal lww_b)) lww_a
  = (mkLWW (str "one") 7 (str "alice"), Err (ErrText "data too short")).
Proof.
  apply (lww_unmarshal_error_keeps_timestamp lww_a (take 13 (LWWMarshal lww_b))).
  vm_compute. split; congruence.
Defined.
