(* ===== verification/Rga.v ===== *)
(** * The replicated growable array of pkg/crdt: operations

    An [RGA] is a doubly linked list between two sentinels.  The model keeps
    the nodes between the sentinels in document order: [Next] and [Prev] of a
    node are its neighbours in [nodes], [head] comes before the first of them
    and [tail] after the last.  A node is designated by its position: [0] is
    the head sentinel and [S i] is [nodes !! i].  [head] is a full node
    because [Delete "head"] sets its [Deleted] flag. *)

From stdpp Require Import pretty.
From S2P Require Import Prelude Bytes.

Record RGANode := mkNode {
  ID : bytes;
  Value : bytes;
  Timestamp : Z;
  Author : bytes;
  Deleted : bool;
  OriginID : bytes;
}.

#[global] Instance RGANode_eq_dec : EqDecision RGANode.
Proof. solve_decision. Defined.

Record RGA := mkRGA {
  head : RGANode;
  nodes : list RGANode;
  length_ : Z;
  clock : Z;
  nodeID : bytes;
}.

#[global] Instance RGA_eq_dec : EqDecision RGA.
Proof. solve_decision. Defined.

Definition head_id : bytes := str "head".
Definition tail_id : bytes := str "tail".

Definition NewRGA (nodeID : bytes) : RGA :=
  mkRGA (mkNode head_id [] 0 [] false []) [] 0 0 nodeID.

Definition with_nodes (r : RGA) (l : list RGANode) : RGA :=
  mkRGA (head r) l (length_ r) (clock r) (nodeID r).

(** [r.length++]. *)
Definition incr_length (r : RGA) : RGA :=
  mkRGA (head r) (nodes r) (wrapS 64 (length_ r + 1)) (clock r) (nodeID r).

(** The node at a position. *)
Definition node_at (r : RGA) (p : nat) : option RGANode :=
  match p with O => Some (head r) | S i => nodes r !! i end.

(** [findNode]: the position of the first node with this ID. *)
Definition findNode (r : RGA) (id : bytes) : option nat :=
  if decide (id = ID (head r)) then Some 0
  else (fun x => S x.1) <$> list_find (fun n => ID n = id) (nodes r).

Definition beforeNode (a b : RGANode) : bool :=
  if (Timestamp a =? Timestamp b)%Z then bytes_lt (Author a) (Author b)
  else (Timestamp a <? Timestamp b)%Z.

(** The loops of [insertOrdered] over the nodes that follow [afterNode].
    [skip] is set while the inner loop passes the subtree of a sibling: it
    moves on as long as the next node is not a child of [afterNode]. *)
Fixpoint splice (afterID : bytes) (node : RGANode) (skip : bool) (l : list RGANode)
    : list RGANode :=
  match l with
  | [] => [node]
  | curr :: rest =>
      if decide (OriginID curr = afterID) then
        if beforeNode curr node then curr :: splice afterID node true rest
        else node :: curr :: rest
      else if skip then curr :: splice afterID node skip rest
      else node :: curr :: rest
  end.

(** [insertOrdered(afterNode, node)] with [afterNode] given by its position
    and its ID. *)
Definition insertOrdered (p : nat) (afterID : bytes) (node : RGANode) (r : RGA) : RGA :=
  with_nodes r (take p (nodes r) ++ splice afterID node false (drop p (nodes r))).

(** [fmt.Sprintf("%d:%s:%s", clock, nodeID, value)]. *)
Definition make_id (clock : Z) (nodeID value : bytes) : bytes :=
  str (pretty clock) ++ str ":" ++ nodeID ++ str ":" ++ value.

(** The ID of the node at a position that exists. *)
Definition id_at (r : RGA) (p : nat) : bytes :=
  match node_at r p with Some n => ID n | None => [] end.

Definition Insert (afterID value : bytes) (r : RGA) : RGA :=
  let c := wrapS 64 (clock r + 1) in
  let r := mkRGA (head r) (nodes r) (length_ r) c (nodeID r) in
  let p := match findNode r afterID with
           | Some p => p
           | None => length (nodes r)    (* tail.Prev *)
           end in
  let afterID := id_at r p in
  incr_length
    (insertOrdered p afterID
       (mkNode (make_id c (nodeID r) value) value c (nodeID r) false afterID) r).

Definition mark_deleted (n : RGANode) : RGANode :=
  mkNode (ID n) (Value n) (Timestamp n) (Author n) true (OriginID n).

Definition delete_at (p : nat) (r : RGA) : RGA :=
  match p with
  | O => mkRGA (mark_deleted (head r)) (nodes r) (length_ r) (clock r) (nodeID r)
  | S i => with_nodes r (alter mark_deleted i (nodes r))
  end.

Definition Delete (nodeID : bytes) (r : RGA) : RGA :=
  match findNode r nodeID with
  | Some p => delete_at p r
  | None => r
  end.

Definition Get (r : RGA) (index : Z) : result bytes :=
  if ((index <? 0) || (length_ r <=? index))%Z then Err (ErrText "index out of bounds")
  else match nodes r !! Z.to_nat index with
       | None => Err (ErrText "index out of bounds")
       | Some n => Ok (Value n)
       end.

Definition Length (r : RGA) : Z := length_ r.

(** The nodes the rendering loops do not skip. *)
Definition live (r : RGA) : list RGANode := filter (fun n => Deleted n = false) (nodes r).

Definition String_ (r : RGA) : bytes := concat (Value <$> live r).

Definition HeadNextID (r : RGA) : bytes :=
  match nodes r with [] => [] | n :: _ => ID n end.

Definition IDs (r : RGA) : list bytes := ID <$> live r.

(** ** Merge *)

Definition indexIDs (r : RGA) : gset bytes :=
  {[ID (head r)]} ∪ list_to_set (ID <$> nodes r) ∪ {[tail_id]}.

Definition isDeleted (r : RGA) (id : bytes) : bool :=
  match findNode r id with
  | Some p => match node_at r p with Some n => Deleted n | None => false end
  | None => false
  end.

Definition applyDeleteLocked (id : bytes) (r : RGA) : RGA :=
  match findNode r id with
  | Some p => match node_at r p with
              | Some n => if Deleted n then r else delete_at p r
              | None => r
              end
  | None => r
  end.

(** [struct pending]. *)
Record pending := mkPending { p_node : RGANode; p_prevID : bytes }.

#[global] Instance pending_eq_dec : EqDecision pending.
Proof. solve_decision. Defined.

(** The scan of the other replica: [prev] is [curr.Prev.ID].  Known nodes have
    their tombstone applied, unknown ones are collected. *)
Fixpoint scan (local : gset bytes) (prev : bytes) (l : list RGANode) (r : RGA)
    : RGA * list pending :=
  match l with
  | [] => (r, [])
  | curr :: rest =>
      if decide (ID curr ∈ local) then
        let r := if (Deleted curr && negb (isDeleted r (ID curr)))%bool
                 then applyDeleteLocked (ID curr) r else r in
        scan local (ID curr) rest r
      else
        let prevID := if decide (prev = []) then ID (head r) else prev in
        let '(r, missing) := scan local (ID curr) rest r in
        (r, mkPending curr prevID :: missing)
  end.

Definition with_origin (n : RGANode) (o : bytes) : RGANode :=
  mkNode (ID n) (Value n) (Timestamp n) (Author n) (Deleted n) o.

(** State of the sweeps: the replica, [placed], [deferred] and [progress]. *)
Record sweep_state := mkSweep {
  sw_r : RGA;
  sw_placed : gset bytes;
  sw_deferred : list pending;
  sw_progress : bool;
}.

(** One round of the inner loop. *)
Definition sweep_one (s : sweep_state) (p : pending) : sweep_state :=
  if decide (ID (p_node p) ∈ sw_placed s) then s
  else match findNode (sw_r s) (p_prevID p) with
       | None => mkSweep (sw_r s) (sw_placed s) (sw_deferred s ++ [p]) (sw_progress s)
       | Some after =>
           mkSweep
             (incr_length
                (insertOrdered after (id_at (sw_r s) after)
                   (with_origin (p_node p) (p_prevID p)) (sw_r s)))
             ({[ID (p_node p)]} ∪ sw_placed s) (sw_deferred s) true
       end.

Definition sweep (r : RGA) (placed : gset bytes) (remaining : list pending) : sweep_state :=
  foldl sweep_one (mkSweep r placed [] false) remaining.

(** The outer loop: the replica and the orphans it reports, [None] if [fuel]
    passes were not enough. *)
Fixpoint sweeps (fuel : nat) (r : RGA) (placed : gset bytes) (remaining : list pending)
    : option (RGA * list pending) :=
  match fuel with
  | O => None
  | S fuel =>
      let s := sweep r placed remaining in
      if decide (sw_deferred s = []) then Some (sw_r s, [])
      else if sw_progress s then sweeps fuel (sw_r s) (sw_placed s) (sw_deferred s)
      else Some (sw_r s, sw_deferred s)
  end.

(** A pass that makes progress leaves fewer nodes, so one pass per missing node
    and a last one are enough. *)
Definition MergeLog (r other : RGA) : option (RGA * list pending) :=
  let '(r, missing) := scan (indexIDs r) (ID (head other)) (nodes other) r in
  if decide (missing = []) then Some (r, [])
  else sweeps (S (length missing)) r ∅ missing.

Definition Merge (r other : RGA) : RGA :=
  match MergeLog r other with Some (r', _) => r' | None => r end.

(** * Lemmas *)

(** ** Splicing *)

Lemma splice_split a n sk l :
  exists l1 l2, l = l1 ++ l2 /\ splice a n sk l = l1 ++ n :: l2.
Proof.
  revert sk. induction l as [|c l IH]; intros sk; simpl.
  - by exists [], [].
  - destruct (IH true) as (l1 & l2 & Hl & Hs).
    destruct (decide (OriginID c = a)), (beforeNode c n), sk; rewrite ?Hs, ?Hl;
      first [by exists (c :: l1), l2|by exists [], (c :: l1 ++ l2)].
Qed.

Lemma insertOrdered_split p a n r :
  p <= length (nodes r) ->
  exists l1 l2, nodes r = l1 ++ l2 /\ p <= length l1
    /\ nodes (insertOrdered p a n r) = l1 ++ n :: l2.
Proof.
  intros Hp. destruct (splice_split a n false (drop p (nodes r))) as (l1 & l2 & Hd & Hs).
  exists (take p (nodes r) ++ l1), l2. rewrite <- app_assoc, <- Hd, take_drop.
  split; [done|]. rewrite length_app, length_take. split; [lia|].
  simpl. by rewrite Hs, <- app_assoc.
Qed.

(** In skipping mode two nodes with the same origin can be inserted in either
    order: the result is determined by their stamps. *)
Lemma beforeNode_total a b :
  beforeNode a b = false -> beforeNode b a = false ->
  Timestamp a = Timestamp b /\ Author a = Author b.
Proof.
  unfold beforeNode. rewrite (Z.eqb_sym (Timestamp b)).
  destruct (Z.eqb_spec (Timestamp a) (Timestamp b)); [|lia].
  intros. split; [done|]. by apply bytes_lt_total.
Qed.

Lemma beforeNode_asym a b : beforeNode a b = true -> beforeNode b a = false.
Proof.
  unfold beforeNode. rewrite (Z.eqb_sym (Timestamp b)).
  destruct (Z.eqb_spec (Timestamp a) (Timestamp b)); [apply bytes_lt_asym|lia].
Qed.

Lemma beforeNode_trans_le a b c :
  beforeNode b a = false -> beforeNode b c = true -> beforeNode a c = true.
Proof.
  intros Hba Hbc. destruct (beforeNode a b) eqn:Hab.
  - revert Hab Hbc. unfold beforeNode.
    destruct (Z.eqb_spec (Timestamp a) (Timestamp b)), (Z.eqb_spec (Timestamp b) (Timestamp c)),
      (Z.eqb_spec (Timestamp a) (Timestamp c)); try lia. apply bytes_lt_trans.
  - destruct (beforeNode_total _ _ Hab Hba) as [Ht Ha].
    revert Hbc. unfold beforeNode. by rewrite Ht, Ha.
Qed.

Definition same_stamp (a b : RGANode) : Prop := Timestamp a = Timestamp b /\ Author a = Author b.

Lemma splice_comm a n m l :
  OriginID n = a -> OriginID m = a -> ~ same_stamp n m ->
  splice a n true (splice a m true l) = splice a m true (splice a n true l).
Proof.
  intros Hn Hm Hne.
  assert (beforeNode n m = negb (beforeNode m n)) as Hswap.
  { destruct (beforeNode m n) eqn:E; simpl; [by apply beforeNode_asym|].
    destruct (beforeNode n m) eqn:E'; [done|]. destruct Hne. by apply beforeNode_total. }
  induction l as [|c l IH]; simpl.
  - rewrite !decide_True, Hswap by done. by destruct (beforeNode m n).
  - destruct (decide (OriginID c = a)) as [Hc|Hc].
    2: { simpl. rewrite !decide_False by done. by rewrite IH. }
    destruct (beforeNode c m) eqn:Ecm, (beforeNode c n) eqn:Ecn; simpl;
      rewrite ?(decide_True _ _ Hc), ?(decide_True _ _ Hn), ?(decide_True _ _ Hm), ?Ecm, ?Ecn; simpl.
    + by rewrite IH.
    + rewrite (beforeNode_trans_le n c m) by done. simpl.
      by rewrite ?(decide_True _ _ Hc), ?Ecm.
    + rewrite (beforeNode_trans_le m c n) by done. simpl.
      by rewrite ?(decide_True _ _ Hc), ?Ecn.
    + rewrite Hswap. destruct (beforeNode m n); simpl;
        by rewrite ?(decide_True _ _ Hc), ?Ecm, ?Ecn.
Qed.

(** The flag is irrelevant when the first node is a child of the anchor. *)
Definition anchored (a : bytes) (l : list RGANode) : Prop :=
  match l with [] => True | c :: _ => OriginID c = a end.

Lemma splice_anchored a n l : anchored a l -> splice a n false l = splice a n true l.
Proof. destruct l as [|c l]; simpl; [done|]. intros ->. by rewrite !decide_True. Qed.

Lemma anchored_splice a n sk l : OriginID n = a -> anchored a l -> anchored a (splice a n sk l).
Proof.
  destruct l as [|c l]; simpl; [done|]. intros Hn Hc.
  rewrite decide_True by done. by destruct (beforeNode c n).
Qed.

(** ** Finding nodes *)

Lemma findNode_Some r id p :
  findNode r id = Some p -> p <= length (nodes r) /\ id_at r p = id.
Proof.
  unfold findNode, id_at. case_decide as Hh.
  - intros [= <-]. simpl. split; [lia|done].
  - intros ([i n] & (Hi & Hid & _)%list_find_Some & ->)%fmap_Some. simpl in *.
    rewrite Hi. split; [|done]. apply lookup_lt_Some in Hi. lia.
Qed.

Lemma findNode_is_Some r id :
  is_Some (findNode r id) <-> id = ID (head r) \/ id ∈ ID <$> nodes r.
Proof.
  unfold findNode. case_decide as Hh; [naive_solver|].
  rewrite fmap_is_Some, list_elem_of_fmap. split.
  - intros [[i n] (Hi & Hid & _)%list_find_Some]. right. exists n.
    split; [done|]. by eapply list_elem_of_lookup_2.
  - intros [?|(n & -> & Hn)]; [done|]. by eapply list_find_elem_of.
Qed.

Lemma findNode_nodes r id i n :
  NoDup (ID <$> nodes r) -> id <> ID (head r) ->
  nodes r !! i = Some n -> ID n = id -> findNode r id = Some (S i).
Proof.
  intros Hnd Hh Hi Hid. unfold findNode. rewrite decide_False by done.
  rewrite fmap_Some. exists (i, n). split; [|done]. apply list_find_Some.
  split; [done|]. split; [done|]. intros j m Hj Hji Hm.
  assert (j = i); [|lia]. eapply (NoDup_lookup (ID <$> nodes r)); [done| |];
    rewrite list_lookup_fmap, ?Hj, ?Hi; simpl; by rewrite ?Hm, ?Hid.
Qed.
