(* ===== verification/RgaInv.v ===== *)
(** * The replicated growable array: local operations

    The invariant of a replica, preserved by [Insert] and [Delete]: node IDs
    are unique and are not those of the sentinels, every node comes after the
    node it was inserted after, and [Length] counts the nodes. *)

From stdpp Require Import pretty.
From S2P Require Import Prelude Bytes Rga.

(** The IDs and the tombstones of a replica. *)
Definition ids (r : RGA) : list bytes := ID <$> nodes r.
Definition tombs (r : RGA) : gset bytes :=
  list_to_set (ID <$> filter (fun n => Deleted n = true) (nodes r)).

(** Every node of [l] has its origin among [seen] or earlier in [l]. *)
Fixpoint causal (seen : list bytes) (l : list RGANode) : Prop :=
  match l with
  | [] => True
  | n :: l' => OriginID n ∈ seen /\ causal (ID n :: seen) l'
  end.

Definition proper_id (id : bytes) : Prop := id <> head_id /\ id <> tail_id /\ id <> [].

Record wf (r : RGA) : Prop := {
  wf_head : ID (head r) = head_id;
  wf_nodup : NoDup (ids r);
  wf_proper : Forall proper_id (ids r);
  wf_causal : causal [head_id] (nodes r);
  wf_length : length_ r = wrapS 64 (Z.of_nat (length (nodes r)));
}.

(** ** Causality *)

Lemma causal_mono s s' l : s ⊆ s' -> causal s l -> causal s' l.
Proof.
  revert s s'. induction l as [|n l IH]; intros s s' Hs; simpl; [done|].
  intros [Hn Hl]. split; [set_solver|]. eapply IH; [|exact Hl]. set_solver.
Qed.

Lemma causal_app s l1 l2 : causal s (l1 ++ l2) <-> causal s l1 /\ causal (rev (ID <$> l1) ++ s) l2.
Proof.
  revert s. induction l1 as [|n l1 IH]; intros s; simpl; [tauto|].
  rewrite IH, <- app_assoc. simpl. tauto.
Qed.

Lemma causal_insert s l1 n l2 :
  causal s (l1 ++ l2) -> OriginID n ∈ (ID <$> l1) ++ s -> causal s (l1 ++ n :: l2).
Proof.
  rewrite !causal_app. intros [H1 H2] Hn. split; [done|]. simpl. split.
  - revert Hn. rewrite !elem_of_app, !list_elem_of_In, <- in_rev. tauto.
  - eapply causal_mono; [|exact H2]. set_solver.
Qed.

Lemma causal_ext s l l' :
  Forall2 (fun n m => ID n = ID m /\ OriginID n = OriginID m) l l' -> causal s l -> causal s l'.
Proof.
  intros H. revert s. induction H as [|n m l l' [Hi Ho] _ IH]; intros s; simpl; [done|].
  rewrite <- Ho, <- Hi. intros [? ?]. split; [done|]. by apply IH.
Qed.

(** ** Inserting a node *)

(** Where a splice may land, whatever the comparisons decide. *)
Lemma wf_insertOrdered r p n :
  wf r -> p <= length (nodes r) -> ID n ∉ ids r -> proper_id (ID n) ->
  OriginID n = id_at r p -> wf (incr_length (insertOrdered p (OriginID n) n r)).
Proof.
  intros [Hh Hnd Hpr Hc Hlen] Hp Hfresh Hprop Ho. unfold ids in *.
  destruct (insertOrdered_split p (OriginID n) n r Hp) as (l1 & l2 & Hr & Hl1 & Hi).
  simpl in Hi. split; unfold ids; simpl; rewrite ?Hi, ?fmap_app_mid.
  - done.
  - rewrite app_mid_Permutation, <- fmap_app, <- Hr. by constructor.
  - rewrite app_mid_Permutation, <- fmap_app, <- Hr. by constructor.
  - apply causal_insert; [by rewrite <- Hr|]. rewrite Ho.
    unfold id_at, node_at. destruct p as [|i].
    + rewrite Hh. rewrite elem_of_app. right. left.
    + destruct (nodes r !! i) as [m|] eqn:Hm; [|apply lookup_ge_None in Hm; lia].
      rewrite Hr, lookup_app_l in Hm by lia. rewrite elem_of_app. left.
      apply list_elem_of_fmap. exists m. split; [done|]. by eapply list_elem_of_lookup_2.
  - rewrite Hlen, wrapS_add_l by lia. f_equal.
    rewrite Hr, !length_app. simpl. lia.
Qed.

Lemma ids_insertOrdered r p a n :
  p <= length (nodes r) -> ids (incr_length (insertOrdered p a n r)) ≡ₚ ID n :: ids r.
Proof.
  intros Hp. destruct (insertOrdered_split p a n r Hp) as (l1 & l2 & Hr & _ & Hi).
  unfold ids. simpl. simpl in Hi. rewrite Hi, Hr, fmap_app_mid, fmap_app.
  apply app_mid_Permutation.
Qed.

Lemma ids_insertOrdered_sublist r p a n :
  p <= length (nodes r) -> sublist (ids r) (ids (incr_length (insertOrdered p a n r))).
Proof.
  intros Hp. destruct (insertOrdered_split p a n r Hp) as (l1 & l2 & Hr & _ & Hi).
  unfold ids. simpl. simpl in Hi. rewrite Hi, Hr, fmap_app_mid, fmap_app.
  apply sublist_app_mid.
Qed.

Lemma tombs_insertOrdered r p a n :
  p <= length (nodes r) ->
  tombs (incr_length (insertOrdered p a n r))
  = (if Deleted n then {[ID n]} else ∅) ∪ tombs r.
Proof.
  intros Hp. destruct (insertOrdered_split p a n r Hp) as (l1 & l2 & Hr & _ & Hi).
  unfold tombs. simpl. simpl in Hi. rewrite Hi, Hr, !filter_app, filter_cons.
  destruct (Deleted n); simpl; rewrite !fmap_app, !list_to_set_app_L; simpl; set_solver.
Qed.

(** ** Fresh identifiers *)

Definition colon : byte := Byte.x3a.

Lemma pretty_N_char_no_colon x : Ascii.byte_of_ascii (pretty_N_char x) <> colon.
Proof. unfold pretty_N_char. by repeat case_match. Qed.

Lemma pretty_N_go_no_colon x s :
  colon ∉ str s -> colon ∉ str (pretty_N_go x s).
Proof.
  revert s. induction (N.lt_wf_0 x) as [x _ IH]; intros s Hs.
  destruct (decide (x = 0)%N) as [->|Hx]; [by rewrite pretty_N_go_0|].
  rewrite pretty_N_go_step by lia. apply IH.
  - apply N.div_lt; lia.
  - change (colon ∉ Ascii.byte_of_ascii (pretty_N_char (x `mod` 10)) :: str s).
    rewrite elem_of_cons. intros [H|H]; [|done].
    by apply (pretty_N_char_no_colon (x `mod` 10)).
Qed.

Lemma pretty_N_no_colon (x : N) : colon ∉ str (pretty x).
Proof.
  unfold pretty, pretty_N. case_decide; [apply (bool_decide_unpack _); done|].
  apply pretty_N_go_no_colon. apply (bool_decide_unpack _). done.
Qed.

Lemma pretty_Z_no_colon (x : Z) : colon ∉ str (pretty x).
Proof.
  destruct x as [|q|q].
  - apply (bool_decide_unpack _). done.
  - apply (pretty_N_no_colon (Npos q)).
  - change (colon ∉ Byte.x2d :: str (pretty (Npos q))). rewrite elem_of_cons.
    intros [H|H]; [done|]. by apply (pretty_N_no_colon (Npos q)).
Qed.

Lemma str_inj s t : str s = str t -> s = t.
Proof.
  unfold str. intros H. rewrite <- (String.string_of_list_byte_of_string s).
  by rewrite H, String.string_of_list_byte_of_string.
Qed.

(** The clock of an ID can be read back; so can the author, when neither
    contains a colon. *)
Lemma make_id_clock c c' a a' v v' : make_id c a v = make_id c' a' v' -> c = c' /\ a ++ colon :: v = a' ++ colon :: v'.
Proof.
  unfold make_id. intros H. apply split_at_sep in H as [H1%str_inj H2]; try apply pretty_Z_no_colon.
  split; [by apply (inj pretty)|done].
Qed.

Lemma make_id_inj c c' a a' v v' :
  colon ∉ a -> colon ∉ a' -> make_id c a v = make_id c' a' v' -> c = c' /\ a = a' /\ v = v'.
Proof. intros Ha Ha' [-> H]%make_id_clock. by apply split_at_sep in H as [-> ->]. Qed.

Lemma make_id_proper c a v : proper_id (make_id c a v).
Proof.
  assert (colon ∈ make_id c a v) as Hc.
  { unfold make_id. rewrite !elem_of_app. right. left. left. }
  split; [|split]; intros H; rewrite H in Hc; revert Hc; apply (bool_decide_unpack _); done.
Qed.

(** ** Insert and Delete *)

(** The IDs a replica has drawn are below its clock. *)
Definition own_ids_below (r : RGA) : Prop :=
  forall c v, make_id c (nodeID r) v ∈ ids r -> (c <= clock r)%Z.

Lemma clock_step r : (int64_min <= clock r < int64_max)%Z -> wrapS 64 (clock r + 1) = (clock r + 1)%Z.
Proof. unfold int64_min, int64_max. intros H. apply wrapS_small; lia. Qed.

(** [Insert] is one [insertOrdered] of a fresh node after an existing one. *)
Lemma Insert_spec r afterID value :
  (int64_min <= clock r < int64_max)%Z ->
  exists p, p <= length (nodes r)
    /\ let r1 := mkRGA (head r) (nodes r) (length_ r) (clock r + 1) (nodeID r) in
       let n := mkNode (make_id (clock r + 1) (nodeID r) value) value (clock r + 1)
                       (nodeID r) false (id_at r p) in
       Insert afterID value r = incr_length (insertOrdered p (OriginID n) n r1)
       /\ (forall q, findNode r afterID = Some q -> p = q)
       /\ (findNode r afterID = None -> p = length (nodes r)).
Proof.
  intros Hc. unfold Insert. rewrite clock_step by done.
  set (r1 := mkRGA (head r) (nodes r) (length_ r) (clock r + 1) (nodeID r)).
  assert (findNode r1 afterID = findNode r afterID) as -> by done.
  destruct (findNode r afterID) as [p|] eqn:Hf.
  - exists p. split; [by apply findNode_Some in Hf as [? _]|]. split; [done|]. naive_solver.
  - exists (length (nodes r)). split; [lia|]. split; [done|]. naive_solver.
Qed.

Lemma wf_with_clock r c : wf r -> wf (mkRGA (head r) (nodes r) (length_ r) c (nodeID r)).
Proof. intros [? ? ? ? ?]. by split. Qed.

Lemma Insert_fresh r value :
  own_ids_below r -> make_id (clock r + 1) (nodeID r) value ∉ ids r.
Proof. intros Hb Hin. apply Hb in Hin. lia. Qed.

Lemma wf_Insert r afterID value :
  wf r -> own_ids_below r -> (int64_min <= clock r < int64_max)%Z ->
  wf (Insert afterID value r).
Proof.
  intros Hwf Hb Hc. destruct (Insert_spec r afterID value Hc) as (p & Hp & -> & _).
  apply wf_insertOrdered; simpl; try done.
  - by apply wf_with_clock.
  - by apply (Insert_fresh r).
  - apply make_id_proper.
Qed.

Lemma ids_Insert r afterID value :
  (int64_min <= clock r < int64_max)%Z ->
  ids (Insert afterID value r) ≡ₚ make_id (clock r + 1) (nodeID r) value :: ids r.
Proof.
  intros Hc. destruct (Insert_spec r afterID value Hc) as (p & Hp & -> & _).
  by rewrite ids_insertOrdered.
Qed.

Lemma clock_Insert r afterID value :
  (int64_min <= clock r < int64_max)%Z ->
  clock (Insert afterID value r) = (clock r + 1)%Z /\ nodeID (Insert afterID value r) = nodeID r.
Proof. intros Hc. by destruct (Insert_spec r afterID value Hc) as (p & Hp & -> & _). Qed.

Lemma alter_ID f i (l : list RGANode) :
  (forall n, ID (f n) = ID n) -> ID <$> alter f i l = ID <$> l.
Proof.
  intros Hf. apply list_eq. intros j. rewrite !list_lookup_fmap.
  destruct (decide (i = j)) as [->|Hne].
  - rewrite list_lookup_alter_eq. destruct (l !! j); simpl; by rewrite ?Hf.
  - by rewrite list_lookup_alter_ne.
Qed.

Lemma ids_delete_at p r : ids (delete_at p r) = ids r.
Proof. destruct p as [|i]; [done|]. unfold ids. simpl. by rewrite alter_ID. Qed.

Lemma wf_delete_at p r : wf r -> wf (delete_at p r).
Proof.
  intros [Hh Hnd Hpr Hc Hl].
  split; rewrite ?ids_delete_at; try done; destruct p as [|i]; simpl; try done.
  - eapply causal_ext; [|exact Hc]. apply Forall2_same_length_lookup_2.
    + by rewrite length_alter.
    + intros j n m Hn Hm. destruct (decide (i = j)) as [->|Hne].
      * rewrite list_lookup_alter_eq, Hn in Hm. simplify_eq/=. done.
      * rewrite list_lookup_alter_ne, Hn in Hm by done. by simplify_eq/=.
  - by rewrite length_alter.
Qed.

Lemma filter_alter_deleted i (l : list RGANode) n :
  l !! i = Some n ->
  list_to_set (C := gset bytes) (ID <$> filter (fun n => Deleted n = true) (alter mark_deleted i l))
  = {[ID n]} ∪ list_to_set (ID <$> filter (fun n => Deleted n = true) l).
Proof.
  revert i. induction l as [|m l IH]; intros [|i] Hi; simplify_eq/=.
  - rewrite !filter_cons. simpl. destruct (Deleted n); simpl; set_solver.
  - rewrite !filter_cons. specialize (IH _ Hi). unfold alter in IH |- *.
    destruct (Deleted m); simpl; set_solver.
Qed.

Lemma tombs_delete_at p r id :
  findNode r id = Some p -> tombs (delete_at p r) = (match p with O => ∅ | S _ => {[id]} end) ∪ tombs r.
Proof.
  intros Hf. destruct p as [|i]; simpl; [unfold tombs; simpl; set_solver|].
  apply findNode_Some in Hf as [Hle Hid]. unfold id_at, node_at in Hid.
  destruct (nodes r !! i) as [n|] eqn:Hi; [|apply lookup_ge_None in Hi; lia].
  unfold tombs. simpl. rewrite (filter_alter_deleted i _ n) by done. by rewrite Hid.
Qed.
