(* ===== verification/RgaMerge.v ===== *)
(** * The replicated growable array: merging replicas

    [Merge] as a join of what the replicas know: which nodes exist and which
    are deleted.  It always terminates, leaves no node behind when the other
    replica is well formed, keeps the local document order, and is idempotent.
    The order in which concurrent nodes end up is a different matter: it is a
    function of the operations only for siblings of one anchor, and the
    theorems at the end show where replicas diverge. *)

From S2P Require Import Prelude Bytes Rga RgaInv.

(** What the scan and the sweeps leave alone. *)
Definition same_replica (r r' : RGA) : Prop := clock r' = clock r /\ nodeID r' = nodeID r.

(** ** Tombstones *)

Lemma elem_of_tombs r id :
  id ∈ tombs r <-> exists n, n ∈ nodes r /\ ID n = id /\ Deleted n = true.
Proof.
  unfold tombs. rewrite elem_of_list_to_set, list_elem_of_fmap.
  setoid_rewrite list_elem_of_filter. naive_solver.
Qed.

Lemma wf_find r id :
  wf r -> id ∈ ids r -> exists i n, findNode r id = Some (S i) /\ nodes r !! i = Some n /\ ID n = id.
Proof.
  intros Hwf Hin. unfold ids in Hin. pose proof Hin as Hin2.
  apply list_elem_of_fmap in Hin as (n & -> & [i Hi]%list_elem_of_lookup).
  exists i, n. split; [|done]. apply (findNode_nodes r (ID n) i n); try done.
  - apply (wf_nodup r Hwf).
  - rewrite (wf_head r Hwf). pose proof (wf_proper r Hwf) as Hp.
    rewrite Forall_forall in Hp. by apply (Hp (ID n)).
Qed.

Lemma isDeleted_tombs r id : wf r -> id ∈ ids r -> isDeleted r id = true <-> id ∈ tombs r.
Proof.
  intros Hwf Hin. destruct (wf_find r id Hwf Hin) as (i & n & Hf & Hi & <-).
  unfold isDeleted. rewrite Hf. simpl. rewrite Hi, elem_of_tombs. split.
  - intros Hd. exists n. split; [|done]. by eapply list_elem_of_lookup_2.
  - intros (m & [j Hj]%list_elem_of_lookup & Hid & Hd).
    assert (j = i) as ->; [|by simplify_eq].
    eapply (NoDup_lookup (ids r)); [apply Hwf| |]; unfold ids;
      rewrite list_lookup_fmap, ?Hj, ?Hi; simpl; by rewrite ?Hid.
Qed.

Lemma applyDelete_spec r id :
  wf r -> id ∈ ids r ->
  wf (applyDeleteLocked id r) /\ ids (applyDeleteLocked id r) = ids r
  /\ tombs (applyDeleteLocked id r) = {[id]} ∪ tombs r
  /\ same_replica r (applyDeleteLocked id r).
Proof.
  intros Hwf Hin. pose proof (isDeleted_tombs r id Hwf Hin) as Hd.
  destruct (wf_find r id Hwf Hin) as (i & n & Hf & Hi & Hid).
  unfold applyDeleteLocked, isDeleted in *. rewrite Hf in *.
  change (node_at r (S i)) with (nodes r !! i) in *. rewrite Hi in *.
  destruct (Deleted n).
  - split; [done|]. split; [done|]. split; [set_solver|done].
  - split; [by apply wf_delete_at|]. split; [by apply ids_delete_at|]. split; [|done].
    apply (tombs_delete_at (S i) r id Hf).
Qed.

Lemma absorb_singleton (id : bytes) (X : gset bytes) : id ∈ X -> X = {[id]} ∪ X.
Proof. set_solver. Qed.

Lemma union_swap (X Y Z : gset bytes) : X ∪ (Y ∪ Z) = (Y ∪ X) ∪ Z.
Proof. set_solver. Qed.

(** What the scan does for a node that is already known. *)
Lemma apply_known_spec r c :
  wf r -> ID c ∈ ids r ->
  let r1 := if (Deleted c && negb (isDeleted r (ID c)))%bool
            then applyDeleteLocked (ID c) r else r in
  wf r1 /\ ids r1 = ids r /\ same_replica r r1
  /\ tombs r1 = (if Deleted c then {[ID c]} else ∅) ∪ tombs r.
Proof.
  intros Hwf Hin. pose proof (isDeleted_tombs r (ID c) Hwf Hin) as Hd.
  destruct (applyDelete_spec r (ID c) Hwf Hin) as (? & ? & ? & ?).
  destruct (Deleted c); simpl; [|by rewrite (left_id_L ∅ (∪))].
  destruct (isDeleted r (ID c)); simpl; [|done].
  split_and!; try done. apply absorb_singleton. by apply Hd.
Qed.

(** ** The scan *)

(** Each missing node has its predecessor in [seen] or earlier in the list. *)
Fixpoint chained (seen : list bytes) (ms : list pending) : Prop :=
  match ms with
  | [] => True
  | p :: ms' => p_prevID p ∈ seen /\ chained (ID (p_node p) :: seen) ms'
  end.

Lemma chained_mono s s' ms : s ⊆ s' -> chained s ms -> chained s' ms.
Proof.
  revert s s'. induction ms as [|p ms IH]; intros s s' Hs; simpl; [done|].
  intros [Hp Hms]. split; [set_solver|]. eapply IH; [|exact Hms]. set_solver.
Qed.

Definition deleted_known (local : gset bytes) (l : list RGANode) : gset bytes :=
  list_to_set (ID <$> filter (fun n => Deleted n = true /\ ID n ∈ local) l).

Lemma scan_spec local l : forall prev seen r r' ms,
  wf r -> Forall (fun n => proper_id (ID n)) l ->
  (forall id, proper_id id -> id ∈ local <-> id ∈ ids r) ->
  head_id ∈ seen -> ids r ⊆ seen -> prev ∈ seen ->
  scan local prev l r = (r', ms) ->
  wf r' /\ ids r' = ids r /\ tombs r' = deleted_known local l ∪ tombs r
  /\ same_replica r r'
  /\ p_node <$> ms = filter (fun n => ID n ∉ local) l /\ chained seen ms.
Proof.
  induction l as [|c l IH]; intros prev seen r r' ms Hwf Hpr Hloc Hhd Hsub Hprev Hs; simpl in Hs.
  - simplify_eq. unfold deleted_known. simpl. split_and!; try done. set_solver.
  - apply Forall_cons in Hpr as [Hc Hpr]. unfold deleted_known. rewrite !filter_cons.
    case_decide as Hin.
    + pose proof (proj1 (Hloc _ Hc) Hin) as Hin'.
      set (r1 := if (Deleted c && negb (isDeleted r (ID c)))%bool
                 then applyDeleteLocked (ID c) r else r) in *.
      assert (wf r1 /\ ids r1 = ids r /\ same_replica r r1 /\
              tombs r1 = (if Deleted c then {[ID c]} else ∅) ∪ tombs r) as (Hwf1 & Hi1 & Hr1 & Ht1).
      { by apply apply_known_spec. }
      destruct (IH (ID c) seen r1 r' ms) as (? & ? & Ht & Hr & Hms & Hch); try done.
      { intros id Hid. by rewrite Hi1, Hloc. }
      { by rewrite Hi1. }
      { by apply Hsub. }
      split_and!; try done.
      * congruence.
      * rewrite Ht, Ht1. unfold deleted_known. destruct (Deleted c) eqn:Ed.
        -- rewrite (decide_True _ _ (conj eq_refl Hin)). simpl.
           apply union_swap.
        -- rewrite decide_False by (by intros [? _]). by rewrite (left_id_L ∅ (∪)).
      * destruct Hr, Hr1. split; congruence.
      * rewrite decide_False by naive_solver. done.
    + destruct (scan local (ID c) l r) as [r2 ms2] eqn:Hs2. simplify_eq.
      destruct (IH (ID c) (ID c :: seen) r r' ms2) as (? & ? & Ht & Hr & Hms & Hch); try done.
      { by right. } { set_solver. } { left. }
      split_and!; try done.
      * rewrite decide_False by naive_solver. done.
      * by rewrite (decide_True _ _ Hin), fmap_cons, Hms.
      * simpl. split; [|done]. case_decide; [|done]. by rewrite (wf_head r Hwf).
Qed.

(** ** The sweeps *)

Lemma sweep_one_deferred s p :
  length (sw_deferred (sweep_one s p)) <= S (length (sw_deferred s))
  /\ (sw_progress (sweep_one s p) = true ->
      sw_progress s = true \/ length (sw_deferred (sweep_one s p)) <= length (sw_deferred s)).
Proof.
  unfold sweep_one. repeat case_match; simpl; rewrite ?length_app; simpl; split; auto; lia.
Qed.

Lemma sweep_shrinks l s :
  length (sw_deferred (foldl sweep_one s l)) <= length l + length (sw_deferred s)
  /\ (sw_progress (foldl sweep_one s l) = true -> sw_progress s = false ->
      length (sw_deferred (foldl sweep_one s l)) < length l + length (sw_deferred s)).
Proof.
  revert s. induction l as [|p l IH]; intros s; simpl; [split; [lia|congruence]|].
  destruct (IH (sweep_one s p)) as [H1 H2], (sweep_one_deferred s p) as [H3 H4].
  split; [lia|]. intros Hp Hs.
  destruct (sw_progress (sweep_one s p)) eqn:E.
  - destruct (H4 eq_refl); [congruence|lia].
  - specialize (H2 Hp eq_refl). lia.
Qed.

Lemma sweeps_total fuel r placed l : length l < fuel -> is_Some (sweeps fuel r placed l).
Proof.
  revert r placed l. induction fuel as [|fuel IH]; intros r placed l Hf; [lia|]. simpl.
  case_decide; [done|]. destruct (sw_progress (sweep r placed l)) eqn:E; [|done].
  apply IH. destruct (sweep_shrinks l (mkSweep r placed [] false)) as [_ Hlt].
  specialize (Hlt E eq_refl). unfold sweep. simpl in Hlt. lia.
Qed.

Lemma MergeLog_total r o : is_Some (MergeLog r o).
Proof.
  unfold MergeLog. destruct (scan _ _ _ _) as [r' ms]. case_decide; [done|].
  apply sweeps_total. lia.
Qed.

(** A chained list of new nodes is placed in a single pass. *)
Lemma sweep_spec ms : forall seen r placed b,
  wf r -> chained seen ms -> (forall id, id ∈ seen -> id = head_id \/ id ∈ ids r) ->
  NoDup (ID ∘ p_node <$> ms) ->
  (forall p, p ∈ ms -> proper_id (ID (p_node p)) /\ ID (p_node p) ∉ ids r
                       /\ ID (p_node p) ∉ placed) ->
  exists r' placed' b',
    foldl sweep_one (mkSweep r placed [] b) ms = mkSweep r' placed' [] b'
    /\ wf r' /\ ids r' ≡ₚ (ID ∘ p_node <$> ms) ++ ids r /\ sublist (ids r) (ids r')
    /\ tombs r' = list_to_set (ID <$> filter (fun n => Deleted n = true) (p_node <$> ms)) ∪ tombs r
    /\ same_replica r r'.
Proof.
  induction ms as [|p ms IH]; intros seen r placed b Hwf Hch Hseen Hnd Hnew.
  - exists r, placed, b. simpl. split_and!; try done. set_solver.
  - simpl in Hch. destruct Hch as [Hprev Hch]. rewrite fmap_cons in Hnd.
    apply NoDup_cons in Hnd as [Hnotin Hnd].
    destruct (Hnew p) as (Hprop & Hfresh & Hplaced); [left|].
    assert (is_Some (findNode r (p_prevID p))) as [q Hq].
    { apply findNode_is_Some. rewrite (wf_head r Hwf). by apply Hseen. }
    destruct (findNode_Some _ _ _ Hq) as [Hle Hid].
    set (n := with_origin (p_node p) (p_prevID p)).
    set (r1 := incr_length (insertOrdered q (id_at r q) n r)).
    assert (wf r1) as Hwf1.
    { subst r1. replace (id_at r q) with (OriginID n) by done. by apply wf_insertOrdered. }
    assert (ids r1 ≡ₚ ID (p_node p) :: ids r) as Hids1
      by (by apply (ids_insertOrdered r q (id_at r q) n)).
    destruct (IH (ID (p_node p) :: seen) r1 ({[ID (p_node p)]} ∪ placed) true)
      as (r' & placed' & b' & Hfold & Hwf' & Hids & Hsub & Ht & Hr); try done.
    { intros id [->|H]%elem_of_cons; rewrite Hids1, elem_of_cons; [by right; left|].
      destruct (Hseen id H); auto. }
    { intros p' Hp'. destruct (Hnew p') as (? & ? & ?); [by right|].
      assert (ID (p_node p') <> ID (p_node p)).
      { intros Heq. apply Hnotin. apply list_elem_of_fmap. exists p'. by split. }
      split; [done|]. rewrite Hids1. set_solver. }
    exists r', placed', b'. split_and!; try done.
    + simpl. rewrite <- Hfold. f_equal. unfold sweep_one. simpl.
      rewrite decide_False by done. by rewrite Hq.
    + rewrite Hids, Hids1, fmap_cons. simpl. by rewrite Permutation_middle.
    + etrans; [|exact Hsub]. by apply ids_insertOrdered_sublist.
    + rewrite Ht. unfold r1. rewrite tombs_insertOrdered by done. subst n.
      rewrite fmap_cons, filter_cons. simpl. destruct (Deleted (p_node p)); simpl; set_solver.
Qed.

(** ** The whole merge *)

Lemma elem_of_indexIDs r id : wf r -> proper_id id -> id ∈ indexIDs r <-> id ∈ ids r.
Proof.
  intros Hwf (Hh & Ht & _). unfold indexIDs, ids. rewrite (wf_head r Hwf).
  rewrite !elem_of_union, !elem_of_singleton, elem_of_list_to_set. tauto.
Qed.

Lemma proper_nodes r : wf r -> Forall (fun n => proper_id (ID n)) (nodes r).
Proof. intros Hwf. exact (proj1 (Forall_fmap ID proper_id (nodes r)) (wf_proper r Hwf)). Qed.

Lemma tombs_split local r :
  tombs r = list_to_set (ID <$> filter (fun n => Deleted n = true)
                                 (filter (fun n => ID n ∉ local) (nodes r)))
            ∪ deleted_known local (nodes r).
Proof.
  unfold tombs, deleted_known. apply set_eq. intros id.
  rewrite elem_of_union, !elem_of_list_to_set, !list_elem_of_fmap.
  setoid_rewrite list_elem_of_filter. setoid_rewrite list_elem_of_filter. split.
  - intros (n & -> & Hd & Hn). destruct (decide (ID n ∈ local)); [right|left]; by exists n.
  - intros [(n & -> & ? & ? & ?)|(n & -> & [? ?] & ?)]; by exists n.
Qed.

Lemma MergeLog_spec r o :
  wf r -> wf o ->
  exists r', MergeLog r o = Some (r', []) /\ wf r'
    /\ (forall id, id ∈ ids r' <-> id ∈ ids r \/ id ∈ ids o)
    /\ tombs r' = tombs r ∪ tombs o /\ sublist (ids r) (ids r') /\ same_replica r r'.
Proof.
  intros Hr Ho. unfold MergeLog.
  destruct (scan (indexIDs r) (ID (head o)) (nodes o) r) as [r1 ms] eqn:Hs.
  destruct (scan_spec (indexIDs r) (nodes o) (ID (head o)) (head_id :: ids r) r r1 ms)
    as (Hwf1 & Hids1 & Ht1 & Hr1 & Hms & Hch); try done.
  { by apply proper_nodes. } { intros. by apply elem_of_indexIDs. } { left. } { by right. }
  { rewrite (wf_head o Ho). left. }
  assert (forall p, p ∈ ms -> proper_id (ID (p_node p)) /\ ID (p_node p) ∉ ids r1
                              /\ ID (p_node p) ∉ (∅ : gset bytes)) as Hnew.
  { intros p Hp. assert (p_node p ∈ filter (fun n => ID n ∉ indexIDs r) (nodes o)) as Hin.
    { rewrite <- Hms. by apply list_elem_of_fmap_2. }
    apply list_elem_of_filter in Hin as [Hni Hin].
    pose proof (proper_nodes o Ho) as Hp'. rewrite Forall_forall in Hp'.
    specialize (Hp' _ Hin). split; [done|]. rewrite Hids1, <- elem_of_indexIDs by done.
    split; [done|]. apply not_elem_of_empty. }
  assert (ID ∘ p_node <$> ms = ID <$> filter (fun n => ID n ∉ indexIDs r) (nodes o)) as Hidms.
  { by rewrite list_fmap_compose, Hms. }
  destruct (sweep_spec ms (head_id :: ids r) r1 ∅ false) as
    (r' & placed' & b' & Hfold & Hwf' & Hids & Hsub & Ht & Hr'); try done.
  { intros id [->|H]%elem_of_cons; [by left|right]. by rewrite Hids1. }
  { rewrite Hidms. eapply sublist_NoDup; [apply (wf_nodup o Ho)|].
    apply fmap_sublist, sublist_filter. }
  assert (MergeLog r o = Some (r', [])) as Hm.
  { unfold MergeLog. rewrite Hs. case_decide as Hnil.
    - subst ms. simpl in Hfold. by simplify_eq.
    - cbn [sweeps]. unfold sweep. by rewrite Hfold. }
  exists r'. unfold MergeLog in Hm. rewrite Hs in Hm. split; [done|]. split; [done|]. split; [|split; [|split]].
  - intros id. rewrite Hids, elem_of_app, Hids1, Hidms. unfold ids at 2 3. split.
    + intros [Hin|Hin]; [right|by left]. apply list_elem_of_fmap in Hin as (n & -> & Hn).
      apply list_elem_of_filter in Hn as [_ Hn]. by apply list_elem_of_fmap_2.
    + intros [Hin|Hin]; [by right|]. destruct (decide (id ∈ ids r)) as [|Hni]; [by right|left].
      apply list_elem_of_fmap in Hin as (n & -> & Hn). apply list_elem_of_fmap_2.
      apply list_elem_of_filter. split; [|done]. rewrite elem_of_indexIDs; try done.
      pose proof (proper_nodes o Ho) as Hp'. rewrite Forall_forall in Hp'. by apply Hp'.
  - rewrite Ht, Ht1, Hms, (tombs_split (indexIDs r) o). by rewrite (assoc_L (∪)), (comm_L (∪)).
  - by rewrite <- Hids1.
  - destruct Hr1, Hr'. split; congruence.
Qed.

Lemma Merge_spec r o :
  wf r -> wf o ->
  wf (Merge r o) /\ (forall id, id ∈ ids (Merge r o) <-> id ∈ ids r \/ id ∈ ids o)
  /\ tombs (Merge r o) = tombs r ∪ tombs o
  /\ sublist (ids r) (ids (Merge r o)) /\ same_replica r (Merge r o).
Proof.
  intros Hr Ho. destruct (MergeLog_spec r o Hr Ho) as (r' & Hm & H).
  unfold Merge. by rewrite Hm.
Qed.

(** Nothing new: nothing changes. *)
Lemma scan_noop local l : forall prev r,
  wf r -> (forall n, n ∈ l -> ID n ∈ local /\ ID n ∈ ids r /\ (Deleted n = true -> ID n ∈ tombs r)) ->
  scan local prev l r = (r, []).
Proof.
  induction l as [|c l IH]; intros prev r Hwf Hl; simpl; [done|].
  destruct (Hl c) as (Hloc & Hin & Hdel); [left|]. rewrite decide_True by done.
  pose proof (isDeleted_tombs r (ID c) Hwf Hin) as Hd.
  assert ((Deleted c && negb (isDeleted r (ID c)))%bool = false) as ->.
  { destruct (Deleted c); [|done]. simpl. rewrite (proj2 Hd) by auto. done. }
  apply IH; [done|]. intros n Hn. apply Hl. by right.
Qed.

Lemma Merge_noop r o :
  wf r -> wf o -> ids o ⊆ ids r -> tombs o ⊆ tombs r -> Merge r o = r.
Proof.
  intros Hr Ho Hi Ht. unfold Merge, MergeLog. rewrite scan_noop; [done|done|].
  intros n Hn. assert (ID n ∈ ids o) as Hin by (by apply list_elem_of_fmap_2).
  pose proof (proper_nodes o Ho) as Hp. rewrite Forall_forall in Hp.
  split; [rewrite elem_of_indexIDs; auto|]. split; [auto|].
  intros Hd. apply Ht, elem_of_tombs. by exists n.
Qed.
