(* ===== verification/RgaProps.v ===== *)
(** * The replicated growable array: properties

    Replicas as a transition system, what merging guarantees in every
    reachable state, convergence of concurrent inserts at one anchor, and the
    histories on which replicas do not converge. *)

From S2P Require Import Prelude Bytes Rga RgaInv RgaMerge.

(** ** A system of replicas

    A state is a list of replicas; a step is one call of an operation on one
    of them.  The clock of a replica is assumed not to reach [math.MaxInt64]:
    the counter starts at 0 and each [Insert] adds one. *)

Inductive step : list RGA -> list RGA -> Prop :=
| step_insert s i r afterID value :
    s !! i = Some r -> (clock r < int64_max)%Z -> step s (<[i := Insert afterID value r]> s)
| step_delete s i r id :
    s !! i = Some r -> step s (<[i := Delete id r]> s)
| step_merge s i j r o :
    s !! i = Some r -> s !! j = Some o -> step s (<[i := Merge r o]> s).

(** Replicas are started with distinct names that contain no colon. *)
Definition good_names (names : list bytes) : Prop :=
  NoDup names /\ Forall (fun a => colon ∉ a) names.

Definition reachable (names : list bytes) (s : list RGA) : Prop :=
  good_names names /\ rtc step (NewRGA <$> names) s.

(** The invariant of the system. *)
Record sys_inv (names : list bytes) (s : list RGA) : Prop := {
  inv_name : forall i r, s !! i = Some r -> names !! i = Some (nodeID r);
  inv_wf : forall i r, s !! i = Some r -> wf r /\ (0 <= clock r <= int64_max)%Z;
  inv_ids : forall i r j o c v, s !! i = Some r -> s !! j = Some o ->
    make_id c (nodeID r) v ∈ ids o -> (c <= clock r)%Z;
}.

Lemma NewRGA_wf a : wf (NewRGA a).
Proof. split; simpl; try done; constructor. Qed.

Lemma sys_inv_init names : sys_inv names (NewRGA <$> names).
Proof.
  split.
  - intros i r. rewrite list_lookup_fmap. by intros (a & Ha & ->)%fmap_Some.
  - intros i r. rewrite list_lookup_fmap. intros (a & Ha & ->)%fmap_Some.
    split; [apply NewRGA_wf|]. simpl. unfold int64_max. lia.
  - intros i r j o c v _. rewrite list_lookup_fmap. intros (a & Ha & ->)%fmap_Some.
    by intros ?%not_elem_of_nil.
Qed.

(** A step that keeps names and clocks and adds no ID unknown to the system. *)
Lemma sys_inv_quiet names s i r r' :
  sys_inv names s -> s !! i = Some r -> wf r' -> same_replica r r' ->
  (forall id, id ∈ ids r' -> exists j o, s !! j = Some o /\ id ∈ ids o) ->
  sys_inv names (<[i := r']> s).
Proof.
  intros [Hn Hw Hi] Hr Hwf [Hc Hna] Hids.
  assert (forall k x, <[i := r']> s !! k = Some x ->
            exists y, s !! k = Some y /\ nodeID x = nodeID y /\ clock x = clock y) as Hold.
  { intros k x. rewrite list_lookup_insert. case_decide as Hk; [|naive_solver].
    destruct Hk as [-> _]. intros [= <-]. by exists r. }
  split.
  - intros k x Hx. destruct (Hold k x Hx) as (y & Hy & -> & _). by apply Hn.
  - intros k x Hx. destruct (Hold k x Hx) as (y & Hy & _ & Hcl).
    destruct (Hw k y Hy). split; [|lia].
    revert Hx. rewrite list_lookup_insert. case_decide; [by intros [= <-]|].
    intros Hx. by apply (Hw k x Hx).
  - intros k x j o c v Hx Ho Hin. destruct (Hold k x Hx) as (y & Hy & Hna' & ->).
    rewrite Hna' in Hin. revert Ho. rewrite list_lookup_insert. case_decide.
    + intros [= <-]. destruct (Hids _ Hin) as (j' & o' & Ho' & Hin'). by eapply Hi.
    + intros Ho. by eapply Hi.
Qed.

Lemma sys_inv_insert names s i r afterID value :
  good_names names -> sys_inv names s -> s !! i = Some r -> (clock r < int64_max)%Z ->
  sys_inv names (<[i := Insert afterID value r]> s).
Proof.
  intros [Hnd Hcol] [Hn Hw Hi] Hr Hlt. destruct (Hw i r Hr) as [Hwf Hcr].
  assert (int64_min <= clock r < int64_max)%Z as Hcl by (unfold int64_min; lia).
  destruct (clock_Insert r afterID value Hcl) as [Hc Hna].
  pose proof (ids_Insert r afterID value Hcl) as Hids.
  rewrite Forall_forall in Hcol.
  assert (forall k x, s !! k = Some x -> colon ∉ nodeID x) as Hcol'.
  { intros k x Hx. apply Hcol. eapply list_elem_of_lookup_2, Hn, Hx. }
  assert (forall k x, <[i := Insert afterID value r]> s !! k = Some x ->
            exists y, s !! k = Some y /\ nodeID x = nodeID y /\ (clock y <= clock x)%Z
                      /\ (k = i -> x = Insert afterID value r)) as Hold.
  { intros k x. rewrite list_lookup_insert. case_decide as Hk.
    - destruct Hk as [-> _]. intros [= <-]. exists r. split_and!; try done. lia.
    - intros Hx. exists x. split_and!; try done. intros ->. apply lookup_lt_Some in Hx. naive_solver. }
  split.
  - intros k x Hx. destruct (Hold k x Hx) as (y & Hy & -> & _). by apply Hn.
  - intros k x. rewrite list_lookup_insert. case_decide as Hk; [|intros Hx; by apply (Hw k x Hx)].
    intros [= <-]. split; [|lia]. apply wf_Insert; try done.
    intros c v Hin. by eapply (Hi i r i r).
  - intros k x j o c v Hx Ho Hin. destruct (Hold k x Hx) as (y & Hy & Hnx & Hcx & Hki).
    rewrite Hnx in Hin. revert Ho. rewrite list_lookup_insert. case_decide as Hj.
    + intros [= <-]. rewrite Hids in Hin. apply elem_of_cons in Hin as [Heq|Hin].
      * apply make_id_inj in Heq as (-> & Heq & ->); [|by eapply Hcol'..].
        assert (k = i) as ->.
        { eapply (NoDup_lookup names); [done|by apply Hn|]. rewrite Heq. by apply Hn. }
        rewrite (Hki eq_refl). lia.
      * etrans; [|exact Hcx]. by eapply (Hi k y i r).
    + intros Ho. etrans; [|exact Hcx]. by eapply (Hi k y j o).
Qed.

Lemma Delete_spec r id :
  wf r ->
  wf (Delete id r) /\ ids (Delete id r) = ids r /\ same_replica r (Delete id r)
  /\ tombs (Delete id r) = (if decide (id ∈ ids r) then {[id]} else ∅) ∪ tombs r.
Proof.
  intros Hwf. unfold Delete. destruct (findNode r id) as [p|] eqn:Hf.
  - split; [by apply wf_delete_at|]. split; [apply ids_delete_at|]. split; [by destruct p|].
    rewrite (tombs_delete_at p r id Hf). case_decide as Hin.
    + destruct (wf_find r id Hwf Hin) as (i & n & Hf' & _). by simplify_eq.
    + destruct p as [|i]; [done|]. destruct (findNode_Some _ _ _ Hf) as [Hle Hid].
      destruct Hin. unfold id_at, node_at in Hid.
      destruct (nodes r !! i) as [n|] eqn:Hn; [|apply lookup_ge_None in Hn; lia].
      rewrite <- Hid. unfold ids. eapply list_elem_of_fmap_2, list_elem_of_lookup_2, Hn.
  - rewrite decide_False; [by rewrite (left_id_L ∅ (∪))|]. intros Hin.
    destruct (wf_find r id Hwf Hin) as (i & n & Hf' & _). congruence.
Qed.

Lemma sys_inv_step names s s' : good_names names -> sys_inv names s -> step s s' -> sys_inv names s'.
Proof.
  intros Hg Hinv Hs. destruct Hs as [s i r a v Hr Hc|s i r id Hr|s i j r o Hr Ho].
  - by apply sys_inv_insert.
  - destruct (inv_wf names s Hinv i r Hr) as [Hwf _].
    destruct (Delete_spec r id Hwf) as (Hwf' & Hids & Hsr & _).
    eapply sys_inv_quiet; try done. rewrite Hids. intros id' Hin. by exists i, r.
  - destruct (inv_wf names s Hinv i r Hr) as [Hwf _], (inv_wf names s Hinv j o Ho) as [Hwfo _].
    destruct (Merge_spec r o Hwf Hwfo) as (Hwf' & Hids & _ & _ & Hsr).
    eapply sys_inv_quiet; try done. intros id [Hin|Hin]%Hids; [by exists i, r|by exists j, o].
Qed.

Lemma reachable_inv names s : reachable names s -> sys_inv names s.
Proof.
  intros [Hg Hs]. pose proof (sys_inv_init names) as H0. revert H0.
  induction Hs as [|s1 s2 s3 H12 _ IH]; [done|]. intros H1. by apply IH, (sys_inv_step names s1).
Qed.

(** ** Progress of a replica along a run *)

Lemma tombs_Insert r a v :
  (int64_min <= clock r < int64_max)%Z -> tombs (Insert a v r) = tombs r.
Proof.
  intros Hc. destruct (Insert_spec r a v Hc) as (p & Hp & -> & _).
  rewrite tombs_insertOrdered by done. simpl. by rewrite (left_id_L ∅ (∪)).
Qed.

Lemma ids_Insert_sublist r a v :
  (int64_min <= clock r < int64_max)%Z -> sublist (ids r) (ids (Insert a v r)).
Proof.
  intros Hc. destruct (Insert_spec r a v Hc) as (p & Hp & -> & _).
  set (r1 := mkRGA (head r) (nodes r) (length_ r) (clock r + 1) (nodeID r)).
  by apply (ids_insertOrdered_sublist r1).
Qed.

Lemma step_monotone names s s' i r :
  sys_inv names s -> step s s' -> s !! i = Some r ->
  exists r', s' !! i = Some r' /\ sublist (ids r) (ids r') /\ tombs r ⊆ tombs r'.
Proof.
  intros Hinv Hs Hr.
  destruct Hs as [s k q a v Hq Hc|s k q id Hq|s k j q o Hq Ho];
    (destruct (decide (k = i)) as [->|Hne];
     [|exists r; rewrite list_lookup_insert_ne by done; done]);
    rewrite Hr in Hq; injection Hq as <-;
    destruct (inv_wf names s Hinv i r Hr) as [Hwf Hcr];
    rewrite list_lookup_insert_eq by (by eapply lookup_lt_Some); eexists; (split; [done|]).
  - assert (int64_min <= clock r < int64_max)%Z by (unfold int64_min; lia).
    rewrite tombs_Insert by done. split; [by apply ids_Insert_sublist|done].
  - destruct (Delete_spec r id Hwf) as (_ & -> & _ & ->). split; [done|]. set_solver.
  - destruct (inv_wf names s Hinv j o Ho) as [Hwfo _].
    destruct (Merge_spec r o Hwf Hwfo) as (_ & _ & -> & ? & _). split; [done|]. set_solver.
Qed.

Lemma run_monotone names s s' i r :
  good_names names -> sys_inv names s -> rtc step s s' -> s !! i = Some r ->
  exists r', s' !! i = Some r' /\ sublist (ids r) (ids r') /\ tombs r ⊆ tombs r'.
Proof.
  intros Hg Hinv Hs. revert r Hinv. induction Hs as [s|s1 s2 s3 H12 _ IH]; intros r Hinv Hr.
  - by exists r.
  - destruct (step_monotone names s1 s2 i r Hinv H12 Hr) as (r2 & Hr2 & Hs2 & Ht2).
    destruct (IH r2) as (r3 & Hr3 & Hs3 & Ht3); [by eapply sys_inv_step|done|].
    exists r3. split; [done|]. split; [by etrans|set_solver].
Qed.

Lemma live_not_tomb r n : wf r -> n ∈ live r -> ID n ∉ tombs r.
Proof.
  intros Hwf [Hd [i Hi]%list_elem_of_lookup]%list_elem_of_filter Ht.
  apply elem_of_tombs in Ht as (m & [j Hj]%list_elem_of_lookup & Hid & Hdm).
  assert (j = i) as ->; [|rewrite Hi in Hj; injection Hj as ->; congruence].
  eapply (NoDup_lookup (ids r)); [apply (wf_nodup r Hwf)| |]; unfold ids;
    rewrite list_lookup_fmap, ?Hj, ?Hi; simpl; by rewrite ?Hid.
Qed.

(** ** Concurrent inserts at one anchor *)

Lemma insertOrdered_splice p a n r :
  p <= length (nodes r) ->
  take p (nodes (insertOrdered p a n r)) = take p (nodes r)
  /\ drop p (nodes (insertOrdered p a n r)) = splice a n false (drop p (nodes r))
  /\ p <= length (nodes (insertOrdered p a n r)).
Proof.
  intros Hp. assert (length (take p (nodes r)) = p) as Hl by (rewrite length_take; lia).
  simpl. rewrite take_app_exact, drop_app_exact, length_app by done. split_and!; try done. lia.
Qed.

Lemma RGA_eq_split p (r r' : RGA) :
  head r = head r' -> length_ r = length_ r' -> clock r = clock r' -> nodeID r = nodeID r' ->
  take p (nodes r) = take p (nodes r') -> drop p (nodes r) = drop p (nodes r') -> r = r'.
Proof.
  destruct r as [h l ? ? ?], r' as [h' l' ? ? ?]. simpl. intros -> -> -> -> Ht Hd.
  f_equal. by rewrite <- (take_drop p l), Ht, Hd, take_drop.
Qed.

(** Delivering nodes one after the other at the same anchor. *)
Definition deliver (p : nat) (a : bytes) (r : RGA) (ns : list RGANode) : RGA :=
  foldl (fun r n => insertOrdered p a n r) r ns.

Lemma deliver_swap p a r n m :
  p <= length (nodes r) -> anchored a (drop p (nodes r)) ->
  OriginID n = a -> OriginID m = a -> ~ same_stamp n m ->
  insertOrdered p a n (insertOrdered p a m r) = insertOrdered p a m (insertOrdered p a n r).
Proof.
  intros Hp Ha Hn Hm Hne.
  destruct (insertOrdered_splice p a n r Hp) as (Tn & Dn & Ln).
  destruct (insertOrdered_splice p a m r Hp) as (Tm & Dm & Lm).
  destruct (insertOrdered_splice p a n _ Lm) as (Tnm & Dnm & _).
  destruct (insertOrdered_splice p a m _ Ln) as (Tmn & Dmn & _).
  apply (RGA_eq_split p); try done.
  - by rewrite Tnm, Tmn, Tn, Tm.
  - rewrite Dnm, Dmn, Dn, Dm. rewrite !splice_anchored by eauto using anchored_splice.
    by apply splice_comm.
Qed.

Lemma deliver_permutation p a ns ms r :
  ns ≡ₚ ms -> p <= length (nodes r) -> anchored a (drop p (nodes r)) ->
  Forall (fun n => OriginID n = a) ns ->
  (forall i j n m, i <> j -> ns !! i = Some n -> ns !! j = Some m -> ~ same_stamp n m) ->
  deliver p a r ns = deliver p a r ms.
Proof.
  intros Hperm. revert r. induction Hperm as [|x l l' Hp IH|x y l|l1 l2 l3 H12 IH1 H23 IH2];
    intros r Hlen Ha Ho Hst.
  - done.
  - apply Forall_cons in Ho as [Hx Ho].
    destruct (insertOrdered_splice p a x r Hlen) as (_ & D & L). simpl. apply IH; try done.
    + rewrite D. by apply anchored_splice.
    + intros i j n m Hij Hi Hj. apply (Hst (S i) (S j)); [lia|done|done].
  - apply Forall_cons in Ho as [Hx Ho]. apply Forall_cons in Ho as [Hy Ho]. simpl.
    rewrite (deliver_swap p a r x y); try done.
    by apply (Hst 1 0).
  - rewrite IH1 by done. apply IH2; try done.
    + by rewrite <- H12.
    + intros i j n m Hij Hi Hj.
      symmetry in H12. apply Permutation_inj in H12 as (Hl & f & Hinj & Hf). rewrite Hf in Hi, Hj.
      apply (Hst (f i) (f j) n m); try done. intros ?. by apply Hij, (inj f).
Qed.

(** At the start of the document every position is anchored. *)
Lemma anchored_head r : wf r -> anchored head_id (nodes r).
Proof.
  intros Hwf. pose proof (wf_causal r Hwf) as Hc. destruct (nodes r) as [|n l]; simpl in *; [done|].
  destruct Hc as [[->|?%not_elem_of_nil]%elem_of_cons _]; done.
Qed.

(** ** Where a node lands when its anchor already has a child *)

Lemma splice_skip_to_end a n l :
  Forall (fun c => OriginID c <> a) l -> splice a n true l = l ++ [n].
Proof. induction 1 as [|c l Hc Hl IH]; simpl; [done|]. rewrite decide_False by done. by rewrite IH. Qed.

(** * Properties *)

(** Replicas used as witnesses: two authors, then a reader. *)
Definition names_AB : list bytes := [str "A"; str "B"].
Definition docA : RGA := Insert head_id (str "a") (NewRGA (str "A")).
Definition docB : RGA := Insert head_id (str "b") (NewRGA (str "B")).
Definition docA' : RGA := Merge docA docB.
Definition sys_AB : list RGA := [docA'; docB].

Lemma good_names_AB : good_names names_AB.
Proof. split; [decide_vm|]. repeat constructor; decide_vm. Qed.

Lemma sys_AB_run : rtc step (NewRGA <$> names_AB) sys_AB.
Proof.
  eapply rtc_l; [eapply (step_insert _ 0 _ head_id (str "a")); [done|vm_compute; done]|].
  eapply rtc_l; [eapply (step_insert _ 1 _ head_id (str "b")); [done|vm_compute; done]|].
  eapply rtc_l; [eapply (step_merge _ 0 1); done|]. apply rtc_refl.
Qed.

Lemma sys_AB_reachable : reachable names_AB sys_AB.
Proof. split; [apply good_names_AB|apply sys_AB_run]. Qed.

(** C13: in every state a system of replicas can reach by inserting, deleting
    and merging in any order, each replica is well formed: node IDs are unique
    and never those of the sentinels, every node stands after the node it was
    inserted after, and [Length] counts the nodes, tombstones included. *)
Theorem rga_reachable_wf (names : list bytes) (s : list RGA) (i : nat) (r : RGA) :
  reachable names s -> s !! i = Some r -> wf r /\ NoDup (IDs r).
Proof.
  intros Hreach Hr. destruct (inv_wf names s (reachable_inv names s Hreach) i r Hr) as [Hwf _].
  split; [done|]. eapply sublist_NoDup; [apply (wf_nodup r Hwf)|].
  apply fmap_sublist, sublist_filter.
Qed.

Lemma rga_reachable_wf_witness : wf docA' /\ NoDup (IDs docA').
Proof. exact (rga_reachable_wf names_AB sys_AB 0 docA' sys_AB_reachable eq_refl). Defined.

(** C12: [Merge] is a join of knowledge: on well-formed replicas it places every
    missing node (none is left as an orphan), so the nodes known afterwards are
    those of either replica and the deleted ones are those either replica had
    deleted; the relative order of the local nodes and the local clock do not
    change, and merging the same replica again changes nothing. *)
Theorem rga_merge_join (r o : RGA) :
  wf r -> wf o ->
  MergeLog r o = Some (Merge r o, [])
  /\ (forall id, id ∈ ids (Merge r o) <-> id ∈ ids r \/ id ∈ ids o)
  /\ tombs (Merge r o) = tombs r ∪ tombs o
  /\ sublist (ids r) (ids (Merge r o))
  /\ clock (Merge r o) = clock r /\ nodeID (Merge r o) = nodeID r
  /\ wf (Merge r o) /\ Merge (Merge r o) o = Merge r o.
Proof.
  intros Hr Ho. destruct (MergeLog_spec r o Hr Ho) as (r' & Hm & _).
  destruct (Merge_spec r o Hr Ho) as (Hwf & Hids & Ht & Hsub & [Hc Hn]).
  split_and!; try done.
  - unfold Merge. by rewrite Hm.
  - apply Merge_noop; try done.
    + intros id Hid. apply Hids. by right.
    + rewrite Ht. set_solver.
Qed.

Lemma rga_merge_join_witness : MergeLog docA docB = Some (Merge docA docB, []).
Proof.
  assert (wf docA /\ wf docB) as [HA HB].
  { split; apply wf_Insert; try apply NewRGA_wf; try (vm_compute; split; congruence);
      intros c v H; apply not_elem_of_nil in H; done. }
  apply (rga_merge_join docA docB HA HB).
Defined.

(** C40: the sweeps of [Merge] stop on every input, well formed or not: each
    pass that places a node leaves fewer deferred, and a pass that places none
    ends the loop. *)
Theorem rga_merge_terminates (r other : RGA) : exists r' orphans,
  MergeLog r other = Some (r', orphans) /\ Merge r other = r'.
Proof.
  destruct (MergeLog_total r other) as [[r' orphans] Hm].
  exists r', orphans. unfold Merge. by rewrite Hm.
Qed.

(** deletion is permanent and nodes never move: along any run, a replica
    keeps its nodes in the same relative order, and a node that was tombstoned
    is never rendered again. *)
Theorem rga_deletes_permanent (names : list bytes) (s s' : list RGA) (i : nat) (r : RGA) (id : bytes) :
  reachable names s -> s !! i = Some r -> id ∈ ids r ->
  rtc step (<[i := Delete id r]> s) s' ->
  exists r', s' !! i = Some r' /\ sublist (ids r) (ids r')
             /\ forall n, n ∈ live r' -> ID n <> id /\ ID n ∉ tombs r.
Proof.
  intros Hreach Hr Hid Hrun. pose proof (reachable_inv names s Hreach) as Hinv.
  destruct Hreach as [Hg _]. destruct (inv_wf names s Hinv i r Hr) as [Hwf _].
  destruct (Delete_spec r id Hwf) as (Hwf' & Hids & _ & Ht).
  pose proof (sys_inv_step names s _ Hg Hinv (step_delete s i r id Hr)) as Hinv1.
  destruct (run_monotone names _ s' i (Delete id r) Hg Hinv1 Hrun) as (r' & Hr' & Hsub & Htm).
  { apply list_lookup_insert_eq. by eapply lookup_lt_Some. }
  exists r'. split; [done|]. rewrite Hids in Hsub. split; [done|]. intros n Hn.
  assert (wf r') as Hwfr.
  { assert (sys_inv names s') as Hinv'.
    { clear Hr'. induction Hrun; [done|]. by apply IHHrun, (sys_inv_step names x). }
    by apply (inv_wf names s' Hinv' i r' Hr'). }
  pose proof (live_not_tomb r' n Hwfr Hn) as Hnt. rewrite Ht, decide_True in Htm by done.
  set_solver.
Qed.

Lemma rga_deletes_permanent_witness :
  exists r', [Delete (HeadNextID docA') docA'; docB] !! 0 = Some r'
    /\ forall n, n ∈ live r' -> ID n <> HeadNextID docA'.
Proof.
  destruct (rga_deletes_permanent names_AB sys_AB [Delete (HeadNextID docA') docA'; docB] 0 docA'
    (HeadNextID docA') sys_AB_reachable eq_refl) as (r' & Hr' & _ & Hl).
  - left.
  - apply rtc_refl.
  - exists r'. split; [done|]. intros n Hn. by apply Hl.
Defined.


Definition nodeC : RGANode := mkNode (str "1:C:c") (str "c") 1 (str "C") false head_id.
Definition nodeD : RGANode := mkNode (str "1:D:d") (str "d") 1 (str "D") false head_id.


(** Replicas that know the same operations need not show the same text.
    The merge records the structural predecessor as the origin of a node it
    learns, so a reader that learns [b] behind [a] takes it for a child of [a];
    a later insert after [a] then lands before [b] on one replica and behind it
    on the other, and no further merge reconciles them. *)
Theorem rga_merge_diverges :
  let a := Insert (str "1:A:a") (str "x") docA' in
  let c := Merge (Merge (NewRGA (str "C")) docA') a in
  ids a ≡ₚ ids c /\ tombs a = tombs c
  /\ String_ a = str "axb" /\ String_ c = str "abx"
  /\ Merge a c = a /\ Merge c a = c.
Proof. decide_vm. Qed.

(** Inserting after a node does not put the text there: when the next node
    is an older child of the anchor and no other child of the anchor follows,
    [insertOrdered] skips the rest of the document and appends.  In particular
    an insertion after the first character of a text typed from left to right
    appears at its end. *)
Theorem rga_insert_behind_anchor_appends (p : nat) (a : bytes) (n c : RGANode) (r : RGA)
    (rest : list RGANode) :
  drop p (nodes r) = c :: rest -> OriginID c = a -> beforeNode c n = true ->
  Forall (fun m => OriginID m <> a) rest ->
  nodes (insertOrdered p a n r) = nodes r ++ [n].
Proof.
  intros Hd Hc Hb Hrest. simpl. rewrite Hd. simpl. rewrite decide_True, Hb by done.
  rewrite splice_skip_to_end by done. rewrite <- (take_drop p (nodes r)) at 2.
  rewrite Hd, <- app_assoc. done.
Qed.

Definition typed : RGA :=
  Insert (str "2:A:b") (str "c") (Insert (str "1:A:a") (str "b") docA).

Definition nodeX : RGANode :=
  mkNode (str "4:A:X") (str "X") 4 (str "A") false (str "1:A:a").

Lemma rga_insert_behind_anchor_appends_witness :
  String_ typed = str "abc"
  /\ nodes (insertOrdered 1 (str "1:A:a") nodeX typed) = nodes typed ++ [nodeX].
Proof.
  split; [vm_compute; reflexivity|].
  apply (rga_insert_behind_anchor_appends 1 (str "1:A:a") _
           (mkNode (str "2:A:b") (str "b") 2 (str "A") false (str "1:A:a")) _
           [mkNode (str "3:A:c") (str "c") 3 (str "A") false (str "2:A:b")]);
    [vm_compute; reflexivity..|].
  repeat constructor. vm_compute. congruence.
Defined.
