(* ===== verification/RgaCodec.v ===== *)
(** * Serialisation of an RGA

    [encodeRGAList], [decodeRGAList], [Marshal] and [Unmarshal].  The node
    count is a uint16 and the origin of a node is an optional field that only
    the presence of further bytes announces; the theorems say on which
    documents this is enough. *)

From S2P Require Import Prelude Bytes OrSetCodec Rga RgaInv.
Local Open Scope go_scope.

Definition encode_node (n : RGANode) : bytes :=
  put_string16 (ID n) ++ put_string16 (Value n) ++ be_put 8 (Timestamp n)
  ++ put_string16 (Author n) ++ [if Deleted n then Byte.x01 else Byte.x00]
  ++ (if decide (OriginID n = []) then [] else put_string16 (OriginID n)).

Definition encodeRGAList (l : list RGANode) : bytes :=
  be_put 2 (Z.of_nat (length l)) ++ concat (encode_node <$> l).

(** The optional origin: errors of the two reads are swallowed. *)
Definition decode_origin : reader bytes := fun b =>
  match b with
  | [] => (Ok [], [])
  | _ => match readUint 2 b with
         | (Ok originLen, b') =>
             if (0 <? originLen)%Z then
               match bufRead (Z.to_nat originLen) b' with
               | (Ok ob, b'') => (Ok ob, b'')
               | (Err _, b'') => (Ok [], b'')
               end
             else (Ok [], b')
         | (Err _, b') => (Ok [], b')
         end
  end.

Definition decode_node : reader RGANode :=
  let! id := get_string16 in
  let! val := get_string16 in
  let! ts := readUint 8 in
  let! auth := get_string16 in
  let! deleted := readByte_or_zero in
  let! origin := decode_origin in
  rret (mkNode id val (wrapS 64 ts) auth (bool_decide (deleted = Byte.x01)) origin).

Definition decodeRGAList (data : bytes) : result (list RGANode) :=
  fst ((let! count := readUint 2 in rrepeat (Z.to_nat count) decode_node) data).

Definition Marshal (r : RGA) : bytes := encodeRGAList (nodes r).

(** The loop of [Unmarshal]; [prev] is the ID of the node linked before. *)
Fixpoint load_nodes (prev : bytes) (l : list RGANode) : list RGANode :=
  match l with
  | [] => []
  | n :: l' => with_origin n (if decide (OriginID n = []) then prev else OriginID n)
               :: load_nodes (ID n) l'
  end.

(** The length counts the nodes that are not deleted; clock and node ID are
    those of the receiving replica. *)
Definition Unmarshal (data : bytes) (r : RGA) : RGA * result unit :=
  match decodeRGAList data with
  | Err e => (r, Err e)
  | Ok l =>
      (mkRGA (head r) (load_nodes (ID (head r)) l)
             (wrapS 64 (Z.of_nat (length (filter (fun n => Deleted n = false) l))))
             (clock r) (nodeID r), Ok tt)
  end.

(** * Lemmas *)

(** A node whose fields fit and whose origin is recorded. *)
Definition node_fits (n : RGANode) : Prop :=
  fits16 (ID n) /\ fits16 (Value n) /\ fits16 (Author n) /\ fits16 (OriginID n)
  /\ OriginID n <> [] /\ (int64_min <= Timestamp n <= int64_max)%Z.

Lemma decode_origin_put o k : fits16 o -> o <> [] -> decode_origin (put_string16 o ++ k) = (Ok o, k).
Proof.
  intros Hf Hne. pose proof (get_put_string16 o k Hf) as Hg.
  unfold decode_origin. destruct (put_string16 o ++ k) as [|x b] eqn:E.
  - apply (f_equal length) in E. unfold put_string16 in E.
    rewrite !length_app, length_be_put in E. simpl in E. lia.
  - rewrite <- E in *. unfold get_string16, put_string16, rbind in *. unfold fits16, len in Hf.
    rewrite <- app_assoc in *. rewrite readUint_be_put in * by (unfold len; simpl; lia).
    assert (0 < len o)%Z as Hpos by (unfold len; destruct o; [done|simpl; lia]).
    apply Z.ltb_lt in Hpos. by rewrite Hpos, Hg.
Qed.

Lemma decode_encode_node n k : node_fits n -> decode_node (encode_node n ++ k) = (Ok n, k).
Proof.
  intros (Hi & Hv & Ha & Ho & Hne & Ht). unfold decode_node, encode_node, rbind.
  rewrite <- !app_assoc, !get_put_string16 by done. rewrite readUint_wrap.
  rewrite get_put_string16 by done. simpl. rewrite decide_False by done.
  rewrite decode_origin_put by done. unfold rret. do 2 f_equal.
  change (Timestamp n mod _)%Z with (wrapU 64 (Timestamp n)).
  unfold int64_min, int64_max in Ht. rewrite wrapS_wrapU, wrapS_small by lia.
  by destruct n as [? ? ? ? [] ?].
Qed.

Lemma rrepeat_prefix {A} (enc : A -> bytes) (m : reader A) (l : list A) c k :
  c <= length l -> Forall (fun a => forall k', m (enc a ++ k') = (Ok a, k')) l ->
  exists k', rrepeat c m (concat (enc <$> l) ++ k) = (Ok (take c l), k').
Proof.
  intros Hc Hl. exists (concat (enc <$> drop c l) ++ k).
  replace (concat (enc <$> l)) with (concat (enc <$> take c l) ++ concat (enc <$> drop c l))
    by (by rewrite <- concat_app, <- fmap_app, take_drop).
  rewrite <- app_assoc. replace c with (length (take c l)) at 1 by (rewrite length_take; lia).
  apply rrepeat_concat. by apply Forall_take.
Qed.

(** The number of nodes a uint16 count announces. *)
Definition count16 {A} (l : list A) : nat := Z.to_nat (Z.of_nat (length l) mod 65536).

Lemma count16_le {A} (l : list A) : count16 l <= length l.
Proof. unfold count16. pose proof (Z.mod_le (Z.of_nat (length l)) 65536). lia. Qed.

(** What survives: as many nodes as the 16-bit count says. *)
Lemma decode_encodeRGAList l :
  Forall node_fits l ->
  decodeRGAList (encodeRGAList l) = Ok (take (count16 l) l).
Proof.
  intros Hl. unfold decodeRGAList, encodeRGAList, rbind. rewrite readUint_wrap.
  change (Z.to_nat (Z.of_nat (length l) mod 2 ^ (Z.of_nat 2 * 8))) with (count16 l).
  destruct (rrepeat_prefix encode_node decode_node l (count16 l) []) as [k' Hk].
  - apply count16_le.
  - eapply Forall_impl; [exact Hl|]. intros n Hn k. by apply decode_encode_node.
  - rewrite app_nil_r in Hk. by rewrite Hk.
Qed.

Lemma load_nodes_id prev l : Forall node_fits l -> load_nodes prev l = l.
Proof.
  intros H. revert prev. induction H as [|n l Hn Hl IH]; intros prev; simpl; [done|].
  destruct Hn as (_ & _ & _ & _ & Hne & _). rewrite decide_False, IH by done. by destruct n.
Qed.

(** * Properties *)

(** what [Unmarshal] makes of [Marshal]: the first [n mod 65536] of the [n]
    nodes (the count is a uint16), with all their fields; the length becomes
    the number of live nodes, and the clock and name stay those of the
    receiving replica. *)
Theorem rga_marshal_roundtrip (r r0 : RGA) :
  Forall node_fits (nodes r) ->
  let kept := take (count16 (nodes r)) (nodes r) in
  Unmarshal (Marshal r) r0
  = (mkRGA (head r0) kept
           (wrapS 64 (Z.of_nat (length (filter (fun n => Deleted n = false) kept))))
           (clock r0) (nodeID r0), Ok tt).
Proof.
  intros Hf kept. unfold Unmarshal, Marshal. rewrite decode_encodeRGAList by done.
  by rewrite load_nodes_id by (by apply Forall_take).
Qed.

Definition codec_doc : RGA :=
  Delete (str "1:A:a")
    (Insert (str "1:A:a") (str "b") (Insert head_id (str "a") (NewRGA (str "A")))).

Lemma rga_marshal_roundtrip_witness :
  Unmarshal (Marshal codec_doc) (NewRGA (str "B"))
  = (mkRGA (head (NewRGA (str "B"))) (nodes codec_doc) 1 0 (str "B"), Ok tt).
Proof.
  apply (rga_marshal_roundtrip codec_doc (NewRGA (str "B"))).
  assert (nodes codec_doc
          = [mkNode (str "1:A:a") (str "a") 1 (str "A") true head_id;
             mkNode (str "2:A:b") (str "b") 2 (str "A") false (str "1:A:a")]) as ->
    by (vm_compute; reflexivity).
  unfold node_fits, fits16, int64_min, int64_max. repeat constructor; vm_compute; congruence.
Defined.

(** [Length] and [Get] do not survive a round trip of a document with a
    tombstone: [Insert] and [Merge] count tombstones, [Unmarshal] does not, so
    the last visible character of the reloaded document is out of bounds. *)
Theorem rga_reload_loses_last_index :
  let r' := (Unmarshal (Marshal codec_doc) (NewRGA (str "A"))).1 in
  nodes r' = nodes codec_doc
  /\ Length codec_doc = 2%Z /\ Get codec_doc 1 = Ok (str "b")
  /\ Length r' = 1%Z /\ Get r' 1 = Err (ErrText "index out of bounds").
Proof. decide_vm. Qed.

(** [Unmarshal] does not restore the clock, so a replica that reloads its
    own document draws identifiers it has already used. *)
Theorem rga_reload_reuses_ids :
  let r := Insert head_id (str "a") (NewRGA (str "A")) in
  let r' := (Unmarshal (Marshal r) (NewRGA (str "A"))).1 in
  let r2 := Insert head_id (str "a") r' in
  ids r2 = [str "1:A:a"; str "1:A:a"]
  /\ String_ (Delete (str "1:A:a") (Delete (str "1:A:a") r2)) = str "a".
Proof. decide_vm. Qed.

(** A payload written without origins does not decode beyond its first
    node: the bytes of the second node are read as the origin of the first, and
    decoding runs out of bytes. *)
Theorem rga_legacy_payload_rejected :
  let n1 := mkNode (str "1:A:a") (str "a") 1 (str "A") false [] in
  let n2 := mkNode (str "2:A:b") (str "b") 2 (str "A") false [] in
  decodeRGAList (encodeRGAList [n1]) = Ok [n1]
  /\ decodeRGAList (encodeRGAList [n1; n2]) = Err EOF.
Proof. decide_vm. Qed.
