(* ===== verification/Merkle.v ===== *)
(** * Merkle trees of pkg/crdt and Merkle proofs of pkg/dht

    [NewMerkleTree], [computeRoot], [hashPair] and [DiffMerkle] (pkg/crdt) and
    [ComputeMerkleRoot] and [VerifyMerkleProof] (pkg/dht/server.go), for any
    hash function to 32 bytes. *)

From Equations Require Import Equations.
From S2P Require Import Prelude Bytes Hash.

Section merkle.
Context `{Hash256}.

Definition hashPair (a b : bytes) : bytes :=
  if bytes_lt a b then sha3 (a ++ b) else sha3 (b ++ a).

(** One level up: the loop of [computeRoot]; an odd last node moves up. *)
Fixpoint pair_up (leaves : list bytes) : list bytes :=
  match leaves with
  | a :: b :: rest => hashPair a b :: pair_up rest
  | [a] => [a]
  | [] => []
  end.

Lemma pair_up_length_le n leaves : length leaves <= n -> length (pair_up leaves) <= length leaves.
Proof.
  revert leaves. induction n as [|n IH]; intros [|a [|b l]] Hn; simpl in *; try lia.
  specialize (IH l). lia.
Qed.

Lemma pair_up_length a b l : length (pair_up (a :: b :: l)) < length (a :: b :: l).
Proof. simpl. pose proof (pair_up_length_le (length l) l). lia. Qed.

Equations? computeRoot (leaves : list bytes) : bytes by wf (length leaves) lt :=
  computeRoot [] := zeroes 32;
  computeRoot [a] := a;
  computeRoot (a :: b :: l) := computeRoot (pair_up (a :: b :: l)).
Proof. pose proof (pair_up_length a b l) as Hlt. simpl in *. lia. Qed.

Record MerkleTree := mkTree { Leaves : list bytes; Root : bytes }.

Definition NewMerkleTree (data : list bytes) : MerkleTree :=
  let leaves := SHA3Hash <$> data in mkTree leaves (computeRoot leaves).

(** [DiffMerkle]: the leaves are put into sets, and the result lists are in the
    order Go ranges over them, here that of [elements]. *)
Definition DiffMerkle (a b : MerkleTree) : list bytes * list bytes :=
  if decide (Root a = Root b) then ([], [])
  else
    let leavesA : gset bytes := list_to_set (Leaves a) in
    let leavesB : gset bytes := list_to_set (Leaves b) in
    (filter (fun leaf => leaf ∉ leavesB) (elements leavesA),
     filter (fun leaf => leaf ∉ leavesA) (elements leavesB)).

(** ** pkg/dht *)

Record MerkleProof := mkProof { ProofRoot : bytes; Branch : list bytes; Leaf : bytes }.

Definition ComputeMerkleRoot (data : bytes) : bytes := sha3 data.

Definition ComputeMerkleRoots (entries : list bytes) : list bytes :=
  ComputeMerkleRoot <$> entries.

(** One round of the loop of [VerifyMerkleProof]. *)
Definition climb (current sibling : bytes) : bytes :=
  if bytes_lt current sibling then sha3 (current ++ sibling) else sha3 (sibling ++ current).

Definition VerifyMerkleProof (root : bytes) (proof : MerkleProof) : bool :=
  bool_decide (foldl climb (ComputeMerkleRoot (Leaf proof)) (Branch proof) = root).

(** * Lemmas *)

Lemma hashPair_comm a b : hashPair a b = hashPair b a.
Proof.
  unfold hashPair. destruct (bytes_lt a b) eqn:E1.
  - by rewrite (bytes_lt_asym _ _ E1).
  - destruct (bytes_lt b a) eqn:E2; [done|]. by rewrite (bytes_lt_total _ _ E1 E2).
Qed.

(** Every node of a level has its parent on the next one. *)
Lemma pair_up_climb n leaves x :
  length leaves <= n -> x ∈ leaves ->
  exists branch, foldl climb x branch ∈ pair_up leaves.
Proof.
  revert leaves. induction n as [|n IH]; intros [|a [|b l]] Hn Hx; simpl in *; try lia;
    try by apply not_elem_of_nil in Hx.
  - apply list_elem_of_singleton in Hx as ->. exists []. left.
  - rewrite !elem_of_cons in Hx. destruct Hx as [->|[->|Hx]].
    + exists [b]. left.
    + exists [a]. simpl. change (climb b a) with (hashPair b a). rewrite hashPair_comm. left.
    + destruct (IH l) as [br Hbr]; [lia|done|]. exists br. by right.
Qed.

Lemma computeRoot_branch n leaves x :
  length leaves <= n -> x ∈ leaves -> exists branch, foldl climb x branch = computeRoot leaves.
Proof.
  revert leaves x. induction n as [|n IH]; intros [|a [|b l]] x Hn Hx;
    try by apply not_elem_of_nil in Hx.
  - simpl in Hn. lia.
  - simpl in Hn. lia.
  - apply list_elem_of_singleton in Hx as ->. exists []. by simp computeRoot.
  - destruct (pair_up_climb _ _ _ (Nat.le_refl _) Hx) as [b1 Hb1].
    destruct (IH (pair_up (a :: b :: l)) (foldl climb x b1)) as [b2 Hb2].
    + pose proof (pair_up_length a b l). simpl in *. lia.
    + done.
    + exists (b1 ++ b2). rewrite foldl_app. by simp computeRoot.
Qed.

Lemma computeRoot_pair a b : computeRoot [a; b] = hashPair a b.
Proof. by simp computeRoot. Qed.

(** * Properties *)

(** Membership proofs are complete: for every item a [MerkleTree] was built
    from there is a branch that [VerifyMerkleProof] accepts against its root. *)
Theorem merkle_proof_complete (data : list bytes) (d : bytes) :
  d ∈ data ->
  exists branch, VerifyMerkleProof (Root (NewMerkleTree data)) (mkProof [] branch d) = true.
Proof.
  intros Hd. destruct (computeRoot_branch _ (SHA3Hash <$> data) (SHA3Hash d) (Nat.le_refl _))
    as [branch Hb]; [by apply list_elem_of_fmap_2|].
  exists branch. unfold VerifyMerkleProof. by apply bool_decide_eq_true.
Qed.

(** What [DiffMerkle] reports when the roots differ is exactly the leaves of
    one tree that the other lacks, without repetition; equal leaf lists are
    never reported as different. *)
Theorem diff_merkle_exact (a b : MerkleTree) (onlyA onlyB : list bytes) :
  DiffMerkle a b = (onlyA, onlyB) ->
  (Root a <> Root b ->
     (forall h, h ∈ onlyA <-> h ∈ Leaves a /\ h ∉ Leaves b)
     /\ (forall h, h ∈ onlyB <-> h ∈ Leaves b /\ h ∉ Leaves a))
  /\ NoDup onlyA /\ NoDup onlyB
  /\ (Leaves a = Leaves b -> onlyA = [] /\ onlyB = []).
Proof.
  unfold DiffMerkle. case_decide as Hr; intros Hd; simplify_eq.
  - split; [done|]. split; [constructor|]. by split; [constructor|].
  - split; [|split; [|split]].
    + intros _. split; intros x; rewrite list_elem_of_filter, elem_of_elements, !elem_of_list_to_set; tauto.
    + apply NoDup_filter, NoDup_elements.
    + apply NoDup_filter, NoDup_elements.
    + intros ->. split; apply elem_of_nil_inv; intros x;
        rewrite list_elem_of_filter, elem_of_elements; tauto.
Qed.

(** Equal roots do not mean equal data: leaves and inner nodes are hashed
    alike, so a tree over two items has the root of the tree over the single
    item that spells out their hashes, and [DiffMerkle] reports no difference
    between the two. *)
Theorem merkle_second_preimage (x y : bytes) :
  let hx := SHA3Hash x in let hy := SHA3Hash y in
  let joined := if bytes_lt hx hy then hx ++ hy else hy ++ hx in
  Root (NewMerkleTree [x; y]) = Root (NewMerkleTree [joined])
  /\ DiffMerkle (NewMerkleTree [x; y]) (NewMerkleTree [joined]) = ([], []).
Proof.
  cbv zeta. set (joined := if _ : bool then _ else _).
  assert (Root (NewMerkleTree [x; y]) = Root (NewMerkleTree [joined])) as Hr.
  { unfold NewMerkleTree, Root. rewrite !fmap_cons, fmap_nil. simp computeRoot. simpl.
    simp computeRoot. unfold hashPair, joined, SHA3Hash. by destruct (bytes_lt _ _). }
  split; [done|]. unfold DiffMerkle. by rewrite decide_True.
Qed.

End merkle.

#[local] Existing Instance sha3_256_hash.

Lemma merkle_proof_complete_witness :
  exists branch,
    VerifyMerkleProof (Root (NewMerkleTree [str "a"; str "b"; str "c"])) (mkProof [] branch (str "c")) = true.
Proof. apply (merkle_proof_complete [str "a"; str "b"; str "c"] (str "c")). right. right. left. Defined.

Lemma diff_merkle_exact_witness :
  DiffMerkle (mkTree [str "a"; str "b"] (str "r")) (mkTree [str "b"] (str "s")) = ([str "a"], [])
  /\ NoDup [str "a"].
Proof.
  assert (DiffMerkle (mkTree [str "a"; str "b"] (str "r")) (mkTree [str "b"] (str "s"))
          = ([str "a"], [])) as Hd by decide_vm.
  split; [exact Hd|]. apply (diff_merkle_exact _ _ _ _ Hd).
Defined.
