(* ===== verification/Float.v ===== *)
(** * float64

    IEEE 754 binary64 as Rocq's executable specification floats with the
    precision and exponent range of the format, rounding to nearest even.  The
    conversion of a float to int64 truncates; out of range Go leaves the result
    to the implementation, and the value below is the one of amd64. *)

From Corelib Require Export SpecFloat.
From S2P Require Import Prelude.

Abbreviation float64 := spec_float.

#[global] Instance float64_eq_dec : EqDecision float64.
Proof. solve_decision. Defined.

Definition f64_of_Z (z : Z) : float64 := binary_normalize 53 1024 z 0 false.
Definition f64_add : float64 -> float64 -> float64 := SFadd 53 1024.
Definition f64_sub : float64 -> float64 -> float64 := SFsub 53 1024.
Definition f64_mul : float64 -> float64 -> float64 := SFmul 53 1024.
Definition f64_div : float64 -> float64 -> float64 := SFdiv 53 1024.
Definition f64_lt : float64 -> float64 -> bool := SFltb.

(** The constant 0.5. *)
Definition f64_half : float64 := S754_finite false 4503599627370496 (-53).

(** The integer part of a finite float. *)
Definition f64_trunc (f : float64) : option Z :=
  match f with
  | S754_zero _ => Some 0%Z
  | S754_finite s m e =>
      let v := if (0 <=? e)%Z then (Zpos m * 2 ^ e)%Z else (Zpos m / 2 ^ (- e))%Z in
      Some (if s then (- v)%Z else v)
  | _ => None
  end.

Definition f64_to_int64 (f : float64) : Z :=
  match f64_trunc f with
  | Some z => if ((int64_min <=? z) && (z <=? int64_max))%Z then z else int64_min
  | None => int64_min
  end.

Lemma f64_to_int64_range f : (int64_min <= f64_to_int64 f <= int64_max)%Z.
Proof.
  unfold f64_to_int64. destruct (f64_trunc f) as [z|]; [|vm_compute; split; congruence].
  destruct (Z.leb_spec int64_min z), (Z.leb_spec z int64_max); simpl; try lia;
    vm_compute; split; congruence.
Qed.

(** ** The order of floats

    [NaN] compares with nothing; on the other floats [<] is a strict weak
    order: exponents decide before mantissas, as in a normalised float. *)
Definition f64_is_nan (f : float64) : bool := match f with S754_nan => true | _ => false end.

Lemma f64_lt_irrefl a : f64_lt a a = false.
Proof.
  destruct a as [[]|[]| |[] m e]; try done; unfold f64_lt, SFltb; simpl;
    rewrite ?Z.compare_refl, ?Pos.compare_cont_refl; done.
Qed.

Lemma SFltb_finite s1 m1 e1 s2 m2 e2 :
  SFltb (S754_finite s1 m1 e1) (S754_finite s2 m2 e2) = true <->
  match s1, s2 with
  | true, false => True
  | false, true => False
  | true, true => (e2 < e1)%Z \/ (e1 = e2 /\ (m2 < m1)%positive)
  | false, false => (e1 < e2)%Z \/ (e1 = e2 /\ (m1 < m2)%positive)
  end.
Proof.
  unfold SFltb; simpl. destruct s1, s2; simpl; try (split; (done || congruence)).
  - destruct (Z.compare_spec e1 e2); try (split; intros; (done || lia)).
    change (Pos.compare_cont Eq m1 m2) with (Pos.compare m1 m2).
    destruct (Pos.compare_spec m1 m2); simpl; split; intros; (done || lia).
  - destruct (Z.compare_spec e1 e2); try (split; intros; (done || lia)).
    change (Pos.compare_cont Eq m1 m2) with (Pos.compare m1 m2).
    destruct (Pos.compare_spec m1 m2); simpl; split; intros; (done || lia).
Qed.

(** If [c] is above [a], it is above whatever is not above [a]. *)
Lemma f64_lt_weak a b c :
  f64_is_nan b = false -> f64_lt a c = true -> f64_lt a b = false -> f64_lt b c = true.
Proof.
  unfold f64_lt.
  destruct a as [sa|sa| |sa ma ea], b as [sb|sb| |sb mb eb], c as [sc|sc| |sc mc ec];
    try destruct sa; try destruct sb; try destruct sc; try done; intros _;
    rewrite ?SFltb_finite; intros H1 H2; try done;
    try (apply not_true_iff_false in H2; rewrite SFltb_finite in H2); lia.
Qed.

Lemma f64_lt_trans a b c : f64_lt a b = true -> f64_lt b c = true -> f64_lt a c = true.
Proof.
  unfold f64_lt.
  destruct a as [sa|sa| |sa ma ea], b as [sb|sb| |sb mb eb], c as [sc|sc| |sc mc ec];
    try destruct sa; try destruct sb; try destruct sc; try done;
    rewrite ?SFltb_finite; intros H1 H2; try done; lia.
Qed.

Lemma f64_lt_asym a b : f64_lt a b = true -> f64_lt b a = false.
Proof.
  intros H. destruct (f64_lt b a) eqn:E; [|done].
  pose proof (f64_lt_trans _ _ _ H E) as C. by rewrite f64_lt_irrefl in C.
Qed.

(** Not above is transitive below the non-[NaN] floats. *)
Lemma f64_ge_trans a b c :
  f64_is_nan b = false -> f64_lt a b = false -> f64_lt b c = false -> f64_lt a c = false.
Proof.
  intros Hn H1 H2. destruct (f64_lt a c) eqn:E; [|done].
  by rewrite (f64_lt_weak a b c Hn E H1) in H2.
Qed.
