(* ===== verification/Bits.v ===== *)
(** * Leading zero bits and nonce search

    The two proof-of-work checks of the program count the leading zero bits of
    a hash (pkg/security) or compare it with a power of two (pkg/dht), and the
    routing table indexes its buckets by the position of the first set bit.
    [lzb] is the common reference; the lemmas relate it to the numeric
    comparison.  [first_nonce] is the search loop of the solvers. *)

From S2P Require Import Prelude Bytes.

(** Leading zero bits of one byte, of a byte string. *)
Definition lzb8 (b : byte) : Z := if decide (u8 b = 0%Z) then 8 else (7 - Z.log2 (u8 b))%Z.

Fixpoint lzb (bs : bytes) : Z :=
  match bs with
  | [] => 0
  | b :: rest => if decide (u8 b = 0%Z) then (8 + lzb rest)%Z else lzb8 b
  end.

(** The first of the [2^k] nonces from [start] on that satisfies [ok]: the
    loop [for nonce < limit { if ok { return }; nonce++ }] cut in halves, so
    that it can be run with a limit of [2^32]. *)
Fixpoint first_nonce (k : nat) (ok : Z -> bool) (start : Z) : option Z :=
  match k with
  | O => if ok start then Some start else None
  | S k' => match first_nonce k' ok start with
            | Some n => Some n
            | None => first_nonce k' ok (start + 2 ^ Z.of_nat k')
            end
  end.

(** * Lemmas *)

Lemma lzb_range bs : (0 <= lzb bs <= 8 * len bs)%Z.
Proof.
  induction bs as [|b bs IH]; [vm_compute; split; congruence|].
  cbn [lzb]. unfold len in *. cbn [length]. rewrite Nat2Z.inj_succ. case_decide as Hb; [lia|].
  unfold lzb8. rewrite decide_False by done. pose proof (u8_range b) as Hr.
  assert (0 <= Z.log2 (u8 b) < 8)%Z; [|lia].
  split; [apply Z.log2_nonneg|]. apply Z.log2_lt_pow2; lia.
Qed.

(** A byte string is below [2^(n-d)] exactly when it has [d] leading zeros. *)
Lemma lzb_spec bs d :
  (0 <= d <= 8 * len bs)%Z -> (d <= lzb bs <-> be_get bs < 2 ^ (8 * len bs - d))%Z.
Proof.
  revert d. induction bs as [|b bs IH]; intros d Hd.
  - unfold len in *. simpl in *. assert (d = 0%Z) as -> by lia. rewrite be_get_nil. simpl. lia.
  - rewrite be_get_cons. pose proof (be_get_range bs) as Hr. pose proof (u8_range b) as Hb.
    pose proof (lzb_range bs) as Hl. unfold len in *. cbn [length lzb] in *.
    rewrite Nat2Z.inj_succ in *. set (n := Z.of_nat (length bs)) in *.
    assert (0 <= n)%Z as Hn by lia. case_decide as Hz.
    + rewrite Hz, Z.mul_0_l, Z.add_0_l. destruct (decide (8 <= d)%Z) as [H8|H8].
      * specialize (IH (d - 8)%Z). replace (8 * Z.succ n - d)%Z with (8 * n - (d - 8))%Z by lia.
        rewrite <- IH by lia. lia.
      * split; [|lia]. intros _. eapply Z.lt_le_trans; [apply Hr|]. apply Z.pow_le_mono_r; lia.
    + unfold lzb8. rewrite decide_False by done.
      assert (0 < u8 b)%Z as Hpos by lia. pose proof (Z.log2_spec _ Hpos) as Hlog.
      pose proof (Z.log2_nonneg (u8 b)) as Hln. set (k := Z.log2 (u8 b)) in *.
      assert (k < 8)%Z as Hk by (apply Z.log2_lt_pow2; lia). split.
      * intros Hdk. apply Z.lt_le_trans with (2 ^ Z.succ k * 2 ^ (8 * n))%Z; [nia|].
        rewrite <- Z.pow_add_r by lia. apply Z.pow_le_mono_r; lia.
      * intros Hlt. destruct (decide (d <= 7 - k)%Z); [done|].
        exfalso. assert (2 ^ (8 * Z.succ n - d) <= 2 ^ k * 2 ^ (8 * n))%Z; [|nia].
        rewrite <- Z.pow_add_r by lia. apply Z.pow_le_mono_r; lia.
Qed.

Lemma first_nonce_spec k ok start :
  match first_nonce k ok start with
  | Some n => (start <= n < start + 2 ^ Z.of_nat k)%Z /\ ok n = true
              /\ forall m, (start <= m < n)%Z -> ok m = false
  | None => forall m, (start <= m < start + 2 ^ Z.of_nat k)%Z -> ok m = false
  end.
Proof.
  revert start. induction k as [|k IH]; intros start; cbn [first_nonce].
  - change (2 ^ Z.of_nat 0)%Z with 1%Z. destruct (ok start) eqn:E.
    + split; [lia|]. split; [done|]. intros m ?. lia.
    + intros m Hm. by replace m with start by lia.
  - rewrite Nat2Z.inj_succ, Z.pow_succ_r by lia. pose proof (IH start) as H1.
    assert (0 < 2 ^ Z.of_nat k)%Z by (apply Z.pow_pos_nonneg; lia).
    destruct (first_nonce k ok start) as [n|].
    + destruct H1 as (? & ? & ?). split; [lia|done].
    + pose proof (IH (start + 2 ^ Z.of_nat k)%Z) as H2.
      destruct (first_nonce k ok (start + 2 ^ Z.of_nat k)) as [n|].
      * destruct H2 as (? & ? & H2). split; [lia|]. split; [done|]. intros m Hm.
        destruct (decide (m < start + 2 ^ Z.of_nat k)%Z); [apply H1|apply H2]; lia.
      * intros m Hm. destruct (decide (m < start + 2 ^ Z.of_nat k)%Z); [apply H1|apply H2]; lia.
Qed.
