(* ===== verification/NodeId.v ===== *)
(** * Node identifiers of pkg/dht

    A [NodeID] is 32 bytes.  [Xor], [PrefixLen] (the two nested loops over
    bytes and bits), [xorDist] and [compareDist] are written as the code writes
    them; the lemmas give their numeric meaning: the distance is the exclusive
    or of the 256-bit numbers, [compareDist] the order of those numbers, and
    [PrefixLen] the number of leading zero bits. *)

From S2P Require Import Prelude Bytes Hash Bits.

Abbreviation NodeID := bytes.

Definition NodeIDFromPub `{Hash256} (pub : bytes) : NodeID := sha3 pub.

Definition byte_xor (a b : byte) : byte := byte_of (Z.lxor (u8 a) (u8 b)).

Definition Xor (id other : NodeID) : bytes := zip_with byte_xor id other.

(** The inner loop: the highest [j] from 7 down to 0 whose bit is set. *)
Definition first_set_bit (b : byte) : option Z :=
  list_find (fun j => Z.land (u8 b) (Z.shiftl 1 j) <> 0%Z) [7; 6; 5; 4; 3; 2; 1; 0]%Z
    ≫= fun p => Some p.2.

Fixpoint prefixLen_from (i : Z) (id : NodeID) : option Z :=
  match id with
  | [] => None
  | b :: rest =>
      if decide (u8 b = 0%Z) then prefixLen_from (i + 1) rest
      else match first_set_bit b with
           | Some j => Some (i * 8 + (7 - j))%Z
           | None => prefixLen_from (i + 1) rest
           end
  end.

Definition PrefixLen (id : NodeID) : Z :=
  match prefixLen_from 0 id with Some n => n | None => 256 end.

Definition xorDist (a b : NodeID) : bytes := Xor a b.

Definition compareDist (a b : bytes) : comparison := bytes_compare a b.

(** The test the sorts are called with, as the order it decides:
    [not_farther t a b] when [b] is not strictly closer to [t] than [a]. *)
Definition not_farther (target a b : NodeID) : Prop :=
  compareDist (xorDist b target) (xorDist a target) <> Lt.

#[global] Instance not_farther_dec t : RelDecision (not_farther t) :=
  fun a b => decide (compareDist (xorDist b t) (xorDist a t) <> Lt).

(** * Lemmas *)

Lemma length_Xor a b : length a = length b -> length (Xor a b) = length a.
Proof. intros H. unfold Xor. rewrite length_zip_with. lia. Qed.

Lemma lxor_lt_pow2 a b n : (0 <= n -> 0 <= a < 2 ^ n -> 0 <= b < 2 ^ n -> 0 <= Z.lxor a b < 2 ^ n)%Z.
Proof.
  intros Hn Ha Hb. split; [apply Z.lxor_nonneg; lia|]. rewrite <- (Z.mod_small a (2 ^ n)), <- (Z.mod_small b (2 ^ n)) by done.
  replace (Z.lxor (a mod 2 ^ n) (b mod 2 ^ n)) with (Z.lxor a b mod 2 ^ n)%Z.
  - apply Z.mod_pos_bound. lia.
  - apply Z.bits_inj'. intros i Hi. rewrite Z.lxor_spec.
    destruct (decide (i < n)%Z).
    + rewrite !Z.mod_pow2_bits_low by done. apply Z.lxor_spec.
    + by rewrite !Z.mod_pow2_bits_high by lia.
Qed.

Lemma u8_byte_xor a b : u8 (byte_xor a b) = Z.lxor (u8 a) (u8 b).
Proof.
  unfold byte_xor. rewrite u8_byte_of. apply Z.mod_small.
  apply (lxor_lt_pow2 _ _ 8); [done|apply u8_range..].
Qed.

(** Exclusive or works on the high and the low part apart. *)
Lemma lxor_split x y p q n :
  (0 <= n -> 0 <= p < 2 ^ n -> 0 <= q < 2 ^ n ->
   Z.lxor (x * 2 ^ n + p) (y * 2 ^ n + q) = Z.lxor x y * 2 ^ n + Z.lxor p q)%Z.
Proof.
  intros Hn Hp Hq. pose proof (lxor_lt_pow2 p q n Hn Hp Hq) as Hpq.
  rewrite <- !lor_shiftl_add by done. apply Z.bits_inj'. intros i Hi.
  rewrite !Z.lxor_spec, !Z.lor_spec, Z.lxor_spec. destruct (decide (i < n)%Z).
  - by rewrite !Z.shiftl_spec_low.
  - rewrite <- (Z.mod_small p (2 ^ n)), <- (Z.mod_small q (2 ^ n)) by done.
    rewrite !Z.mod_pow2_bits_high by lia. rewrite !Z.shiftl_spec_high, Z.lxor_spec by lia.
    by rewrite !orb_false_r.
Qed.

(** The distance is the exclusive or of the numbers. *)
Lemma be_get_Xor a b : length a = length b -> be_get (Xor a b) = Z.lxor (be_get a) (be_get b).
Proof.
  revert b. induction a as [|x a IH]; intros [|y b] H; try done.
  injection H as H. unfold Xor in *. cbn [zip_with]. rewrite !be_get_cons, (IH b H), u8_byte_xor.
  unfold len. rewrite length_zip_with, <- H, Nat.min_id.
  rewrite lxor_split; [done|lia| |].
  - apply be_get_range.
  - rewrite H. apply be_get_range.
Qed.

Lemma compareDist_lxor a b t :
  length a = length t -> length b = length t ->
  compareDist (xorDist a t) (xorDist b t)
  = Z.compare (Z.lxor (be_get a) (be_get t)) (Z.lxor (be_get b) (be_get t)).
Proof.
  intros Ha Hb. unfold compareDist, xorDist.
  rewrite bytes_compare_be by (rewrite !length_Xor; lia). by rewrite !be_get_Xor.
Qed.

Lemma not_farther_lxor a b t :
  length a = length t -> length b = length t ->
  not_farther t a b
  <-> (Z.lxor (be_get a) (be_get t) <= Z.lxor (be_get b) (be_get t))%Z.
Proof. intros Ha Hb. unfold not_farther. rewrite compareDist_lxor by done. apply Z.compare_ge_iff. Qed.

#[global] Instance not_farther_total t : Total (not_farther t).
Proof.
  intros a b. unfold not_farther, compareDist.
  rewrite (bytes_compare_antisym (xorDist a t) (xorDist b t)).
  destruct (bytes_compare (xorDist a t) (xorDist b t)); simpl; auto.
Qed.

#[global] Instance not_farther_trans t : Transitive (not_farther t).
Proof.
  intros a b c. unfold not_farther, compareDist.
  set (x := xorDist a t). set (y := xorDist b t). set (z := xorDist c t).
  intros Hxy Hyz Hzx. destruct (bytes_compare y z) eqn:E.
  - apply bytes_compare_eq in E. congruence.
  - apply Hxy. by eapply bytes_compare_trans_lt.
  - apply Hyz. rewrite (bytes_compare_antisym y z), E. done.
Qed.

(** No two identifiers are at the same distance of a third. *)
Lemma not_farther_anti a b t :
  length a = length t -> length b = length t ->
  not_farther t a b -> not_farther t b a -> a = b.
Proof.
  intros Ha Hb H1 H2. rewrite not_farther_lxor in H1, H2 by done.
  apply be_get_inj; [lia|].
  assert (Z.lxor (be_get a) (be_get t) = Z.lxor (be_get b) (be_get t)) as H by lia.
  apply (f_equal (fun z => Z.lxor z (be_get t))) in H.
  by rewrite !Z.lxor_assoc, Z.lxor_nilpotent, !Z.lxor_0_r in H.
Qed.

Lemma first_set_bit_lzb8 b : u8 b <> 0%Z -> exists j, first_set_bit b = Some j /\ (7 - j)%Z = lzb8 b.
Proof. destruct b; intros H; [done|..]; (eexists; split; [vm_compute; reflexivity|reflexivity]). Qed.

Lemma prefixLen_from_lzb i id :
  match prefixLen_from i id with
  | Some n => n = (i * 8 + lzb id)%Z /\ (lzb id < 8 * len id)%Z
  | None => lzb id = (8 * len id)%Z
  end.
Proof.
  revert i. induction id as [|b id IH]; intros i; [done|].
  cbn [prefixLen_from lzb]. unfold len in *. cbn [length]. rewrite Nat2Z.inj_succ.
  case_decide as Hb.
  - specialize (IH (i + 1)%Z). destruct (prefixLen_from (i + 1) id); lia.
  - destruct (first_set_bit_lzb8 b Hb) as (j & -> & ->). split; [done|].
    unfold lzb8. rewrite decide_False by done. pose proof (Z.log2_nonneg (u8 b)). lia.
Qed.

(** The nested loops of [PrefixLen] count the leading zero bits. *)
Lemma PrefixLen_lzb id : length id = 32 -> PrefixLen id = lzb id.
Proof.
  intros H. pose proof (prefixLen_from_lzb 0 id) as Hp. unfold PrefixLen, len in *.
  rewrite H in Hp. destruct (prefixLen_from 0 id); lia.
Qed.

#[export] Hint Resolve length_Xor not_farther_anti : localweb.
