(* ===== verification/Routing.v ===== *)
(** * The Kademlia routing table of pkg/dht

    [Peer] values are shared: the table and [Node.peers] hold pointers to the
    same [Peer], and [existing.Info = ...] through one is seen through the
    other.  A [heap] is the list of the [PeerInfo]s allocated so far and a
    pointer is an index in it; the buckets hold pointers.  [KBucket], the 256
    buckets of [RoutingTable] and their methods follow the code; [now] is the
    reading of [time.Now].  The locks are left out: every method holds the lock
    of its receiver for its whole body. *)

From S2P Require Import Prelude Bytes Hash Bits Float NodeId.

Definition KBucketSize : nat := 20.
Definition Alpha : nat := 3.
Definition MaxHops : nat := 15.

Record PeerInfo := mkPeerInfo {
  ID : NodeID;
  PublicKey : bytes;
  Name : bytes;
  Addrs : list bytes;
  Services : list bytes;
  Score : float64;
  LastSeen : Z;
  FirstSeen : Z;
  Version : bytes;
}.

#[global] Instance PeerInfo_eq_dec : EqDecision PeerInfo.
Proof. solve_decision. Defined.

Definition zero_float : float64 := S754_zero false.

Definition zeroPeerInfo : PeerInfo :=
  mkPeerInfo (zeroes 32) (zeroes 32) [] [] [] zero_float 0 0 [].

Definition set_LastSeen (t : Z) (p : PeerInfo) : PeerInfo :=
  mkPeerInfo (ID p) (PublicKey p) (Name p) (Addrs p) (Services p) (Score p) t
    (FirstSeen p) (Version p).

Definition set_Score (s : float64) (p : PeerInfo) : PeerInfo :=
  mkPeerInfo (ID p) (PublicKey p) (Name p) (Addrs p) (Services p) s (LastSeen p)
    (FirstSeen p) (Version p).

(** ** The heap of [Peer]s *)

Abbreviation heap := (list PeerInfo).
Abbreviation ref := nat.

(** [&Peer{Info: pi}] *)
Definition alloc (pi : PeerInfo) (h : heap) : ref * heap := (length h, h ++ [pi]).

(** [p.Info] *)
Definition info (h : heap) (r : ref) : PeerInfo := default zeroPeerInfo (h !! r).

(** ** Buckets *)

Abbreviation KBucket := (list ref).

Definition NewKBucket : KBucket := [].

Definition has_id (h : heap) (id : NodeID) (r : ref) : Prop := ID (info h r) = id.

#[global] Instance has_id_dec h id : forall r, Decision (has_id h id r) :=
  fun r => decide (ID (info h r) = id).

Definition KBucket_Add (now : Z) (p : ref) (h : heap) (b : KBucket) : heap * KBucket * bool :=
  match list_find (has_id h (ID (info h p))) b with
  | Some (_, existing) =>
      (alter (fun e => set_Score (Score (info h p)) (set_LastSeen now e)) existing h, b, false)
  | None =>
      if decide (KBucketSize <= length b) then (h, b, false)
      else (alter (set_LastSeen now) p h, b ++ [p], true)
  end.

Definition KBucket_Remove (h : heap) (id : NodeID) (b : KBucket) : KBucket :=
  match list_find (has_id h id) b with
  | Some (i, _) => take i b ++ drop (S i) b
  | None => b
  end.

(** The order [sort.Slice] and [sort.SliceStable] are called with. *)
Definition closer_eq (h : heap) (target : NodeID) (r s : ref) : Prop :=
  not_farther target (ID (info h r)) (ID (info h s)).

#[global] Instance closer_eq_dec h t : RelDecision (closer_eq h t) :=
  fun r s => decide (not_farther t (ID (info h r)) (ID (info h s))).

Definition KBucket_GetClosest (n : nat) (target : NodeID) (h : heap) (b : KBucket) : list ref :=
  let peers := merge_sort (closer_eq h target) b in
  if decide (n < length peers) then take n peers else peers.

Definition KBucket_All (b : KBucket) : list ref := b.

(** ** The table *)

Record RoutingTable := mkTable {
  localID : NodeID;
  buckets : list KBucket;
}.

Definition NewRoutingTable (local : NodeID) : RoutingTable :=
  mkTable local (replicate 256 NewKBucket).

Definition BucketIndex (id : NodeID) : Z :=
  let prefixLen := PrefixLen id in
  if (255 <? prefixLen)%Z then 0 else prefixLen.

Definition bucket (rt : RoutingTable) (id : NodeID) : KBucket :=
  default [] (buckets rt !! Z.to_nat (BucketIndex id)).

Definition set_bucket (id : NodeID) (b : KBucket) (rt : RoutingTable) : RoutingTable :=
  mkTable (localID rt) (<[Z.to_nat (BucketIndex id) := b]> (buckets rt)).

Definition Table_Add (now : Z) (p : ref) (h : heap) (rt : RoutingTable)
    : heap * RoutingTable * bool :=
  let id := ID (info h p) in
  let '(h', b', added) := KBucket_Add now p h (bucket rt id) in
  (h', set_bucket id b' rt, added).

Definition Table_Remove (h : heap) (id : NodeID) (rt : RoutingTable) : RoutingTable :=
  set_bucket id (KBucket_Remove h id (bucket rt id)) rt.

Definition AllPeers (rt : RoutingTable) : list ref := concat (KBucket_All <$> buckets rt).

Definition FindClosest (h : heap) (target : NodeID) (n : nat) (rt : RoutingTable) : list ref :=
  let result := concat (KBucket_All <$> buckets rt) in
  if decide (length result = 0) then [] else
  let result := merge_sort (closer_eq h target) result in
  if decide (n < length result) then take n result else result.

Definition Table_Len (rt : RoutingTable) : nat :=
  foldl (fun n b => n + length b) 0 (buckets rt).

(** The loop of [PruneStale] over one bucket: a snapshot of the bucket is
    walked while the bucket itself shrinks. *)
Definition prune_bucket (cutoff : Z) (h : heap) (b : KBucket) : KBucket * nat :=
  foldl (fun '(b', removed) p =>
           if time_before (LastSeen (info h p)) cutoff
           then (KBucket_Remove h (ID (info h p)) b', S removed)
           else (b', removed))
    (b, 0) (KBucket_All b).

Definition PruneStale (now ttl : Z) (h : heap) (rt : RoutingTable) : RoutingTable * nat :=
  let cutoff := time_add now (wrapS 64 (- ttl)) in
  let res := prune_bucket cutoff h <$> buckets rt in
  (mkTable (localID rt) (fst <$> res), foldl (fun n p => n + snd p) 0 res).

#[global] Arguments PruneStale : simpl never.
#[global] Arguments AllPeers : simpl never.

(** ** Invariant *)

(** Bucket [i]: at most 20 peers, all allocated, with distinct identifiers
    that map to this bucket. *)
Record bucket_ok (h : heap) (i : nat) (b : KBucket) : Prop := {
  bucket_size : length b <= KBucketSize;
  bucket_alloc : Forall (fun r => r < length h) b;
  bucket_index : Forall (fun r => BucketIndex (ID (info h r)) = Z.of_nat i) b;
  bucket_nodup : NoDup (ID ∘ info h <$> b);
}.

Definition table_ok (h : heap) (rt : RoutingTable) : Prop :=
  length (buckets rt) = 256 /\ forall i b, buckets rt !! i = Some b -> bucket_ok h i b.

(** A heap that has grown, or in which peers were updated, without a change of
    identifier. *)
Definition heap_ext (h h' : heap) : Prop :=
  length h <= length h' /\ forall r, r < length h -> ID (info h' r) = ID (info h r).

(** * Lemmas *)

Lemma info_alter_ID f h r s :
  (forall p, ID (f p) = ID p) -> ID (info (alter f r h) s) = ID (info h s).
Proof.
  intros Hf. unfold info. rewrite list_lookup_alter. case_decide as Hn; [|done].
  subst s. destruct (h !! r); simpl; auto.
Qed.

Lemma heap_ext_refl h : heap_ext h h.
Proof. done. Qed.

Lemma heap_ext_trans h1 h2 h3 : heap_ext h1 h2 -> heap_ext h2 h3 -> heap_ext h1 h3.
Proof. intros [L1 E1] [L2 E2]. split; [lia|]. intros r Hr. rewrite E2, E1; [done|lia..]. Qed.

Lemma heap_ext_alloc h pi : heap_ext h (h ++ [pi]).
Proof.
  split; [rewrite length_app; lia|]. intros r Hr. unfold info. by rewrite lookup_app_l.
Qed.

Lemma heap_ext_alter f h r : (forall p, ID (f p) = ID p) -> heap_ext h (alter f r h).
Proof. intros Hf. split; [by rewrite length_alter|]. intros s _. by apply info_alter_ID. Qed.

Lemma info_alloc h pi : info (h ++ [pi]) (length h) = pi.
Proof. unfold info. by rewrite list_lookup_middle. Qed.

#[export] Hint Resolve heap_ext_refl heap_ext_alloc heap_ext_alter heap_ext_trans : localweb.

Lemma fmap_ID_ext h h' b :
  heap_ext h h' -> Forall (fun r => r < length h) b -> ID ∘ info h' <$> b = ID ∘ info h <$> b.
Proof.
  intros [_ E] Hb. apply list_fmap_ext. intros i r Hr. simpl. apply E.
  by eapply Forall_lookup_1 in Hb.
Qed.

Lemma bucket_ok_ext h h' i b : heap_ext h h' -> bucket_ok h i b -> bucket_ok h' i b.
Proof.
  intros HE [Hs Ha Hi Hn]. split; [done|..].
  - eapply Forall_impl; [exact Ha|]. intros r Hr. destruct HE. simpl in *. lia.
  - rewrite Forall_forall in *. intros r Hr. destruct HE as [_ HE].
    rewrite HE by by apply Ha. by apply Hi.
  - by rewrite (fmap_ID_ext h h').
Qed.

Lemma table_ok_ext h h' rt : heap_ext h h' -> table_ok h rt -> table_ok h' rt.
Proof. intros HE [HL HB]. split; [done|]. intros i b Hb. eapply bucket_ok_ext; eauto. Qed.

Lemma BucketIndex_range id : (0 <= BucketIndex id < 256)%Z.
Proof.
  unfold BucketIndex. destruct (Z.ltb_spec 255 (PrefixLen id)); [lia|].
  split; [|lia]. unfold PrefixLen in *. pose proof (prefixLen_from_lzb 0 id) as Hp.
  destruct (prefixLen_from 0 id); [|lia]. destruct Hp as [-> _]. pose proof (lzb_range id). lia.
Qed.

Lemma bucket_lookup h rt id :
  table_ok h rt -> buckets rt !! Z.to_nat (BucketIndex id) = Some (bucket rt id).
Proof.
  intros [HL _]. unfold bucket. pose proof (BucketIndex_range id).
  destruct (lookup_lt_is_Some_2 (buckets rt) (Z.to_nat (BucketIndex id))) as [b Hb]; [lia|].
  by rewrite Hb.
Qed.

Lemma set_bucket_ok h rt id b :
  table_ok h rt -> bucket_ok h (Z.to_nat (BucketIndex id)) b -> table_ok h (set_bucket id b rt).
Proof.
  intros [HL HB] Hb. split; [by simpl; rewrite length_insert|].
  simpl. intros i b' Hi. apply list_lookup_insert_Some in Hi as [(<- & <- & _)|[_ Hi]]; auto.
Qed.

Lemma list_find_has_id_None h id b :
  list_find (has_id h id) b = None <-> id ∉ (ID ∘ info h <$> b).
Proof.
  rewrite list_find_None, Forall_forall, list_elem_of_fmap. unfold has_id. simpl. split.
  - intros H (r & -> & Hr). by eapply H.
  - intros H r Hr E. apply H. eauto.
Qed.

Lemma KBucket_Add_heap now p h b : heap_ext h (KBucket_Add now p h b).1.1.
Proof. unfold KBucket_Add. case_tests; auto with localweb. Qed.

Lemma KBucket_Add_ok now p h i b :
  bucket_ok h i b -> p < length h -> BucketIndex (ID (info h p)) = Z.of_nat i ->
  bucket_ok (KBucket_Add now p h b).1.1 i (KBucket_Add now p h b).1.2.
Proof.
  intros Hb Hp Hi. pose proof (KBucket_Add_heap now p h b) as HE.
  eapply bucket_ok_ext in Hb as Hb'; [|exact HE].
  unfold KBucket_Add in *. destruct (list_find _ b) as [[k e]|] eqn:E; [done|].
  case_decide as Hs; [done|]. simpl in *. destruct Hb' as [_ Ha HI Hn].
  apply list_find_has_id_None in E. split.
  - rewrite length_app. unfold KBucketSize in *. simpl. lia.
  - apply Forall_app; split; [done|]. constructor; [|done]. destruct HE. lia.
  - apply Forall_app; split; [done|]. constructor; [|done]. by rewrite info_alter_ID.
  - rewrite fmap_app. apply NoDup_app. split; [done|]. split; [|apply NoDup_singleton].
    intros x Hx Hx'. apply list_elem_of_singleton in Hx'. simpl in Hx'.
    rewrite (fmap_ID_ext h) in Hx by (auto with localweb; apply Hb).
    rewrite info_alter_ID in Hx' by done. by subst x.
Qed.

Lemma Table_Add_ok now p h rt :
  table_ok h rt -> p < length h ->
  heap_ext h (Table_Add now p h rt).1.1 /\
  table_ok (Table_Add now p h rt).1.1 (Table_Add now p h rt).1.2.
Proof.
  intros Hrt Hp. unfold Table_Add. set (id := ID (info h p)).
  pose proof (bucket_lookup h rt id Hrt) as Hb. pose proof (BucketIndex_range id) as Hr.
  pose proof (KBucket_Add_heap now p h (bucket rt id)) as HE.
  destruct Hrt as [HL HB]. pose proof (HB _ _ Hb) as Hok.
  apply (KBucket_Add_ok now p) in Hok; [|done|fold id; lia].
  destruct (KBucket_Add now p h (bucket rt id)) as [[h' b'] added]. simpl in *.
  split; [done|]. apply set_bucket_ok; [|done]. by apply (table_ok_ext h).
Qed.

Lemma bucket_ok_sublist h i b b' : sublist b' b -> bucket_ok h i b -> bucket_ok h i b'.
Proof.
  intros Hsub [Hs Ha Hi Hn]. split.
  - apply sublist_length in Hsub. lia.
  - by apply (sublist_Forall _ b' b).
  - by apply (sublist_Forall _ b' b).
  - eapply sublist_NoDup; [exact Hn|]. by apply fmap_sublist.
Qed.

Lemma KBucket_Remove_sublist h id b : sublist (KBucket_Remove h id b) b.
Proof.
  unfold KBucket_Remove. destruct (list_find _ b) as [[i r]|]; [|done].
  rewrite <- (take_drop i b) at 3. apply sublist_app; [done|].
  replace (drop (S i) b) with (drop 1 (drop i b)) by (rewrite drop_drop; f_equal; lia).
  apply sublist_drop.
Qed.

Lemma Table_Remove_ok h id rt : table_ok h rt -> table_ok h (Table_Remove h id rt).
Proof.
  intros Hrt. apply set_bucket_ok; [done|].
  eapply bucket_ok_sublist; [apply KBucket_Remove_sublist|].
  apply Hrt, (bucket_lookup _ _ _ Hrt).
Qed.

Lemma NewRoutingTable_ok h local : table_ok h (NewRoutingTable local).
Proof.
  split; [apply length_replicate|]. intros i b [-> _]%lookup_replicate.
  split; [simpl; lia|constructor..].
Qed.

(** ** The table as a set of identifiers *)

Definition table_ids (h : heap) (rt : RoutingTable) : list NodeID := ID ∘ info h <$> AllPeers rt.

Lemma AllPeers_concat rt : AllPeers rt = concat (buckets rt).
Proof. unfold AllPeers, KBucket_All. by rewrite list_fmap_id. Qed.

Lemma concat_ids_nodup h bs k :
  (forall i b, bs !! i = Some b -> bucket_ok h (k + i) b) ->
  NoDup (ID ∘ info h <$> concat bs)
  /\ Forall (fun id => (Z.of_nat k <= BucketIndex id)%Z) (ID ∘ info h <$> concat bs).
Proof.
  revert k. induction bs as [|b bs IH]; intros k H; [split; constructor|].
  pose proof (H 0 b eq_refl) as [_ _ Hi Hn]. rewrite Nat.add_0_r in Hi.
  destruct (IH (S k)) as [IHn IHk].
  { intros i b' Hb'. replace (S k + i) with (k + S i) by lia. by apply H. }
  cbn [concat]. rewrite fmap_app, Forall_app, NoDup_app. repeat split; try done.
  - intros x Hx Hx'. apply list_elem_of_fmap in Hx as (r & -> & Hr).
    rewrite Forall_forall in Hi. rewrite Forall_forall in IHk. specialize (Hi r Hr). specialize (IHk _ Hx'). simpl in *. lia.
  - rewrite Forall_fmap. eapply Forall_impl; [exact Hi|]. simpl. lia.
  - eapply Forall_impl; [exact IHk|]. simpl. lia.
Qed.

Lemma table_ids_nodup h rt : table_ok h rt -> NoDup (table_ids h rt).
Proof.
  intros [_ HB]. unfold table_ids. rewrite AllPeers_concat.
  by apply (concat_ids_nodup h (buckets rt) 0).
Qed.

Lemma elem_of_concat_lookup {A} (ls : list (list A)) x :
  x ∈ concat ls <-> exists i l, ls !! i = Some l /\ x ∈ l.
Proof.
  induction ls as [|l ls IH]; simpl.
  - rewrite elem_of_nil. split; [done|]. intros (i & l & H & _). done.
  - rewrite elem_of_app, IH. split.
    + intros [H|(i & l' & H & H')]; [by exists 0, l|by exists (S i), l'].
    + intros ([|i] & l' & H & H'); simplify_eq/=; [by left|]. right. eauto.
Qed.

(** A peer is in the table exactly when it is in the bucket of its index. *)
Lemma elem_of_AllPeers h rt r :
  table_ok h rt -> r ∈ AllPeers rt <-> r ∈ bucket rt (ID (info h r)).
Proof.
  intros Hrt. rewrite AllPeers_concat, elem_of_concat_lookup. split.
  - intros (i & b & Hb & Hr). destruct Hrt as [HL HB]. unfold bucket.
    destruct (HB _ _ Hb) as [_ _ Hi _]. rewrite Forall_forall in Hi.
    specialize (Hi r Hr). simpl in Hi. rewrite Hi, Nat2Z.id, Hb. done.
  - intros H. exists (Z.to_nat (BucketIndex (ID (info h r)))), (bucket rt (ID (info h r))).
    split; [by apply (bucket_lookup h)|done].
Qed.

Lemma elem_of_table_ids h rt id :
  table_ok h rt -> id ∈ table_ids h rt <-> id ∈ (ID ∘ info h <$> bucket rt id).
Proof.
  intros Hrt. unfold table_ids. rewrite !list_elem_of_fmap. split.
  - intros (r & -> & Hr). exists r. split; [done|]. by apply (elem_of_AllPeers h).
  - intros (r & -> & Hr). exists r. split; [done|]. by apply (elem_of_AllPeers h).
Qed.

Lemma concat_size h bs k :
  (forall i b, bs !! i = Some b -> bucket_ok h (k + i) b) ->
  length (concat bs) <= length bs * KBucketSize.
Proof.
  revert k. induction bs as [|b bs IH]; intros k H; simpl; [lia|].
  rewrite length_app. pose proof (bucket_size _ _ _ (H 0 b eq_refl)).
  assert (length (concat bs) <= length bs * KBucketSize); [|unfold KBucketSize in *; lia].
  apply (IH (S k)). intros i b' Hb'. replace (S k + i) with (k + S i) by lia. by apply H.
Qed.

Lemma foldl_add_concat {A} (bs : list (list A)) n :
  foldl (fun n b => n + length b) n bs = n + length (concat bs).
Proof. revert n. induction bs as [|b bs IH]; intros n; simpl; [lia|]. rewrite IH, length_app. lia. Qed.

Lemma Table_Len_AllPeers rt : Table_Len rt = length (AllPeers rt).
Proof. unfold Table_Len. rewrite AllPeers_concat. apply (foldl_add_concat _ 0). Qed.

(** ** The closest peers *)

(** What a search for the [n] smallest elements of [l] has to return. *)
Definition smallest {A} (R : A -> A -> Prop) (n : nat) (l res : list A) : Prop :=
  length res = n `min` length l /\ StronglySorted R res
  /\ exists rest, l ≡ₚ res ++ rest /\ forall x y, x ∈ res -> y ∈ rest -> R x y.

Lemma sort_take_smallest {A} (R : A -> A -> Prop) `{RelDecision A A R, Transitive A R, Total A R} n l :
  smallest R n l (take n (merge_sort R l)).
Proof.
  assert (StronglySorted R (merge_sort R l)) as Hs by (by apply StronglySorted_merge_sort).
  pose proof (merge_sort_Permutation R l) as Hp.
  rewrite <- (take_drop n (merge_sort R l)) in Hs. apply StronglySorted_app in Hs as (Hc & Hs & _).
  split; [|split; [done|]].
  - by rewrite length_take, Hp.
  - exists (drop n (merge_sort R l)). rewrite take_drop. by rewrite Hp.
Qed.

Lemma take_if_longer {A} n (l : list A) : (if decide (n < length l) then take n l else l) = take n l.
Proof. case_decide; [done|]. by rewrite take_ge by lia. Qed.

#[global] Instance closer_eq_trans h t : Transitive (closer_eq h t).
Proof. intros x y z. unfold closer_eq. apply not_farther_trans. Qed.

#[global] Instance closer_eq_total h t : Total (closer_eq h t).
Proof. intros x y. apply not_farther_total. Qed.

Lemma FindClosest_smallest h t n rt :
  smallest (closer_eq h t) n (AllPeers rt) (FindClosest h t n rt).
Proof.
  unfold FindClosest. fold (AllPeers rt). case_decide as H0.
  - apply length_zero_iff_nil in H0. rewrite H0. split; [by rewrite Nat.min_0_r|].
    split; [constructor|]. exists []. split; [done|]. intros x y []%elem_of_nil.
  - rewrite take_if_longer. apply sort_take_smallest; apply _.
Qed.

Lemma KBucket_GetClosest_smallest h t n b :
  smallest (closer_eq h t) n b (KBucket_GetClosest n t h b).
Proof. unfold KBucket_GetClosest. rewrite take_if_longer. apply sort_take_smallest; apply _. Qed.

Lemma smallest_subset {A} (R : A -> A -> Prop) n l res x : smallest R n l res -> x ∈ res -> x ∈ l.
Proof. intros (_ & _ & rest & -> & _) Hx. apply elem_of_app. by left. Qed.

(** ** Pruning *)

Definition stale (cutoff : Z) (h : heap) (p : ref) : Prop :=
  time_before (LastSeen (info h p)) cutoff = true.

#[global] Instance stale_dec cutoff h : forall p, Decision (stale cutoff h p) :=
  fun p => decide (_ = true).

Lemma KBucket_Remove_mid h l1 p l2 :
  ID (info h p) ∉ (ID ∘ info h <$> l1) ->
  KBucket_Remove h (ID (info h p)) (l1 ++ p :: l2) = l1 ++ l2.
Proof.
  intros H. unfold KBucket_Remove.
  rewrite (proj2 (list_find_Some (has_id h (ID (info h p))) (l1 ++ p :: l2) (length l1) p)).
  - rewrite take_app_length. f_equal.
    replace (l1 ++ p :: l2) with ((l1 ++ [p]) ++ l2) by by rewrite <- app_assoc.
    apply drop_app_exact. rewrite length_app. simpl. lia.
  - split; [by apply list_lookup_middle|]. split; [done|]. intros j y Hy Hj Hid.
    rewrite lookup_app_l in Hy by done. apply H. apply list_elem_of_fmap. exists y.
    split; [by symmetry|]. by eapply list_elem_of_lookup_2.
Qed.

Lemma prune_loop cutoff h l1 l2 n :
  NoDup (ID ∘ info h <$> l1 ++ l2) ->
  foldl (fun '(b', removed) p =>
           if time_before (LastSeen (info h p)) cutoff
           then (KBucket_Remove h (ID (info h p)) b', S removed)
           else (b', removed)) (l1 ++ l2, n) l2
  = (l1 ++ filter (fun p => ~ stale cutoff h p) l2, n + length (filter (stale cutoff h) l2)).
Proof.
  revert l1 n. induction l2 as [|p l2 IH]; intros l1 n Hn.
  - simpl. rewrite filter_nil, Nat.add_0_r. done.
  - cbn [foldl]. rewrite !filter_cons.
    destruct (time_before (LastSeen (info h p)) cutoff) eqn:E; fold (stale cutoff h p) in E.
    + rewrite decide_False, decide_True by auto. rewrite KBucket_Remove_mid.
      * rewrite IH; [f_equal; simpl; lia|]. eapply sublist_NoDup; [exact Hn|].
        apply fmap_sublist, sublist_app_mid.
      * rewrite fmap_app in Hn. apply NoDup_app in Hn as (_ & Hn & _). intros Hin.
        apply (Hn _ Hin). left.
    + rewrite decide_True, decide_False by (unfold stale; congruence).
      replace (l1 ++ p :: l2) with ((l1 ++ [p]) ++ l2) in * by by rewrite <- app_assoc.
      rewrite IH by done. by rewrite <- app_assoc.
Qed.

Lemma prune_bucket_spec cutoff h b :
  NoDup (ID ∘ info h <$> b) ->
  prune_bucket cutoff h b
  = (filter (fun p => ~ stale cutoff h p) b, length (filter (stale cutoff h) b)).
Proof. intros Hn. apply (prune_loop cutoff h [] b 0 Hn). Qed.

Lemma PruneStale_buckets now ttl h rt :
  table_ok h rt ->
  buckets (PruneStale now ttl h rt).1
  = filter (fun p => ~ stale (time_add now (wrapS 64 (- ttl))) h p) <$> buckets rt.
Proof.
  intros [_ HB]. unfold PruneStale. simpl. rewrite <- list_fmap_compose. apply list_fmap_ext.
  intros i b Hb. simpl. rewrite prune_bucket_spec; [done|]. by apply (HB _ _ Hb).
Qed.

Lemma PruneStale_ok now ttl h rt : table_ok h rt -> table_ok h (PruneStale now ttl h rt).1.
Proof.
  intros Hrt. pose proof (PruneStale_buckets now ttl h rt Hrt) as E. destruct Hrt as [HL HB].
  split; rewrite E.
  - by rewrite length_fmap.
  - intros i b. rewrite list_lookup_fmap. intros (b0 & Hb0 & ->)%fmap_Some.
    apply (bucket_ok_sublist h i b0); [apply sublist_filter|by apply HB].
Qed.

Lemma concat_filter {A} (P : A -> Prop) `{forall x, Decision (P x)} (ls : list (list A)) :
  concat (filter P <$> ls) = filter P (concat ls).
Proof. induction ls as [|l ls IH]; [done|]. rewrite fmap_cons. cbn [concat]. by rewrite IH, filter_app. Qed.

(** What is left are the peers seen since the cutoff. *)
Lemma PruneStale_AllPeers now ttl h rt :
  table_ok h rt ->
  AllPeers (PruneStale now ttl h rt).1
  = filter (fun p => ~ stale (time_add now (wrapS 64 (- ttl))) h p) (AllPeers rt).
Proof.
  intros Hrt. rewrite !AllPeers_concat, PruneStale_buckets by done. apply concat_filter.
Qed.

(** ** Distances between distinct identifiers are distinct *)

Lemma StronglySorted_strict {A B} (f : A -> B) (R S : A -> A -> Prop) (l : list A) :
  StronglySorted R l -> NoDup (f <$> l) ->
  (forall x y, x ∈ l -> y ∈ l -> f x <> f y -> R x y -> S x y) -> StronglySorted S l.
Proof.
  induction 1 as [|x l Hl IH Hx]; intros Hn HS; [constructor|].
  apply NoDup_cons in Hn as [Hnx Hn]. constructor.
  - apply IH; [done|]. intros y z Hy Hz. apply HS; by right.
  - rewrite Forall_forall in *. intros y Hy. apply HS; [by left|by right| |by apply Hx].
    intros E. apply Hnx. rewrite E. apply list_elem_of_fmap. eauto.
Qed.

Lemma closer_eq_lt h t r s :
  length t = 32 -> length (ID (info h r)) = 32 -> length (ID (info h s)) = 32 ->
  ID (info h r) <> ID (info h s) -> closer_eq h t r s ->
  (Z.lxor (be_get (ID (info h r))) (be_get t) < Z.lxor (be_get (ID (info h s))) (be_get t))%Z.
Proof.
  intros Ht Hr Hs Hne Hc. unfold closer_eq in Hc. apply not_farther_lxor in Hc as Hle; [|lia..].
  apply Z.le_neq. split; [done|]. intros E. apply Hne.
  apply (not_farther_anti _ _ t); [lia|lia|done|]. apply not_farther_lxor; lia.
Qed.
