(* ===== verification/DhtWire.v ===== *)
(** * The wire formats and the registration proof of work of pkg/dht

    Message framing (the request side of [rpcClient.Call], the reading side of
    [handleConn]), the store payload, the registration payload and its proof of
    work, and the peer lists.  Peer lists travel in the encoding of
    [encoding/gob], which is not part of the sources: [PeerListGob] is the
    interface the models use, with the one law they rely on, and
    [tagged_gob] an instance. *)

From S2P Require Import Prelude Bytes Hash Bits Float NodeId Routing.

Local Open Scope Z_scope.

(** ** Messages *)

Definition MsgPing : Z := 1.
Definition MsgPong : Z := 2.
Definition MsgFindNode : Z := 3.
Definition MsgFoundNode : Z := 4.
Definition MsgStore : Z := 5.
Definition MsgFindValue : Z := 6.
Definition MsgFoundValue : Z := 7.
Definition MsgRegisterNode : Z := 8.

Record Message := mkMessage {
  Type_ : Z;
  Src : NodeID;
  Dst : NodeID;
  Payload : bytes;
}.

#[global] Instance Message_eq_dec : EqDecision Message.
Proof. solve_decision. Defined.

(** A message as both sides write it: type, source, destination, the length as
    a [uint32], the payload. *)
Definition frame (m : Message) : bytes :=
  byte_of (Type_ m) :: Src m ++ Dst m ++ be_put 4 (len (Payload m)) ++ Payload m.

(** What [handleConn] reads before it calls the handler; [None] is one of its
    silent returns. *)
Definition read_request (data : bytes) : option Message :=
  match readFull 65 data with
  | (Ok hdr, rest) =>
      match readUint 4 rest with
      | (Ok plLen, rest) =>
          if plLen >? Z.shiftl 1 20 then None else
          match readFull (Z.to_nat plLen) rest with
          | (Ok pl, _) =>
              Some (mkMessage (match hdr with t :: _ => u8 t | [] => 0 end)
                     (take 32 (drop 1 hdr)) (take 32 (drop 33 hdr)) pl)
          | (Err _, _) => None
          end
      | (Err _, _) => None
      end
  | (Err _, _) => None
  end.

(** What [Call] reads: the fields one by one, and any length. *)
Definition read_response : reader Message := (
  let! t := readFull 1 in
  let! src := readFull 32 in
  let! dst := readFull 32 in
  let! plLen := readUint 4 in
  let! pl := readFull (Z.to_nat plLen) in
  rret (mkMessage (be_get t) src dst pl))%go.

(** ** Store payloads *)

Definition encodeStore (key value : bytes) : bytes := be_put 2 (len key) ++ key ++ value.

Definition decodeStore (data : bytes) : bytes * bytes :=
  if len data <? 2 then ([], []) else
  let kLen := be_get (take 2 data) in
  if len data <? 2 + kLen then ([], []) else
  (take (Z.to_nat kLen) (drop 2 data), drop (Z.to_nat (2 + kLen)) data).

(** ** Registration *)

Definition MinPoWDifficulty : Z := 8.
Definition MaxPoWDifficulty : Z := 24.

(** [powNonceCeiling] is [2^32]. *)
Definition powNonceBits : nat := 32.

Definition registrationChallenge (pubKey name : bytes) (addrs : list bytes) : bytes :=
  pubKey ++ name ++ concat ((fun a => byte_of (len a) :: a) <$> addrs).

(** The test of both loops: the digest is below [2^(256-difficulty)]. *)
Definition pow_hit `{Hash256} (data nonce : bytes) (difficulty : Z) : bool :=
  be_get (sha3 (data ++ nonce)) <? Z.shiftl 1 (256 - difficulty).

Definition SolvePoW `{Hash256} (data : bytes) (difficulty : Z) : result bytes :=
  if (difficulty <? MinPoWDifficulty) || (MaxPoWDifficulty <? difficulty)
  then Err (ErrText "pow difficulty outside supported range") else
  match first_nonce powNonceBits (fun nonce => pow_hit data (be_put 8 nonce) difficulty) 0 with
  | Some nonce => Ok (be_put 8 nonce)
  | None => Err (ErrText "pow nonce space exhausted")
  end.

Definition VerifyPoW `{Hash256} (data nonce : bytes) (difficulty : Z) : bool :=
  if decide (length nonce <> 8%nat) then false else
  if (difficulty <? MinPoWDifficulty) || (MaxPoWDifficulty <? difficulty) then false else
  pow_hit data nonce difficulty.

Definition MaxUint16 : Z := 65535.

(** The address loop of [encodeRegister]: it stops at the second address. *)
Fixpoint addr_block (i : Z) (addrs : list bytes) : bytes :=
  match addrs with
  | [] => []
  | a :: rest =>
      if (1 <=? i) || (MaxUint16 <? len a) then []
      else byte_of (Z.shiftr (len a) 8) :: byte_of (len a) :: a ++ addr_block (i + 1) rest
  end.

Definition encodeRegister (pi : PeerInfo) (nonce : bytes) (difficulty : Z) : bytes :=
  let name := if MaxUint16 <? len (Name pi) then take (Z.to_nat MaxUint16) (Name pi)
              else Name pi in
  let addrBlock := addr_block 0 (Addrs pi) in
  PublicKey pi ++ (take 8 nonce ++ zeroes (8 - length nonce)) ++ [byte_of difficulty]
  ++ be_put 2 (len name) ++ name ++ be_put 2 (len addrBlock) ++ addrBlock.

(** The address loop of [decodeRegister] on the bytes between [off] and the
    end of the block.  An iteration consumes at least three bytes, so the
    length of the block is fuel enough (lemma [parse_addrs_fuel]). *)
Fixpoint parse_addrs (fuel : nat) (block : bytes) : option (list bytes) :=
  match block with
  | [] => Some []
  | _ =>
      match fuel with
      | O => None
      | S fuel' =>
          if len block <? 2 then None else
          let l := be_get (take 2 block) in
          let rest := drop 2 block in
          if (l =? 0) || (len rest <? l) then None else
          match parse_addrs fuel' (drop (Z.to_nat l) rest) with
          | Some addrs => Some (take (Z.to_nat l) rest :: addrs)
          | None => None
          end
      end
  end.

Record Registration := mkRegistration {
  reg_pubKey : bytes;
  reg_nonce : bytes;
  reg_difficulty : Z;
  reg_name : bytes;
  reg_addrs : list bytes;
}.

#[global] Instance Registration_eq_dec : EqDecision Registration.
Proof. solve_decision. Defined.

(** [None] is [ok = false]; the only caller then ignores the other results. *)
Definition decodeRegister (data : bytes) : option Registration :=
  let header := 43 in
  if len data <? header then None else
  let pubKey := take 32 data in
  let nonce := take 8 (drop 32 data) in
  let difficulty := be_get (take 1 (drop 40 data)) in
  let nameLen := be_get (take 2 (drop 41 data)) in
  if len data <? header + nameLen + 2 then None else
  let name := take (Z.to_nat nameLen) (drop 43 data) in
  let addrBase := header + nameLen in
  let addrLen := be_get (take 2 (drop (Z.to_nat addrBase) data)) in
  if len data <? addrBase + 2 + addrLen then None else
  let block := take (Z.to_nat addrLen) (drop (Z.to_nat (addrBase + 2)) data) in
  match parse_addrs (length block) block with
  | Some addrs => Some (mkRegistration pubKey nonce difficulty name addrs)
  | None => None
  end.

(** ** Peer lists *)

Record simplePeer := mkSimplePeer {
  sp_ID : bytes;
  sp_PublicKey : bytes;
  sp_Name : bytes;
  sp_Addrs : list bytes;
  sp_Services : list bytes;
  sp_Score : float64;
  sp_Version : bytes;
}.

(** [ID] has type [[32]byte]. *)
Definition simple_typed (p : simplePeer) : Prop := length (sp_ID p) = 32%nat.

#[global] Instance simple_typed_dec p : Decision (simple_typed p) := decide (_ = _).

(** [encoding/gob] on a [[]simplePeer]: decoding an encoded value gives it
    back (below the 1 GiB message bound of the decoder), and what is decoded
    has the type it is decoded into. *)
Class PeerListGob := {
  gob_encode : list simplePeer -> bytes;
  gob_decode : bytes -> result (list simplePeer);
  gob_decode_encode : forall l,
    Forall simple_typed l -> len (gob_encode l) < 2 ^ 30 -> gob_decode (gob_encode l) = Ok l;
  gob_decode_typed : forall b l, gob_decode b = Ok l -> Forall simple_typed l;
}.

Definition to_simple (p : PeerInfo) : simplePeer :=
  mkSimplePeer (ID p) (PublicKey p) (Name p) (Addrs p) (Services p) (Score p) (Version p).

Definition of_simple (now : Z) (t : simplePeer) : PeerInfo :=
  mkPeerInfo (sp_ID t) (sp_PublicKey t) (sp_Name t) (sp_Addrs t) (sp_Services t) (sp_Score t)
    now 0 (sp_Version t).

Definition encodePeerList `{PeerListGob} (peers : list PeerInfo) : bytes :=
  gob_encode (to_simple <$> peers).

Definition decodePeerList `{PeerListGob} (now : Z) (data : bytes) : result (list PeerInfo) :=
  match gob_decode data with
  | Ok tmp => Ok (of_simple now <$> tmp)
  | Err e => Err e
  end.

(** * Lemmas *)

Local Close Scope Z_scope.

Definition message_ok (m : Message) : Prop :=
  (0 <= Type_ m < 256)%Z /\ length (Src m) = 32 /\ length (Dst m) = 32.

Lemma read_response_frame m k :
  message_ok m -> (len (Payload m) < 2 ^ 32)%Z ->
  read_response (frame m ++ k) = (Ok m, k).
Proof.
  intros (Ht & Hs & Hd) Hp. destruct m as [t s d p]. unfold read_response, frame.
  cbn [Type_ Src Dst Payload] in *.
  assert (0 <= len p)%Z by (unfold len; lia).
  change (byte_of t :: ?x) with ([byte_of t] ++ x). rewrite <- !app_assoc. unfold rbind.
  rewrite readFull_app by done. rewrite readFull_app by done. rewrite readFull_app by done.
  rewrite readUint_be_put by lia. rewrite readFull_app by (unfold len; lia).
  unfold rret. rewrite be_get_cons, be_get_nil, u8_byte_of, Z.mod_small by lia.
  unfold len. simpl. by rewrite Z.mul_1_r, Z.add_0_r.
Qed.

Lemma read_request_frame m k :
  message_ok m -> (len (Payload m) <= 2 ^ 20)%Z ->
  read_request (frame m ++ k) = Some m.
Proof.
  intros (Ht & Hs & Hd) Hp. destruct m as [t s d p]. unfold read_request, frame.
  cbn [Type_ Src Dst Payload] in *.
  assert (0 <= len p)%Z by (unfold len; lia).
  replace ((byte_of t :: s ++ d ++ be_put 4 (len p) ++ p) ++ k)
    with ((byte_of t :: s ++ d) ++ (be_put 4 (len p) ++ (p ++ k)))
    by (cbn [app]; by rewrite <- !app_assoc).
  rewrite (readFull_app 65) by (cbn [length]; rewrite length_app; lia).
  change (2 ^ 20)%Z with 1048576%Z in Hp. rewrite readUint_be_put by (simpl; lia).
  destruct (Z.gtb_spec (len p) (Z.shiftl 1 20)) as [Hgt|_]; [change (Z.shiftl 1 20) with 1048576%Z in Hgt; lia|].
  rewrite readFull_app by (unfold len; lia).
  change (drop 1 (byte_of t :: s ++ d)) with (s ++ d).
  change (drop 33 (byte_of t :: s ++ d)) with (drop 32 (s ++ d)).
  rewrite (take_app_exact s), (drop_app_exact s), (take_ge d) by lia.
  by rewrite u8_byte_of, Z.mod_small by lia.
Qed.

Lemma decodeStore_encodeStore key value :
  (len key < 2 ^ 16)%Z -> decodeStore (encodeStore key value) = (key, value).
Proof.
  intros Hk. unfold decodeStore, encodeStore. assert (0 <= len key)%Z by (unfold len; lia).
  rewrite take_app_exact, drop_app_exact by apply length_be_put.
  rewrite be_get_put_small by lia. unfold len in *.
  rewrite !length_app, length_be_put.
  destruct (Z.ltb_spec (Z.of_nat (2 + (length key + length value))) 2); [lia|].
  destruct (Z.ltb_spec (Z.of_nat (2 + (length key + length value))) (2 + Z.of_nat (length key))); [lia|].
  rewrite take_app_exact by lia. f_equal. rewrite app_assoc. apply drop_app_exact.
  rewrite length_app, length_be_put. lia.
Qed.

Lemma pow_hit_lzb `{Hash256} data nonce d :
  (0 <= d <= 256)%Z -> pow_hit data nonce d = true <-> (d <= lzb (sha3 (data ++ nonce)))%Z.
Proof.
  intros Hd. unfold pow_hit. rewrite Z.ltb_lt, Z.shiftl_1_l.
  assert (len (sha3 (data ++ nonce)) = 32%Z) as HL by (unfold len; by rewrite sha3_length).
  rewrite lzb_spec by lia. by rewrite HL.
Qed.

Lemma difficulty_ok d :
  ((d <? MinPoWDifficulty) || (MaxPoWDifficulty <? d))%Z = false <-> (8 <= d <= 24)%Z.
Proof. unfold MinPoWDifficulty, MaxPoWDifficulty. rewrite orb_false_iff, !Z.ltb_ge. lia. Qed.

Lemma parse_addrs_fuel f block :
  length block <= f -> parse_addrs f block = parse_addrs (length block) block.
Proof.
  revert block. induction (lt_wf f) as [f _ IH]. intros block Hf.
  destruct block as [|x block]; [by destruct f|].
  destruct f as [|f]; [simpl in Hf; lia|]. cbn [parse_addrs length].
  case_match; [done|]. case_match; [done|].
  set (rest := drop 2 (x :: block)). set (l := be_get (take 2 (x :: block))) in *.
  assert (length (drop (Z.to_nat l) rest) <= length block) as HL.
  { unfold rest. rewrite !length_drop. simpl. lia. }
  simpl in Hf. rewrite (IH f) by lia. by rewrite (IH (length block)) by lia.
Qed.

Lemma addr_block_first a more :
  (len a <= MaxUint16)%Z -> addr_block 0 (a :: more) = be_put 2 (len a) ++ a.
Proof.
  intros Ha. cbn [addr_block]. destruct (Z.ltb_spec MaxUint16 (len a)); [lia|].
  replace (addr_block (0 + 1) more) with (@nil byte) by by destruct more. by rewrite app_nil_r.
Qed.

Lemma parse_addrs_one a :
  (0 < len a <= MaxUint16)%Z ->
  parse_addrs (length (be_put 2 (len a) ++ a)) (be_put 2 (len a) ++ a) = Some [a].
Proof.
  intros Ha. unfold MaxUint16 in Ha. set (block := be_put 2 (len a) ++ a).
  assert (length block = 2 + length a) as HL by (unfold block; by rewrite length_app, length_be_put).
  assert (take 2 block = be_put 2 (len a)) as HT by (apply take_app_exact, length_be_put).
  assert (drop 2 block = a) as HD by (apply drop_app_exact, length_be_put).
  rewrite HL. destruct block as [|x block']; [done|]. cbn [parse_addrs Nat.add].
  rewrite HT, HD, be_get_put_small by lia. unfold len in *. rewrite HL.
  destruct (Z.ltb_spec (Z.of_nat (2 + length a)) 2); [lia|].
  destruct (Z.eqb_spec (Z.of_nat (length a)) 0); [lia|]. rewrite Z.ltb_irrefl. cbn [orb].
  rewrite Nat2Z.id, firstn_all, drop_all. done.
Qed.

(** The block [encodeRegister] writes is read back as the first address. *)
Lemma parse_addr_block addrs :
  Forall (fun a => 0 < len a <= 65533)%Z addrs ->
  let block := addr_block 0 addrs in
  (len block <= MaxUint16)%Z /\ parse_addrs (length block) block = Some (take 1 addrs).
Proof.
  intros H. destruct addrs as [|a more]; [done|]. inversion_clear H as [|? ? Ha _].
  unfold MaxUint16 in *. rewrite addr_block_first by (unfold MaxUint16; lia). split.
  - unfold len in *. rewrite length_app, length_be_put. lia.
  - rewrite parse_addrs_one by (unfold MaxUint16; lia). simpl. by rewrite take_0.
Qed.

(** Reading fields off a concatenation. *)
Lemma sub_app_exact n m (l1 l2 l3 : bytes) :
  length l1 = n -> length l2 = m -> take m (drop n (l1 ++ l2 ++ l3)) = l2.
Proof. intros H1 H2. by rewrite drop_app_exact, take_app_exact. Qed.

(** Where [decodeRegister] looks for the fields of a payload. *)
Lemma register_layout (pk nonce d ln nm lb blk data : bytes) :
  length pk = 32 -> length nonce = 8 -> length d = 1 -> length ln = 2 -> length lb = 2 ->
  data = pk ++ nonce ++ d ++ ln ++ nm ++ lb ++ blk ->
  length data = 43 + length nm + 2 + length blk
  /\ take 32 data = pk /\ take 8 (drop 32 data) = nonce /\ take 1 (drop 40 data) = d
  /\ take 2 (drop 41 data) = ln /\ take (length nm) (drop 43 data) = nm
  /\ take 2 (drop (43 + length nm) data) = lb /\ drop (43 + length nm + 2) data = blk.
Proof.
  intros Hpk Hno Hd Hln Hlb ->. split; [rewrite !length_app; lia|].
  split; [by apply take_app_exact|]. split; [by apply sub_app_exact|].
  split; [rewrite (app_assoc pk); apply sub_app_exact; rewrite ?length_app; lia|].
  split; [rewrite (app_assoc nonce), (app_assoc pk); apply sub_app_exact;
          rewrite ?length_app; lia|].
  split; [rewrite (app_assoc d), (app_assoc nonce), (app_assoc pk); apply sub_app_exact;
          rewrite ?length_app; lia|].
  split; [rewrite (app_assoc ln), (app_assoc d), (app_assoc nonce), (app_assoc pk);
          apply sub_app_exact; rewrite ?length_app; lia|].
  rewrite (app_assoc nm), (app_assoc ln), (app_assoc d), (app_assoc nonce), (app_assoc pk).
  apply drop_app_exact; rewrite ?length_app; lia.
Qed.

Lemma decodeRegister_fields pk nonce d nm blk :
  length pk = 32 -> length nonce = 8 -> (0 <= d < 256)%Z ->
  (len nm <= MaxUint16)%Z -> (len blk <= MaxUint16)%Z ->
  decodeRegister (pk ++ nonce ++ [byte_of d] ++ be_put 2 (len nm) ++ nm ++ be_put 2 (len blk) ++ blk)
  = match parse_addrs (length blk) blk with
    | Some addrs => Some (mkRegistration pk nonce d nm addrs)
    | None => None
    end.
Proof.
  intros Hpk Hno Hd Hnm Hblk. unfold MaxUint16 in *.
  assert (be_get (be_put 2 (len blk)) = len blk) as Glb
    by (apply be_get_put_small; unfold len in *; lia).
  assert (be_get (be_put 2 (len nm)) = len nm) as Gln
    by (apply be_get_put_small; unfold len in *; lia).
  set (data := pk ++ _).
  destruct (register_layout pk nonce [byte_of d] (be_put 2 (len nm)) nm (be_put 2 (len blk)) blk data)
    as (HL & E1 & E2 & E3 & E4 & E5 & E6 & E7); try done; try apply length_be_put.
  unfold decodeRegister. rewrite E1, E2, E3, E4, Gln. unfold len in *. rewrite HL.
  rewrite (proj2 (Z.ltb_ge _ 43)), (proj2 (Z.ltb_ge _ (43 + _ + 2))) by lia.
  replace (Z.to_nat (43 + Z.of_nat (length nm))) with (43 + length nm) by lia.
  replace (Z.to_nat (43 + Z.of_nat (length nm) + 2)) with (43 + length nm + 2) by lia.
  rewrite E6, E7, Glb, !Nat2Z.id, E5, firstn_all, (proj2 (Z.ltb_ge _ (_ + Z.of_nat (length blk)))) by lia.
  rewrite be_get_cons, be_get_nil, u8_byte_of, Z.mod_small by lia.
  unfold len. simpl. by rewrite Z.mul_1_r, Z.add_0_r.
Qed.

Lemma decodeRegister_encodeRegister pi nonce d :
  length (PublicKey pi) = 32 -> length nonce = 8 -> (0 <= d < 256)%Z ->
  (len (Name pi) <= MaxUint16)%Z -> Forall (fun a => 0 < len a <= 65533)%Z (Addrs pi) ->
  decodeRegister (encodeRegister pi nonce d)
  = Some (mkRegistration (PublicKey pi) nonce d (Name pi) (take 1 (Addrs pi))).
Proof.
  intros Hpk Hno Hd Hname Haddrs. destruct (parse_addr_block _ Haddrs) as [Hbl Hparse].
  unfold encodeRegister. rewrite (proj2 (Z.ltb_ge _ _)) by lia.
  rewrite (take_ge nonce) by lia. rewrite Hno, Nat.sub_diag, app_nil_r.
  rewrite decodeRegister_fields by done. by rewrite Hparse.
Qed.

(** ** A concrete peer-list codec

    Any injective encoding satisfies the law. *)

Definition float_code (f : float64) : Z * bool * positive * Z :=
  match f with
  | S754_zero s => (0, s, 1%positive, 0)%Z
  | S754_infinity s => (1, s, 1%positive, 0)%Z
  | S754_nan => (2, true, 1%positive, 0)%Z
  | S754_finite s m e => (3, s, m, e)%Z
  end.

Definition float_decode (c : Z * bool * positive * Z) : float64 :=
  let '(k, s, m, e) := c in
  if (k =? 0)%Z then S754_zero s else if (k =? 1)%Z then S754_infinity s
  else if (k =? 2)%Z then S754_nan else S754_finite s m e.

#[global] Program Instance float64_countable : Countable float64 :=
  inj_countable' float_code float_decode _.
Next Obligation. by intros []. Qed.

#[global] Instance simplePeer_eq_dec : EqDecision simplePeer.
Proof. solve_decision. Defined.

#[global] Program Instance simplePeer_countable : Countable simplePeer :=
  inj_countable'
    (fun p => (sp_ID p, sp_PublicKey p, sp_Name p, sp_Addrs p, sp_Services p, sp_Score p, sp_Version p))
    (fun '(a, b, c, d, e, f, g) => mkSimplePeer a b c d e f g) _.
Next Obligation. by intros []. Qed.

Definition tagged_gob : PeerListGob.
Proof.
  refine {| gob_encode := fun l => count_encode l;
            gob_decode := fun b => match count_decode b with
                                   | Some l => if decide (Forall simple_typed l) then Ok l
                                               else Err (ErrText "gob: type mismatch")
                                   | None => Err (ErrText "gob: bad data")
                                   end |}.
  - intros l Hl _. by rewrite count_decode_encode, decide_True.
  - intros b l H. by case_tests.
Defined.

Lemma decodePeerList_encodePeerList `{PeerListGob} now ps :
  Forall (fun p => length (ID p) = 32) ps -> (len (encodePeerList ps) < 2 ^ 30)%Z ->
  decodePeerList now (encodePeerList ps) = Ok (of_simple now ∘ to_simple <$> ps).
Proof.
  intros Ht Hl. unfold decodePeerList, encodePeerList in *.
  rewrite gob_decode_encode, <- list_fmap_compose; [done| |done].
  by apply Forall_fmap.
Qed.

Lemma decodePeerList_typed `{PeerListGob} now data ps :
  decodePeerList now data = Ok ps -> Forall (fun p => length (ID p) = 32) ps.
Proof.
  unfold decodePeerList. destruct (gob_decode data) as [l|] eqn:E; [|done].
  intros [= <-]. apply Forall_fmap. exact (gob_decode_typed _ _ E).
Qed.

(** ** Properties *)

(** The registration proof of work is sound and complete: a nonce
    [SolvePoW] returns is accepted by [VerifyPoW] at the same difficulty and no
    smaller nonce is; [VerifyPoW] accepts exactly the eight-byte nonces whose
    digest has that many leading zero bits, for difficulties 8 to 24; and
    [SolvePoW] gives up only when no nonce below [2^32] is accepted. *)
Theorem dht_pow_correct `{Hash256} data nonce d :
  (VerifyPoW data nonce d = true <->
     length nonce = 8 /\ (8 <= d <= 24)%Z /\ (d <= lzb (sha3 (data ++ nonce)))%Z)
  /\ match SolvePoW data d with
     | Ok n => VerifyPoW data n d = true /\ (0 <= be_get n < 2 ^ 32)%Z
               /\ forall m, (0 <= m < be_get n)%Z -> VerifyPoW data (be_put 8 m) d = false
     | Err _ => (8 <= d <= 24)%Z ->
                forall m, (0 <= m < 2 ^ 32)%Z -> VerifyPoW data (be_put 8 m) d = false
     end.
Proof.
  assert (forall n, length n = 8 -> (8 <= d <= 24)%Z -> VerifyPoW data n d = pow_hit data n d) as HV.
  { intros n Hn Hd. unfold VerifyPoW. rewrite decide_False by auto. by rewrite (proj2 (difficulty_ok d)). }
  split.
  - unfold VerifyPoW. case_decide as Hn; [split; [done|tauto]|].
    assert (length nonce = 8) as Hn8 by (destruct (decide (length nonce = 8)); tauto).
    destruct (_ || _) eqn:E.
    + split; [done|]. intros (_ & Hd & _). apply difficulty_ok in Hd. congruence.
    + apply difficulty_ok in E. rewrite pow_hit_lzb by lia. tauto.
  - unfold SolvePoW. destruct (_ || _) eqn:E.
    + intros Hd. apply difficulty_ok in Hd. congruence.
    + apply difficulty_ok in E.
      pose proof (first_nonce_spec powNonceBits (fun n => pow_hit data (be_put 8 n) d) 0) as HS.
      change (0 + 2 ^ Z.of_nat powNonceBits)%Z with (2 ^ 32)%Z in HS.
      destruct (first_nonce _ _ _) as [n|].
      * destruct HS as (Hr & Hhit & Hmin). rewrite be_get_put_small by lia.
        rewrite HV by (done || apply length_be_put). split; [done|]. split; [lia|].
        intros m Hm. rewrite HV by (done || apply length_be_put). by apply Hmin.
      * intros _ m Hm. rewrite HV by (done || apply length_be_put). by apply HS.
Qed.

Lemma dht_pow_facts `{Hash256} data d nonce :
  SolvePoW data d = Ok nonce ->
  (8 <= d <= 24)%Z /\ length nonce = 8 /\ VerifyPoW data nonce d = true.
Proof.
  unfold SolvePoW. destruct (_ || _) eqn:E; [done|]. intros Hs.
  pose proof (first_nonce_spec powNonceBits (fun n => pow_hit data (be_put 8 n) d) 0) as HS.
  destruct (first_nonce _ _ _) as [n|]; [|done]. injection Hs as <-.
  apply difficulty_ok in E as Hd. split; [done|]. split; [apply length_be_put|].
  unfold VerifyPoW. rewrite length_be_put, decide_False, E by auto. apply HS.
Qed.

(** A registration is read back as it was written, except that the payload
    carries the first address only. *)
Lemma registration_payload_drops_addresses :
  let pi := mkPeerInfo (zeroes 32) (zeroes 32) (str "n") [str "a:1"; str "b:2"] []
              f64_half 0 0 [] in
  decodeRegister (encodeRegister pi (zeroes 8) 8)
  = Some (mkRegistration (zeroes 32) (zeroes 8) 8 (str "n") [str "a:1"])
  /\ registrationChallenge (PublicKey pi) (Name pi) (Addrs pi)
     <> registrationChallenge (PublicKey pi) (Name pi) [str "a:1"].
Proof. decide_vm. Qed.

(** * Witness *)

#[local] Existing Instance sha3_256_hash.

(** A challenge that the nonce zero solves at difficulty 8. *)
Definition ex_work : bytes :=
  registrationChallenge (repeat Byte.x07 32) (be_put 2 25865) [str "10.0.0.7:9094"].

Lemma dht_pow_correct_witness : VerifyPoW ex_work (zeroes 8) 8 = true.
Proof.
  apply (proj2 (proj1 (dht_pow_correct ex_work (zeroes 8) 8))). split; [done|]. split; [lia|].
  vm_compute. congruence.
Defined.
