(* ===== verification/DhtNode.v ===== *)
(** * The serving side of a DHT node (pkg/dht, server.go and dht.go)

    A [Node] is the heap of [Peer]s, the routing table, the map of known peers
    (pointers into the same heap) and the value store.  [handleMessage] is the
    whole handler; [handleConn] frames it; [storePeer] is what the client side
    does with a peer it has learned. *)

From S2P Require Import Prelude Bytes Hash Bits Float NodeId Routing DhtWire.

Record Node := mkNode {
  id : NodeID;
  pubKey : bytes;
  name : bytes;
  cells : heap;
  table : RoutingTable;
  peers : gmap bytes ref;
  store : gmap bytes bytes;
  listenAddr : bytes;
  bootstrap : list bytes;
}.

Definition NewNode (localID pub nm : bytes) : Node :=
  mkNode localID pub nm [] (NewRoutingTable localID) ∅ ∅ [] [].

Definition with_peers (h : heap) (rt : RoutingTable) (ps : gmap bytes ref) (n : Node) : Node :=
  mkNode (id n) (pubKey n) (name n) h rt ps (store n) (listenAddr n) (bootstrap n).

Definition with_store (st : gmap bytes bytes) (n : Node) : Node :=
  mkNode (id n) (pubKey n) (name n) (cells n) (table n) (peers n) st (listenAddr n) (bootstrap n).

Definition setListenAddr (addr : bytes) (n : Node) : Node :=
  mkNode (id n) (pubKey n) (name n) (cells n) (table n) (peers n) (store n) addr (bootstrap n).

Definition selfInfo (now : Z) (n : Node) : PeerInfo :=
  mkPeerInfo (id n) (pubKey n) (name n)
    (if decide (listenAddr n = []) then [] else [listenAddr n]) [] zero_float 0 now [].

Definition localValue (key : bytes) (n : Node) : option bytes := store n !! key.

(** A deep copy has the same value. *)
Definition copyPeerInfo (pi : PeerInfo) : PeerInfo := pi.

(** [if existing, ok := n.peers[pi.ID]; ok { existing.Info = pi } else {
    n.peers[pi.ID] = peer; n.table.Add(peer) }] *)
Definition learn (now : Z) (pi : PeerInfo) (n : Node) : Node :=
  match peers n !! ID pi with
  | Some existing => with_peers (<[existing := pi]> (cells n)) (table n) (peers n) n
  | None =>
      let '(peer, h) := alloc pi (cells n) in
      let '(h', rt', _) := Table_Add now peer h (table n) in
      with_peers h' rt' (<[ID pi := peer]> (peers n)) n
  end.

Definition storePeer (now : Z) (pi : PeerInfo) (n : Node) : Node := learn now (copyPeerInfo pi) n.

(** [copy(target[:], payload)] into a zeroed [NodeID]. *)
Definition copy32 (payload : bytes) : NodeID := take 32 payload ++ zeroes (32 - length payload).

Definition registered (now : Z) (src : NodeID) (r : Registration) : PeerInfo :=
  mkPeerInfo src (reg_pubKey r) (reg_name r) (reg_addrs r) [] f64_half 0 now [].

Definition handleMessage `{Hash256, PeerListGob} (now : Z) (msg : Message) (n : Node)
    : Message * Node :=
  let pong := mkMessage MsgPong (id n) (Src msg) [] in
  if decide (Type_ msg = MsgPing) then (pong, n)
  else if decide (Type_ msg = MsgFindNode) then
    let target := copy32 (Payload msg) in
    let ps := FindClosest (cells n) target KBucketSize (table n) in
    let out := selfInfo now n :: (copyPeerInfo ∘ info (cells n) <$> ps) in
    (mkMessage MsgFoundNode (id n) (Src msg) (encodePeerList out), n)
  else if decide (Type_ msg = MsgStore) then
    let '(key, value) := decodeStore (Payload msg) in
    (pong, if decide (key = []) then n else with_store (<[key := value]> (store n)) n)
  else if decide (Type_ msg = MsgFindValue) then
    let '(key, _) := decodeStore (Payload msg) in
    match store n !! key with
    | Some val => (mkMessage MsgFoundValue (id n) (Src msg) (encodeStore key val), n)
    | None => (mkMessage MsgFoundNode (id n) (Src msg) (encodePeerList []), n)
    end
  else if decide (Type_ msg = MsgRegisterNode) then
    match decodeRegister (Payload msg) with
    | None => (pong, n)
    | Some r =>
        if negb (VerifyPoW (registrationChallenge (reg_pubKey r) (reg_name r) (reg_addrs r))
                   (reg_nonce r) (reg_difficulty r)) then (pong, n)
        else if decide (Src msg <> NodeIDFromPub (reg_pubKey r)) then (pong, n)
        else (pong, learn now (registered now (Src msg) r) n)
    end
  else (pong, n).

(** [handleConn]: what the peer reads back, nothing when the request is cut
    short or its payload is announced as longer than 1 MiB. *)
Definition handleConn `{Hash256, PeerListGob} (now : Z) (data : bytes) (n : Node)
    : bytes * Node :=
  match read_request data with
  | None => ([], n)
  | Some msg => let '(resp, n') := handleMessage now msg n in (frame resp, n')
  end.

Definition Node_PruneStale (now ttl : Z) (n : Node) : Node :=
  with_peers (cells n) (PruneStale now ttl (cells n) (table n)).1 (peers n) n.

(** ** Invariant *)

(** The known peers and the table point to the same cells, under the
    identifier the cell holds. *)
Record node_ok (n : Node) : Prop := {
  ok_table : table_ok (cells n) (table n);
  ok_peers : forall i r, peers n !! i = Some r ->
    r < length (cells n) /\ ID (info (cells n) r) = i /\ length i = 32;
  ok_shared : forall r, r ∈ AllPeers (table n) -> peers n !! ID (info (cells n) r) = Some r;
}.

(** The operations a node goes through; the arguments have the lengths their
    Go types fix. *)
Inductive node_step `{Hash256, PeerListGob} : Node -> Node -> Prop :=
| step_message now msg n :
    message_ok msg -> node_step n (handleMessage now msg n).2
| step_storePeer now pi n :
    length (ID pi) = 32 -> node_step n (storePeer now pi n)
| step_prune now ttl n : node_step n (Node_PruneStale now ttl n)
| step_listen addr n : node_step n (setListenAddr addr n).

Definition reachable `{Hash256, PeerListGob} (n : Node) : Prop :=
  exists i pub nm, rtc node_step (NewNode i pub nm) n.

(** * Lemmas *)

Lemma NewNode_ok i pub nm : node_ok (NewNode i pub nm).
Proof.
  split; simpl.
  - apply NewRoutingTable_ok.
  - intros ? ?. by rewrite lookup_empty.
  - intros r. by rewrite AllPeers_concat; simpl; intros ?%elem_of_nil.
Qed.

(** A peer that is not known is not in the table. *)
Lemma unknown_not_in_table n i :
  node_ok n -> peers n !! i = None -> i ∉ table_ids (cells n) (table n).
Proof.
  intros Hn Hi (r & -> & Hr)%list_elem_of_fmap. apply (ok_shared _ Hn) in Hr. simpl in *. congruence.
Qed.

Lemma set_bucket_bucket h rt i b j :
  table_ok h rt -> bucket (set_bucket i b rt) j
    = if decide (BucketIndex i = BucketIndex j) then b else bucket rt j.
Proof.
  intros [HL _]. pose proof (BucketIndex_range i). pose proof (BucketIndex_range j).
  unfold bucket, set_bucket. simpl. case_decide as E.
  - rewrite E, list_lookup_insert_eq; [done|]. lia.
  - rewrite list_lookup_insert_ne by lia. done.
Qed.

(** Adding a peer whose identifier is not in the table: it goes in exactly when
    its bucket has room; nothing else changes. *)
Lemma Table_Add_new now p h rt :
  table_ok h rt -> p < length h -> ID (info h p) ∉ table_ids h rt ->
  let i := ID (info h p) in
  let '(h', rt', added) := Table_Add now p h rt in
  added = bool_decide (length (bucket rt i) < KBucketSize)
  /\ (if added then h' = alter (set_LastSeen now) p h /\ rt' = set_bucket i (bucket rt i ++ [p]) rt
      else h' = h /\ rt' = set_bucket i (bucket rt i) rt).
Proof.
  intros Hrt Hp Hnew. simpl. unfold Table_Add, KBucket_Add.
  rewrite elem_of_table_ids in Hnew by done. apply list_find_has_id_None in Hnew. rewrite Hnew.
  case_decide; case_bool_decide; try lia; done.
Qed.

Lemma elem_of_set_bucket h rt i b r :
  table_ok h rt -> table_ok h (set_bucket i b rt) ->
  r ∈ AllPeers (set_bucket i b rt) <->
    (if decide (BucketIndex i = BucketIndex (ID (info h r))) then r ∈ b else r ∈ AllPeers rt).
Proof.
  intros Hrt Hrt'. rewrite (elem_of_AllPeers h) by done.
  rewrite (set_bucket_bucket h) by done. case_decide; [done|]. by rewrite (elem_of_AllPeers h).
Qed.

(** ** What a node knows

    The abstract view of a node: the description of each known peer, and which
    identifiers the routing table holds. *)

Definition peer_of (n : Node) (j : NodeID) : option PeerInfo := info (cells n) <$> peers n !! j.

Definition in_table (n : Node) (j : NodeID) : Prop := j ∈ table_ids (cells n) (table n).

#[global] Instance in_table_dec n j : Decision (in_table n j) := decide (j ∈ _).

Definition has_room (n : Node) (j : NodeID) : Prop := length (bucket (table n) j) < KBucketSize.

#[global] Instance has_room_dec n j : Decision (has_room n j) := decide (_ < _).

Lemma info_insert_ne h r s pi : r <> s -> info (<[r := pi]> h) s = info h s.
Proof. intros H. unfold info. by rewrite list_lookup_insert_ne. Qed.

Lemma info_insert_eq h r pi : r < length h -> info (<[r := pi]> h) r = pi.
Proof. intros H. unfold info. by rewrite list_lookup_insert_eq. Qed.

Lemma heap_ext_insert h r pi : ID (info h r) = ID pi -> heap_ext h (<[r := pi]> h).
Proof.
  intros H. split; [by rewrite length_insert|]. intros s Hs.
  destruct (decide (r = s)) as [<-|Hn]; [by rewrite info_insert_eq|by rewrite info_insert_ne].
Qed.

Lemma AllPeers_alloc h rt : table_ok h rt -> Forall (fun r => r < length h) (AllPeers rt).
Proof.
  intros [_ HB]. rewrite AllPeers_concat, Forall_forall. intros r.
  rewrite elem_of_concat_lookup. intros (i & b & Hb & Hr).
  pose proof (bucket_alloc _ _ _ (HB _ _ Hb)) as Ha. rewrite Forall_forall in Ha. by apply Ha.
Qed.

Lemma table_ids_ext h h' rt : table_ok h rt -> heap_ext h h' -> table_ids h' rt = table_ids h rt.
Proof. intros Hrt HE. apply fmap_ID_ext; [done|]. by apply AllPeers_alloc. Qed.

Lemma learn_known now pi n r :
  node_ok n -> peers n !! ID pi = Some r ->
  node_ok (learn now pi n)
  /\ (forall j, in_table (learn now pi n) j <-> in_table n j)
  /\ (forall j, peer_of (learn now pi n) j = if decide (j = ID pi) then Some pi else peer_of n j).
Proof.
  intros Hn Hr. unfold learn. rewrite Hr.
  destruct (ok_peers _ Hn _ _ Hr) as (Hlt & HID & H32).
  pose proof (heap_ext_insert _ _ _ HID) as HE.
  assert (table_ok (<[r := pi]> (cells n)) (table n)) as Hok
    by (eapply table_ok_ext; [exact HE|apply Hn]).
  split; [split|split]; simpl.
  - done.
  - intros i s Hs. destruct (ok_peers _ Hn _ _ Hs) as (? & <- & ?).
    rewrite length_insert. split; [done|]. split; [|done]. by apply HE.
  - intros s Hs. pose proof (AllPeers_alloc _ _ (ok_table _ Hn)) as Ha. rewrite Forall_forall in Ha.
    rewrite (proj2 HE) by by apply Ha. by apply Hn.
  - intros j. unfold in_table. simpl. rewrite (table_ids_ext (cells n)); [done|apply Hn|done].
  - intros j. unfold peer_of. simpl. case_decide as Hj.
    + subst j. rewrite Hr. simpl. by rewrite info_insert_eq.
    + destruct (peers n !! j) as [s|] eqn:Hs; [|done]. simpl. rewrite info_insert_ne; [done|].
      intros <-. destruct (ok_peers _ Hn _ _ Hs) as (_ & ? & _). congruence.
Qed.

(** The members of the table after an addition that is not a duplicate. *)
Lemma Table_Add_members now p h rt :
  table_ok h rt -> p < length h -> ID (info h p) ∉ table_ids h rt ->
  let '(h', rt', added) := Table_Add now p h rt in
  added = bool_decide (length (bucket rt (ID (info h p))) < KBucketSize)
  /\ heap_ext h h' /\ table_ok h' rt'
  /\ (forall r, info h' r = if decide (added = true /\ r = p) then set_LastSeen now (info h p) else info h r)
  /\ (forall r, r ∈ AllPeers rt' <-> r ∈ AllPeers rt \/ (added = true /\ r = p)).
Proof.
  intros Hrt Hp Hnew. pose proof (Table_Add_ok now p h rt Hrt Hp) as [HE Hok].
  pose proof (Table_Add_new now p h rt Hrt Hp Hnew) as Hadd.
  destruct (Table_Add now p h rt) as [[h' rt'] added]. simpl in *.
  destruct Hadd as [-> Hadd]. split; [done|]. split; [done|]. split; [done|].
  set (i := ID (info h p)) in *. assert (table_ok h' rt) as Hrt' by by eapply table_ok_ext.
  assert (forall r, r ∈ bucket rt i -> r ∈ AllPeers rt) as Hin.
  { intros r Hr. rewrite AllPeers_concat. apply elem_of_concat_lookup.
    exists (Z.to_nat (BucketIndex i)), (bucket rt i). split; [|done]. by apply (bucket_lookup h). }
  assert (forall r, r ∈ AllPeers rt -> r ∉ bucket rt i -> BucketIndex i <> BucketIndex (ID (info h' r))) as Hout.
  { intros r Hr Hnr E. apply Hnr. rewrite (elem_of_AllPeers h') in Hr by done.
    unfold bucket in *. by rewrite E. }
  case_bool_decide as Hroom; destruct Hadd as [-> ->].
  - split.
    + intros r. unfold info at 1. rewrite list_lookup_alter. destruct (decide (p = r)) as [<-|Hne].
      * rewrite decide_True by done. unfold info.
        destruct (lookup_lt_is_Some_2 h p Hp) as [x Hx]. by rewrite Hx.
      * rewrite decide_False by naive_solver. done.
    + intros r. rewrite (elem_of_set_bucket _ rt) by done. case_decide as HB.
      * rewrite elem_of_app, list_elem_of_singleton. split; [naive_solver|].
        intros [Hr|[_ ->]]; [|by right]. left. destruct (decide (r ∈ bucket rt i)); [done|].
        by destruct (Hout r Hr).
      * split; [by left|]. intros [?|[_ ->]]; [done|]. destruct HB. by rewrite info_alter_ID.
  - split; [intros r; by rewrite decide_False by naive_solver|].
    intros r. rewrite (elem_of_set_bucket _ rt) by done. case_decide as HB.
    + split; [naive_solver|]. intros [Hr|[? _]]; [|done].
      destruct (decide (r ∈ bucket rt i)); [done|]. by destruct (Hout r Hr).
    + split; [by left|]. by intros [?|[? _]].
Qed.

Lemma learn_new now pi n :
  node_ok n -> length (ID pi) = 32 -> peers n !! ID pi = None ->
  node_ok (learn now pi n)
  /\ (forall j, in_table (learn now pi n) j <-> in_table n j \/ (j = ID pi /\ has_room n j))
  /\ (forall j, peer_of (learn now pi n) j
        = if decide (j = ID pi)
          then Some (if decide (has_room n j) then set_LastSeen now pi else pi)
          else peer_of n j).
Proof.
  intros Hn H32 Hnew. unfold learn. rewrite Hnew. unfold alloc.
  set (h := cells n ++ [pi]). set (p := length (cells n)).
  assert (heap_ext (cells n) h) as HE1 by apply heap_ext_alloc.
  assert (info h p = pi) as Hp by apply info_alloc.
  assert (p < length h) as Hlt by (unfold h, p; rewrite length_app; simpl; lia).
  assert (table_ok h (table n)) as Hrt by (eapply table_ok_ext; [exact HE1|apply Hn]).
  pose proof (table_ids_ext _ _ _ (ok_table _ Hn) HE1) as Hids.
  pose proof (Table_Add_members now p h (table n) Hrt Hlt) as Hadd. rewrite Hp, Hids in Hadd.
  specialize (Hadd (unknown_not_in_table _ _ Hn Hnew)).
  destruct (Table_Add now p h (table n)) as [[h' rt'] added].
  destruct Hadd as (Hadded & HE2 & Hok & Hinfo & Hmem).
  pose proof (AllPeers_alloc _ _ (ok_table _ Hn)) as Ha. rewrite Forall_forall in Ha.
  assert (forall r, r < p -> info h' r = info (cells n) r) as Hold.
  { intros r Hr. rewrite Hinfo, decide_False by (intros [_ ->]; lia).
    unfold info, h. by rewrite lookup_app_l. }
  assert (ID (info h' p) = ID pi) as HIDp by (rewrite (proj2 HE2), Hp; done).
  split; [split|split]; simpl.
  - done.
  - intros i s [[<- <-]|[_ Hs]]%lookup_insert_Some.
    + split; [destruct HE2; lia|done].
    + destruct (ok_peers _ Hn _ _ Hs) as (? & <- & ?). rewrite Hold by done.
      split; [destruct HE1, HE2; lia|done].
  - intros r Hr. apply Hmem in Hr as [Hr|[_ ->]]; [|by rewrite HIDp, lookup_insert_eq].
    rewrite Hold by by apply Ha. pose proof (ok_shared _ Hn _ Hr) as Hs.
    rewrite lookup_insert_ne; [done|]. congruence.
  - intros j. unfold in_table, table_ids. simpl. rewrite !list_elem_of_fmap.
    unfold has_room. split.
    + intros (r & -> & Hr). simpl. apply Hmem in Hr as [Hr|[-> ->]].
      * left. exists r. simpl. by rewrite Hold by by apply Ha.
      * right. rewrite HIDp. by case_bool_decide.
    + intros [(r & -> & Hr)|[-> Hroom]].
      * exists r. simpl. rewrite Hold by by apply Ha. split; [done|]. apply Hmem. by left.
      * exists p. split; [by simpl|]. apply Hmem. right. by rewrite Hadded, bool_decide_true.
  - intros j. unfold peer_of, has_room. simpl. destruct (decide (j = ID pi)) as [->|Hj].
    + rewrite lookup_insert_eq. simpl. rewrite Hinfo, Hp, Hadded. f_equal.
      case_bool_decide; [by rewrite !decide_True|by rewrite !decide_False by naive_solver].
    + rewrite lookup_insert_ne by done. destruct (peers n !! j) as [s|] eqn:Hs; [|done]. simpl.
      rewrite Hold; [done|]. by apply (ok_peers _ Hn _ _ Hs).
Qed.
