(* ===== verification/DhtProps.v ===== *)
(** * What a DHT node guarantees

    The invariant of the node under every sequence of operations, the
    registration gate, the answer to a find-node request, and two consequences
    of keeping a peer in [Node.peers] that the table has dropped. *)

From S2P Require Import Prelude Bytes Hash Bits Float NodeId Routing DhtWire DhtNode.

Section props.
Context `{HH : Hash256, HG : PeerListGob}.

Lemma learn_spec now pi n :
  node_ok n -> length (ID pi) = 32 ->
  let fresh := bool_decide (peers n !! ID pi = None /\ has_room n (ID pi)) in
  node_ok (learn now pi n)
  /\ (forall j, in_table (learn now pi n) j <-> in_table n j \/ (j = ID pi /\ fresh = true))
  /\ (forall j, peer_of (learn now pi n) j
        = if decide (j = ID pi) then Some (if fresh then set_LastSeen now pi else pi)
          else peer_of n j).
Proof.
  intros Hn H32. simpl. destruct (peers n !! ID pi) as [r|] eqn:Hr.
  - rewrite bool_decide_false by naive_solver.
    destruct (learn_known now pi n r Hn Hr) as (? & Hin & Hof). split; [done|].
    split; [|done]. intros j. rewrite Hin. naive_solver.
  - destruct (learn_new now pi n Hn H32 Hr) as (? & Hin & Hof). split; [done|]. split.
    + intros j. rewrite Hin. rewrite bool_decide_eq_true. naive_solver.
    + intros j. rewrite Hof. destruct (decide (j = ID pi)) as [->|]; [|done].
      f_equal. case_bool_decide; case_decide; naive_solver.
Qed.

(** A registration message that passes every check of the handler. *)
Definition valid_registration (msg : Message) (r : Registration) : Prop :=
  Type_ msg = MsgRegisterNode /\ decodeRegister (Payload msg) = Some r
  /\ VerifyPoW (registrationChallenge (reg_pubKey r) (reg_name r) (reg_addrs r))
       (reg_nonce r) (reg_difficulty r) = true
  /\ Src msg = NodeIDFromPub (reg_pubKey r).

(** The handler changes the store or learns a registered peer, nothing else. *)
Lemma handleMessage_effect now msg n :
  let n' := (handleMessage now msg n).2 in
  (exists st, n' = with_store st n)
  \/ exists r, valid_registration msg r /\ n' = learn now (registered now (Src msg) r) n.
Proof.
  assert (n = with_store (store n) n) as Hid by by destruct n.
  unfold handleMessage. simpl.
  repeat (case_decide; [simpl; first [by left; eauto|idtac]|]); simpl; try by left; eauto.
  - destruct (decodeStore (Payload msg)) as [key value]. left. simpl. case_decide; eauto.
  - destruct (decodeStore (Payload msg)) as [key value]. left. destruct (store n !! key); eauto.
  - destruct (decodeRegister (Payload msg)) as [r|] eqn:E; [|left; simpl; by eauto].
    destruct (VerifyPoW _ _ _) eqn:EV; simpl; [|left; by eauto].
    case_decide as Hs; simpl; [left; by eauto|]. right. exists r.
    by unfold valid_registration.
Qed.

(** Every request but find-node and find-value is answered with the same pong,
    whatever became of it. *)
Lemma handleMessage_pong now msg n :
  Type_ msg <> MsgFindNode -> Type_ msg <> MsgFindValue ->
  (handleMessage now msg n).1 = mkMessage MsgPong (id n) (Src msg) [].
Proof.
  intros H1 H2. unfold handleMessage. case_decide; [done|]. rewrite decide_False by done.
  case_decide; [by destruct (decodeStore (Payload msg))|]. rewrite decide_False by done.
  case_decide; [|done]. destruct (decodeRegister (Payload msg)) as [r|]; [|done].
  destruct (VerifyPoW _ _ _); [|done]. simpl. by case_decide.
Qed.

Lemma with_store_ok st n : node_ok n -> node_ok (with_store st n).
Proof. intros [H1 H2 H3]. by split. Qed.

Lemma prune_subset now ttl n j : node_ok n -> in_table (Node_PruneStale now ttl n) j -> in_table n j.
Proof.
  intros Hn. unfold in_table, table_ids, Node_PruneStale, with_peers. cbn [cells table].
  rewrite PruneStale_AllPeers by apply Hn.
  intros (r & -> & Hr)%list_elem_of_fmap. apply list_elem_of_filter in Hr as [_ Hr].
  apply list_elem_of_fmap. eauto.
Qed.

Lemma node_step_ok n n' : node_ok n -> node_step n n' -> node_ok n'.
Proof.
  intros Hn Hstep. destruct Hstep as [now msg n (Ht & Hs & Hd)|now pi n Hpi|now ttl n|addr n].
  - destruct (handleMessage_effect now msg n) as [[st ->]|(r & _ & ->)];
      [by apply with_store_ok|by apply learn_spec].
  - by apply learn_spec.
  - unfold Node_PruneStale, with_peers. split; cbn [cells table peers];
      [by apply PruneStale_ok, Hn|apply Hn|]. intros r.
    rewrite PruneStale_AllPeers by apply Hn. intros [_ Hr]%list_elem_of_filter. by apply Hn.
  - destruct Hn as [H1 H2 H3]. by split.
Qed.

Lemma reachable_ok n : reachable n -> node_ok n.
Proof.
  intros (i & pub & nm & Hr). revert Hr. generalize (NewNode_ok i pub nm).
  intros H0 Hr. induction Hr; eauto using node_step_ok.
Qed.


(** C2: The registration gate.  If handling a message changes what the node
    knows of peer [j], or whether the table holds it, then the message is a
    registration that carries a valid proof of work over the announced key,
    name and addresses, [j] is the hash of that key and the sender, and what
    is recorded for [j] is what was announced.  A registration is answered
    with the same pong whether it was accepted or not. *)
Theorem dht_registration_gate now msg n j :
  reachable n -> message_ok msg ->
  let n' := (handleMessage now msg n).2 in
  (~ (peer_of n' j = peer_of n j /\ (in_table n' j <-> in_table n j)) ->
   exists r, valid_registration msg r /\ j = Src msg /\ j = NodeIDFromPub (reg_pubKey r)
   /\ exists p, peer_of n' j = Some p /\ PublicKey p = reg_pubKey r /\ Name p = reg_name r
                /\ Addrs p = reg_addrs r)
  /\ (Type_ msg = MsgRegisterNode ->
      (handleMessage now msg n).1 = mkMessage MsgPong (id n) (Src msg) []).
Proof.
  intros Hr (_ & Hs & _). apply reachable_ok in Hr as Hn. split.
  - intros Hch. destruct (handleMessage_effect now msg n) as [[st E]|(r & Hv & E)]; rewrite E in *.
    + destruct Hch. done.
    + destruct (learn_spec now (registered now (Src msg) r) n Hn Hs) as (_ & Hin & Hof).
      simpl in Hin, Hof. rewrite Hof, Hin in Hch. exists r. split; [done|].
      destruct (decide (j = Src msg)) as [->|Hne].
      * split; [done|]. split; [apply Hv|]. rewrite Hof, decide_True by done.
        eexists. split; [done|]. by case_bool_decide.
      * destruct Hch. split; [done|]. naive_solver.
  - intros Ht. apply handleMessage_pong; by rewrite Ht.
Qed.

(** The message [RegisterNode] sends for a node that registers itself. *)
Definition register_message (pub nm : bytes) (addrs : list bytes) (nonce : bytes) (d : Z) : Message :=
  let pi := mkPeerInfo (NodeIDFromPub pub) pub nm addrs [] f64_half 0 0 [] in
  mkMessage MsgRegisterNode (NodeIDFromPub pub) (NodeIDFromPub pub) (encodeRegister pi nonce d).

(** A node that registers itself with at most one address is let in: the
    nonce [SolvePoW] finds for its challenge makes the receiving node record
    its key, name and address, and a node that was not known before enters the
    routing table exactly when its bucket has room. *)
Theorem dht_registration_admits now pub nm addrs d nonce n :
  reachable n -> length pub = 32 -> (len nm <= MaxUint16)%Z -> length addrs <= 1 ->
  Forall (fun a => 0 < len a <= 65533)%Z addrs ->
  SolvePoW (registrationChallenge pub nm addrs) d = Ok nonce ->
  let i := NodeIDFromPub pub in
  let n' := (handleMessage now (register_message pub nm addrs nonce d) n).2 in
  (exists p, peer_of n' i = Some p /\ ID p = i /\ PublicKey p = pub /\ Name p = nm /\ Addrs p = addrs)
  /\ (in_table n' i <-> in_table n i \/ (peer_of n i = None /\ has_room n i)).
Proof.
  intros Hr Hpub Hnm H1 Haddrs Hsolve. apply reachable_ok in Hr as Hn. simpl.
  pose proof (dht_pow_facts _ _ _ Hsolve) as (Hd & H8 & Hver).
  set (r := mkRegistration pub nonce d nm addrs).
  assert ((handleMessage now (register_message pub nm addrs nonce d) n).2
          = learn now (registered now (NodeIDFromPub pub) r) n) as ->.
  { unfold handleMessage. cbn [Type_ register_message Payload Src].
    rewrite !decide_False by done. rewrite decide_True by done.
    rewrite decodeRegister_encodeRegister by (simpl; first [done|lia]). simpl.
    rewrite take_ge by done. rewrite Hver. simpl. by rewrite decide_False by auto. }
  destruct (learn_spec now (registered now (NodeIDFromPub pub) r) n Hn (sha3_length pub))
    as (_ & Hin & Hof). simpl in Hin, Hof. split.
  - rewrite Hof, decide_True by done. eexists. split; [done|]. by case_bool_decide.
  - rewrite Hin, bool_decide_eq_true. unfold peer_of. rewrite fmap_None. naive_solver.
Qed.

Lemma handleMessage_find_node now msg n :
  Type_ msg = MsgFindNode ->
  handleMessage now msg n
  = (mkMessage MsgFoundNode (id n) (Src msg)
       (encodePeerList (selfInfo now n :: (info (cells n) <$>
          FindClosest (cells n) (copy32 (Payload msg)) KBucketSize (table n)))), n).
Proof. intros Ht. unfold handleMessage. by rewrite Ht. Qed.

Lemma table_id_length n : node_ok n ->
  forall r, r ∈ AllPeers (table n) -> length (ID (info (cells n) r)) = 32.
Proof. intros Hn r Hr. by apply (ok_peers _ Hn _ _ (ok_shared _ Hn _ Hr)). Qed.

Lemma StronglySorted_fmap_2 {A B} (f : A -> B) (R : B -> B -> Prop) l :
  StronglySorted (fun x y => R (f x) (f y)) l -> StronglySorted R (f <$> l).
Proof. induction 1; constructor; [done|]. by apply Forall_fmap. Qed.

(** A find-node request is answered with the node itself followed by the
    (at most 20) peers of the table closest to the target: the answer decodes
    to their descriptions, in increasing order of the exclusive or of the
    256-bit numbers, and no peer left out is closer than one returned. *)
Theorem dht_find_node_closest now now' msg n target :
  reachable n -> length (id n) = 32 -> Type_ msg = MsgFindNode ->
  Payload msg = target -> length target = 32 ->
  let reply := (handleMessage now msg n).1 in
  (len (Payload reply) < 2 ^ 30)%Z ->
  let dist (p : PeerInfo) := Z.lxor (be_get (ID p)) (be_get target) in
  exists found rest,
    decodePeerList now' (Payload reply)
      = Ok (of_simple now' ∘ to_simple <$> selfInfo now n :: found)
    /\ info (cells n) <$> AllPeers (table n) ≡ₚ found ++ rest
    /\ length found = 20 `min` Table_Len (table n)
    /\ StronglySorted (fun p q => dist p < dist q)%Z found
    /\ forall p q, p ∈ found -> q ∈ rest -> (dist p < dist q)%Z.
Proof.
  intros Hr Hid Ht Hp H32. simpl. apply reachable_ok in Hr as Hn.
  rewrite handleMessage_find_node, Hp by done. cbn [Payload fst].
  assert (copy32 target = target) as ->.
  { unfold copy32. by rewrite take_ge, H32, Nat.sub_diag, app_nil_r by lia. }
  intros Hlen.
  destruct (FindClosest_smallest (cells n) target KBucketSize (table n)) as (HL & HS & rest & HP & HC).
  set (res := FindClosest (cells n) target KBucketSize (table n)) in *.
  pose proof (table_ids_nodup _ _ (ok_table _ Hn)) as Hnd. unfold table_ids in Hnd.
  rewrite HP, fmap_app in Hnd. apply NoDup_app in Hnd as (Hnd & Hcross & _).
  assert (forall r, r ∈ res ++ rest -> length (ID (info (cells n) r)) = 32) as Hids.
  { intros r. rewrite <- HP. apply (table_id_length _ Hn). }
  exists (info (cells n) <$> res), (info (cells n) <$> rest).
  split; [|split; [|split; [|split]]].
  - rewrite decodePeerList_encodePeerList; [done| |done]. constructor; [done|].
    apply Forall_fmap, Forall_forall. intros r Hres. apply Hids, elem_of_app. by left.
  - by rewrite HP, fmap_app.
  - by rewrite length_fmap, HL, Table_Len_AllPeers.
  - apply StronglySorted_fmap_2, (StronglySorted_strict (ID ∘ info (cells n)) _ _ _ HS Hnd).
    intros r s Hrs Hss Hne. apply closer_eq_lt; [done|apply Hids, elem_of_app; by left..|done].
  - intros p q (r & -> & Hres)%list_elem_of_fmap (s & -> & Hrest)%list_elem_of_fmap.
    apply closer_eq_lt; [done|apply Hids, elem_of_app; auto..| |by apply HC].
    intros E. apply (Hcross (ID (info (cells n) r))); [|rewrite E]; apply list_elem_of_fmap; eauto.
Qed.

(** A known peer that the table does not hold never enters it again. *)
Lemma lockout_step n n' j :
  node_ok n -> node_step n n' -> is_Some (peer_of n j) -> ~ in_table n j ->
  is_Some (peer_of n' j) /\ ~ in_table n' j.
Proof.
  intros Hn Hstep Hj Hnt.
  assert (forall now pi, length (ID pi) = 32 ->
            is_Some (peer_of (learn now pi n) j) /\ ~ in_table (learn now pi n) j) as HL.
  { intros now pi Hpi. destruct (learn_spec now pi n Hn Hpi) as (_ & Hin & Hof). split.
    - rewrite Hof. case_decide; [by eexists|done].
    - rewrite Hin. intros [?|[-> Hf]]; [done|]. apply bool_decide_eq_true in Hf as [Hf _].
      unfold peer_of in Hj. rewrite Hf in Hj. by destruct Hj. }
  destruct Hstep as [now msg n (Ht & Hs & Hd)|now pi n Hpi|now ttl n|addr n].
  - destruct (handleMessage_effect now msg n) as [[st ->]|(r & _ & ->)]; [done|by apply HL].
  - by apply HL.
  - split; [done|]. intros ?%prune_subset; done.
  - done.
Qed.

(** A peer the node knows but its table does not hold (it was pruned, or
    its bucket was full when it was learned) is locked out: no sequence of
    messages, registrations with valid work included, learned peers and
    prunings puts it into the table again. *)
Theorem dht_dropped_peer_locked_out n n' j :
  reachable n -> is_Some (peer_of n j) -> ~ in_table n j -> rtc node_step n n' ->
  is_Some (peer_of n' j) /\ ~ in_table n' j.
Proof.
  intros Hr Hj Hnt Hsteps. apply reachable_ok in Hr as Hn. clear Hr.
  induction Hsteps as [n|n n1 n2 Hstep _ IH]; [done|].
  destruct (lockout_step _ _ _ Hn Hstep Hj Hnt). apply IH; eauto using node_step_ok.
Qed.

(** A peer that registers again while the table holds it loses its
    last-seen time: the next pruning drops it, however recent the registration
    is, as long as the cutoff is later than the zero time. *)
Theorem dht_reregistered_peer_is_pruned now now' ttl msg r n :
  reachable n -> message_ok msg -> valid_registration msg r -> in_table n (Src msg) ->
  (0 < now' + wrapS 64 (- ttl))%Z ->
  let n1 := (handleMessage now msg n).2 in
  in_table n1 (Src msg) /\ ~ in_table (Node_PruneStale now' ttl n1) (Src msg).
Proof.
  intros Hr (Ht & Hs & Hd) Hv Hin Hcut. apply reachable_ok in Hr as Hn. simpl.
  assert ((handleMessage now msg n).2 = learn now (registered now (Src msg) r) n) as ->.
  { destruct Hv as (HT & HD & HV & HS). unfold handleMessage. rewrite HT. cbn. rewrite HD, HV. simpl.
    by rewrite decide_False by auto. }
  apply list_elem_of_fmap in Hin as (q & Hq & HinQ).
  pose proof (ok_shared _ Hn _ HinQ) as Hpq. simpl in Hq. rewrite <- Hq in Hpq.
  destruct (learn_known now (registered now (Src msg) r) n q Hn Hpq) as (Hn1 & Hin1 & Hof1).
  set (n1 := learn now (registered now (Src msg) r) n) in *. split.
  - apply Hin1, list_elem_of_fmap. eauto.
  - unfold in_table, table_ids, Node_PruneStale, with_peers. cbn [cells table].
    rewrite PruneStale_AllPeers by apply Hn1. intros (s & Hs1 & Hs2)%list_elem_of_fmap.
    apply list_elem_of_filter in Hs2 as [Hfresh Hs2]. apply Hfresh.
    pose proof (ok_shared _ Hn1 _ Hs2) as Hps. simpl in Hs1. rewrite <- Hs1 in Hps.
    specialize (Hof1 (Src msg)). rewrite decide_True in Hof1 by done.
    unfold peer_of in Hof1. rewrite Hps in Hof1. injection Hof1 as Hi.
    unfold stale. rewrite Hi. unfold time_before, time_add. simpl. by apply Z.ltb_lt.
Qed.

End props.

(** * Witnesses *)

#[local] Existing Instance sha3_256_hash.
#[local] Existing Instance tagged_gob.

Definition ex_id (b : byte) : NodeID := b :: zeroes 31.
Definition ex_peer (b : byte) : PeerInfo :=
  mkPeerInfo (ex_id b) (zeroes 32) (str "p") [str "10.0.0.1:9094"] [] f64_half 5 5 [].
Definition ex_node : Node :=
  storePeer 70 (ex_peer Byte.x04) (storePeer 60 (ex_peer Byte.x01) (NewNode (ex_id Byte.x80) (zeroes 32) (str "n"))).

Lemma ex_node_reachable : reachable ex_node.
Proof.
  exists (ex_id Byte.x80), (zeroes 32), (str "n").
  eapply rtc_l; [by apply (step_storePeer 60 (ex_peer Byte.x01))|].
  eapply rtc_l; [by apply (step_storePeer 70 (ex_peer Byte.x04))|]. apply rtc_refl.
Qed.


(** A registration whose challenge the nonce zero solves at difficulty 8. *)
Definition ex_pub : bytes := repeat Byte.x07 32.
Definition ex_name : bytes := be_put 2 25865.
Definition ex_addrs : list bytes := [str "10.0.0.7:9094"].
Definition ex_register : Message := register_message ex_pub ex_name ex_addrs (zeroes 8) 8.
Definition ex_reg : Registration := mkRegistration ex_pub (zeroes 8) 8 ex_name ex_addrs.

Lemma ex_register_ok : message_ok ex_register.
Proof. split; [done|]. split; apply sha3_length. Qed.

Lemma dht_registration_gate_witness :
  let n' := (handleMessage 90 ex_register ex_node).2 in
  Src ex_register = NodeIDFromPub (reg_pubKey ex_reg)
  /\ peer_of ex_node (Src ex_register) = None /\ is_Some (peer_of n' (Src ex_register))
  /\ exists r, valid_registration ex_register r.
Proof.
  cbv zeta. split; [vm_compute; reflexivity|]. split; [vm_compute; reflexivity|].
  split; [vm_compute; eexists; reflexivity|].
  destruct (proj1 (dht_registration_gate 90 ex_register ex_node (Src ex_register)
              ex_node_reachable ex_register_ok)) as (r & Hv & _); [|by exists r].
  intros [H _]. vm_compute in H. discriminate H.
Defined.

Lemma dht_registration_admits_witness :
  let n' := (handleMessage 90 ex_register ex_node).2 in
  in_table n' (NodeIDFromPub ex_pub).
Proof.
  cbv zeta. apply (dht_registration_admits 90 ex_pub ex_name ex_addrs 8 (zeroes 8) ex_node).
  - apply ex_node_reachable.
  - reflexivity.
  - vm_compute. congruence.
  - simpl. lia.
  - repeat constructor; vm_compute; congruence.
  - vm_compute. reflexivity.
  - right. split; [vm_compute; reflexivity|]. vm_compute. lia.
Defined.

Lemma dht_find_node_closest_witness :
  let msg := mkMessage MsgFindNode (ex_id Byte.x09) (ex_id Byte.x80) (ex_id Byte.x05) in
  exists found rest, length found = 2
    /\ decodePeerList 100 (Payload (handleMessage 100 msg ex_node).1)
       = Ok (of_simple 100 ∘ to_simple <$> selfInfo 100 ex_node :: found)
    /\ info (cells ex_node) <$> AllPeers (table ex_node) ≡ₚ found ++ rest.
Proof.
  cbv zeta.
  destruct (dht_find_node_closest 100 100
              (mkMessage MsgFindNode (ex_id Byte.x09) (ex_id Byte.x80) (ex_id Byte.x05))
              ex_node (ex_id Byte.x05) ex_node_reachable eq_refl eq_refl eq_refl eq_refl)
    as (found & rest & H1 & H2 & H3 & _); [vm_compute; reflexivity|].
  exists found, rest. split; [|split; [exact H1|exact H2]].
  etransitivity; [exact H3|]. vm_compute. reflexivity.
Defined.

(** [ex_node] after pruning everything last seen before time 65. *)
Definition ex_pruned : Node := Node_PruneStale 75 10 ex_node.

Lemma ex_pruned_reachable : reachable ex_pruned.
Proof.
  destruct ex_node_reachable as (i & pub & nm & H). exists i, pub, nm.
  eapply rtc_r; [exact H|]. apply step_prune.
Qed.

Lemma dht_dropped_peer_locked_out_witness :
  ~ in_table (storePeer 80 (ex_peer Byte.x01) ex_pruned) (ex_id Byte.x01).
Proof.
  apply (dht_dropped_peer_locked_out ex_pruned (storePeer 80 (ex_peer Byte.x01) ex_pruned)
           (ex_id Byte.x01) ex_pruned_reachable).
  - vm_compute. eexists. reflexivity.
  - apply (bool_decide_eq_false_1 _). vm_compute. reflexivity.
  - eapply rtc_l; [|apply rtc_refl]. by apply step_storePeer.
Defined.

Lemma dht_reregistered_peer_is_pruned_witness :
  let n0 := (handleMessage 90 ex_register ex_node).2 in
  let n1 := (handleMessage 95 ex_register n0).2 in
  ~ in_table (Node_PruneStale 100 50 n1) (Src ex_register).
Proof.
  cbv zeta.
  apply (dht_reregistered_peer_is_pruned 95 100 50 ex_register ex_reg
           (handleMessage 90 ex_register ex_node).2).
  - destruct ex_node_reachable as (i & pub & nm & H). exists i, pub, nm.
    eapply rtc_r; [exact H|]. apply step_message, ex_register_ok.
  - apply ex_register_ok.
  - split; [reflexivity|]. split; [vm_compute; reflexivity|]. split; vm_compute; reflexivity.
  - apply (bool_decide_eq_true_1 _). vm_compute. reflexivity.
  - vm_compute. reflexivity.
Defined.
