(* ===== verification/DhtClient.v ===== *)
(** * The client side of the DHT (pkg/dht, dht.go)

    [DHT] is the state the client keeps: its node and whether it runs.  What is
    outside (sockets, the other nodes, the clock, the caller's context) is a
    [Network]: [exchange w addr req] connects to [addr], writes [req], and
    gives the bytes read back until the peer closes ([None] when dialling or
    writing fails).  Every operation threads the state of the world, so a
    theorem about an arbitrary network covers peers that lie, fail or change
    between calls.  Bootstrap, Lookup, Get, Store and RegisterNode are the
    whole functions. *)

From S2P Require Import Prelude Bytes Hash Bits Float NodeId Routing DhtWire DhtNode.

Class Network (World : Type) := {
  clock : World -> Z;
  ctx_err : World -> option goerror;
  exchange : World -> bytes -> bytes -> option bytes * World;
}.

Definition ErrNoPeers : goerror := ErrText "no peers found".
Definition ErrPoWFailed : goerror := ErrText "proof of work failed".
Definition ErrNodeRunning : goerror := ErrText "dht node already running".
Definition ErrNotRunning : goerror := ErrText "dht node not running".
Definition ErrValueNotFound : goerror := ErrText "value not found in the dht".
Definition ErrDial : goerror := ErrText "dial or write failed".

Record DHT := mkDHT {
  d_localID : NodeID;
  node : Node;
  running : bool;
}.

Definition NewDHT (local pub nm : bytes) : DHT := mkDHT local (NewNode local pub nm) false.

Definition with_node (n : Node) (d : DHT) : DHT := mkDHT (d_localID d) n (running d).

Definition Stop (d : DHT) : DHT :=
  if running d then mkDHT (d_localID d) (node d) false else d.

Definition PeerCount (d : DHT) : nat := Table_Len (table (node d)).

(** [FindClosest] followed by [detachPeers]: copies of the peers. *)
Definition closest_copies (target : NodeID) (n : nat) (d : DHT) : list PeerInfo :=
  info (cells (node d)) <$> FindClosest (cells (node d)) target n (table (node d)).

(** ** Sorting and pruning a list of copies *)

Definition nearer_eq (target : NodeID) (p q : PeerInfo) : Prop := not_farther target (ID p) (ID q).

#[global] Instance nearer_eq_dec t : RelDecision (nearer_eq t) :=
  fun p q => decide (not_farther t (ID p) (ID q)).

Definition sortPeersByDistance (peers : list PeerInfo) (target : NodeID) : list PeerInfo :=
  merge_sort (nearer_eq target) peers.

(** The loop of [dedupeAndPrune] over the sorted list. *)
Fixpoint dedupe (n : nat) (seen : gset bytes) (out peers : list PeerInfo) : list PeerInfo :=
  match peers with
  | [] => out
  | p :: rest =>
      if decide (ID p ∈ seen) then dedupe n seen out rest else
      let out := out ++ [p] in
      if decide (length out = n) then out else dedupe n ({[ID p]} ∪ seen) out rest
  end.

Definition dedupeAndPrune (peers : list PeerInfo) (target : NodeID) (n : nat) : list PeerInfo :=
  dedupe n ∅ [] (sortPeersByDistance peers target).

(** The selection of a round: the closest peers not queried yet, at most
    [Alpha]; peers without an address are marked and skipped. *)
Fixpoint pick_batch (shortlist : list PeerInfo) (queried : gset bytes) (batch : list PeerInfo)
    : list PeerInfo * gset bytes :=
  match shortlist with
  | [] => (batch, queried)
  | p :: rest =>
      if decide (Alpha <= length batch) then (batch, queried)
      else if decide (ID p ∈ queried) then pick_batch rest queried batch
      else match Addrs p with
           | [] => pick_batch rest ({[ID p]} ∪ queried) batch
           | _ => pick_batch rest ({[ID p]} ∪ queried) (batch ++ [p])
           end
  end.

Section client.
Context `{HH : Hash256, HG : PeerListGob} {World : Type} `{HN : Network World}.

(** [rpcClient.Call] *)
Definition Call (w : World) (addr : bytes) (msg : Message) : result Message * World :=
  match exchange w addr (frame msg) with
  | (None, w') => (Err ErrDial, w')
  | (Some reply, w') => ((read_response reply).1, w')
  end.

(** ** Bootstrap *)

Definition store_all (now : Z) (found : list PeerInfo) (n : Node) : Node :=
  foldl (fun n p => storePeer now p n) n found.

Definition bootstrap_one (self : NodeID) (st : World * Node) (addr : bytes) : World * Node :=
  let '(w, n) := st in
  match Call w addr (mkMessage MsgFindNode self self self) with
  | (Err _, w') => (w', n)
  | (Ok resp, w') =>
      if decide (Type_ resp = MsgFoundNode) then
        match decodePeerList (clock w') (Payload resp) with
        | Ok found => (w', store_all (clock w') found n)
        | Err _ => (w', n)
        end
      else (w', n)
  end.

Definition with_bootstrap (addrs : list bytes) (n : Node) : Node :=
  mkNode (id n) (pubKey n) (name n) (cells n) (table n) (peers n) (store n) (listenAddr n) addrs.

Definition Bootstrap (w : World) (addrs : list bytes) (d : DHT) : result unit * World * DHT :=
  if running d then (Err ErrNodeRunning, w, d) else
  let '(w', n') := foldl (bootstrap_one (d_localID d)) (w, with_bootstrap addrs (node d)) addrs in
  (Ok tt, w', mkDHT (d_localID d) n' true).

(** ** Lookup *)

(** The state of a lookup: the world, the node, the shortlist, and whether the
    round has met a peer that was not known. *)
Record LState := mkL {
  l_world : World;
  l_node : Node;
  l_short : list PeerInfo;
  l_progress : bool;
}.

(** The loop over the peers of one reply. *)
Definition take_found (now : Z) (st : LState) (fp : PeerInfo) : LState :=
  mkL (l_world st) (storePeer now fp (l_node st)) (l_short st ++ [fp])
    (match peers (l_node st) !! ID fp with None => true | Some _ => l_progress st end).

(** One request of a round. *)
Definition query (self target : NodeID) (st : LState) (p : PeerInfo) : LState :=
  let msg := mkMessage MsgFindNode self (ID p) target in
  match Call (l_world st) (hd [] (Addrs p)) msg with
  | (Err _, w') => mkL w' (l_node st) (l_short st) (l_progress st)
  | (Ok resp, w') =>
      let st' := mkL w' (l_node st) (l_short st) (l_progress st) in
      if decide (Type_ resp <> MsgFoundNode) then st' else
      match decodePeerList (clock w') (Payload resp) with
      | Err _ => st'
      | Ok found => foldl (take_found (clock w')) st' found
      end
  end.

(** The rounds: [hops] is what is left of [MaxHops]. *)
Fixpoint rounds (hops : nat) (self target : NodeID) (queried : gset bytes) (st : LState)
    : result (list PeerInfo) * LState :=
  match hops with
  | O => (Ok (l_short st), st)
  | S hops' =>
      match ctx_err (l_world st) with
      | Some e => (Err e, st)
      | None =>
          let '(batch, queried) := pick_batch (l_short st) queried [] in
          match batch with
          | [] => (Ok (l_short st), st)
          | _ =>
              let st := foldl (query self target)
                          (mkL (l_world st) (l_node st) (l_short st) false) batch in
              let short := dedupeAndPrune (l_short st) target KBucketSize in
              let st := mkL (l_world st) (l_node st) short (l_progress st) in
              if l_progress st then rounds hops' self target queried st else (Ok short, st)
          end
      end
  end.

Definition Lookup (w : World) (target : NodeID) (d : DHT)
    : result (list PeerInfo) * World * DHT :=
  if negb (running d) then (Err ErrNotRunning, w, d) else
  match closest_copies target KBucketSize d with
  | [] => (Err ErrNoPeers, w, d)
  | seeds =>
      let short := sortPeersByDistance seeds target in
      let '(res, st) := rounds MaxHops (d_localID d) target ∅ (mkL w (node d) short false) in
      (res, l_world st, with_node (l_node st) d)
  end.

(** ** Values *)

Fixpoint ask_peers (self : NodeID) (key : bytes) (ps : list PeerInfo) (w : World)
    : result bytes * World :=
  match ps with
  | [] => (Err ErrValueNotFound, w)
  | p :: rest =>
      match Addrs p with
      | [] => ask_peers self key rest w
      | addr :: _ =>
          match ctx_err w with
          | Some e => (Err e, w)
          | None =>
              match Call w addr (mkMessage MsgFindValue self (ID p) (encodeStore key [])) with
              | (Err _, w') => ask_peers self key rest w'
              | (Ok resp, w') =>
                  if decide (Type_ resp <> MsgFoundValue) then ask_peers self key rest w' else
                  let '(gotKey, value) := decodeStore (Payload resp) in
                  if decide (gotKey <> key) then ask_peers self key rest w'
                  else (Ok value, w')
              end
          end
      end
  end.

Definition Get (w : World) (key : bytes) (d : DHT) : result bytes * World :=
  if negb (running d) then (Err ErrNotRunning, w) else
  match localValue key (node d) with
  | Some v => (Ok v, w)
  | None =>
      match closest_copies (SHA3Hash key) Alpha d with
      | [] => (Err ErrValueNotFound, w)
      | ps => ask_peers (d_localID d) key ps w
      end
  end.

(** The loop of [Store].  [None] is the run-time panic of [p.Info.Addrs[0]] on
    a peer without an address. *)
Fixpoint offer (self : NodeID) (key value : bytes) (ps : list PeerInfo) (w : World) : option World :=
  match ps with
  | [] => Some w
  | p :: rest =>
      match Addrs p with
      | [] => None
      | addr :: _ =>
          offer self key value rest
            (Call w addr (mkMessage MsgStore self (ID p) (encodeStore key value))).2
      end
  end.

Definition Store (w : World) (key value : bytes) (d : DHT) : option (result unit * World) :=
  if negb (running d) then Some (Err ErrNotRunning, w) else
  match offer (d_localID d) key value (closest_copies (SHA3Hash key) Alpha d) w with
  | Some w' => Some (Ok tt, w')
  | None => None
  end.

(** ** Registration *)

Definition announce (msg : Message) (w : World) (p : PeerInfo) : World :=
  match Addrs p with
  | [] => w
  | addr :: _ => (Call w addr msg).2
  end.

Definition RegisterNode (w : World) (pub nm : bytes) (addrs : list bytes) (difficulty : Z) (d : DHT)
    : result unit * World * DHT :=
  match SolvePoW (registrationChallenge pub nm addrs) difficulty with
  | Err _ => (Err ErrPoWFailed, w, d)
  | Ok nonce =>
      let pi := mkPeerInfo (NodeIDFromPub pub) pub nm addrs [] f64_half 0 (clock w) [] in
      let msg := mkMessage MsgRegisterNode (d_localID d) (d_localID d)
                   (encodeRegister pi nonce difficulty) in
      let w' := foldl (announce msg) w (closest_copies (NodeIDFromPub pub) Alpha d) in
      (Ok tt, w', with_node (storePeer (clock w') pi (node d)) d)
  end.

(** What the calls of an operation did to the world. *)
Definition replay (w : World) (calls : list (bytes * Message)) : World :=
  foldl (fun w c => (Call w c.1 c.2).2) w calls.

End client.
