(* ===== verification/DhtLookup.v ===== *)
(** * What the DHT client guarantees

    The iterative lookup against an arbitrary network, and the value store
    between two nodes. *)

From S2P Require Import Prelude Bytes Hash Bits Float NodeId Routing DhtWire DhtNode DhtProps DhtClient.

#[global] Instance nearer_eq_trans t : Transitive (nearer_eq t).
Proof. intros x y z. unfold nearer_eq. apply not_farther_trans. Qed.

#[global] Instance nearer_eq_total t : Total (nearer_eq t).
Proof. intros x y. apply not_farther_total. Qed.

Abbreviation ids := (fmap (M := list) ID).

(** ** Shortlists *)

(** [S] is a shortlist for the peers [P]: sorted, without duplicates, at most
    20, and a peer of [P] is in it unless it is full of peers at least as close. *)
Definition covers (t : NodeID) (S : list PeerInfo) (j : NodeID) : Prop :=
  j ∈ ids S \/ (length S = KBucketSize /\ forall p, p ∈ S -> not_farther t (ID p) j).

Record short_ok (t : NodeID) (S : list PeerInfo) : Prop := {
  short_sorted : StronglySorted (nearer_eq t) S;
  short_nodup : NoDup (ids S);
  short_len : length S <= KBucketSize;
}.

Lemma dedupe_spec t n seen out L :
  (forall i, i ∈ seen <-> i ∈ ids out) -> NoDup (ids out) -> length out < n ->
  StronglySorted (nearer_eq t) L -> (forall p x, p ∈ out -> x ∈ L -> nearer_eq t p x) ->
  let R := dedupe n seen out L in
  exists ext, R = out ++ ext /\ sublist ext L /\ NoDup (ids R) /\ length R <= n
  /\ forall x, x ∈ L -> ID x ∈ ids R \/ (length R = n /\ forall p, p ∈ R -> nearer_eq t p x).
Proof.
  revert seen out. induction L as [|x L IH]; intros seen out Hseen Hnd Hlen Hs Hcross; simpl.
  - exists []. rewrite app_nil_r. split_and!; try done; [lia|]. by intros x ?%elem_of_nil.
  - apply StronglySorted_cons in Hs as [HxL Hs]. rewrite Forall_forall in HxL.
    case_decide as Hin.
    + destruct (IH seen out) as (ext & E & Hsub & Hnd' & Hlen' & Hcov); try done.
      { intros p y Hp Hy. apply Hcross; [done|by right]. }
      exists ext. rewrite E in *. split_and!; try done; [by apply sublist_cons|].
      intros y [->|Hy]%elem_of_cons; [|by apply Hcov]. left. rewrite fmap_app, elem_of_app. left. by apply Hseen.
    + assert (NoDup (ids (out ++ [x]))) as Hnd2.
      { rewrite fmap_app. apply NoDup_app. split; [done|]. split; [|apply NoDup_singleton].
        intros i Hi ->%list_elem_of_singleton. by apply Hin, Hseen. }
      assert (forall p y, p ∈ out ++ [x] -> y ∈ L -> nearer_eq t p y) as Hcross2.
      { intros p y [Hp| ->%list_elem_of_singleton]%elem_of_app Hy; [apply Hcross; [done|by right]|by apply HxL]. }
      case_decide as Hn.
      * exists [x]. split_and!; try done; [by apply sublist_skip, sublist_nil_l|lia|].
        intros y [->|Hy]%elem_of_cons; [left|right].
        -- rewrite fmap_app, elem_of_app. right. by apply list_elem_of_singleton.
        -- split; [done|]. intros p Hp. by apply Hcross2.
      * destruct (IH ({[ID x]} ∪ seen) (out ++ [x])) as (ext & E & Hsub & Hnd' & Hlen' & Hcov); try done.
        { intros i. rewrite fmap_app, elem_of_union, elem_of_app, elem_of_singleton, Hseen.
          simpl. rewrite list_elem_of_singleton. tauto. }
        { rewrite length_app in *. simpl in *. lia. }
        exists (x :: ext). rewrite E in *. rewrite <- app_assoc in *. split_and!; try done.
        -- by apply sublist_skip.
        -- intros y [->|Hy]%elem_of_cons; [left|by apply Hcov].
           rewrite fmap_app, elem_of_app. right. left.
Qed.

Lemma StronglySorted_sublist {A} (R : A -> A -> Prop) l k :
  sublist l k -> StronglySorted R k -> StronglySorted R l.
Proof.
  induction 1; intros Hs; [done| |]; apply StronglySorted_cons in Hs as [HF Hs].
  - constructor; [by auto|]. by eapply sublist_Forall.
  - auto.
Qed.

Lemma dedupeAndPrune_spec t L :
  let R := dedupeAndPrune L t KBucketSize in
  short_ok t R /\ (forall p, p ∈ R -> p ∈ L) /\ (forall x, x ∈ L -> covers t R (ID x)).
Proof.
  unfold dedupeAndPrune, sortPeersByDistance. simpl.
  assert (StronglySorted (nearer_eq t) (merge_sort (nearer_eq t) L)) as Hs
    by (apply StronglySorted_merge_sort; apply _).
  pose proof (merge_sort_Permutation (nearer_eq t) L) as HP.
  destruct (dedupe_spec t KBucketSize ∅ [] (merge_sort (nearer_eq t) L))
    as (ext & E & Hsub & Hnd & Hlen & Hcov); try done; try (unfold KBucketSize; simpl; lia).
  { intros i. rewrite elem_of_nil. set_solver. }
  { constructor. }
  { by intros p x ?%elem_of_nil. }
  simpl in E. rewrite E in *. split; [|split].
  - split; [by eapply StronglySorted_sublist|done|done].
  - intros p Hp. rewrite <- HP. by eapply elem_of_sublist.
  - intros x Hx. rewrite <- HP in Hx. apply Hcov in Hx as [?|[? ?]]; [by left|right; done].
Qed.

(** Pruning a list that contains a shortlist covers what the shortlist did. *)
Lemma covers_prune t S L j :
  short_ok t S -> (forall p, p ∈ S -> p ∈ L) -> covers t S j ->
  covers t (dedupeAndPrune L t KBucketSize) j.
Proof.
  intros HS Hsub Hj. destruct (dedupeAndPrune_spec t L) as (HR & HRL & Hcov).
  set (R := dedupeAndPrune L t KBucketSize) in *.
  destruct Hj as [(p & -> & Hp)%list_elem_of_fmap|[Hfull Hall]]; [by apply Hcov, Hsub|].
  destruct (decide (Forall (fun s => ID s ∈ ids R) S)) as [Hin|Hout].
  - right. rewrite Forall_forall in Hin.
    assert (ids S ⊆+ ids R) as Hss.
    { apply NoDup_submseteq; [apply HS|]. intros i (s & -> & Hs)%list_elem_of_fmap. by apply Hin. }
    pose proof (short_len _ _ HR) as HlR.
    assert (ids S ≡ₚ ids R) as HP.
    { apply submseteq_length_Permutation; [done|]. rewrite !length_fmap. lia. }
    split; [apply Permutation_length in HP; rewrite !length_fmap in HP; lia|].
    intros p Hp. assert (ID p ∈ ids S) as (s & -> & Hs)%list_elem_of_fmap; [|by apply Hall].
    rewrite HP. apply list_elem_of_fmap. eauto.
  - apply not_Forall_Exists, Exists_exists in Hout as (s & Hs & Hnin); [|apply _].
    destruct (Hcov s (Hsub s Hs)) as [?|[HlR Hle]]; [done|]. right. split; [done|].
    intros p Hp. etrans; [by apply Hle|by apply Hall].
Qed.

Lemma pick_batch_spec S Q B :
  NoDup (ids B) -> (forall i, i ∈ ids B -> i ∈ Q) -> length B <= Alpha ->
  let '(B', Q') := pick_batch S Q B in
  exists new, B' = B ++ new /\ length B' <= Alpha /\ NoDup (ids B')
  /\ (forall p, p ∈ new -> p ∈ S /\ ID p ∉ Q /\ Addrs p <> [])
  /\ (forall i, i ∈ Q \/ i ∈ ids B' -> i ∈ Q').
Proof.
  revert Q B. induction S as [|p S IH]; intros Q B Hnd HB Hlen; simpl.
  { exists []. rewrite app_nil_r. split_and!; try done; [by intros ? ?%elem_of_nil|naive_solver]. }
  case_decide as HA.
  { exists []. rewrite app_nil_r. split_and!; try done; [by intros ? ?%elem_of_nil|naive_solver]. }
  case_decide as Hq.
  { specialize (IH Q B Hnd HB Hlen). destruct (pick_batch S Q B) as [B' Q'].
    destruct IH as (new & -> & ? & ? & Hnew & ?). exists new. split_and!; try done.
    intros r Hr. destruct (Hnew r Hr) as (? & ? & ?). split; [by right|done]. }
  assert (forall new : list PeerInfo, (forall r, r ∈ new -> r ∈ S /\ ID r ∉ {[ID p]} ∪ Q /\ Addrs r <> []) ->
            forall r, r ∈ new -> r ∈ p :: S /\ ID r ∉ Q /\ Addrs r <> []) as Hweak.
  { intros new Hnew r Hr. destruct (Hnew r Hr) as (? & Hn & ?). split; [by right|].
    split; [|done]. intros ?. apply Hn, elem_of_union. by right. }
  destruct (Addrs p) as [|a more] eqn:Ea.
  - ospecialize (IH ({[ID p]} ∪ Q) B Hnd _ Hlen).
    { intros i Hi. apply elem_of_union. right. by apply HB. }
    destruct (pick_batch S _ B) as [B' Q']. destruct IH as (new & -> & ? & ? & Hnew & HQ).
    exists new. split_and!; try done; [by apply Hweak|].
    intros i [Hi|Hi]; apply HQ; [left; apply elem_of_union; by right|by right].
  - assert (ID p ∉ ids B) as HpB by (intros ?; by apply Hq, HB).
    ospecialize (IH ({[ID p]} ∪ Q) (B ++ [p]) _ _ _).
    { rewrite fmap_app. apply NoDup_app. split; [done|]. split; [|apply NoDup_singleton].
      by intros i Hi ->%list_elem_of_singleton. }
    { intros i. rewrite fmap_app, elem_of_app, elem_of_union. simpl.
      rewrite list_elem_of_singleton, elem_of_singleton. intros [?| ->]; [right; by apply HB|by left]. }
    { rewrite length_app. simpl. lia. }
    destruct (pick_batch S _ _) as [B' Q']. destruct IH as (new & -> & ? & ? & Hnew & HQ).
    exists (p :: new). rewrite <- app_assoc in *. split_and!; try done.
    + intros r [->|Hr]%elem_of_cons; [split; [by left|]; split; [done|congruence]|].
      by eapply Hweak.
    + intros i [Hi|Hi]; apply HQ; [left; apply elem_of_union; by right|by right].
Qed.

Section lookup.
Context `{HH : Hash256, HG : PeerListGob} {World : Type} `{HN : Network World}.

Definition known (n : Node) (j : NodeID) : Prop := is_Some (peer_of n j).

Lemma storePeer_known now pi n :
  node_ok n -> length (ID pi) = 32 ->
  node_ok (storePeer now pi n) /\ forall j, known (storePeer now pi n) j <-> known n j \/ j = ID pi.
Proof.
  intros Hn Hl. destruct (learn_spec now pi n Hn Hl) as (Hok & _ & Hof). split; [done|].
  intros j. unfold known, storePeer, copyPeerInfo. rewrite Hof. case_decide; [|tauto].
  split; [by right|]. intros _. by eexists.
Qed.

Lemma take_found_spec now found (st : LState (World := World)) :
  node_ok (l_node st) -> Forall (fun p => length (ID p) = 32) found ->
  let st' := foldl (take_found now) st found in
  l_world st' = l_world st /\ node_ok (l_node st') /\ l_short st' = l_short st ++ found
  /\ forall j, known (l_node st') j <-> known (l_node st) j \/ j ∈ ids found.
Proof.
  revert st. induction found as [|fp found IH]; intros st Hn Hf; simpl.
  - rewrite app_nil_r. split_and!; try done. intros j. rewrite elem_of_nil. tauto.
  - inversion_clear Hf as [|? ? Hl Hf'].
    destruct (storePeer_known now fp (l_node st) Hn Hl) as [Hok Hk].
    destruct (IH (take_found now st fp) Hok Hf') as (E1 & E2 & E3 & E4). split_and!; try done.
    + rewrite E3. simpl. by rewrite <- app_assoc.
    + intros j. rewrite E4. simpl. rewrite Hk, elem_of_cons. tauto.
Qed.

(** The message and the address of a request of a round. *)
Definition request (self target : NodeID) (p : PeerInfo) : bytes * Message :=
  (hd [] (Addrs p), mkMessage MsgFindNode self (ID p) target).

(** [st'] has learned the peers it has added to the shortlist, no others. *)
Definition grown (st st' : LState (World := World)) : Prop :=
  node_ok (l_node st')
  /\ exists found, l_short st' = l_short st ++ found
     /\ forall j, known (l_node st') j <-> known (l_node st) j \/ j ∈ ids found.

Lemma grown_same w w' n S b b' : node_ok n -> grown (mkL w n S b) (mkL w' n S b').
Proof.
  intros Hn. split; [done|]. exists []. simpl. rewrite app_nil_r. split; [done|].
  intros j. rewrite elem_of_nil. tauto.
Qed.

Lemma grown_trans s1 s2 s3 : grown s1 s2 -> grown s2 s3 -> grown s1 s3.
Proof.
  intros (_ & f1 & E1 & K1) (Hn & f2 & E2 & K2). split; [done|]. exists (f1 ++ f2).
  rewrite E2, E1, <- app_assoc. split; [done|]. intros j. rewrite K2, K1, fmap_app, elem_of_app. tauto.
Qed.

Lemma query_spec self target p (st : LState (World := World)) :
  node_ok (l_node st) ->
  l_world (query self target st p)
  = (Call (l_world st) (request self target p).1 (request self target p).2).2
  /\ grown st (query self target st p).
Proof.
  intros Hn. destruct st as [w n S b]. unfold query, request. simpl in *.
  destruct (Call _ _ _) as [[resp|e] w']; simpl; [|by split; [|apply grown_same]].
  case_decide; [by split; [|apply grown_same]|].
  destruct (decodePeerList (clock w') (Payload resp)) as [found|] eqn:Ed;
    [|by split; [|apply grown_same]].
  destruct (take_found_spec (clock w') found (mkL w' n S b) Hn (decodePeerList_typed _ _ _ Ed))
    as (? & ? & ? & ?). split; [done|]. split; [done|]. by exists found.
Qed.

(** A round of requests: what it does to the world is what its calls do. *)
Lemma queries_spec self target batch (st : LState (World := World)) :
  node_ok (l_node st) ->
  l_world (foldl (query self target) st batch)
  = replay (l_world st) (request self target <$> batch)
  /\ grown st (foldl (query self target) st batch).
Proof.
  revert st. induction batch as [|p batch IH]; intros st Hn.
  - split; [done|]. destruct st. by apply grown_same.
  - destruct (query_spec self target p st Hn) as [E1 G1].
    destruct (IH _ (proj1 G1)) as [E2 G2]. split.
    + simpl. by rewrite E2, E1.
    + by eapply grown_trans.
Qed.

(** The peers a lookup that started at node [n0] has to account for: those of
    its table and those it has learned since. *)
Definition seen_since (n0 n : Node) (j : NodeID) : Prop :=
  in_table n0 j \/ (known n j /\ ~ known n0 j).

Record lookup_inv (n0 : Node) (t : NodeID) (n : Node) (S : list PeerInfo) : Prop := {
  inv_node : node_ok n;
  inv_short : short_ok t S;
  inv_covers : forall j, seen_since n0 n j -> covers t S j;
}.

Lemma round_inv n0 t n S n1 found :
  lookup_inv n0 t n S -> node_ok n1 ->
  (forall j, known n1 j <-> known n j \/ j ∈ ids found) ->
  lookup_inv n0 t n1 (dedupeAndPrune (S ++ found) t KBucketSize).
Proof.
  intros [Hn HS Hc] Hn1 Hk. destruct (dedupeAndPrune_spec t (S ++ found)) as (HR & _ & Hcov).
  split; [done|done|]. intros j Hj.
  assert (covers t S j \/ j ∈ ids found) as [Hj'|(x & -> & Hx)%list_elem_of_fmap].
  { destruct Hj as [Hj|[Hj Hj0]]; [left; apply Hc; by left|].
    apply Hk in Hj as [Hj|Hj]; [left; apply Hc; by right|by right]. }
  - apply (covers_prune t S); [done| |done]. intros p Hp. apply elem_of_app. by left.
  - apply Hcov, elem_of_app. by right.
Qed.

(** The requests of a lookup: find-node for the target, each to a peer that
    was not asked before. *)
Definition calls_ok (self t : NodeID) (Q : gset bytes) (k : nat) (calls : list (bytes * Message)) : Prop :=
  length calls <= k /\ NoDup (Dst ∘ snd <$> calls)
  /\ forall c, c ∈ calls -> Dst c.2 ∉ Q /\ exists p, c = request self t p /\ Addrs p <> [].

Lemma calls_ok_app self t Q Q' batch k calls :
  (forall i, i ∈ Q \/ i ∈ ids batch -> i ∈ Q') -> NoDup (ids batch) -> length batch <= Alpha ->
  (forall p, p ∈ batch -> ID p ∉ Q /\ Addrs p <> []) -> calls_ok self t Q' k calls ->
  calls_ok self t Q (Alpha + k) ((request self t <$> batch) ++ calls).
Proof.
  intros HQ Hnd Hlen Hb (Hl & Hn & Hc). split; [rewrite length_app, length_fmap; lia|].
  assert (Dst ∘ snd <$> (request self t <$> batch) = ids batch) as E.
  { rewrite <- list_fmap_compose. by apply list_fmap_ext. }
  split.
  - rewrite fmap_app, E. apply NoDup_app. split; [done|]. split; [|done].
    intros i Hi (c & -> & Hcc)%list_elem_of_fmap. apply (proj1 (Hc c Hcc)), HQ. by right.
  - intros c [(p & -> & Hp)%list_elem_of_fmap|Hcc]%elem_of_app.
    + destruct (Hb p Hp). split; [done|]. by exists p.
    + destruct (Hc c Hcc) as [HnQ Hex]. split; [|done]. intros ?. apply HnQ, HQ. by left.
Qed.

Lemma calls_ok_nil self t Q k : calls_ok self t Q k [].
Proof. split; [simpl; lia|]. split; [constructor|]. by intros c ?%elem_of_nil. Qed.

Lemma replay_app (w : World) c1 c2 : replay w (c1 ++ c2) = replay (replay w c1) c2.
Proof. apply foldl_app. Qed.

Lemma rounds_spec n0 self t hops Q (st : LState (World := World)) :
  lookup_inv n0 t (l_node st) (l_short st) ->
  let '(res, st') := rounds hops self t Q st in
  match res with
  | Ok l => l = l_short st' /\ lookup_inv n0 t (l_node st') l
  | Err e => ctx_err (l_world st') = Some e /\ node_ok (l_node st')
  end
  /\ exists calls, l_world st' = replay (l_world st) calls /\ calls_ok self t Q (hops * Alpha) calls.
Proof.
  revert Q st. induction hops as [|hops IH]; intros Q st Hinv; cbn [rounds].
  { split; [done|]. exists []. split; [done|]. apply calls_ok_nil. }
  destruct (ctx_err (l_world st)) as [e|] eqn:Ectx.
  { split; [split; [done|apply Hinv]|]. exists []. split; [done|]. apply calls_ok_nil. }
  pose proof (pick_batch_spec (l_short st) Q []) as HB.
  destruct (pick_batch (l_short st) Q []) as [batch Q'].
  destruct HB as (new & -> & Hlen & Hnd & Hnew & HQ); [constructor|by intros ? ?%elem_of_nil|simpl; lia|].
  cbn [app] in *. destruct new as [|p0 batch0] eqn:Eb.
  { split; [done|]. exists []. split; [done|]. apply calls_ok_nil. }
  rewrite <- Eb in *.
  destruct (queries_spec self t new (mkL (l_world st) (l_node st) (l_short st) false)) as [Ew Gr];
    [apply Hinv|]. set (st1 := foldl _ _ new) in *.
  destruct Gr as (Hn1 & found & Es & Hk). simpl in Es, Hk, Ew.
  pose proof (round_inv _ _ _ _ _ _ Hinv Hn1 Hk) as Hinv1. rewrite <- Es in Hinv1.
  assert (forall k calls, calls_ok self t Q' k calls ->
            calls_ok self t Q (Alpha + k) ((request self t <$> new) ++ calls)) as Hcalls.
  { intros k calls. apply calls_ok_app; try done. intros p Hp. by apply Hnew. }
  cbn [l_progress l_world l_node l_short]. destruct (l_progress st1) eqn:Ep.
  - specialize (IH Q' (mkL (l_world st1) (l_node st1)
                         (dedupeAndPrune (l_short st1) t KBucketSize) true) Hinv1).
    destruct (rounds hops self t Q' _) as [res st']. destruct IH as (Hres & calls & Hw & Hc).
    split; [done|]. exists ((request self t <$> new) ++ calls). simpl in Hw.
    split; [by rewrite Hw, Ew, replay_app|]. by apply Hcalls.
  - split; [done|]. exists (request self t <$> new). split; [done|].
    rewrite <- (app_nil_r (_ <$> _)). apply Hcalls, calls_ok_nil.
Qed.

Lemma lookup_init n t :
  node_ok n ->
  lookup_inv n t n (sortPeersByDistance
    (info (cells n) <$> FindClosest (cells n) t KBucketSize (table n)) t).
Proof.
  intros Hn. destruct (FindClosest_smallest (cells n) t KBucketSize (table n)) as (HL & _ & rest & HP & HC).
  set (res := FindClosest (cells n) t KBucketSize (table n)) in *.
  unfold sortPeersByDistance.
  pose proof (merge_sort_Permutation (nearer_eq t) (info (cells n) <$> res)) as HS.
  set (S := merge_sort (nearer_eq t) (info (cells n) <$> res)) in *.
  assert (length S = length res) as HlS by (rewrite HS; apply length_fmap).
  split; [done| |].
  - split; [apply StronglySorted_merge_sort; apply _| |lia]. rewrite HS, <- list_fmap_compose.
    pose proof (table_ids_nodup _ _ (ok_table _ Hn)) as Hnd. unfold table_ids in Hnd.
    rewrite HP, fmap_app in Hnd. by apply NoDup_app in Hnd as [Hnd _].
  - intros j [Hj|[? ?]]; [|done]. apply list_elem_of_fmap in Hj as (r & -> & Hr).
    rewrite HP in Hr. apply elem_of_app in Hr as [Hr|Hr].
    + left. rewrite HS, <- list_fmap_compose. apply list_elem_of_fmap. by exists r.
    + right. split.
      * apply Permutation_length in HP. rewrite length_app in HP.
        destruct rest; [by apply elem_of_nil in Hr|]. simpl in HP. lia.
      * intros p. rewrite HS. intros (q & -> & Hq)%list_elem_of_fmap. by apply HC.
Qed.


End lookup.
