(* ===== verification/DhtNet.v ===== *)
(** * A network of DHT nodes

    The [Network] in which every address is served by a node running
    [handleConn]: the client operations against the server operations, over
    the wire format. *)

From S2P Require Import Prelude Bytes Hash Bits Float NodeId Routing DhtWire DhtNode DhtProps DhtClient DhtLookup.

(** The nodes by listening address, and the time. *)
Record Net := mkNet {
  hosts : gmap bytes Node;
  time_now : Z;
}.

#[global] Instance node_network `{Hash256, PeerListGob} : Network Net := {
  clock := time_now;
  ctx_err := fun _ => None;
  exchange := fun w addr req =>
    match hosts w !! addr with
    | None => (None, w)
    | Some n =>
        let '(reply, n') := handleConn (time_now w) req n in
        (Some reply, mkNet (<[addr := n']> (hosts w)) (time_now w))
    end;
}.

Section net.
Context `{HH : Hash256, HG : PeerListGob}.

(** A request that fits is handled as it was sent. *)
Lemma handleConn_frame now m n :
  message_ok m -> (len (Payload m) <= 2 ^ 20)%Z ->
  handleConn now (frame m) n
  = (frame (handleMessage now m n).1, (handleMessage now m n).2).
Proof.
  intros Hm Hp. unfold handleConn. rewrite <- (app_nil_r (frame m)).
  rewrite read_request_frame by done. by destruct (handleMessage now m n).
Qed.

Lemma handleMessage_id now m n : id (handleMessage now m n).2 = id n.
Proof.
  destruct (handleMessage_effect now m n) as [[st ->]|(r & _ & ->)]; [done|].
  unfold learn. destruct (peers n !! _); [done|]. simpl.
  by destruct (Table_Add _ _ _ _) as [[h rt] b].
Qed.

Lemma Call_net (w : Net) addr n m :
  hosts w !! addr = Some n -> message_ok m -> (len (Payload m) <= 2 ^ 20)%Z ->
  let '(resp, n') := handleMessage (time_now w) m n in
  message_ok resp -> (len (Payload resp) < 2 ^ 32)%Z ->
  Call w addr m = (Ok resp, mkNet (<[addr := n']> (hosts w)) (time_now w)).
Proof.
  intros Ha Hm Hp. destruct (handleMessage (time_now w) m n) as [resp n'] eqn:E.
  intros Hr Hl. unfold Call, exchange, node_network.
  rewrite Ha, handleConn_frame, E by done. simpl. rewrite <- (app_nil_r (frame resp)).
  by rewrite read_response_frame.
Qed.

Definition hosts_typed (w : Net) : Prop := forall addr n, hosts w !! addr = Some n -> length (id n) = 32.

Lemma handleMessage_store now src dst key value n :
  key <> [] -> (len key < 2 ^ 16)%Z ->
  handleMessage now (mkMessage MsgStore src dst (encodeStore key value)) n
  = (mkMessage MsgPong (id n) src [], with_store (<[key := value]> (store n)) n).
Proof.
  intros Hk Hl. unfold handleMessage. cbn [Type_ Payload Src]. rewrite !decide_False by done.
  rewrite decide_True by done. rewrite decodeStore_encodeStore by done. by rewrite decide_False.
Qed.

Lemma handleMessage_find_value now src dst key n v :
  (len key < 2 ^ 16)%Z -> store n !! key = Some v ->
  handleMessage now (mkMessage MsgFindValue src dst (encodeStore key [])) n
  = (mkMessage MsgFoundValue (id n) src (encodeStore key v), n).
Proof.
  intros Hl Hv. unfold handleMessage. cbn [Type_ Payload Src]. rewrite !decide_False by done.
  rewrite decide_True by done. rewrite decodeStore_encodeStore by done. by rewrite Hv.
Qed.

Lemma len_encodeStore key value : len (encodeStore key value) = (2 + len key + len value)%Z.
Proof. unfold encodeStore, len. rewrite !length_app, length_be_put. lia. Qed.

(** Offering a value leaves it with every host that was offered it. *)
Lemma offer_spec self key value ps (w : Net) :
  key <> [] -> (len key < 2 ^ 16)%Z -> (2 + len key + len value <= 2 ^ 20)%Z ->
  length self = 32 -> hosts_typed w ->
  Forall (fun p => length (ID p) = 32 /\ Addrs p <> []) ps ->
  exists w', offer self key value ps w = Some w' /\ hosts_typed w'
  /\ forall addr n, hosts w !! addr = Some n ->
     exists n', hosts w' !! addr = Some n'
     /\ (store n !! key = Some value \/ addr ∈ (hd [] ∘ Addrs <$> ps) -> store n' !! key = Some value).
Proof.
  intros Hk Hl Hsz Hself. revert w. induction ps as [|p ps IH]; intros w Hw Hps; simpl.
  { exists w. split; [done|]. split; [done|]. intros addr n Hn. exists n. split; [done|].
    intros [?|?%elem_of_nil]; done. }
  inversion_clear Hps as [|? ? [Hid Ha] Hps']. destruct (Addrs p) as [|a more]; [done|]. simpl.
  set (m := mkMessage MsgStore self (ID p) (encodeStore key value)).
  assert (exists w1, (Call w a m).2 = w1 /\ hosts_typed w1
    /\ forall addr n, hosts w !! addr = Some n -> exists n1, hosts w1 !! addr = Some n1
       /\ (store n !! key = Some value \/ addr = a -> store n1 !! key = Some value))
    as (w1 & -> & Hw1 & Hstep).
  { destruct (hosts w !! a) as [na|] eqn:Ea.
    - pose proof (Call_net w a na m Ea) as HC. unfold m in HC |- *.
      rewrite handleMessage_store in HC by done. rewrite HC; clear HC.
      + eexists. split; [reflexivity|]. simpl. split.
        * intros addr n Hn. simpl in Hn.
          apply lookup_insert_Some in Hn as [[<- <-]|[_ Hn]]; [exact (Hw a na Ea)|exact (Hw addr n Hn)].
        * simpl. intros addr n Hn. destruct (decide (addr = a)) as [->|Hne].
          -- rewrite lookup_insert_eq. eexists. split; [done|]. intros _. simpl. by rewrite lookup_insert_eq.
          -- rewrite lookup_insert_ne by done. exists n. split; [done|]. by intros [?|?].
      + by split.
      + cbn [Payload]. rewrite len_encodeStore. lia.
      + split; [done|]. split; [by apply (Hw a)|done].
      + done.
    - exists w. unfold Call, exchange, node_network. rewrite Ea. split; [done|]. split; [done|].
      intros addr n Hn. exists n. split; [done|]. intros [?| ->]; [done|congruence]. }
  destruct (IH w1 Hw1 Hps') as (w' & E & Hw' & Hrest). exists w'. split; [done|]. split; [done|].
  intros addr n Hn. destruct (Hstep addr n Hn) as (n1 & Hn1 & H1).
  destruct (Hrest addr n1 Hn1) as (n' & Hn' & H'). exists n'. split; [done|].
  intros Hor. apply H'. rewrite elem_of_cons in Hor. naive_solver.
Qed.

(** A value stored through one node can be read through another.  When
    the first of the peers node [d2] would ask for a key is a live host among
    those [d1] offers the value to, [Get] through [d2] after [Store] through
    [d1] returns the value, with both operations going through the message
    format and the request handlers (payloads up to 1 MiB, keys shorter than
    64 KiB and not empty). *)
Theorem dht_store_get_roundtrip (w : Net) d1 d2 key value p addr more n :
  running d1 = true -> running d2 = true -> hosts_typed w ->
  length (d_localID d1) = 32 -> length (d_localID d2) = 32 ->
  node_ok (node d1) -> node_ok (node d2) ->
  key <> [] -> (len key < 2 ^ 16)%Z -> (2 + len key + len value <= 2 ^ 20)%Z ->
  Forall (fun q => Addrs q <> []) (closest_copies (SHA3Hash key) Alpha d1) ->
  localValue key (node d2) = None ->
  head (closest_copies (SHA3Hash key) Alpha d2) = Some p -> Addrs p = addr :: more ->
  addr ∈ (hd [] ∘ Addrs <$> closest_copies (SHA3Hash key) Alpha d1) ->
  hosts w !! addr = Some n ->
  exists w', Store w key value d1 = Some (Ok tt, w') /\ (Get w' key d2).1 = Ok value.
Proof.
  intros Hr1 Hr2 Hw Hl1 Hl2 Hn1 Hn2 Hk Hlk Hsz Haddrs Hloc Hhd Hap Hin Hhost.
  assert (forall d, node_ok (node d) -> Forall (fun q => length (ID q) = 32) (closest_copies (SHA3Hash key) Alpha d)) as Hids.
  { intros d Hd. apply Forall_fmap, Forall_forall. intros r Hr. apply (table_id_length _ Hd).
    by eapply smallest_subset in Hr; [|apply FindClosest_smallest]. }
  destruct (offer_spec (d_localID d1) key value (closest_copies (SHA3Hash key) Alpha d1) w)
    as (w' & E & Hw' & Hrest); try done.
  { apply Forall_and. split; [by apply Hids|done]. }
  exists w'. unfold Store. rewrite Hr1, E. split; [done|].
  destruct (Hrest addr n Hhost) as (n' & Hn' & Hst). specialize (Hst (or_intror Hin)).
  unfold Get. rewrite Hr2, Hloc. cbn [negb].
  pose proof (Hids d2 Hn2) as Hid2.
  destruct (closest_copies (SHA3Hash key) Alpha d2) as [|q ps]; [done|]. injection Hhd as ->.
  inversion_clear Hid2 as [|? ? Hidp _]. cbn [ask_peers]. rewrite Hap. cbn [ctx_err node_network].
  pose proof (Call_net w' addr n' (mkMessage MsgFindValue (d_localID d2) (ID p) (encodeStore key [])) Hn') as HC.
  rewrite (handleMessage_find_value _ _ _ _ _ value) in HC by done. rewrite HC; clear HC.
  - cbn [Type_ Payload]. rewrite decide_False by (intros Hne; by apply Hne).
    rewrite decodeStore_encodeStore by done. by rewrite decide_False by (intros Hne; by apply Hne).
  - by split.
  - cbn [Payload]. rewrite len_encodeStore. unfold len in *. simpl. lia.
  - split; [done|]. split; [by apply (Hw' addr)|done].
  - cbn [Payload]. rewrite len_encodeStore. lia.
Qed.

End net.

(** * Witnesses *)

#[local] Existing Instance sha3_256_hash.
#[local] Existing Instance tagged_gob.

(** A client that knows [ex_peer 4] (at 10.0.0.1:9094), and the network in
    which that address is served. *)
Definition ex_client : DHT := mkDHT (id ex_node) ex_node true.
Definition ex_host : Node :=
  setListenAddr (str "10.0.0.1:9094") (NewNode (ex_id Byte.x04) (zeroes 32) (str "host")).
Definition ex_net : Net := mkNet {[ str "10.0.0.1:9094" := ex_host ]} 100.

Lemma ex_node_ok : node_ok ex_node.
Proof. apply reachable_ok, ex_node_reachable. Qed.

Lemma ex_net_typed : hosts_typed ex_net.
Proof.
  intros addr n. unfold ex_net. simpl. intros [_ <-]%lookup_singleton_Some. reflexivity.
Qed.

Lemma dht_store_get_roundtrip_witness :
  exists w', Store ex_net (str "k") (str "v") ex_client = Some (Ok tt, w')
             /\ (Get w' (str "k") ex_client).1 = Ok (str "v").
Proof.
  apply (dht_store_get_roundtrip ex_net ex_client ex_client (str "k") (str "v")
           (set_LastSeen 70 (ex_peer Byte.x04)) (str "10.0.0.1:9094") [] ex_host
           eq_refl eq_refl ex_net_typed eq_refl eq_refl ex_node_ok ex_node_ok).
  - discriminate.
  - reflexivity.
  - vm_compute. discriminate.
  - vm_compute. repeat constructor; discriminate.
  - reflexivity.
  - vm_compute. reflexivity.
  - reflexivity.
  - apply (list_elem_of_lookup_2 _ 0). vm_compute. reflexivity.
  - reflexivity.
Defined.


(** * What the checks of the handler do not cover *)

(** A network in which every host answers every request with [reply]. *)
Definition lying_network (reply : bytes) : Network unit := {|
  clock := fun _ => 100%Z;
  ctx_err := fun _ => None;
  exchange := fun w _ _ => (Some reply, w);
|}.

Definition forged : PeerInfo :=
  mkPeerInfo (ex_id Byte.x20) (zeroes 32) (str "nobody") [str "6.6.6.6:1"] [] f64_half 0 0 [].

(** The gate covers registrations only: a lookup records every peer a reply
    lists, with no proof of work and no check that the identifier is the hash
    of the key, so one queried host can put an identifier of its choice into
    the routing table. *)
Lemma dht_lookup_admits_unverified :
  let reply := frame (mkMessage MsgFoundNode (ex_id Byte.x04) (id ex_node) (encodePeerList [forged])) in
  let d' := (Lookup (HN := lying_network reply) tt (ex_id Byte.x20) ex_client).2 in
  ID forged <> NodeIDFromPub (PublicKey forged) /\ in_table (node d') (ID forged).
Proof. decide_vm. Qed.

(** A node that does not listen answers a find-node request without an
    address; a client that has bootstrapped from it panics in [Store]. *)
Lemma dht_store_panics_without_address :
  let seed := NewNode (ex_id Byte.x04) (zeroes 32) (str "seed") in
  let net := mkNet {[ str "10.0.0.1:9094" := seed ]} 100 in
  let d := NewDHT (ex_id Byte.x80) (zeroes 32) (str "n") in
  let '(r, w, d') := Bootstrap net [str "10.0.0.1:9094"] d in
  r = Ok tt /\ PeerCount d' = 1 /\ Store w (str "k") (str "v") d' = None.
Proof. vm_compute. auto. Qed.
