(* ===== verification/Raft.v ===== *)
(** * The election and log of pkg/dht/raft.go

    The mutex is part of the state, because the methods call each other under
    it: [sync.Mutex] is not reentrant, so a [Lock] on a mutex the same
    goroutine holds never returns; that outcome is [Blocked].  The RPC client
    is an optional function of the address and the message (a nil interface is
    [None]).  Go walks the peer map in any order; the loop runs over a list of
    its entries. *)

From S2P Require Import Prelude Bytes NodeId DhtWire.

Inductive outcome (A : Type) :=
| Done (a : A)
| Blocked.
Arguments Done {A} a.
Arguments Blocked {A}.

Inductive RaftState := StateFollower | StateCandidate | StateLeader.

#[global] Instance RaftState_eq_dec : EqDecision RaftState.
Proof. solve_decision. Defined.

Record RaftLogEntry := mkEntry {
  e_Term : Z;
  e_Index : Z;
  e_Data : bytes;
}.

Record RaftPeer := mkPeer {
  peer_id : NodeID;
  peer_addr : bytes;
}.

Definition RPCClient : Type := bytes -> Message -> result Message.

Record RaftNode := mkRaft {
  r_mu : bool;
  r_id : NodeID;
  r_term : Z;
  r_votedFor : option NodeID;
  r_state : RaftState;
  r_log : list RaftLogEntry;
  r_peers : gmap bytes RaftPeer;
  r_client : option RPCClient;
  r_resetEvent : Z;
  r_leaderID : NodeID;
}.

Definition NewRaft (i : NodeID) (rpc : option RPCClient) : RaftNode :=
  mkRaft false i 0 None StateFollower [] ∅ rpc 0 (zeroes 32).

Definition with_mu (b : bool) (n : RaftNode) : RaftNode :=
  mkRaft b (r_id n) (r_term n) (r_votedFor n) (r_state n) (r_log n) (r_peers n) (r_client n)
    (r_resetEvent n) (r_leaderID n).

Definition with_role (t : Z) (v : option NodeID) (s : RaftState) (ev : Z) (l : NodeID) (n : RaftNode)
    : RaftNode :=
  mkRaft (r_mu n) (r_id n) t v s (r_log n) (r_peers n) (r_client n) ev l.

(** [n.mu.Lock()] and [n.mu.Unlock()] around a body. *)
Definition locked {A} (n : RaftNode) (body : RaftNode -> outcome (A * RaftNode)) : outcome (A * RaftNode) :=
  if r_mu n then Blocked else
  match body (with_mu true n) with
  | Done (a, n') => Done (a, with_mu false n')
  | Blocked => Blocked
  end.

Definition AddPeer (i : NodeID) (addr : bytes) (n : RaftNode) : outcome (unit * RaftNode) :=
  locked n (fun n => Done (tt,
    mkRaft (r_mu n) (r_id n) (r_term n) (r_votedFor n) (r_state n) (r_log n)
      (<[i := mkPeer i addr]> (r_peers n)) (r_client n) (r_resetEvent n) (r_leaderID n))).

Record RaftVoteResponse := mkVote {
  vote_Term : Z;
  vote_Granted : bool;
}.

Definition MsgRaftRequestVote : Z := 9.
Definition MsgRaftHeartbeat : Z := 11.

Definition requestVote (peer : RaftPeer) (n : RaftNode) : outcome (result RaftVoteResponse * RaftNode) :=
  match locked n (fun n => Done ((r_term n, r_id n), n)) with
  | Blocked => Blocked
  | Done ((term, i), n) =>
      match r_client n with
      | None => Done (Err (ErrText "no rpc client"), n)
      | Some call =>
          let payload := be_put 8 term ++ be_put 8 0 ++ i in
          match call (peer_addr peer) (mkMessage MsgRaftRequestVote i (peer_id peer) payload) with
          | Err e => Done (Err e, n)
          | Ok resp =>
              if (len (Payload resp) <? 9)%Z then Done (Err (ErrText "invalid vote response"), n) else
              let granted := bool_decide (Payload resp !! 8%nat = Some Byte.x01) in
              Done (Ok (mkVote (be_get (take 8 (Payload resp))) granted), n)
          end
      end
  end.

(** The payload is 32 bytes: the term takes eight of them, and the copy of the
    identifier is cut to the other 24. *)
Definition sendHeartbeat (peer : RaftPeer) (n : RaftNode) : outcome (result unit * RaftNode) :=
  match locked n (fun n => Done ((r_term n, r_id n), n)) with
  | Blocked => Blocked
  | Done ((term, i), n) =>
      match r_client n with
      | None => Done (Err (ErrText "no rpc client"), n)
      | Some call =>
          let payload := be_put 8 term ++ take 24 i in
          match call (peer_addr peer) (mkMessage MsgRaftHeartbeat i (peer_id peer) payload) with
          | Err e => Done (Err e, n)
          | Ok _ => Done (Ok tt, n)
          end
      end
  end.

(** The vote loop: the votes counted, or [None] when it returned early. *)
Fixpoint collect (ps : list RaftPeer) (votes : Z) (n : RaftNode) : outcome (option Z * RaftNode) :=
  match ps with
  | [] => Done (Some votes, n)
  | peer :: rest =>
      if decide (r_state n <> StateCandidate) then Done (None, n) else
      match r_client n with
      | None => collect rest (votes + 1) n
      | Some _ =>
          match requestVote peer n with
          | Blocked => Blocked
          | Done (Err _, n) => collect rest votes n
          | Done (Ok resp, n) =>
              let votes := if vote_Granted resp then (votes + 1)%Z else votes in
              if (r_term n <? vote_Term resp)%Z then
                Done (None, with_role (vote_Term resp) (r_votedFor n) StateFollower
                              (r_resetEvent n) (r_leaderID n) n)
              else collect rest votes n
          end
      end
  end.

Definition becomeCandidate (now : Z) (n : RaftNode) : outcome (unit * RaftNode) :=
  locked n (fun n =>
    if decide (r_state n = StateLeader) then Done (tt, n) else
    let n := with_role (wrapU 64 (r_term n + 1)) (Some (r_id n)) StateCandidate now (r_leaderID n) n in
    match collect (map_to_list (r_peers n)).*2 1 n with
    | Blocked => Blocked
    | Done (None, n) => Done (tt, n)
    | Done (Some votes, n) =>
        let total := (Z.of_nat (size (r_peers n)) + 1)%Z in
        Done (tt, if (total / 2 <? votes)%Z
                  then with_role (r_term n) (r_votedFor n) StateLeader (r_resetEvent n) (r_id n) n
                  else n)
    end).

Definition Propose (data : bytes) (n : RaftNode) : outcome (result unit * RaftNode) :=
  locked n (fun n =>
    if decide (r_state n <> StateLeader) then Done (Err (ErrText "not leader"), n) else
    let entry := mkEntry (r_term n) (wrapU 64 (Z.of_nat (length (r_log n)) + 1)) data in
    Done (Ok tt, mkRaft (r_mu n) (r_id n) (r_term n) (r_votedFor n) (r_state n)
                   (r_log n ++ [entry]) (r_peers n) (r_client n) (r_resetEvent n) (r_leaderID n))).

Definition IsLeader (n : RaftNode) : bool := bool_decide (r_state n = StateLeader).

Definition Leader (n : RaftNode) : NodeID :=
  if decide (r_state n = StateLeader) then r_id n else r_leaderID n.

(** * Lemmas *)

Lemma collect_no_client ps votes n :
  r_client n = None -> r_state n = StateCandidate ->
  collect ps votes n = Done (Some (votes + Z.of_nat (length ps))%Z, n).
Proof.
  intros Hc Hs. revert votes. induction ps as [|p ps IH]; intros votes; simpl.
  - by rewrite Z.add_0_r.
  - rewrite decide_False by auto. rewrite Hc, IH. do 3 f_equal. lia.
Qed.

Lemma collect_held p ps votes n :
  is_Some (r_client n) -> r_state n = StateCandidate -> r_mu n = true ->
  collect (p :: ps) votes n = Blocked.
Proof.
  intros [c Hc] Hs Hm. simpl. rewrite decide_False by auto. rewrite Hc.
  unfold requestVote, locked. by rewrite Hm.
Qed.


Lemma election_lemma now n :
  r_mu n = false -> r_state n <> StateLeader ->
  match r_client n with
  | None => becomeCandidate now n
            = Done (tt, with_role (wrapU 64 (r_term n + 1)) (Some (r_id n)) StateLeader now (r_id n) n)
  | Some _ => r_peers n <> ∅ -> becomeCandidate now n = Blocked
  end.
Proof.
  intros Hm Hs. unfold becomeCandidate, locked. rewrite Hm. cbn [r_state with_mu].
  rewrite decide_False by done. set (n1 := with_role _ _ _ _ _ _).
  destruct (r_client n) as [c|] eqn:Hc.
  - intros Hp. assert (exists p ps, (map_to_list (r_peers n1)).*2 = p :: ps) as (p & ps & ->).
    { destruct (map_to_list (r_peers n1)) as [|[k p] l] eqn:E; [|simpl; eauto].
      apply map_to_list_empty_iff in E. done. }
    rewrite collect_held; [done| |done|done]. unfold n1. simpl. rewrite Hc. eauto.
  - rewrite collect_no_client by done.
    assert (length (map_to_list (r_peers n1)).*2 = size (r_peers n1)) as ->
      by by rewrite length_fmap, length_map_to_list.
    destruct (Z.ltb_spec ((Z.of_nat (size (r_peers n1)) + 1) / 2) (1 + Z.of_nat (size (r_peers n1)))) as [_|Hge].
    + by destruct n; simpl in *; subst.
    + exfalso. assert (0 <= Z.of_nat (size (r_peers n1)))%Z by lia.
      pose proof (Z.div_lt (Z.of_nat (size (r_peers n1)) + 1) 2). lia.
Qed.

(** ** Properties *)

(** C39: An election.  Without an RPC client every peer counts as a vote, and a
    node that is not leader becomes the leader of the next term, having voted
    for itself.  With an RPC client and at least one peer an election never
    returns: [becomeCandidate] holds the mutex that [requestVote] locks. *)
Theorem raft_election now n :
  r_mu n = false -> r_state n <> StateLeader ->
  match r_client n with
  | None => becomeCandidate now n
            = Done (tt, with_role (wrapU 64 (r_term n + 1)) (Some (r_id n)) StateLeader now (r_id n) n)
  | Some _ => r_peers n <> ∅ -> becomeCandidate now n = Blocked
  end.
Proof. apply election_lemma. Qed.

(** A log: entry [k] has index [k+1], and the terms do not decrease. *)
Definition log_ok (n : RaftNode) : Prop :=
  (forall k e, r_log n !! k = Some e -> e_Index e = wrapU 64 (Z.of_nat k + 1))
  /\ forall j k e f, j <= k -> r_log n !! j = Some e -> r_log n !! k = Some f ->
       (e_Term e <= e_Term f <= r_term n)%Z.

(** The operations of a node without RPC client; the 64-bit term does not
    wrap. *)
Inductive raft_step : RaftNode -> RaftNode -> Prop :=
| raft_elect now n n' :
    (r_term n < 2 ^ 64 - 1)%Z -> becomeCandidate now n = Done (tt, n') -> raft_step n n'
| raft_propose d r n n' : Propose d n = Done (r, n') -> raft_step n n'
| raft_add i a n n' : AddPeer i a n = Done (tt, n') -> raft_step n n'.

(** What holds of a node between operations. *)
Record raft_ok (n : RaftNode) : Prop := {
  raft_unlocked : r_mu n = false;
  raft_nil : r_client n = None;
  raft_term : (0 <= r_term n < 2 ^ 64)%Z;
  raft_log : log_ok n;
}.

Lemma becomeCandidate_leader now n :
  r_mu n = false -> r_state n = StateLeader -> becomeCandidate now n = Done (tt, n).
Proof.
  intros Hm Hs. unfold becomeCandidate, locked. rewrite Hm. cbn [r_state with_mu].
  rewrite decide_True by done. destruct n. simpl in *. by subst.
Qed.

Lemma becomeCandidate_wins now n :
  r_mu n = false -> r_client n = None -> r_state n <> StateLeader ->
  becomeCandidate now n
  = Done (tt, with_role (wrapU 64 (r_term n + 1)) (Some (r_id n)) StateLeader now (r_id n) n).
Proof. intros Hm Hc Hs. pose proof (election_lemma now n Hm Hs) as H. by rewrite Hc in H. Qed.

Lemma log_ok_snoc n e t :
  log_ok n -> e_Term e = t -> r_term n = t -> e_Index e = wrapU 64 (Z.of_nat (length (r_log n)) + 1) ->
  forall n', r_log n' = r_log n ++ [e] -> r_term n' = t -> log_ok n'.
Proof.
  intros [Hi Ht] He Hn Hx n' Hl Hn'. split; rewrite Hl.
  - intros k f. rewrite lookup_app_Some. intros [?|[Hk Hf]]; [by apply Hi|].
    apply list_lookup_singleton_Some in Hf as [Hk0 <-]. rewrite Hx. do 2 f_equal. lia.
  - intros j k f g Hjk. rewrite !lookup_app_Some, Hn'.
    intros [Hf|[Hj Hf]] [Hg|[Hk Hg]].
    + rewrite <- Hn. by eapply Ht.
    + apply list_lookup_singleton_Some in Hg as [_ <-].
      pose proof (Ht j j f f (le_n j) Hf Hf). lia.
    + apply lookup_lt_Some in Hg. lia.
    + apply list_lookup_singleton_Some in Hf as [_ <-], Hg as [_ <-]. lia.
Qed.

Lemma raft_step_ok n n' :
  raft_ok n -> raft_step n n' -> raft_ok n' /\ r_log n `prefix_of` r_log n'.
Proof.
  intros [Hm Hc Ht Hl] Hstep. destruct Hstep as [now n n' Hw E|d r n n' E|i a n n' E].
  - destruct (decide (r_state n = StateLeader)) as [Hs|Hs].
    + rewrite becomeCandidate_leader in E by done. by injection E as <-.
    + rewrite becomeCandidate_wins in E by done. injection E as <-. split; [|done].
      split; simpl; [done|done|rewrite wrapU_small; lia|].
      destruct Hl as [Hi Hj]. split; [done|]. simpl. intros j k e f Hjk He Hf.
      rewrite wrapU_small by lia. specialize (Hj j k e f Hjk He Hf). lia.
  - unfold Propose, locked in E. rewrite Hm in E. cbn [r_state with_mu] in E.
    case_decide; [|injection E as _ <-; split; [|by exists [mkEntry (r_term n)
      (wrapU 64 (Z.of_nat (length (r_log n)) + 1)) d]]].
    + injection E as _ <-. by destruct n; simpl in *; subst.
    + split; [done|done|done|]. by apply (log_ok_snoc n (mkEntry (r_term n) (wrapU 64 (Z.of_nat (length (r_log n)) + 1)) d) (r_term n)).
  - unfold AddPeer, locked in E. rewrite Hm in E. injection E as <-. by split; [split|].
Qed.

(** The log of a node without RPC client is only ever appended to, by the
    leader: along any sequence of elections, proposals and additions of peers,
    entry [k] has index [k+1] and the terms never decrease nor exceed the
    current one. *)
Theorem raft_log_invariant i n n' :
  rtc raft_step (NewRaft i None) n -> rtc raft_step n n' ->
  log_ok n' /\ r_log n `prefix_of` r_log n'.
Proof.
  intros H1 H2.
  assert (raft_ok (NewRaft i None)) as H0
    by (split; [done|done|simpl; lia|split; simpl; intros; by rewrite lookup_nil in *]).
  assert (forall a b, rtc raft_step a b -> raft_ok a -> raft_ok b /\ r_log a `prefix_of` r_log b) as Hall.
  { intros a b Hab. induction Hab as [a|a b c Hs _ IH]; intros Ha; [done|].
    destruct (raft_step_ok _ _ Ha Hs) as [Hb Hp]. destruct (IH Hb). split; [done|]. by etrans. }
  destruct (Hall _ _ H1 H0) as [Hn _]. destruct (Hall _ _ H2 Hn) as [[? ? ? ?] ?]. done.
Qed.

(** * Witnesses *)

Definition ex_raft : RaftNode := NewRaft (Byte.x01 :: zeroes 31) None.

Lemma raft_election_witness :
  becomeCandidate 5 ex_raft
  = Done (tt, with_role 1 (Some (r_id ex_raft)) StateLeader 5 (r_id ex_raft) ex_raft).
Proof. exact (raft_election 5 ex_raft eq_refl ltac:(discriminate)). Defined.

Lemma raft_log_invariant_witness :
  exists n n', becomeCandidate 5 ex_raft = Done (tt, n) /\ Propose (str "x") n = Done (Ok tt, n')
               /\ length (r_log n') = 1 /\ log_ok n'.
Proof.
  eexists _, _. split; [vm_compute; reflexivity|]. split; [vm_compute; reflexivity|].
  split; [reflexivity|]. refine (proj1 (raft_log_invariant (r_id ex_raft) _ _ _ _)).
  - eapply rtc_l; [|apply rtc_refl]. apply (raft_elect 5); [reflexivity|]. vm_compute. reflexivity.
  - eapply rtc_l; [|apply rtc_refl]. eapply (raft_propose (str "x")). vm_compute. reflexivity.
Defined.
