(* ===== verification/Pow.v ===== *)
(** * The memory-hard proof of work of pkg/security

    Challenges, the solver, the verifier and the replay-checking validator.
    Argon2id comes from golang.org/x/crypto: [Argon2] is its interface, a
    function to a key of the requested length that is defined for at least one
    pass and one lane.  [ctx_ok] says whether the context is still live: at
    entry ([ctx_ok (-1)]) and when the search reaches a nonce.  Locks are left out: [Validate]
    holds its lock while it reads and writes [seen]. *)

From S2P Require Import Prelude Bytes Hash Bits Float.

Local Open Scope Z_scope.

Class Argon2 := {
  argon2_IDKey : forall (password salt : bytes) (time memory threads : Z) (keyLen : nat), bytes;
  argon2_length : forall p s t m th k, 1 <= t -> 1 <= th -> length (argon2_IDKey p s t m th k) = k;
}.

Definition MaxPoWMemoryKiB : Z := 64 * 1024.
Definition DefaultPoWMemoryKiB : Z := 64 * 1024.
Definition DefaultPoWTimeCost : Z := 1.
Definition DefaultPoWParallelism : Z := 1.
Definition MaxPoWTimeCost : Z := 4.
Definition MaxPoWParallelism : Z := 4.
Definition MinDifficulty : Z := 8.
Definition MaxDifficulty : Z := 24.
Definition PowReplayWindow : Z := 5 * minute.

(** [powNonceSearchLimit] is [2^32]. *)
Definition powNonceSearchBits : nat := 32.

Record PoWChallenge := mkChallenge {
  Algorithm : bytes;
  Difficulty : Z;
  Memory : Z;
  TimeCost : Z;
  Parallelism : Z;
  Timestamp : Z;
  Service : bytes;
  Salt : bytes;
}.

Record PoWSolution := mkSolution {
  Nonce : bytes;
  Hash_ : bytes;
  Time_ : Z;
  Duration : Z;
}.

Definition MarshalChallenge (c : PoWChallenge) : bytes :=
  Algorithm c ++ [byte_of (Difficulty c)] ++ be_put 4 (Memory c) ++ be_put 4 (TimeCost c)
  ++ [byte_of (Parallelism c)] ++ be_put 8 (time_unix_nano (Timestamp c)) ++ Service c ++ Salt c.

Definition clamp (c : PoWChallenge) : Z * Z * Z :=
  let memory := if (Memory c =? 0) || (MaxPoWMemoryKiB <? Memory c)
                then MaxPoWMemoryKiB else Memory c in
  let timeCost := if (TimeCost c =? 0) || (MaxPoWTimeCost <? TimeCost c)
                  then MaxPoWTimeCost else TimeCost c in
  let parallelism := if (Parallelism c =? 0) || (MaxPoWParallelism <? Parallelism c)
                     then MaxPoWParallelism else Parallelism c in
  let min := wrapU 32 (8 * parallelism) in
  ((if memory <? min then min else memory), timeCost, parallelism).

Definition workSeed `{Argon2} (c : PoWChallenge) : bytes :=
  let '(memory, timeCost, parallelism) := clamp c in
  let h := argon2_IDKey (MarshalChallenge c) (Salt c) timeCost memory parallelism 32 in
  take 32 h ++ zeroes (32 - length h).

Definition candidateHash `{Hash256} (seed nonce : bytes) : bytes :=
  sha3 (seed ++ be_put 8 (be_get nonce)).

(** The inner loop of [leadingZeroBits] on a byte: the clear bits above the
    first set one. *)
Fixpoint clear_bits (b : Z) (js : list Z) : Z :=
  match js with
  | [] => 0
  | j :: js' => if Z.land b (Z.shiftl 1 j) =? 0 then 1 + clear_bits b js' else 0
  end.

Fixpoint leadingZeroBits (hash : bytes) : Z :=
  match hash with
  | [] => 0
  | b :: rest => if u8 b =? 0 then 8 + leadingZeroBits rest
                 else clear_bits (u8 b) [7; 6; 5; 4; 3; 2; 1; 0]
  end.

(** [GenerateChallenge]: [salt] is what [rand.Read] wrote. *)
Definition GenerateChallenge (difficulty : Z) (svc salt : bytes) (now : Z) : PoWChallenge :=
  let difficulty := if difficulty <? MinDifficulty then MinDifficulty else difficulty in
  let difficulty := if MaxDifficulty <? difficulty then MaxDifficulty else difficulty in
  mkChallenge (str "argon2id-sha3") difficulty DefaultPoWMemoryKiB DefaultPoWTimeCost
    DefaultPoWParallelism now svc salt.

(** The search loop; [now] and [dur] are the readings of the clock at its
    end.  The context is polled at every 65536th nonce, so a nonce
    ends the search if it solves the challenge or if the poll fails there. *)
Definition SolvePoWContext `{Hash256, Argon2} (ctx_ok : Z -> bool) (now dur : Z) (c : PoWChallenge)
    : result PoWSolution :=
  if negb (ctx_ok (-1)) then Err (ErrText "context canceled") else
  if MaxDifficulty <? Difficulty c then Err (ErrText "pow difficulty above maximum") else
  let seed := workSeed c in
  let polled nonce := (Z.land nonce 65535 =? 0) && negb (ctx_ok nonce) in
  let hit nonce := Difficulty c <=? leadingZeroBits (candidateHash seed (be_put 8 nonce)) in
  match first_nonce powNonceSearchBits (fun nonce => polled nonce || hit nonce) 0 with
  | Some nonce =>
      if polled nonce then Err (ErrText "context canceled")
      else let n := be_put 8 nonce in Ok (mkSolution n (candidateHash seed n) now dur)
  | None => Err (ErrText "pow nonce space exhausted")
  end.

Definition SolvePoW `{Hash256, Argon2} (now dur : Z) (c : PoWChallenge) : result PoWSolution :=
  SolvePoWContext (fun _ => true) now dur c.

Definition VerifyPoW `{Hash256, Argon2} (c : PoWChallenge) (sol : PoWSolution) : bool :=
  let computed := candidateHash (workSeed c) (Nonce sol) in
  if negb (bool_decide (computed = Hash_ sol)) then false
  else Difficulty c <=? leadingZeroBits computed.

Definition VerifyPoWWithTime `{Hash256, Argon2} (c : PoWChallenge) (sol : PoWSolution) (now : Z) : bool :=
  if negb (VerifyPoW c sol) then false else
  let age := time_sub now (Timestamp c) in
  (age <=? PowReplayWindow) && (- PowReplayWindow <=? age).

(** ** The difficulty adjuster *)

Record PoWConfig := mkPoWConfig {
  cfg_BaseDifficulty : Z;
  cfg_MinDifficulty : Z;
  cfg_MaxDifficulty : Z;
  cfg_TargetSolveTime : Z;
  cfg_AdjustmentInterval : Z;
  cfg_MaxAdjustmentFactor : float64;
  cfg_Memory : Z;
  cfg_TimeCost : Z;
  cfg_Parallelism : Z;
}.

Definition DefaultPoWConfig : PoWConfig :=
  mkPoWConfig 16 MinDifficulty MaxDifficulty (100 * millisecond) (5 * minute) (f64_of_Z 2)
    DefaultPoWMemoryKiB DefaultPoWTimeCost DefaultPoWParallelism.

Record DifficultyAdjuster := mkAdjuster {
  config : PoWConfig;
  difficulty : Z;
  lastAdjust : Z;
  history : list Z;
}.

Definition NewDifficultyAdjuster (cfg : PoWConfig) : DifficultyAdjuster :=
  let d := cfg_BaseDifficulty cfg in
  let d := if d <? cfg_MinDifficulty cfg then cfg_MinDifficulty cfg else d in
  let d := if cfg_MaxDifficulty cfg <? d then cfg_MaxDifficulty cfg else d in
  mkAdjuster cfg d 0 [].

Definition averageDuration (ds : list Z) : Z :=
  match ds with
  | [] => 0
  | _ => Z.quot (foldl (fun total d => wrapS 64 (total + d)) 0 ds) (Z.of_nat (length ds))
  end.

(** [math.Round]: half away from zero, on values that fit an int64. *)
Definition f64_round (f : float64) : Z :=
  match f with
  | S754_finite s m e =>
      let v := if 0 <=? e then Zpos m * 2 ^ e
               else (Zpos m + 2 ^ (- e - 1)) / 2 ^ (- e) in
      if s then - v else v
  | _ => 0
  end.

(** [RecordSolve]; [log2] is [math.Log2]. *)
Definition RecordSolve (log2 : float64 -> float64) (now d : Z) (a : DifficultyAdjuster)
    : Z * DifficultyAdjuster :=
  let h := history a ++ [d] in
  let h := if 100 <? Z.of_nat (length h) then drop (length h - 100) h else h in
  let a := mkAdjuster (config a) (difficulty a) (lastAdjust a) h in
  let cfg := config a in
  if cfg_TargetSolveTime cfg <=? 0 then (difficulty a, a) else
  if negb (time_is_zero (lastAdjust a)) &&
     (time_sub now (lastAdjust a) <? cfg_AdjustmentInterval cfg) then (difficulty a, a) else
  let avg := averageDuration h in
  if avg <=? 0 then (difficulty a, a) else
  let ratio := f64_div (f64_of_Z (cfg_TargetSolveTime cfg)) (f64_of_Z avg) in
  let factor := cfg_MaxAdjustmentFactor cfg in
  let ratio :=
    if f64_lt (f64_of_Z 0) factor then
      let lo := f64_div (f64_of_Z 1) factor in
      let ratio := if f64_lt ratio lo then lo else ratio in
      if f64_lt factor ratio then factor else ratio
    else ratio in
  let newDiff := f64_add (f64_of_Z (difficulty a)) (log2 ratio) in
  let newDiff := if f64_lt newDiff (f64_of_Z (cfg_MinDifficulty cfg))
                 then f64_of_Z (cfg_MinDifficulty cfg) else newDiff in
  let newDiff := if f64_lt (f64_of_Z (cfg_MaxDifficulty cfg)) newDiff
                 then f64_of_Z (cfg_MaxDifficulty cfg) else newDiff in
  let d' := wrapU 8 (f64_round newDiff) in
  (d', mkAdjuster cfg d' now h).

(** ** The validator *)

Record PoWValidator := mkValidator {
  adjuster : DifficultyAdjuster;
  seen : gmap bytes Z;
}.

Definition NewPoWValidator (a : DifficultyAdjuster) : PoWValidator := mkValidator a ∅.

(** The scan for the oldest entry: [""] until one is found. *)
Definition oldest (m : gmap bytes Z) : bytes :=
  (foldl (fun '(oldestKey, old) '(k, t) =>
            if bool_decide (oldestKey = []) || time_before t old then (k, t) else (oldestKey, old))
     ([], 0) (map_to_list m)).1.

(** [for len(v.seen) > 1024 { ... }]: every iteration deletes an entry. *)
Fixpoint evict (fuel : nat) (m : gmap bytes Z) : gmap bytes Z :=
  match fuel with
  | O => m
  | S fuel' =>
      if 1024 <? Z.of_nat (size m) then
        let k := oldest m in
        if bool_decide (k = []) then m else evict fuel' (delete k m)
      else m
  end.

Definition remember (key : bytes) (now : Z) (m : gmap bytes Z) : gmap bytes Z :=
  let m := <[key := now]> m in
  if 1024 <? Z.of_nat (size m) then
    let cutoff := time_add now (- PowReplayWindow) in
    let m := filter (fun kt => time_before kt.2 cutoff = false) m in
    evict (size m) m
  else m.

Definition challenge_key `{Hash256} (c : PoWChallenge) : bytes := SHA3Hash (MarshalChallenge c).

Definition Validate `{Hash256, Argon2} (log2 : float64 -> float64) (now : Z)
    (c : PoWChallenge) (sol : PoWSolution) (v : PoWValidator) : result unit * PoWValidator :=
  if negb (VerifyPoWWithTime c sol now) then (Err (ErrText "invalid proof-of-work"), v) else
  let key := challenge_key c in
  let replayed := match seen v !! key with
                  | Some last => time_sub now last <? PowReplayWindow
                  | None => false
                  end in
  if replayed then (Err (ErrText "proof-of-work replayed"), v) else
  let v := mkValidator (adjuster v) (remember key now (seen v)) in
  (Ok tt, mkValidator (RecordSolve log2 now (Duration sol) (adjuster v)).2 (seen v)).

(** * Lemmas *)

Lemma leadingZeroBits_lzb h : leadingZeroBits h = lzb h.
Proof.
  induction h as [|b h IH]; [done|]. cbn [leadingZeroBits lzb]. rewrite IH.
  destruct (Z.eqb_spec (u8 b) 0) as [E|E]; [by rewrite decide_True|rewrite decide_False by done].
  clear IH E. by destruct b; vm_compute.
Qed.

Lemma clamp_bounds c :
  0 <= Memory c -> 0 <= TimeCost c -> 0 <= Parallelism c ->
  let '(memory, timeCost, parallelism) := clamp c in
  1 <= timeCost <= MaxPoWTimeCost /\ 1 <= parallelism <= MaxPoWParallelism
  /\ 8 * parallelism <= memory <= MaxPoWMemoryKiB.
Proof.
  intros Hm Ht Hp. unfold clamp, MaxPoWMemoryKiB, MaxPoWTimeCost, MaxPoWParallelism.
  destruct (Z.eqb_spec (TimeCost c) 0), (Z.ltb_spec 4 (TimeCost c)),
    (Z.eqb_spec (Parallelism c) 0), (Z.ltb_spec 4 (Parallelism c)); cbn [orb]; try lia;
    rewrite wrapU_small by lia;
    destruct (Z.eqb_spec (Memory c) 0), (Z.ltb_spec (64 * 1024) (Memory c)); cbn [orb]; try lia;
    match goal with |- context [if (?a <? ?b)%Z then _ else _] => destruct (Z.ltb_spec a b) end; lia.
Qed.

Section validator.
Context `{HH : Hash256, HA : Argon2}.

Lemma workSeed_length c :
  0 <= Memory c -> 0 <= TimeCost c -> 0 <= Parallelism c -> length (workSeed c) = 32%nat.
Proof.
  intros Hm Ht Hp. unfold workSeed. pose proof (clamp_bounds c Hm Ht Hp) as Hc.
  destruct (clamp c) as [[m t] p]. destruct Hc as (H1 & H2 & _).
  rewrite length_app, length_take, length_zeroes, !argon2_length by lia. lia.
Qed.

(** The scan finds an entry that no other entry is older than. *)
Lemma oldest_loop (l : list (bytes * Z)) (k : bytes) (t : Z) :
  k <> [] -> Forall (fun p => p.1 <> []) l ->
  let r := foldl (fun '(oldestKey, old) '(k, t) =>
             if bool_decide (oldestKey = []) || time_before t old then (k, t) else (oldestKey, old))
             (k, t) l in
  r ∈ (k, t) :: l /\ Forall (fun p => r.2 <= p.2) ((k, t) :: l).
Proof.
  revert k t. induction l as [|[k1 t1] l IH]; intros k t Hk Hl; simpl.
  - split; [left|]. repeat constructor. simpl. lia.
  - inversion_clear Hl as [|? ? Hk1 Hl']. rewrite bool_decide_false by done. cbn [orb].
    change (time_before t1 t) with (t1 <? t). destruct (Z.ltb_spec t1 t) as [Hlt|Hge].
    + destruct (IH k1 t1 Hk1 Hl') as [Hin Hmin]. split; [by right|].
      inversion_clear Hmin as [|? ? H1 H2]. simpl in H1. constructor; [simpl; lia|by constructor].
    + destruct (IH k t Hk Hl') as [Hin Hmin]. split.
      * apply elem_of_cons in Hin as [->|Hin]; [left|by right; right].
      * inversion_clear Hmin as [|? ? H1 H2]. simpl in H1. constructor; [done|].
        constructor; [simpl; lia|done].
Qed.

Lemma oldest_spec (m : gmap bytes Z) :
  m <> ∅ -> (forall k t, m !! k = Some t -> k <> []) ->
  exists t, m !! oldest m = Some t /\ forall k' t', m !! k' = Some t' -> t <= t'.
Proof.
  intros Hne Hk. unfold oldest.
  assert (Forall (fun p => p.1 <> []) (map_to_list m)) as HF.
  { apply Forall_forall. intros [k t] Hin%elem_of_map_to_list. by eapply Hk. }
  assert (forall k t, m !! k = Some t <-> (k, t) ∈ map_to_list m) as Hel
    by (intros; by rewrite elem_of_map_to_list).
  destruct (map_to_list m) as [|[k t] l] eqn:E; [by apply map_to_list_empty_iff in E|].
  inversion_clear HF as [|? ? Hk0 Hl]. cbn [foldl]. rewrite bool_decide_true by done. cbn [orb].
  destruct (oldest_loop l k t Hk0 Hl) as [Hin Hmin].
  set (r := foldl _ (k, t) l) in *. exists r.2. split.
  - apply Hel. by destruct r.
  - intros k' t' H. apply Hel in H. rewrite Forall_forall in Hmin. by apply (Hmin (k', t')).
Qed.

Lemma evict_size (fuel : nat) (m : gmap bytes Z) :
  (forall k t, m !! k = Some t -> k <> []) -> Z.of_nat (size m) <= 1024 + Z.of_nat fuel ->
  Z.of_nat (size (evict fuel m)) <= 1024.
Proof.
  revert m. induction fuel as [|fuel IH]; intros m Hk Hs; cbn [evict]; [lia|].
  destruct (Z.ltb_spec 1024 (Z.of_nat (size m))) as [Hgt|]; [|lia].
  destruct (oldest_spec m) as (t & Ho & _); [intros ->; rewrite map_size_empty in Hgt; lia|done|].
  rewrite bool_decide_false by (by eapply Hk). apply IH.
  - intros k t' [_ H]%lookup_delete_Some. by eapply Hk.
  - rewrite map_size_delete, Ho. lia.
Qed.

Lemma evict_subseteq (fuel : nat) (m : gmap bytes Z) : evict fuel m ⊆ m.
Proof.
  revert m. induction fuel as [|fuel IH]; intros m; cbn [evict]; [done|].
  case_match; [|done]. case_bool_decide; [done|]. etrans; [apply IH|]. apply delete_subseteq.
Qed.

(** The entries other than [K] that are at least as young as [t0]. *)
Definition younger (K : bytes) (t0 : Z) (m : gmap bytes Z) : gmap bytes Z :=
  filter (fun kt => kt.1 <> K /\ t0 <= kt.2) m.

Lemma younger_size K t0 m1 m2 : m1 ⊆ m2 -> (size (younger K t0 m1) <= size (younger K t0 m2))%nat.
Proof.
  intros Hsub. apply map_subseteq_size. apply map_subseteq_spec. intros k t.
  unfold younger. rewrite !map_lookup_filter_Some. intros [Hk Ht]. split; [|done].
  by eapply lookup_weaken.
Qed.

(** An entry is not evicted while fewer than 1024 others are as young. *)
Lemma evict_keeps (fuel : nat) (m : gmap bytes Z) (K : bytes) (t0 : Z) :
  (forall k t, m !! k = Some t -> k <> []) -> m !! K = Some t0 ->
  (size (younger K t0 m) < 1024)%nat ->
  evict fuel m !! K = Some t0.
Proof.
  revert m. induction fuel as [|fuel IH]; intros m Hk HK Hc; cbn [evict]; [done|].
  destruct (Z.ltb_spec 1024 (Z.of_nat (size m))) as [Hgt|]; [|done].
  destruct (oldest_spec m) as (t & Ho & Hmin); [intros ->; rewrite map_size_empty in Hgt; lia|done|].
  case_bool_decide; [done|].
  assert (oldest m <> K) as HoK.
  { intros E. rewrite E in Ho. assert (t = t0) as -> by congruence.
    replace (younger K t0 m) with (delete K m) in Hc; [rewrite map_size_delete, HK in Hc; lia|].
    unfold younger. apply map_eq. intros i. destruct (decide (i = K)) as [->|Hi].
    - rewrite lookup_delete_eq. symmetry. apply map_lookup_filter_None. right. intros x _ [? _]. done.
    - rewrite lookup_delete_ne by done. destruct (m !! i) as [x|] eqn:Ei; symmetry.
      + apply map_lookup_filter_Some. split; [done|]. split; [done|]. by eapply Hmin.
      + apply map_lookup_filter_None. by left. }
  apply IH.
  - intros k t' [_ Hkt]%lookup_delete_Some. by eapply Hk.
  - by rewrite lookup_delete_ne.
  - eapply Nat.le_lt_trans; [|exact Hc]. apply younger_size, delete_subseteq.
Qed.

(** The replay cache: at most 1024 entries, under 32-byte digests. *)
Definition cache_ok (m : gmap bytes Z) : Prop :=
  Z.of_nat (size m) <= 1024 /\ forall k t, m !! k = Some t -> k <> [].

Lemma remember_subseteq key now m : remember key now m ⊆ <[key := now]> m.
Proof.
  unfold remember. case_match; [|done]. etrans; [apply evict_subseteq|]. apply map_filter_subseteq.
Qed.

Lemma remember_ok key now m : key <> [] -> cache_ok m -> cache_ok (remember key now m).
Proof.
  intros Hkey [Hs Hk].
  assert (forall k t, <[key := now]> m !! k = Some t -> k <> []) as Hk1.
  { intros k t [[<- _]|[_ Hkt]]%lookup_insert_Some; [done|]. by eapply Hk. }
  split.
  - unfold remember. destruct (Z.ltb_spec 1024 (Z.of_nat (size (<[key := now]> m)))); [|lia].
    apply evict_size; [|lia]. intros k t [Hkt _]%map_lookup_filter_Some. by eapply Hk1.
  - intros k t Hkt. eapply Hk1, lookup_weaken, remember_subseteq. done.
Qed.

Lemma younger_insert K t0 key now m :
  (size (younger K t0 (<[key := now]> m)) <= S (size (younger K t0 m)))%nat.
Proof.
  transitivity (size (<[key := now]> (younger K t0 m))).
  - apply map_subseteq_size, map_subseteq_spec. intros k t.
    unfold younger. rewrite map_lookup_filter_Some. intros [Hk Ht].
    destruct (decide (key = k)) as [->|Hne].
    + rewrite lookup_insert_eq in *. done.
    + rewrite lookup_insert_ne in * by done. by apply map_lookup_filter_Some.
  - rewrite map_size_insert. case_match; simpl; lia.
Qed.

(** An entry survives the arrival of another one within its window. *)
Lemma remember_keeps K t0 key now m :
  key <> [] -> key <> K -> cache_ok m -> m !! K = Some t0 -> now - t0 < PowReplayWindow ->
  (size (younger K t0 m) < 1023)%nat ->
  remember key now m !! K = Some t0
  /\ (size (younger K t0 (remember key now m)) <= S (size (younger K t0 m)))%nat.
Proof.
  intros Hkey Hne [Hs Hk] HK Hw Hc.
  assert (forall k t, <[key := now]> m !! k = Some t -> k <> []) as Hk1.
  { intros k t [[<- _]|[_ Hkt]]%lookup_insert_Some; [done|]. by eapply Hk. }
  pose proof (younger_insert K t0 key now m) as Hy. split.
  - unfold remember. case_match; [|by rewrite lookup_insert_ne]. apply evict_keeps.
    + intros k t [Hkt _]%map_lookup_filter_Some. by eapply Hk1.
    + apply map_lookup_filter_Some. rewrite lookup_insert_ne by done. split; [done|].
      simpl. unfold time_before, time_add. apply Z.ltb_ge. lia.
    + eapply Nat.le_lt_trans; [apply younger_size, map_filter_subseteq|]. lia.
  - etransitivity; [apply younger_size, remember_subseteq|done].
Qed.

(** The calls a validator has seen: time, challenge, solution. *)
Definition validate_all (log2 : float64 -> float64) (calls : list (Z * PoWChallenge * PoWSolution))
    (v : PoWValidator) : PoWValidator :=
  foldl (fun v '(now, c, sol) => (Validate log2 now c sol v).2) v calls.

Lemma challenge_key_nonempty c : challenge_key c <> [].
Proof.
  intros E. pose proof (sha3_length (MarshalChallenge c)) as HL.
  unfold challenge_key, SHA3Hash in E. by rewrite E in HL.
Qed.

(** What a call does to the cache. *)
Lemma Validate_seen log2 now c sol v :
  (Validate log2 now c sol v = (Err (ErrText "invalid proof-of-work"), v)
   \/ Validate log2 now c sol v = (Err (ErrText "proof-of-work replayed"), v))
  \/ ((Validate log2 now c sol v).1 = Ok tt
      /\ seen (Validate log2 now c sol v).2 = remember (challenge_key c) now (seen v)
      /\ forall last, seen v !! challenge_key c = Some last -> PowReplayWindow <= time_sub now last).
Proof.
  unfold Validate. destruct (VerifyPoWWithTime c sol now); simpl; [|by left; left].
  destruct (seen v !! challenge_key c) as [last|] eqn:E.
  - destruct (Z.ltb_spec (time_sub now last) PowReplayWindow); [by left; right|].
    right. split_and!; try done. congruence.
  - right. split_and!; try done.
Qed.

Lemma Validate_cache_ok log2 now c sol v :
  cache_ok (seen v) -> cache_ok (seen (Validate log2 now c sol v).2).
Proof.
  intros Hv. destruct (Validate_seen log2 now c sol v) as [[-> | ->]|(_ & -> & _)]; try done.
  apply remember_ok; [apply challenge_key_nonempty|done].
Qed.

Lemma validate_all_cache_ok log2 calls v :
  cache_ok (seen v) -> cache_ok (seen (validate_all log2 calls v)).
Proof.
  revert v. induction calls as [|[[now c] sol] calls IH]; intros v Hv; simpl; [done|].
  by apply IH, Validate_cache_ok.
Qed.

Lemma time_sub_lt a b w : 0 < w -> a - b < w -> time_sub a b < w.
Proof. intros Hw H. unfold time_sub, int64_min, int64_max. lia. Qed.

Lemma validate_all_keeps log2 calls v K t0 :
  cache_ok (seen v) -> seen v !! K = Some t0 ->
  Forall (fun p => p.1.1 - t0 < PowReplayWindow) calls ->
  (size (younger K t0 (seen v)) + length calls <= 1023)%nat ->
  seen (validate_all log2 calls v) !! K = Some t0.
Proof.
  revert v. induction calls as [|[[now c] sol] calls IH]; intros v Hv HK HW Hc; simpl; [done|].
  inversion_clear HW as [|? ? Hnow HW']. cbn [length fst] in *.
  destruct (Validate_seen log2 now c sol v) as [[-> | ->]|(_ & Hseen & Hfresh)];
    [cbn [snd]; apply IH; [done..|lia]|cbn [snd]; apply IH; [done..|lia]|].
  assert (challenge_key c <> K) as Hne.
  { intros <-. specialize (Hfresh _ HK).
    pose proof (time_sub_lt now t0 PowReplayWindow eq_refl Hnow). lia. }
  destruct (remember_keeps K t0 (challenge_key c) now (seen v) (challenge_key_nonempty c) Hne Hv HK Hnow)
    as [Hk Hy]; [lia|]. rewrite <- Hseen in Hk, Hy.
  apply IH; [by apply Validate_cache_ok|done|done|]. lia.
Qed.

(** ** Properties *)

(** The memory-hard proof of work is sound and complete.  [VerifyPoW]
    accepts exactly the solutions whose hash is the recomputed one and has the
    leading zero bits the challenge asks for; what [SolvePoW] returns is
    accepted, with the smallest nonce; and it fails only above the maximal
    difficulty or when none of [2^32] nonces works. *)
Theorem security_pow_correct c sol now dur :
  (VerifyPoW c sol = true <->
     Hash_ sol = candidateHash (workSeed c) (Nonce sol) /\ Difficulty c <= lzb (Hash_ sol))
  /\ match SolvePoW now dur c with
     | Ok s => VerifyPoW c s = true
               /\ forall m, 0 <= m < be_get (Nonce s) ->
                    lzb (candidateHash (workSeed c) (be_put 8 m)) < Difficulty c
     | Err _ => MaxDifficulty < Difficulty c
                \/ forall m, 0 <= m < 2 ^ 32 ->
                     lzb (candidateHash (workSeed c) (be_put 8 m)) < Difficulty c
     end.
Proof.
  split.
  - unfold VerifyPoW. rewrite leadingZeroBits_lzb. case_bool_decide as E; cbn [negb].
    + rewrite Z.leb_le, E. naive_solver.
    + split; [done|]. intros [? _]. congruence.
  - unfold SolvePoW, SolvePoWContext. cbn [negb].
    destruct (Z.ltb_spec MaxDifficulty (Difficulty c)); [by left|].
    pose proof (first_nonce_spec powNonceSearchBits (fun nonce =>
      (Z.land nonce 65535 =? 0) && negb true
      || (Difficulty c <=? leadingZeroBits (candidateHash (workSeed c) (be_put 8 nonce)))) 0) as HS.
    change (0 + 2 ^ Z.of_nat powNonceSearchBits) with (2 ^ 32) in HS.
    destruct (first_nonce _ _ _) as [n|]; cbn [negb]; rewrite ?andb_false_r.
    + destruct HS as (Hr & Hhit & Hmin). rewrite andb_false_r in Hhit. cbn [orb] in Hhit. split.
      * unfold VerifyPoW. cbn [Nonce Hash_]. by rewrite bool_decide_true.
      * cbn [Nonce]. rewrite be_get_put_small by lia. intros m Hm. specialize (Hmin m Hm).
        simpl in Hmin. rewrite andb_false_r in Hmin. cbn [orb] in Hmin.
        rewrite leadingZeroBits_lzb in Hmin. by apply Z.leb_gt.
    + right. intros m Hm. specialize (HS m Hm). simpl in HS. rewrite andb_false_r in HS.
      cbn [orb] in HS. rewrite leadingZeroBits_lzb in HS. by apply Z.leb_gt.
Qed.

(** C20: Replay protection.  After any history, if a challenge is accepted at
    time [t0] (later than every acceptance before it), then it is refused,
    with any solution, as long as the replay window lasts and at most 1023
    other calls come in between; and the cache never holds more than 1024
    entries. *)
Theorem pow_replay_rejected log2 a before t0 c sol after now sol' :
  let v := validate_all log2 before (NewPoWValidator a) in
  (forall k t, seen v !! k = Some t -> t < t0) ->
  (Validate log2 t0 c sol v).1 = Ok tt ->
  Forall (fun p => p.1.1 - t0 < PowReplayWindow) after -> (length after <= 1023)%nat ->
  now - t0 < PowReplayWindow ->
  let v' := validate_all log2 after (Validate log2 t0 c sol v).2 in
  (Validate log2 now c sol' v').1 <> Ok tt /\ Z.of_nat (size (seen v')) <= 1024.
Proof.
  intros v Hold Hacc HW Hlen Hnow v'.
  assert (cache_ok (seen v)) as Hv.
  { apply validate_all_cache_ok. unfold NewPoWValidator, cache_ok. cbn [seen].
    rewrite map_size_empty. split; [lia|]. intros k t. by rewrite lookup_empty. }
  destruct (Validate_seen log2 t0 c sol v) as [[E|E]|(_ & Hseen & _)]; [by rewrite E in Hacc..|].
  set (K := challenge_key c) in *. pose proof (challenge_key_nonempty c) as HK0.
  assert (younger K t0 (<[K := t0]> (seen v)) = ∅) as Hy.
  { apply map_eq. intros k. rewrite lookup_empty. apply map_lookup_filter_None. right.
    intros t Ht [Hk Hge]. simpl in *. rewrite lookup_insert_ne in Ht by done.
    specialize (Hold k t Ht). lia. }
  assert (seen (Validate log2 t0 c sol v).2 !! K = Some t0
          /\ younger K t0 (seen (Validate log2 t0 c sol v).2) = ∅) as [HK Hy'].
  { rewrite Hseen. split.
    - unfold remember. case_match; [|by rewrite lookup_insert_eq]. apply evict_keeps.
      + intros k t [Hkt _]%map_lookup_filter_Some.
        apply lookup_insert_Some in Hkt as [[<- _]|[_ Hkt]]; [done|by eapply Hv].
      + apply map_lookup_filter_Some. rewrite lookup_insert_eq. split; [done|]. simpl.
        unfold time_before, time_add. apply Z.ltb_ge. unfold PowReplayWindow, minute, second. lia.
      + eapply Nat.le_lt_trans; [apply younger_size, map_filter_subseteq|].
        rewrite Hy, map_size_empty. lia.
    - apply map_size_empty_iff. pose proof (younger_size K t0 _ _ (remember_subseteq K t0 (seen v))) as Hle.
      rewrite Hy, map_size_empty in Hle. lia. }
  assert (cache_ok (seen v')) as Hv' by (by apply validate_all_cache_ok, Validate_cache_ok).
  split; [|apply Hv'].
  assert (seen v' !! K = Some t0) as HK'.
  { apply validate_all_keeps; [by apply Validate_cache_ok|done|done|].
    rewrite Hy', map_size_empty. lia. }
  destruct (Validate_seen log2 now c sol' v') as [[-> | ->]|(_ & _ & Hfresh)]; [done..|].
  specialize (Hfresh _ HK'). pose proof (time_sub_lt now t0 PowReplayWindow eq_refl Hnow). lia.
Qed.

(** The cost of a challenge is bounded whatever it asks for: Argon2id runs
    with one to four passes, one to four lanes and at most 64 MiB, never less
    than the eight blocks a lane needs, so it is defined and the seed has 32
    bytes. *)
Theorem pow_cost_clamped c :
  0 <= Memory c < 2 ^ 32 -> 0 <= TimeCost c < 2 ^ 32 -> 0 <= Parallelism c < 2 ^ 8 ->
  (let '(memory, timeCost, parallelism) := clamp c in
   1 <= timeCost <= MaxPoWTimeCost /\ 1 <= parallelism <= MaxPoWParallelism
   /\ 8 * parallelism <= memory <= MaxPoWMemoryKiB)
  /\ length (workSeed c) = 32%nat.
Proof. intros Hm Ht Hp. split; [apply clamp_bounds; lia|apply workSeed_length; lia]. Qed.

(** The validator takes the difficulty from the challenge it is handed, which
    the peer sends: a fresh challenge of difficulty zero is accepted with any
    nonce, whatever difficulty the adjuster asks for. *)
Theorem pow_zero_difficulty_accepted log2 now c nonce v :
  Difficulty c = 0 -> Timestamp c = now -> seen v !! challenge_key c = None ->
  (Validate log2 now c
     (mkSolution nonce (candidateHash (workSeed c) nonce) now 0) v).1 = Ok tt.
Proof.
  intros Hd Ht Hs. unfold Validate, VerifyPoWWithTime, VerifyPoW. cbn [Nonce Hash_].
  rewrite bool_decide_true by done. cbn [negb]. rewrite Hd, leadingZeroBits_lzb.
  pose proof (lzb_range (candidateHash (workSeed c) nonce)) as Hl.
  destruct (Z.leb_spec 0 (lzb (candidateHash (workSeed c) nonce))); [|lia]. cbn [negb].
  rewrite Ht. unfold time_sub. rewrite Z.sub_diag. simpl. by rewrite Hs.
Qed.

(** The adjuster keeps a hundred samples, and within the adjustment interval
    its difficulty does not move. *)
Lemma RecordSolve_bounded log2 now d a :
  (length (history a) <= 100)%nat ->
  let '(r, a') := RecordSolve log2 now d a in
  (length (history a') <= 100)%nat /\ r = difficulty a' /\ config a' = config a
  /\ (lastAdjust a <> 0 -> time_sub now (lastAdjust a) < cfg_AdjustmentInterval (config a) ->
      difficulty a' = difficulty a /\ lastAdjust a' = lastAdjust a).
Proof.
  intros Hh. unfold RecordSolve. cbn [config difficulty lastAdjust history].
  set (h := if 100 <? Z.of_nat (length (history a ++ [d]))
            then drop (length (history a ++ [d]) - 100) (history a ++ [d]) else history a ++ [d]).
  assert (length h <= 100)%nat as Hlen.
  { unfold h. destruct (Z.ltb_spec 100 (Z.of_nat (length (history a ++ [d]))));
      rewrite ?length_drop, ?length_app in *; simpl in *; lia. }
  destruct (cfg_TargetSolveTime (config a) <=? 0); [by split_and!|].
  destruct (negb (time_is_zero (lastAdjust a)) &&
    (time_sub now (lastAdjust a) <? cfg_AdjustmentInterval (config a))) eqn:E; [by split_and!|].
  destruct (averageDuration h <=? 0); [by split_and!|]. split_and!; try done.
  intros Hz Hlt. exfalso. apply andb_false_iff in E as [E|E].
  - apply negb_false_iff, Z.eqb_eq in E. lia.
  - apply Z.ltb_ge in E. lia.
Qed.

End validator.

(** * Witnesses *)

(** A stand-in for Argon2id: any function to keys of the asked length. *)
Definition hashed_key : Argon2.
Proof.
  refine {| argon2_IDKey := fun p s t m th k =>
              take k (@sha3 sha3_256_hash (p ++ s ++ be_put 8 t ++ be_put 8 m ++ be_put 8 th) ++ zeroes k) |}.
  intros. rewrite length_take, length_app, length_zeroes. lia.
Defined.

#[local] Existing Instance sha3_256_hash.
#[local] Existing Instance hashed_key.

Definition ex_challenge : PoWChallenge :=
  mkChallenge (str "argon2id-sha3") 2 65536 1 1 (1000 * second) (str "dns") (zeroes 16).

Definition ex_solution : PoWSolution :=
  match SolvePoW (1000 * second) 0 ex_challenge with
  | Ok s => s
  | Err _ => mkSolution [] [] 0 0
  end.

Definition ex_adjuster : DifficultyAdjuster := NewDifficultyAdjuster DefaultPoWConfig.

Lemma pow_replay_rejected_witness :
  let v := validate_all (fun f => f) [] (NewPoWValidator ex_adjuster) in
  let v' := validate_all (fun f => f) []
              (Validate (fun f => f) (1001 * second) ex_challenge ex_solution v).2 in
  (Validate (fun f => f) (1060 * second) ex_challenge ex_solution v').1 <> Ok tt
  /\ Z.of_nat (size (seen v')) <= 1024.
Proof.
  apply (pow_replay_rejected (fun f => f) ex_adjuster [] (1001 * second) ex_challenge ex_solution
           [] (1060 * second) ex_solution).
  - intros k t. unfold validate_all, NewPoWValidator. cbn [foldl seen]. by rewrite lookup_empty.
  - vm_compute. reflexivity.
  - constructor.
  - simpl. lia.
  - reflexivity.
Defined.

Lemma pow_cost_clamped_witness :
  length (workSeed (mkChallenge [] 8 4294967295 4294967295 255 0 [] (zeroes 16))) = 32%nat.
Proof. apply pow_cost_clamped; simpl; lia. Defined.

Lemma security_pow_correct_witness : VerifyPoW ex_challenge ex_solution = true.
Proof.
  apply (proj2 (proj1 (security_pow_correct ex_challenge ex_solution 0 0))). split; [vm_compute; reflexivity|].
  vm_compute. congruence.
Defined.
