(* ===== verification/Capability.v ===== *)
(** * Capability tokens of pkg/security

    [CapabilityManager] with its tokens, revocations and registered services.
    Ed25519 and the JSON form that is signed are an interface: the canonical
    form is a function of the five signed fields.  The
    mutex is left out ([GrantCapability] takes it once per service and once to
    store the token; a call is one step here). *)

From S2P Require Import Prelude Bytes Ed25519.

Class TokenCrypto := {
  token_ed25519 :: Ed25519;
  json_raw : bytes -> list bytes -> Z -> Z -> bytes -> bytes;
}.

Record CapabilityToken := mkToken {
  PeerID : bytes;
  Services : list bytes;
  IssuedAt : Z;
  ExpiresAt : Z;
  Nonce : bytes;
  Signature : bytes;
}.

Record CapabilityManager := mkManager {
  privKey : bytes;
  pubKey : bytes;
  tokens : gmap bytes (list CapabilityToken);
  revoked : gset bytes;
  services : gset bytes;
}.

Definition NewCapabilityManager (pub priv : bytes) : CapabilityManager := mkManager priv pub ∅ ∅ ∅.

Section capability.
Context `{HC : TokenCrypto}.

Definition CanonicalForm (t : CapabilityToken) : bytes :=
  json_raw (PeerID t) (Services t) (time_unix (IssuedAt t)) (time_unix (ExpiresAt t)) (Nonce t).

Definition Sign (priv : bytes) (t : CapabilityToken) : CapabilityToken :=
  mkToken (PeerID t) (Services t) (IssuedAt t) (ExpiresAt t) (Nonce t)
    (ed_sign priv (CanonicalForm t)).

(** The expiry test all readers share. *)
Definition expired (now : Z) (t : CapabilityToken) : bool :=
  negb (time_is_zero (ExpiresAt t)) && time_after now (ExpiresAt t).

Definition Verify (now : Z) (issuerPub : bytes) (t : CapabilityToken) : result unit :=
  if decide (length (Signature t) <> 64) then Err (ErrText "invalid signature length") else
  if decide (PeerID t = zeroes 32) then Err (ErrText "peer ID must not be zero") else
  if negb (ed_verify issuerPub (CanonicalForm t) (Signature t))
  then Err (ErrText "signature verification failed") else
  if expired now t then Err (ErrText "token expired") else Ok tt.

Definition RegisterService (svc : bytes) (m : CapabilityManager) : CapabilityManager :=
  mkManager (privKey m) (pubKey m) (tokens m) (revoked m) ({[svc]} ∪ services m).

(** [nonce] is what [rand.Read] wrote. *)
Definition GrantCapability (now : Z) (nonce peerID : bytes) (svcs : list bytes) (ttl : Z)
    (m : CapabilityManager) : result CapabilityToken * CapabilityManager :=
  if decide (length svcs = 0) then (Err (ErrText "no services specified"), m) else
  if negb (forallb (fun svc => bool_decide (svc ∈ services m)) svcs)
  then (Err (ErrText "service not registered"), m) else
  let expiry := if (ttl <=? 0)%Z then 0%Z else time_add now ttl in
  let tok := Sign (privKey m) (mkToken peerID svcs now expiry nonce []) in
  (Ok tok,
   mkManager (privKey m) (pubKey m)
     (<[peerID := default [] (tokens m !! peerID) ++ [tok]]> (tokens m)) (revoked m) (services m)).

Definition RevokeCapability (peerID : bytes) (m : CapabilityManager) : CapabilityManager :=
  mkManager (privKey m) (pubKey m) (delete peerID (tokens m)) ({[peerID]} ∪ revoked m) (services m).

Definition CheckAccess (now : Z) (peerID svc : bytes) (m : CapabilityManager) : bool :=
  if bool_decide (peerID ∈ revoked m) then false else
  existsb (fun tok => negb (expired now tok) && existsb (fun s => bool_decide (s = svc)) (Services tok))
    (default [] (tokens m !! peerID)).

Definition VerifyToken (now : Z) (tok : option CapabilityToken) (m : CapabilityManager) : result unit :=
  match tok with
  | None => Err (ErrText "nil token")
  | Some t => Verify now (pubKey m) t
  end.

Definition PeerTokens (now : Z) (peerID : bytes) (m : CapabilityManager) : list CapabilityToken :=
  filter (fun t => expired now t = false) (default [] (tokens m !! peerID)).

(** [ServiceIDsEqual]: count the elements of [a], then take off those of [b]. *)
Definition count_services (a : list bytes) : gmap bytes Z :=
  foldl (fun counts s => <[s := (default 0 (counts !! s) + 1)%Z]> counts) ∅ a.

Fixpoint take_off (counts : gmap bytes Z) (b : list bytes) : bool :=
  match b with
  | [] => true
  | s :: rest =>
      let n := default 0%Z (counts !! s) in
      if (n =? 0)%Z then false else take_off (<[s := (n - 1)%Z]> counts) rest
  end.

Definition ServiceIDsEqual (a b : list bytes) : bool :=
  if decide (length a <> length b) then false else take_off (count_services a) b.

(** ** Histories *)

Inductive op :=
| Register (svc : bytes)
| Grant (now : Z) (nonce peerID : bytes) (svcs : list bytes) (ttl : Z)
| Revoke (peerID : bytes).

Definition apply_op (m : CapabilityManager) (o : op) : CapabilityManager :=
  match o with
  | Register svc => RegisterService svc m
  | Grant now nonce p svcs ttl => (GrantCapability now nonce p svcs ttl m).2
  | Revoke p => RevokeCapability p m
  end.

Definition run (pub priv : bytes) (ops : list op) : CapabilityManager :=
  foldl apply_op (NewCapabilityManager pub priv) ops.

(** The access a history gives, without tokens or signatures: no revocation of
    the peer, and a grant that names the service, made after all the services
    it names were registered, that has not run out. *)
Definition access_spec (ops : list op) (now : Z) (p svc : bytes) : Prop :=
  Revoke p ∉ ops
  /\ exists before after t nonce svcs ttl,
       ops = before ++ Grant t nonce p svcs ttl :: after
       /\ svc ∈ svcs /\ (forall s, s ∈ svcs -> Register s ∈ before)
       /\ ((ttl <= 0)%Z \/ (t + ttl = 0)%Z \/ (now <= t + ttl)%Z).

(** * Lemmas *)

Lemma run_snoc pub priv ops o : run pub priv (ops ++ [o]) = apply_op (run pub priv ops) o.
Proof. unfold run. by rewrite foldl_app. Qed.

Lemma run_keys pub priv ops : privKey (run pub priv ops) = priv /\ pubKey (run pub priv ops) = pub.
Proof.
  induction ops as [|o ops IH] using rev_ind; [done|]. rewrite run_snoc.
  destruct o as [svc|t nonce p svcs ttl|p]; simpl; try done.
  unfold GrantCapability. case_decide; [done|]. by destruct (negb _).
Qed.

Lemma run_services pub priv ops svc : svc ∈ services (run pub priv ops) <-> Register svc ∈ ops.
Proof.
  induction ops as [|o ops IH] using rev_ind; [split; [|intros ?%elem_of_nil; done];
    intros ?%elem_of_empty; done|].
  rewrite run_snoc, elem_of_app, list_elem_of_singleton, <- IH.
  destruct o as [s|t nonce p svcs ttl|p]; simpl.
  - rewrite elem_of_union, elem_of_singleton. naive_solver.
  - assert (services (GrantCapability t nonce p svcs ttl (run pub priv ops)).2
            = services (run pub priv ops)) as ->; [|naive_solver].
    unfold GrantCapability. case_decide; [done|]. by destruct (negb _).
  - naive_solver.
Qed.

Lemma run_revoked pub priv ops p : p ∈ revoked (run pub priv ops) <-> Revoke p ∈ ops.
Proof.
  induction ops as [|o ops IH] using rev_ind; [split; [|intros ?%elem_of_nil; done];
    intros ?%elem_of_empty; done|].
  rewrite run_snoc, elem_of_app, list_elem_of_singleton, <- IH.
  destruct o as [s|t nonce q svcs ttl|q]; simpl.
  - naive_solver.
  - assert (revoked (GrantCapability t nonce q svcs ttl (run pub priv ops)).2
            = revoked (run pub priv ops)) as ->; [|naive_solver].
    unfold GrantCapability. case_decide; [done|]. by destruct (negb _).
  - rewrite elem_of_union, elem_of_singleton. naive_solver.
Qed.

(** The token an accepted grant adds. *)
Definition granted (priv : bytes) (t : Z) (nonce p : bytes) (svcs : list bytes) (ttl : Z) : CapabilityToken :=
  Sign priv (mkToken p svcs t (if (ttl <=? 0)%Z then 0%Z else time_add t ttl) nonce []).

Definition grant_ok (m : CapabilityManager) (svcs : list bytes) : Prop :=
  svcs <> [] /\ forall s, s ∈ svcs -> s ∈ services m.

Lemma GrantCapability_cases t nonce p svcs ttl m :
  (grant_ok m svcs
   /\ GrantCapability t nonce p svcs ttl m
      = (Ok (granted (privKey m) t nonce p svcs ttl),
         mkManager (privKey m) (pubKey m)
           (<[p := default [] (tokens m !! p) ++ [granted (privKey m) t nonce p svcs ttl]]> (tokens m))
           (revoked m) (services m)))
  \/ (~ grant_ok m svcs /\ exists e, GrantCapability t nonce p svcs ttl m = (Err e, m)).
Proof.
  unfold GrantCapability, grant_ok. case_decide as H0.
  { right. apply length_zero_iff_nil in H0. split; [tauto|eauto]. }
  destruct (forallb _ svcs) eqn:E; cbn [negb].
  - left. split; [|done]. split; [by intros ->|]. intros s Hs.
    rewrite forallb_forall in E. apply (bool_decide_eq_true_1 _), E. by apply list_elem_of_In.
  - right. split; [|eauto]. intros [_ Hall]. apply not_true_iff_false in E. apply E.
    apply forallb_forall. intros s Hs. apply bool_decide_eq_true_2, Hall. by apply list_elem_of_In.
Qed.

(** The tokens of a peer that was never revoked are those of its grants. *)
Lemma run_tokens pub priv ops p tok :
  Revoke p ∉ ops ->
  tok ∈ default [] (tokens (run pub priv ops) !! p) <->
  exists before after t nonce svcs ttl,
    ops = before ++ Grant t nonce p svcs ttl :: after
    /\ grant_ok (run pub priv before) svcs /\ tok = granted priv t nonce p svcs ttl.
Proof.
  induction ops as [|o ops IH] using rev_ind; intros Hr.
  { split; [intros Hn; by apply elem_of_nil in Hn|].
    intros (b & a & t & n & s & l & E & _). by destruct b. }
  rewrite elem_of_app, list_elem_of_singleton in Hr.
  assert (forall b a t n s l, ops ++ [o] = b ++ Grant t n p s l :: a <->
            (exists a', a = a' ++ [o] /\ ops = b ++ Grant t n p s l :: a')
            \/ (a = [] /\ b = ops /\ o = Grant t n p s l)) as Hsplit.
  { intros b a t n s l. destruct a as [|x a _] using rev_ind.
    - rewrite app_inj_tail_iff. split; [intros [-> ->]; by right|].
      intros [(a' & E & _)|(_ & -> & ->)]; [by destruct a'|done].
    - rewrite app_comm_cons, app_assoc, app_inj_tail_iff. split.
      + intros [-> ->]. left. by exists a.
      + intros [(a' & E & ->)|(E & _)]; [|by destruct a].
        apply app_inj_tail in E as [-> ->]. done. }
  assert (tok ∈ default [] (tokens (run pub priv (ops ++ [o])) !! p) <->
          tok ∈ default [] (tokens (run pub priv ops) !! p)
          \/ exists t n s l, o = Grant t n p s l /\ grant_ok (run pub priv ops) s
                             /\ tok = granted priv t n p s l) as ->.
  { rewrite run_snoc. destruct o as [s|t nonce q svcs ttl|q]; simpl.
    - naive_solver.
    - destruct (GrantCapability_cases t nonce q svcs ttl (run pub priv ops)) as [[Hok ->]|[Hno [e ->]]]; simpl.
      + destruct (decide (p = q)) as [<-|Hne].
        * rewrite lookup_insert_eq. simpl. rewrite elem_of_app, list_elem_of_singleton.
          rewrite (proj1 (run_keys pub priv ops)). naive_solver.
        * rewrite lookup_insert_ne by done. naive_solver.
      + naive_solver.
    - rewrite lookup_delete_ne by (intros ->; tauto). naive_solver. }
  rewrite IH by tauto. split.
  - intros [(b & a & t & n & s & l & -> & Hok & ->)|(t & n & s & l & -> & Hok & ->)].
    + exists b, (a ++ [o]), t, n, s, l. rewrite <- app_assoc. done.
    + exists ops, [], t, n, s, l. done.
  - intros (b & a & t & n & s & l & E & Hok & ->).
    apply Hsplit in E as [(a' & -> & ->)|(-> & -> & ->)].
    + left. exists b, a', t, n, s, l. done.
    + right. exists t, n, s, l. done.
Qed.

Lemma granted_expired priv t nonce p svcs ttl now :
  expired now (granted priv t nonce p svcs ttl) = false
  <-> (ttl <= 0)%Z \/ (t + ttl = 0)%Z \/ (now <= t + ttl)%Z.
Proof.
  unfold expired, granted, time_is_zero, time_after, time_add. cbn [ExpiresAt Sign].
  destruct (Z.leb_spec ttl 0); [simpl; naive_solver|].
  rewrite andb_false_iff, negb_false_iff, Z.eqb_eq, Z.ltb_ge. lia.
Qed.

Lemma CheckAccess_exists now p svc m :
  CheckAccess now p svc m = true <->
  p ∉ revoked m /\ exists tok, tok ∈ default [] (tokens m !! p) /\ expired now tok = false
                               /\ svc ∈ Services tok.
Proof.
  unfold CheckAccess. case_bool_decide as Hr; [naive_solver|].
  rewrite existsb_exists. split.
  - intros (tok & Hin & [He Hs]%andb_true_iff). split; [done|]. exists tok.
    rewrite list_elem_of_In. split; [done|]. split; [by apply negb_true_iff|].
    apply existsb_exists in Hs as (s & Hs & ->%bool_decide_eq_true). by apply list_elem_of_In.
  - intros [_ (tok & Hin & He & Hs)]. exists tok. rewrite <- list_elem_of_In. split; [done|].
    rewrite He. simpl. apply existsb_exists. exists svc. rewrite <- list_elem_of_In. split; [done|].
    by apply bool_decide_eq_true.
Qed.

(** ** Counting *)

Definition occurrences (s : bytes) (l : list bytes) : Z := Z.of_nat (length (filter (fun x => x = s) l)).

Definition counts_of (m : gmap bytes Z) (l : list bytes) : Prop :=
  forall s, default 0%Z (m !! s) = occurrences s l.

Lemma occurrences_cons s x l :
  occurrences s (x :: l) = (occurrences s l + if decide (x = s) then 1 else 0)%Z.
Proof. unfold occurrences. rewrite filter_cons. case_decide; simpl; lia. Qed.

Lemma occurrences_perm s l k : l ≡ₚ k -> occurrences s l = occurrences s k.
Proof. intros H. unfold occurrences. by rewrite H. Qed.

Lemma occurrences_zero s l : occurrences s l = 0%Z <-> s ∉ l.
Proof.
  induction l as [|x l IH]; [split; [intros _ H%elem_of_nil; done|done]|].
  rewrite occurrences_cons, not_elem_of_cons, <- IH. unfold occurrences.
  case_decide; naive_solver lia.
Qed.

Lemma count_services_loop a m l :
  counts_of m l ->
  counts_of (foldl (fun counts s => <[s := (default 0 (counts !! s) + 1)%Z]> counts) m a) (a ++ l).
Proof.
  revert m l. induction a as [|x a IH]; intros m l Hm; [done|]. cbn [foldl].
  intros s. rewrite (occurrences_perm s ((x :: a) ++ l) (a ++ x :: l))
    by (simpl; by rewrite Permutation_middle).
  apply IH. clear s. intros s. rewrite occurrences_cons. case_decide as E.
  - subst x. rewrite lookup_insert_eq. simpl. by rewrite (Hm s).
  - rewrite lookup_insert_ne by done. rewrite (Hm s). lia.
Qed.

Lemma count_services_spec a : counts_of (count_services a) a.
Proof.
  intros s. rewrite <- (app_nil_r a) at 2. apply count_services_loop.
  intros s'. by rewrite lookup_empty.
Qed.

Lemma take_off_spec m a b :
  counts_of m a -> length a = length b -> take_off m b = true <-> a ≡ₚ b.
Proof.
  revert m a. induction b as [|s b IH]; intros m a Hm Hl; cbn [take_off].
  - destruct a; [done|simpl in Hl; lia].
  - rewrite (Hm s). destruct (Z.eqb_spec (occurrences s a) 0) as [E|E].
    + split; [done|]. intros HP. apply occurrences_zero in E. destruct E. rewrite HP. left.
    + assert (s ∈ a) as (a' & Ha)%elem_of_Permutation.
      { destruct (decide (s ∈ a)) as [|Hn]; [done|]. by apply occurrences_zero in Hn. }
      rewrite Ha in Hl. rewrite (IH _ a').
      * rewrite Ha. split; [by intros ->|]. apply Permutation_cons_inv.
      * intros s'. rewrite !(occurrences_perm _ a _ Ha), occurrences_cons.
        destruct (decide (s = s')) as [<-|Hne].
        -- rewrite lookup_insert_eq, decide_True by done. simpl. lia.
        -- rewrite lookup_insert_ne by done. rewrite (Hm s'), (occurrences_perm _ a _ Ha), occurrences_cons.
           rewrite decide_False by done. lia.
      * simpl in Hl. lia.
Qed.

(** ** Properties *)

(** C21: Access is what the history of the manager says: after any sequence of
    registrations, grants and revocations, [CheckAccess] allows a service to a
    peer exactly when the peer was never revoked and some grant that named the
    service (all of whose services were registered by then) has not run out. *)
Theorem capability_access_history pub priv ops now p svc :
  CheckAccess now p svc (run pub priv ops) = true <-> access_spec ops now p svc.
Proof.
  rewrite CheckAccess_exists, run_revoked. unfold access_spec.
  split; intros [Hr H]; (split; [done|]).
  - destruct H as (tok & Hin & He & Hs).
    apply (run_tokens pub priv ops p tok Hr) in Hin as (b & a & t & n & s & l & -> & [_ Hok] & ->).
    exists b, a, t, n, s, l. split_and!; try done.
    + intros x Hx. by apply (run_services pub priv), Hok.
    + by apply granted_expired in He.
  - destruct H as (b & a & t & n & s & l & -> & Hs & Hreg & Hexp).
    exists (granted priv t n p s l). split_and!; [|by apply granted_expired|done].
    apply (run_tokens pub priv _ p _ Hr). exists b, a, t, n, s, l. split_and!; try done.
    split; [by intros ->; apply elem_of_nil in Hs|].
    intros x Hx. by apply (run_services pub priv), Hreg.
Qed.

(** A token is accepted exactly when it has a 64-byte signature of the
    issuer over its fields, names a peer and has not expired; and a token the
    manager grants to a peer with a non-zero identifier is accepted by every
    holder of its public key until it expires. *)
Theorem capability_token_verifies priv ops t nonce p svcs ttl tok now pub' tok' :
  (Verify now pub' tok' = Ok tt <->
     length (Signature tok') = 64 /\ PeerID tok' <> zeroes 32
     /\ ed_verify pub' (CanonicalForm tok') (Signature tok') = true
     /\ (ExpiresAt tok' = 0 \/ now <= ExpiresAt tok')%Z)
  /\ ((GrantCapability t nonce p svcs ttl (run (ed_public priv) priv ops)).1 = Ok tok ->
      p <> zeroes 32 -> ((ttl <= 0) \/ (now <= t + ttl))%Z ->
      Verify now (ed_public priv) tok = Ok tt /\ Services tok = svcs /\ PeerID tok = p).
Proof.
  assert (forall pub' tok', Verify now pub' tok' = Ok tt <->
     length (Signature tok') = 64 /\ PeerID tok' <> zeroes 32
     /\ ed_verify pub' (CanonicalForm tok') (Signature tok') = true
     /\ (ExpiresAt tok' = 0 \/ now <= ExpiresAt tok')%Z) as HV.
  { intros pub0 tok0. unfold Verify. case_decide as H64; [split; [done|tauto]|].
    case_decide as Hz; [split; [done|tauto]|].
    destruct (ed_verify _ _ _); cbn [negb]; [|split; [done|naive_solver]].
    unfold expired, time_is_zero, time_after.
    destruct (Z.eqb_spec (ExpiresAt tok0) 0), (Z.ltb_spec (ExpiresAt tok0) now); simpl; split;
      naive_solver lia. }
  split; [apply HV|]. intros Hg Hp Hexp.
  destruct (GrantCapability_cases t nonce p svcs ttl (run (ed_public priv) priv ops)) as [[_ E]|[_ [e E]]];
    rewrite E in Hg; [|done]. simpl in Hg. injection Hg as <-.
  rewrite (proj1 (run_keys _ priv ops)). split; [|done]. apply HV. split_and!.
  - apply ed_sign_length.
  - done.
  - apply ed_verify_sign.
  - unfold granted, time_add. cbn [ExpiresAt Sign]. destruct (Z.leb_spec ttl 0); lia.
Qed.

(** [ServiceIDsEqual] decides whether two lists of services are equal up
    to order (with multiplicity). *)
Theorem service_ids_equal_permutation a b : ServiceIDsEqual a b = true <-> a ≡ₚ b.
Proof.
  unfold ServiceIDsEqual. case_decide as Hl.
  - split; [done|]. intros H. by apply Permutation_length in H.
  - apply take_off_spec; [apply count_services_spec|lia].
Qed.

(** Revocation does not reach the tokens themselves: a token granted before
    still verifies after the peer was revoked, while access stays refused for
    good, whatever is granted later. *)
Theorem capability_revocation priv ops t nonce p svcs ttl tok now later svc :
  (GrantCapability t nonce p svcs ttl (run (ed_public priv) priv ops)).1 = Ok tok ->
  p <> zeroes 32 -> ((ttl <= 0) \/ (now <= t + ttl))%Z ->
  let m := run (ed_public priv) priv (ops ++ [Grant t nonce p svcs ttl; Revoke p] ++ later) in
  VerifyToken now (Some tok) m = Ok tt /\ CheckAccess now p svc m = false.
Proof.
  intros Hg Hp Hexp. cbv zeta. split.
  - unfold VerifyToken. rewrite (proj2 (run_keys _ _ _)).
    destruct (GrantCapability_cases t nonce p svcs ttl (run (ed_public priv) priv ops)) as [[_ E]|[_ [e E]]];
      rewrite E in Hg; [|done]. simpl in Hg. injection Hg as <-.
    rewrite (proj1 (run_keys _ priv ops)). unfold Verify. cbn [PeerID Signature granted Sign].
    rewrite decide_False by (rewrite ed_sign_length; auto). rewrite decide_False by done.
    rewrite ed_verify_sign. cbn [negb].
    fold (granted priv t nonce p svcs ttl).
    rewrite (proj2 (granted_expired priv t nonce p svcs ttl now)); [done|tauto].
  - apply not_true_iff_false. rewrite CheckAccess_exists, run_revoked. intros [Hr _]. apply Hr.
    rewrite !elem_of_app. right. left. right. left.
Qed.

End capability.

(** * Witness *)

(** The fields one after the other, signed by the scheme of [toy_ed25519]. *)
Definition toy_crypto : TokenCrypto :=
  {| token_ed25519 := toy_ed25519;
     json_raw := fun p svcs i e n => p ++ concat svcs ++ be_put 8 i ++ be_put 8 e ++ n |}.

#[local] Existing Instance toy_crypto.

Lemma capability_token_verifies_witness :
  let tok := granted (zeroes 32) 100 (zeroes 16) (repeat Byte.x01 32) [str "dns"] 50 in
  Verify 150 (ed_public (zeroes 32)) tok = Ok tt.
Proof.
  cbv zeta.
  refine (proj1 (proj2 (capability_token_verifies (zeroes 32) [Register (str "dns")] 100 (zeroes 16)
    (repeat Byte.x01 32) [str "dns"] 50 _ 150 [] (mkToken [] [] 0 0 [] [])) _ _ _)).
  - vm_compute. reflexivity.
  - discriminate.
  - right. lia.
Defined.

Lemma capability_access_history_witness :
  CheckAccess 150 (repeat Byte.x01 32) (str "dns")
    (run (zeroes 32) (zeroes 32)
       [Register (str "dns"); Grant 100 (zeroes 16) (repeat Byte.x01 32) [str "dns"] 50]) = true.
Proof.
  apply (capability_access_history (zeroes 32) (zeroes 32)
           [Register (str "dns"); Grant 100 (zeroes 16) (repeat Byte.x01 32) [str "dns"] 50]).
  split; [by intros [[=]|[[=]|[]%not_elem_of_nil]%elem_of_cons]%elem_of_cons|].
  exists [Register (str "dns")], [], 100%Z, (zeroes 16), [str "dns"], 50%Z.
  split; [done|]. split; [left|]. split; [|right; right; lia].
  intros s ->%list_elem_of_singleton. left.
Defined.
