(* ===== verification/AuditLog.v ===== *)
(** * The audit log of pkg/security

    A hash chain of events: each entry holds the hash of the entry before it
    and the SHA3-256 of that hash followed by the JSON form of its event.  The
    JSON encoder is an interface ([AuditEvent.MarshalJSON] builds on
    [encoding/json]): marshalling may fail, and unmarshalling inverts it on
    events whose strings are printable ASCII (other strings may be escaped or
    replaced). *)

From S2P Require Import Prelude Bytes Hash.

Record AuditEvent := mkEvent {
  ev_Type : bytes;
  ev_Timestamp : Z;
  ev_PeerID : bytes;
  ev_Source : bytes;
  ev_Details : gmap bytes bytes;
}.

#[global] Instance AuditEvent_eq_dec : EqDecision AuditEvent.
Proof. solve_decision. Defined.

Record entry := mkAuditEntry {
  event : AuditEvent;
  prevHash : bytes;
  hash : bytes;
}.

#[global] Instance entry_eq_dec : EqDecision entry.
Proof. solve_decision. Defined.

Record AuditLog := mkLog {
  entries : list entry;
  lastHash : bytes;
}.

#[global] Instance AuditLog_eq_dec : EqDecision AuditLog.
Proof. solve_decision. Defined.

Definition printable (s : bytes) : Prop := Forall (fun b => (32 <= u8 b < 127)%Z) s.

Definition plain_event (e : AuditEvent) : Prop :=
  printable (ev_Type e) /\ printable (ev_Source e) /\ length (ev_PeerID e) = 32
  /\ forall k v, ev_Details e !! k = Some v -> printable k /\ printable v.

Class EventJSON := {
  event_marshal : AuditEvent -> result bytes;
  event_unmarshal : bytes -> result AuditEvent;
  event_roundtrip : forall e b,
    plain_event e -> event_marshal e = Ok b -> event_unmarshal b = Ok e;
}.

Section audit.
Context `{HH : Hash256, HJ : EventJSON}.

Definition NewAuditLog : AuditLog := mkLog [] (zeroes 32).

Definition Log (now : Z) (evt : AuditEvent) (l : AuditLog) : result unit * AuditLog :=
  let evt := if time_is_zero (ev_Timestamp evt)
             then mkEvent (ev_Type evt) now (ev_PeerID evt) (ev_Source evt) (ev_Details evt)
             else evt in
  match event_marshal evt with
  | Err e => (Err e, l)
  | Ok b =>
      let h := SHA3Hash (lastHash l ++ b) in
      (Ok tt, mkLog (entries l ++ [mkAuditEntry evt (lastHash l) h]) h)
  end.

Fixpoint verify_from (prev : bytes) (es : list entry) : result unit :=
  match es with
  | [] => Ok tt
  | e :: rest =>
      match event_marshal (event e) with
      | Err err => Err err
      | Ok b =>
          let expected := SHA3Hash (prev ++ b) in
          if decide (prevHash e <> prev) then Err (ErrText "prev hash mismatch") else
          if decide (hash e <> expected) then Err (ErrText "hash mismatch") else
          verify_from (hash e) rest
      end
  end.

Definition VerifyIntegrity (l : AuditLog) : result unit := verify_from (zeroes 32) (entries l).

Definition Len (l : AuditLog) : nat := length (entries l).

Definition Entries (l : AuditLog) : list AuditEvent := event <$> entries l.

Definition PeerEvents (peerID : bytes) (l : AuditLog) : list AuditEvent :=
  event <$> filter (fun e => ev_PeerID (event e) = peerID) (entries l).

(** ** The events the node logs *)

Fixpoint joinStrings (ss : list bytes) : bytes :=
  match ss with
  | [] => []
  | [s] => s
  | s :: rest => s ++ str "," ++ joinStrings rest
  end.

Definition AuditAuthSuccess (now : Z) (peerID src : bytes) (l : AuditLog) : AuditLog :=
  (Log now (mkEvent (str "auth_success") 0 peerID src {[ str "result" := str "success" ]}) l).2.

Definition AuditAuthFailure (now : Z) (peerID src reason : bytes) (l : AuditLog) : AuditLog :=
  (Log now (mkEvent (str "auth_failure") 0 peerID src
     (<[ str "result" := str "failure" ]> {[ str "reason" := reason ]})) l).2.

Definition AuditConnection (now : Z) (peerID addr : bytes) (l : AuditLog) : AuditLog :=
  (Log now (mkEvent (str "connection") 0 peerID addr {[ str "addr" := addr ]}) l).2.

Definition AuditDisconnection (now : Z) (peerID addr : bytes) (l : AuditLog) : AuditLog :=
  (Log now (mkEvent (str "disconnection") 0 peerID addr {[ str "addr" := addr ]}) l).2.

Definition AuditCapabilityGrant (now : Z) (issuer peerID : bytes) (svcs : list bytes) (l : AuditLog)
    : AuditLog :=
  let who := hex_encode (take 8 issuer) in
  (Log now (mkEvent (str "capability_grant") 0 peerID who
     (<[ str "issuer" := who ]> {[ str "services" := joinStrings svcs ]})) l).2.

Definition AuditRelayUse (now : Z) (peerID relayID : bytes) (l : AuditLog) : AuditLog :=
  let who := hex_encode (take 8 relayID) in
  (Log now (mkEvent (str "relay_use") 0 peerID who {[ str "relay_id" := who ]}) l).2.

(** ** Transport *)

Fixpoint marshal_entries (es : list entry) : result bytes :=
  match es with
  | [] => Ok []
  | e :: rest =>
      match event_marshal (event e) with
      | Err err => Err err
      | Ok eb =>
          match marshal_entries rest with
          | Err err => Err err
          | Ok tl => Ok (be_put 4 (len eb) ++ eb ++ prevHash e ++ hash e ++ tl)
          end
      end
  end.

Definition MarshalEntries (l : AuditLog) : result bytes :=
  match marshal_entries (entries l) with
  | Ok b => Ok (be_put 8 (Z.of_nat (length (entries l))) ++ b)
  | Err e => Err e
  end.

Definition liftJSON (r : result AuditEvent) : reader AuditEvent :=
  match r with Ok e => rret e | Err e => rfail e end.

(** One iteration up to the append. *)
Definition read_entry : reader entry := (
  let! n := readUint 4 in
  let! eb := readFull (Z.to_nat n) in
  let! evt := liftJSON (event_unmarshal eb) in
  let! prev := readFull 32 in
  let! h := readFull 32 in
  rret (mkAuditEntry evt prev h))%go.

(** The loop: the entries appended so far stay in the log when it returns an
    error.  An iteration reads at least 68 bytes, so one more than the length
    of the data is fuel enough. *)
Fixpoint read_entries (fuel : nat) (i count : Z) (es : list entry) (last : bytes) (buf : bytes)
    : result bytes * list entry :=
  if (count <=? i)%Z then (Ok last, es) else
  match fuel with
  | O => (Err ErrUnexpectedEOF, es)
  | S fuel' =>
      match read_entry buf with
      | (Err e, _) => (Err e, es)
      | (Ok e, rest) =>
          let es := es ++ [e] in
          if decide (prevHash e <> last) then (Err (ErrText "prev hash mismatch"), es)
          else read_entries fuel' (i + 1) count es (hash e) rest
      end
  end.

(** An [entry] takes 160 bytes; [make] panics beyond the [2^48] bytes of the
    address space. *)
Definition max_entries : Z := 2 ^ 48 / 160.

(** [None] is the run-time panic of [make([]entry, 0, count)]. *)
Definition UnmarshalEntries (data : bytes) (l : AuditLog) : option (result unit) * AuditLog :=
  match readUint 8 data with
  | (Err e, _) => (Some (Err e), l)
  | (Ok count, buf) =>
      if (max_entries <? count)%Z then (None, l) else
      match read_entries (S (length data)) 0 count [] (zeroes 32) buf with
      | (Err e, es) => (Some (Err e), mkLog es (lastHash l))
      | (Ok last, es) => (Some (Ok tt), mkLog es last)
      end
  end.

(** * Lemmas *)

(** [es] is a chain from [prev] to [last]. *)
Fixpoint chained (prev : bytes) (es : list entry) (last : bytes) : Prop :=
  match es with
  | [] => last = prev
  | e :: rest =>
      prevHash e = prev /\ (exists b, event_marshal (event e) = Ok b /\ hash e = SHA3Hash (prev ++ b))
      /\ chained (hash e) rest last
  end.

Lemma verify_from_chained prev es : verify_from prev es = Ok tt <-> exists last, chained prev es last.
Proof.
  revert prev. induction es as [|e es IH]; intros prev; simpl.
  - split; [eauto|done].
  - destruct (event_marshal (event e)) as [b|err] eqn:Em.
    + case_decide as H1; [split; [done|naive_solver]|].
      case_decide as H2; [split; [done|naive_solver]|]. rewrite IH. naive_solver.
    + split; [done|naive_solver].
Qed.

Lemma chained_snoc prev es e last :
  chained prev (es ++ [e]) last <->
  chained prev es (prevHash e) /\ last = hash e
  /\ exists b, event_marshal (event e) = Ok b /\ hash e = SHA3Hash (prevHash e ++ b).
Proof.
  revert prev. induction es as [|x es IH]; intros prev; simpl; [|rewrite IH; naive_solver].
  split.
  - intros (-> & ? & ->). done.
  - intros (-> & -> & ?). done.
Qed.

(** What the log keeps between calls. *)
Definition log_chained (l : AuditLog) : Prop := chained (zeroes 32) (entries l) (lastHash l).

Lemma Log_chained now evt l : log_chained l -> log_chained (Log now evt l).2.
Proof.
  intros Hl. unfold Log. destruct (event_marshal _) as [b|e] eqn:E; [|done].
  unfold log_chained. simpl. apply chained_snoc. split; [done|]. split; [done|]. by exists b.
Qed.

Lemma Log_prefix now evt l : entries l `prefix_of` entries (Log now evt l).2.
Proof. unfold Log. destruct (event_marshal _); simpl; [by apply prefix_app_r|done]. Qed.

(** The byte strings hashed for a chain. *)
Definition inputs (es : list entry) : list bytes :=
  (fun e => prevHash e ++ match event_marshal (event e) with Ok b => b | Err _ => [] end) <$> es.

Lemma chained_length prev es last :
  length prev = 32 -> chained prev es last ->
  length last = 32 /\ Forall (fun e => length (prevHash e) = 32 /\ length (hash e) = 32) es.
Proof.
  revert prev. induction es as [|e es IH]; intros prev Hp; simpl; [by intros ->|].
  intros (<- & (b & _ & Hh) & Hc).
  assert (length (hash e) = 32) as He by (rewrite Hh; apply sha3_length).
  destruct (IH _ He Hc). by split; [|constructor].
Qed.

(** No two different byte strings of [l] have the same digest. *)
Definition collision_free (l : list bytes) : Prop :=
  forall x y, x ∈ l -> y ∈ l -> sha3 x = sha3 y -> x = y.

Lemma chained_unique es es' last :
  chained (zeroes 32) es last -> chained (zeroes 32) es' last -> length es = length es' ->
  collision_free (inputs es ++ inputs es') ->
  Forall (fun e => plain_event (event e)) es -> Forall (fun e => plain_event (event e)) es' ->
  es = es'.
Proof.
  revert es' last. induction es as [|e es IH] using rev_ind; intros es' last H1 H2 Hl Hcf P1 P2.
  { by destruct es'. }
  destruct es' as [|e' es' _] using rev_ind; [rewrite length_app in Hl; simpl in Hl; lia|].
  pose proof (chained_length _ _ _ (length_zeroes 32) H1) as [_ L1]. pose proof (chained_length _ _ _ (length_zeroes 32) H2) as [_ L2].
  apply Forall_app in L1 as [_ L1], L2 as [_ L2], P1 as [P1 Pe], P2 as [P2 Pe'].
  apply Forall_inv in L1 as [L1 _], L2 as [L2 _], Pe, Pe'.
  apply chained_snoc in H1 as (C1 & -> & b & Hb & Hh), H2 as (C2 & E & b' & Hb' & Hh').
  unfold inputs in Hcf. rewrite !fmap_app in Hcf. simpl in Hcf. rewrite Hb, Hb' in Hcf.
  assert (prevHash e ++ b = prevHash e' ++ b') as Hin.
  { apply Hcf; [rewrite !elem_of_app, !list_elem_of_singleton; tauto..|].
    unfold SHA3Hash in *. congruence. }
  apply app_inj_1 in Hin as [Hp ->]; [|lia].
  assert (event e = event e') as Hev.
  { pose proof (event_roundtrip _ _ Pe Hb). pose proof (event_roundtrip _ _ Pe' Hb'). congruence. }
  rewrite (IH es' (prevHash e)); [|done|by rewrite Hp| | |done|done].
  - f_equal. f_equal. destruct e, e'. simpl in *. by subst.
  - rewrite !length_app in Hl. simpl in Hl. lia.
  - intros x y Hx Hy. apply Hcf; rewrite !elem_of_app in *; unfold inputs in *; tauto.
Qed.

(** Reading an entry back. *)
Definition entry_fits (e : entry) : Prop :=
  plain_event (event e) /\ length (prevHash e) = 32 /\ length (hash e) = 32
  /\ forall b, event_marshal (event e) = Ok b -> (len b < 2 ^ 32)%Z.

Lemma read_entry_marshal e b k :
  entry_fits e -> event_marshal (event e) = Ok b ->
  read_entry (be_put 4 (len b) ++ b ++ prevHash e ++ hash e ++ k) = (Ok e, k).
Proof.
  intros (Hp & H1 & H2 & Hlen) Hb. specialize (Hlen b Hb).
  assert (0 <= len b)%Z by (unfold len; lia).
  unfold read_entry, rbind. rewrite readUint_be_put by lia.
  rewrite readFull_app by (unfold len; lia). rewrite (event_roundtrip _ _ Hp Hb). cbn [liftJSON rret].
  unfold rret at 1. rewrite readFull_app by done. rewrite readFull_app by done.
  unfold rret. by destruct e.
Qed.

Lemma read_entries_marshal es tl fuel i count done_ prev last :
  marshal_entries es = Ok tl -> Forall entry_fits es -> chained prev es last ->
  count = (i + Z.of_nat (length es))%Z -> length es < fuel ->
  read_entries fuel i count done_ prev tl = (Ok last, done_ ++ es).
Proof.
  revert tl fuel i done_ prev. induction es as [|e es IH]; intros tl fuel i done_ prev Hm HF Hc Hcount Hfuel.
  - simpl in *. subst count. destruct fuel; [lia|]. simpl.
    rewrite (proj2 (Z.leb_le _ _)) by lia. by rewrite app_nil_r, Hc.
  - inversion_clear HF as [|? ? He HF']. destruct Hc as (Hprev & _ & Hc).
    cbn [marshal_entries] in Hm. destruct (event_marshal (event e)) as [eb|] eqn:Eb; [|done].
    destruct (marshal_entries es) as [tl'|]; [|done].
    assert (tl = be_put 4 (len eb) ++ eb ++ prevHash e ++ hash e ++ tl') as -> by congruence.
    destruct fuel as [|fuel]; [lia|]. cbn [read_entries length] in *.
    rewrite (proj2 (Z.leb_gt _ _)) by lia.
    rewrite (read_entry_marshal e eb tl' He Eb). rewrite decide_False by auto.
    rewrite (IH tl' fuel (i + 1)%Z (done_ ++ [e]) (hash e)); [|done..|lia|lia].
    by rewrite <- app_assoc.
Qed.

Lemma marshal_entries_length es tl : marshal_entries es = Ok tl -> length es <= length tl.
Proof.
  revert tl. induction es as [|e es IH]; intros tl; cbn [marshal_entries length]; [intros [= <-]; done|].
  destruct (event_marshal (event e)) as [eb|]; [|done].
  destruct (marshal_entries es) as [tl'|]; [|done]. intros Hm.
  assert (tl = be_put 4 (len eb) ++ eb ++ prevHash e ++ hash e ++ tl') as -> by congruence.
  specialize (IH _ eq_refl). rewrite !length_app, length_be_put. lia.
Qed.

(** The logs a node can build. *)
Definition logged (events : list (Z * AuditEvent)) : AuditLog :=
  foldl (fun l '(now, evt) => (Log now evt l).2) NewAuditLog events.

Lemma logged_chained events : log_chained (logged events).
Proof.
  unfold logged. assert (log_chained NewAuditLog) as H0 by done. revert H0.
  generalize NewAuditLog. induction events as [|[now evt] events IH]; intros l Hl; simpl; [done|].
  by apply IH, Log_chained.
Qed.

(** ** Properties *)

(** Whatever is logged, the log verifies: after any sequence of events
    the chain is intact and ends in the hash the next entry will refer to, and
    logging more only appends. *)
Theorem audit_log_integrity events now evt :
  VerifyIntegrity (logged events) = Ok tt
  /\ log_chained (logged events)
  /\ entries (logged events) `prefix_of` entries (logged (events ++ [(now, evt)])).
Proof.
  pose proof (logged_chained events) as Hc. split; [|split; [done|]].
  - apply verify_from_chained. by eexists.
  - unfold logged. rewrite foldl_app. apply Log_prefix.
Qed.


(** A log of plain events survives export and import: reading what
    [MarshalEntries] writes restores the entries and the last hash, into any
    log. *)
Theorem audit_marshal_roundtrip events data l :
  let genuine := logged events in
  MarshalEntries genuine = Ok data -> Forall entry_fits (entries genuine) ->
  (Z.of_nat (Len genuine) <= max_entries)%Z ->
  UnmarshalEntries data l = (Some (Ok tt), genuine).
Proof.
  intros genuine Hm HF Hmax. unfold MarshalEntries in Hm.
  destruct (marshal_entries (entries genuine)) as [tl|] eqn:E; [|done].
  assert (data = be_put 8 (Z.of_nat (length (entries genuine))) ++ tl) as -> by congruence.
  unfold UnmarshalEntries, Len, max_entries in *.
  rewrite readUint_be_put by (change (2 ^ 48 / 160)%Z with 1759218604441%Z in Hmax; lia).
  rewrite (proj2 (Z.ltb_ge _ _)) by done.
  pose proof (marshal_entries_length _ _ E) as Hlen.
  rewrite (read_entries_marshal (entries genuine) tl _ 0 _ [] (zeroes 32) (lastHash genuine));
    [by destruct genuine|done|done|apply logged_chained|lia|].
  rewrite length_app, length_be_put. lia.
Qed.

(** Dropping entries from the end goes unnoticed: [VerifyIntegrity] does not
    look at [lastHash]. *)
Theorem audit_truncation_unnoticed es es' last :
  VerifyIntegrity (mkLog (es ++ es') last) = Ok tt -> VerifyIntegrity (mkLog es last) = Ok tt.
Proof.
  unfold VerifyIntegrity. simpl. generalize (zeroes 32). induction es as [|e es IH]; intros prev; simpl; [done|].
  destruct (event_marshal (event e)); [|done]. repeat (case_decide; [done|]). apply IH.
Qed.

End audit.

(** * Witnesses *)

#[global] Program Instance AuditEvent_countable : Countable AuditEvent :=
  inj_countable' (fun e => (ev_Type e, ev_Timestamp e, ev_PeerID e, ev_Source e, ev_Details e))
    (fun '(a, b, c, d, e) => mkEvent a b c d e) _.
Next Obligation. by intros []. Qed.

(** A stand-in for the JSON encoder: any injective encoding. *)
Definition plain_json : EventJSON.
Proof.
  refine {| event_marshal := fun e => Ok (count_encode e);
            event_unmarshal := fun b => match count_decode b with
                                        | Some e => Ok e
                                        | None => Err (ErrText "invalid character")
                                        end |}.
  intros e b _ [= <-]. by rewrite count_decode_encode.
Defined.

#[local] Existing Instance sha3_256_hash.
#[local] Existing Instance plain_json.

Definition ex_event : AuditEvent := mkEvent (str "connection") 7 (zeroes 32) (str "a") ∅.
Definition ex_events : list (Z * AuditEvent) := [(7%Z, ex_event)].

Lemma ex_event_plain : plain_event ex_event.
Proof.
  split; [repeat constructor; vm_compute; congruence|].
  split; [repeat constructor; vm_compute; congruence|]. split; [done|].
  intros k v. unfold ex_event. cbn [ev_Details]. by rewrite lookup_empty.
Qed.

(** A log that was received, with the length and the last hash of [logged
    ex_events]. *)
Definition ex_received : list entry :=
  [mkAuditEntry ex_event (zeroes 32) (sha3 (zeroes 32 ++ count_encode ex_event))].


Lemma audit_marshal_roundtrip_witness :
  exists data, MarshalEntries (logged ex_events) = Ok data
               /\ UnmarshalEntries data NewAuditLog = (Some (Ok tt), logged ex_events).
Proof.
  eexists. split; [vm_compute; reflexivity|].
  apply audit_marshal_roundtrip.
  - vm_compute. reflexivity.
  - constructor; [|constructor]. split; [apply ex_event_plain|]. split; [reflexivity|].
    split; [apply sha3_length|]. intros b [= <-]. vm_compute. reflexivity.
  - vm_compute. congruence.
Defined.

(** An import that fails leaves the entries it had read beside the last hash
    of the log it was called on: the next event is chained to the wrong entry,
    and the log no longer verifies. *)
Lemma audit_failed_import_breaks_log :
  let l := logged ex_events in
  let other := mkEvent (str "connection") 8 (zeroes 32) (str "b") ∅ in
  match MarshalEntries (logged [(9%Z, other); (11%Z, other)]) with
  | Ok data =>
      let '(r, l1) := UnmarshalEntries (take (length data - 1) data) l in
      let l2 := (Log 12 ex_event l1).2 in
      VerifyIntegrity l = Ok tt /\ r = Some (Err ErrUnexpectedEOF)
      /\ Len l1 = 1 /\ VerifyIntegrity l2 <> Ok tt
  | Err _ => False
  end.
Proof. vm_compute. repeat split; discriminate. Qed.

Lemma audit_log_integrity_witness :
  VerifyIntegrity (logged ex_events) = Ok tt /\ Len (logged ex_events) = 1.
Proof. split; [apply (audit_log_integrity ex_events 7 ex_event)|reflexivity]. Defined.
