(* ===== verification/Qos.v ===== *)
(** * Token buckets and traffic classes of pkg/qos

    [TokenBucket] keeps int64 tokens and refills with float64 arithmetic, as
    the code does; [now] is the reading of the clock.  Classes are shared (the
    same [*QoSClass] sits in several maps of the manager and is compared by
    pointer), so the manager keeps a list of classes and its maps hold
    positions in it. *)

From S2P Require Import Prelude Bytes Float.

Local Open Scope Z_scope.

Record TokenBucket := mkBucket {
  capacity : Z;
  tokens : Z;
  refillRate : Z;
  lastRefill : Z;
}.

#[global] Instance TokenBucket_eq_dec : EqDecision TokenBucket.
Proof. solve_decision. Defined.

Definition NewTokenBucket (now cap rate : Z) : TokenBucket := mkBucket cap cap rate now.

(** [Duration.Seconds]: whole seconds plus the rest over [1e9]. *)
Definition seconds (d : Z) : float64 :=
  f64_add (f64_of_Z (Z.quot d second)) (f64_div (f64_of_Z (Z.rem d second)) (f64_of_Z 1000000000)).

Definition min (a b : Z) : Z := if a <? b then a else b.

(** The tokens earned since the last refill. *)
Definition credit (now : Z) (tb : TokenBucket) : Z :=
  f64_to_int64 (f64_mul (seconds (time_sub now (lastRefill tb))) (f64_of_Z (refillRate tb))).

Definition refill (now : Z) (tb : TokenBucket) : TokenBucket :=
  mkBucket (capacity tb) (min (capacity tb) (wrapS 64 (tokens tb + credit now tb)))
    (refillRate tb) now.

Definition Take (now n : Z) (tb : TokenBucket) : bool * TokenBucket :=
  let tb := refill now tb in
  if n <=? tokens tb then
    (true, mkBucket (capacity tb) (wrapS 64 (tokens tb - n)) (refillRate tb) (lastRefill tb))
  else (false, tb).

Definition Available (now : Z) (tb : TokenBucket) : Z * TokenBucket :=
  let tb := refill now tb in (tokens tb, tb).

(** [Wait]: [polls] are the times at which the loop tries, 10 ms apart in the
    code, until the context is done. *)
Fixpoint Wait (polls : list Z) (n : Z) (tb : TokenBucket) : result unit * TokenBucket :=
  match polls with
  | [] => (Err (ErrText "context done"), tb)
  | now :: rest =>
      match Take now n tb with
      | (true, tb') => (Ok tt, tb')
      | (false, tb') => Wait rest n tb'
      end
  end.

(** ** Classes *)

Record QoSConfig := mkConfig {
  c_Name : bytes;
  c_Priority : Z;
  c_Bandwidth : Z;
  c_Burst : Z;
  c_Latency : Z;
  c_Jitter : Z;
}.

Record ClassStats := mkStats {
  BytesSent : Z;
  BytesDropped : Z;
  PacketsSent : Z;
  PacketsDropped : Z;
  AvgLatency : Z;
  MaxLatency : Z;
}.

#[global] Instance ClassStats_eq_dec : EqDecision ClassStats.
Proof. solve_decision. Defined.

Record QoSClass := mkClass {
  config : QoSConfig;
  bucket : TokenBucket;
  stats : ClassStats;
}.

Definition NewQoSClass (now : Z) (cfg : QoSConfig) : QoSClass :=
  mkClass cfg (NewTokenBucket now (c_Burst cfg) (c_Bandwidth cfg)) (mkStats 0 0 0 0 0 0).

Definition Class_Send (polls : list Z) (data : bytes) (qc : QoSClass) : result unit * QoSClass :=
  let s := stats qc in
  match Wait polls (len data) (bucket qc) with
  | (Err e, b) =>
      (Err e, mkClass (config qc) b
        (mkStats (BytesSent s) (wrapS 64 (BytesDropped s + len data)) (PacketsSent s)
           (wrapS 64 (PacketsDropped s + 1)) (AvgLatency s) (MaxLatency s)))
  | (Ok _, b) =>
      (Ok tt, mkClass (config qc) b
        (mkStats (wrapS 64 (BytesSent s + len data)) (BytesDropped s)
           (wrapS 64 (PacketsSent s + 1)) (PacketsDropped s) (AvgLatency s) (MaxLatency s)))
  end.

(** ** The manager *)

Inductive Policy := PolicyFIFO | PolicyPriority | PolicyWFQ | PolicyHTB.

Record QoSManager := mkQoS {
  heap : list QoSClass;
  classes : gmap bytes nat;
  defaultClass : nat;
  serviceClasses : gmap bytes nat;
  peerClasses : gmap bytes nat;
  policy : Policy;
}.

Definition service_configs : list QoSConfig :=
  [mkConfig (str "voice") 10 (2 * 1024 * 1024) (256 * 1024) (20 * millisecond) 0;
   mkConfig (str "vpn") 9 (5 * 1024 * 1024) (512 * 1024) (50 * millisecond) 0;
   mkConfig (str "files") 5 (10 * 1024 * 1024) (2 * 1024 * 1024) 0 0;
   mkConfig (str "messaging") 7 (1 * 1024 * 1024) (128 * 1024) (100 * millisecond) 0;
   mkConfig (str "email") 3 (512 * 1024) (64 * 1024) 0 0;
   mkConfig (str "dns") 8 (128 * 1024) (32 * 1024) (10 * millisecond) 0;
   mkConfig (str "http") 6 (5 * 1024 * 1024) (1024 * 1024) 0 0;
   mkConfig (str "registry") 4 (2 * 1024 * 1024) (512 * 1024) 0 0;
   mkConfig (str "docs") 5 (2 * 1024 * 1024) (512 * 1024) 0 0].

(** [NewQoSClass] stored in the service map only. *)
Definition precreate (now : Z) (qm : QoSManager) (cfg : QoSConfig) : QoSManager :=
  mkQoS (heap qm ++ [NewQoSClass now cfg]) (classes qm) (defaultClass qm)
    (<[c_Name cfg := length (heap qm)]> (serviceClasses qm)) (peerClasses qm) (policy qm).

Definition NewQoSManager (now : Z) (p : Policy) : QoSManager :=
  let dflt := NewQoSClass now (mkConfig (str "default") 0 (10 * 1024 * 1024) (1024 * 1024) 0 0) in
  foldl (precreate now) (mkQoS [dflt] {[ str "default" := 0%nat ]} 0 ∅ ∅ p) service_configs.

Definition GetClass (name : bytes) (qm : QoSManager) : nat :=
  match classes qm !! name with
  | Some c => c
  | None =>
      match serviceClasses qm !! name with
      | Some c => c
      | None =>
          match peerClasses qm !! name with
          | Some c => c
          | None => defaultClass qm
          end
      end
  end.

Definition RegisterServiceClass (now : Z) (name : bytes) (cfg : QoSConfig) (qm : QoSManager) : QoSManager :=
  let r := length (heap qm) in
  mkQoS (heap qm ++ [NewQoSClass now cfg]) (<[name := r]> (classes qm)) (defaultClass qm)
    (<[name := r]> (serviceClasses qm)) (peerClasses qm) (policy qm).

Definition RegisterPeerClass (now : Z) (peerID : bytes) (cfg : QoSConfig) (qm : QoSManager) : QoSManager :=
  let r := length (heap qm) in
  mkQoS (heap qm ++ [NewQoSClass now cfg]) (<[peerID := r]> (classes qm)) (defaultClass qm)
    (serviceClasses qm) (<[peerID := r]> (peerClasses qm)) (policy qm).

(** The class [Send] picks. *)
Definition pick_class (service peerID : bytes) (qm : QoSManager) : nat :=
  let class := defaultClass qm in
  let class := if decide (peerID = []) then class else
               let peerClass := GetClass peerID qm in
               if decide (peerClass = defaultClass qm) then class else peerClass in
  if decide (class = defaultClass qm /\ service <> []) then
    let serviceClass := GetClass service qm in
    if decide (serviceClass = defaultClass qm) then class else serviceClass
  else class.

Definition update_class (r : nat) (c : QoSClass) (qm : QoSManager) : QoSManager :=
  mkQoS (<[r := c]> (heap qm)) (classes qm) (defaultClass qm) (serviceClasses qm)
    (peerClasses qm) (policy qm).

(** [None]: the class pointer is dangling, which no manager reaches. *)
Definition Manager_Send (polls : list Z) (service peerID data : bytes) (qm : QoSManager)
    : option (result unit * QoSManager) :=
  let r := pick_class service peerID qm in
  match heap qm !! r with
  | None => None
  | Some c => let '(res, c') := Class_Send polls data c in Some (res, update_class r c' qm)
  end.

Definition SetPolicy (p : Policy) (qm : QoSManager) : QoSManager :=
  mkQoS (heap qm) (classes qm) (defaultClass qm) (serviceClasses qm) (peerClasses qm) p.

Definition SetBandwidth (now : Z) (name : bytes) (bandwidth : Z) (qm : QoSManager) : QoSManager :=
  let r := GetClass name qm in
  match heap qm !! r with
  | None => qm
  | Some c =>
      let cfg := config c in
      update_class r
        (mkClass (mkConfig (c_Name cfg) (c_Priority cfg) bandwidth (c_Burst cfg) (c_Latency cfg) (c_Jitter cfg))
           (NewTokenBucket now (c_Burst cfg) bandwidth) (stats c)) qm
  end.

Definition SetPriority (name : bytes) (priority : Z) (qm : QoSManager) : QoSManager :=
  let r := GetClass name qm in
  match heap qm !! r with
  | None => qm
  | Some c =>
      let cfg := config c in
      update_class r
        (mkClass (mkConfig (c_Name cfg) priority (c_Bandwidth cfg) (c_Burst cfg) (c_Latency cfg) (c_Jitter cfg))
           (bucket c) (stats c)) qm
  end.

(** Later maps win where a name is in several. *)
Definition GetStats (qm : QoSManager) : gmap bytes ClassStats :=
  let look (m : gmap bytes nat) := omap (fun r => stats <$> heap qm !! r) m in
  look (peerClasses qm) ∪ (look (serviceClasses qm) ∪ look (classes qm)).

(** ** The hierarchy *)

Record HTBNode := mkHTB {
  h_name : bytes;
  h_parent : option nat;
  h_children : list nat;
  h_rate : Z;
  h_ceil : Z;
  h_bucket : TokenBucket;
  h_level : Z;
}.

Record HTBHierarchy := mkHierarchy {
  h_heap : list HTBNode;
  h_root : nat;
  h_nodes : gmap bytes nat;
}.

Definition NewHTBHierarchy (now : Z) : HTBHierarchy :=
  let rate := 100 * 1024 * 1024 in
  mkHierarchy [mkHTB (str "root") None [] rate rate (NewTokenBucket now rate rate) 0]
    0 {[ str "root" := 0%nat ]}.

Definition add_child (c : nat) (n : HTBNode) : HTBNode :=
  mkHTB (h_name n) (h_parent n) (h_children n ++ [c]) (h_rate n) (h_ceil n) (h_bucket n) (h_level n).

Definition AddClass (now : Z) (name parent : bytes) (rate ceil : Z) (h : HTBHierarchy)
    : nat * HTBHierarchy :=
  let p := default (h_root h) (h_nodes h !! parent) in
  let lvl := match h_heap h !! p with Some n => h_level n | None => 0 end in
  let r := length (h_heap h) in
  let node := mkHTB name (Some p) [] rate ceil (NewTokenBucket now ceil rate) (lvl + 1) in
  (r, mkHierarchy (alter (add_child r) p (h_heap h) ++ [node]) (h_root h) (<[name := r]> (h_nodes h))).

Definition GetNode (name : bytes) (h : HTBHierarchy) : option nat := h_nodes h !! name.

Definition Borrow (now n : Z) (node : HTBNode) : bool * HTBNode :=
  let '(ok, b) := Take now n (h_bucket node) in
  (ok, mkHTB (h_name node) (h_parent node) (h_children node) (h_rate node) (h_ceil node) b (h_level node)).

(** * Lemmas *)

Lemma min_le_l a b : min a b <= a.
Proof. unfold min. destruct (Z.ltb_spec a b); lia. Qed.

Lemma Take_capacity now n tb :
  capacity (Take now n tb).2 = capacity tb /\ refillRate (Take now n tb).2 = refillRate tb
  /\ lastRefill (Take now n tb).2 = now.
Proof. unfold Take. by destruct (_ <=? _). Qed.

(** A bucket in which no refill overflows. *)
Definition no_overflow (now : Z) (tb : TokenBucket) : Prop :=
  0 <= credit now tb <= int64_max - capacity tb.

Lemma Take_balance now n tb :
  0 <= tokens tb <= capacity tb -> capacity tb <= int64_max -> 0 <= n -> no_overflow now tb ->
  let '(ok, tb') := Take now n tb in
  0 <= tokens tb' <= capacity tb'
  /\ tokens tb' + (if ok then n else 0) <= tokens tb + credit now tb
  /\ (ok = true <-> n <= min (capacity tb) (tokens tb + credit now tb)).
Proof.
  intros Ht Hc Hn Ho. unfold no_overflow, int64_max in *. unfold Take, refill. simpl.
  rewrite (wrapS_small 64 (tokens tb + credit now tb)) by lia.
  assert (0 <= min (capacity tb) (tokens tb + credit now tb) <= capacity tb) as Hm
    by (unfold min; destruct (Z.ltb_spec (capacity tb) (tokens tb + credit now tb)); lia).
  assert (min (capacity tb) (tokens tb + credit now tb) <= tokens tb + credit now tb) as Hm2
    by (unfold min; destruct (Z.ltb_spec (capacity tb) (tokens tb + credit now tb)); lia).
  destruct (Z.leb_spec n (min (capacity tb) (tokens tb + credit now tb))); simpl.
  - rewrite wrapS_small by lia. split; [lia|]. split; [lia|]. split; [lia|done].
  - split; [lia|]. split; [lia|]. split; [done|lia].
Qed.

(** A sequence of requests [(time, tokens)]: what was granted in all, what was
    earned in all, and the bucket left. *)
Fixpoint serve (reqs : list (Z * Z)) (tb : TokenBucket) : Z * Z * TokenBucket :=
  match reqs with
  | [] => (0, 0, tb)
  | (now, n) :: rest =>
      let earned := credit now tb in
      let '(ok, tb') := Take now n tb in
      let '(granted, total, tb'') := serve rest tb' in
      ((if ok then n else 0) + granted, earned + total, tb'')
  end.

Fixpoint serves_without_overflow (reqs : list (Z * Z)) (tb : TokenBucket) : Prop :=
  match reqs with
  | [] => True
  | (now, n) :: rest => 0 <= n /\ no_overflow now tb /\ serves_without_overflow rest (Take now n tb).2
  end.

Lemma serve_balance reqs tb :
  0 <= tokens tb <= capacity tb -> capacity tb <= int64_max -> serves_without_overflow reqs tb ->
  let '(granted, earned, tb') := serve reqs tb in
  0 <= tokens tb' <= capacity tb' /\ capacity tb' = capacity tb
  /\ tokens tb' + granted <= tokens tb + earned.
Proof.
  revert tb. induction reqs as [|[now n] reqs IH]; intros tb Ht Hc Hs; simpl; [lia|].
  destruct Hs as (Hn & Ho & Hs). pose proof (Take_balance now n tb Ht Hc Hn Ho) as Hb.
  pose proof (Take_capacity now n tb) as (Hcap & _).
  destruct (Take now n tb) as [ok tb']. simpl in *. destruct Hb as (Hb1 & Hb2 & _).
  specialize (IH tb' Hb1). rewrite Hcap in IH. specialize (IH Hc Hs).
  destruct (serve reqs tb') as [[granted earned] tb'']. lia.
Qed.

Lemma Take_oversized now n tb : capacity tb < n -> (Take now n tb).1 = false.
Proof.
  intros Hn. unfold Take, refill. simpl.
  pose proof (min_le_l (capacity tb) (wrapS 64 (tokens tb + credit now tb))).
  destruct (Z.leb_spec n (min (capacity tb) (wrapS 64 (tokens tb + credit now tb)))); [lia|done].
Qed.

(** ** Properties *)

(** The limiter keeps its budget.  Over any sequence of requests in which
    no refill overflows an int64, what is granted is at most the capacity plus
    what was earned, the tokens stay between zero and the capacity, and a
    request is granted exactly when the refilled bucket covers it. *)
Theorem qos_bucket_budget now0 cap rate reqs :
  0 <= cap <= int64_max ->
  serves_without_overflow reqs (NewTokenBucket now0 cap rate) ->
  let '(granted, earned, tb') := serve reqs (NewTokenBucket now0 cap rate) in
  granted <= cap + earned /\ 0 <= tokens tb' <= cap
  /\ forall now n, 0 <= n -> no_overflow now tb' ->
       ((Take now n tb').1 = true <-> n <= min cap (tokens tb' + credit now tb')).
Proof.
  intros Hc Hs. pose proof (serve_balance reqs (NewTokenBucket now0 cap rate)) as HB.
  destruct (serve reqs (NewTokenBucket now0 cap rate)) as [[granted earned] tb'].
  destruct HB as (H1 & H2 & H3); [simpl; lia|simpl; lia|done|]. simpl in H2, H3.
  split; [lia|]. split; [lia|]. intros now n Hn Ho.
  pose proof (Take_balance now n tb') as HT. destruct (Take now n tb') as [ok tb'']. simpl.
  rewrite <- H2. apply HT; [lia|lia|lia|done].
Qed.

(** [Wait] does not terminate by itself: a request for more than the burst
    of its class is never granted, however long it is polled, so a [Send] of
    such a payload only ends with its context, and counts as a drop. *)
Theorem qos_oversized_send_never_granted polls data qc :
  capacity (bucket qc) < len data ->
  exists e, (Class_Send polls data qc).1 = Err e
  /\ PacketsDropped (stats (Class_Send polls data qc).2)
     = wrapS 64 (PacketsDropped (stats qc) + 1).
Proof.
  intros Hn. unfold Class_Send.
  assert (forall tb, capacity tb < len data -> exists e tb', Wait polls (len data) tb = (Err e, tb')) as HW.
  { induction polls as [|now polls IH]; intros tb Htb; simpl; [eauto|].
    pose proof (Take_oversized now (len data) tb Htb) as Hf.
    pose proof (Take_capacity now (len data) tb) as (Hcap & _).
    destruct (Take now (len data) tb) as [ok tb']. simpl in *. subst ok. apply IH. lia. }
  destruct (HW _ Hn) as (e & tb' & ->). by exists e.
Qed.

(** [Send] uses the class of the peer when one is registered under its
    name, otherwise the class of the service, otherwise the default class. *)
Theorem qos_class_selection service peerID qm :
  pick_class service peerID qm =
    if decide (peerID <> [] /\ GetClass peerID qm <> defaultClass qm) then GetClass peerID qm
    else if decide (service <> []) then GetClass service qm
    else defaultClass qm.
Proof.
  unfold pick_class. repeat case_decide; naive_solver.
Qed.

(** The fraction of a token earned between two polls is lost: at 50 tokens a
    second a bucket polled every 10 ms earns nothing, for ever. *)
Theorem qos_slow_refill_starves k t0 cap :
  0 < cap ->
  let polls := (fun i => t0 + 10 * millisecond * (Z.of_nat i + 1)) <$> seq 0 k in
  (Wait polls 1 (mkBucket cap 0 50 t0)).1 <> Ok tt.
Proof.
  intros Hcap polls.
  assert (forall n i, (Wait ((fun i => t0 + 10 * millisecond * (Z.of_nat i + 1)) <$> seq i n) 1
            (mkBucket cap 0 50 (t0 + 10 * millisecond * Z.of_nat i))).1 <> Ok tt) as H.
  { induction n as [|n IH]; intros i; simpl; [done|]. unfold Take, refill, credit.
    cbn [lastRefill refillRate tokens capacity].
    replace (time_sub (t0 + 10 * millisecond * (Z.of_nat i + 1)) (t0 + 10 * millisecond * Z.of_nat i))
      with (10 * millisecond) by (unfold time_sub, int64_min, int64_max, millisecond; lia).
    replace (f64_to_int64 (f64_mul (seconds (10 * millisecond)) (f64_of_Z 50))) with 0
      by (vm_compute; reflexivity).
    change (wrapS 64 (0 + 0)) with 0. unfold min. destruct (Z.ltb_spec cap 0); [lia|]. simpl.
    replace (t0 + 10 * millisecond * (Z.of_nat i + 1)) with (t0 + 10 * millisecond * Z.of_nat (S i)) by lia.
    apply IH. }
  specialize (H k 0%nat). rewrite Z.mul_0_r, Z.add_0_r in H. exact H.
Qed.

(** * Witnesses *)

Definition ex_bucket : TokenBucket := NewTokenBucket 0 100 50.

Lemma qos_bucket_budget_witness :
  let '(granted, earned, tb') := serve [(second, 80); (2 * second, 60)] ex_bucket in
  granted <= 100 + earned /\ 0 <= tokens tb' <= 100.
Proof.
  pose proof (qos_bucket_budget 0 100 50 [(second, 80); (2 * second, 60)]) as H.
  fold ex_bucket in H.
  assert (serves_without_overflow [(second, 80); (2 * second, 60)] ex_bucket) as Hs
    by (vm_compute; repeat split; congruence).
  specialize (H ltac:(vm_compute; split; congruence) Hs).
  destruct (serve _ ex_bucket) as [[g e] tb]. destruct H as (H1 & H2 & _). exact (conj H1 H2).
Defined.

Lemma qos_oversized_send_never_granted_witness :
  exists e, (Class_Send [1; 2; 3] (zeroes 20)
    (NewQoSClass 0 (mkConfig (str "x") 0 5 10 0 0))).1 = Err e.
Proof.
  destruct (qos_oversized_send_never_granted [1; 2; 3] (zeroes 20)
    (NewQoSClass 0 (mkConfig (str "x") 0 5 10 0 0)) eq_refl) as (e & H & _).
  exists e. exact H.
Defined.
