(* ===== verification/FileWire.v ===== *)
(** * Chunking and framing of file transfers (pkg/services/files)

    The content-defined chunker (with the CRC-32 it cuts by), content
    identifiers, and the frames of the data channel.  Content identifiers come
    from go-cid: [CidLib] is the interface, a [cid.Cid] being the byte string
    it wraps (the type is compared by [==] on that string). *)

From S2P Require Import Prelude Bytes Hash.

Local Open Scope Z_scope.

Class CidLib := {
  cid_sum : bytes -> bytes;
  cid_cast : bytes -> result bytes;
  cid_sum_length : forall d, length (cid_sum d) = 36%nat;
  cid_cast_sum : forall d, cid_cast (cid_sum d) = Ok (cid_sum d);
  cid_cast_same : forall b c, cid_cast b = Ok c -> c = b;
}.

(** ** CRC-32 (IEEE), as [hash/crc32] computes it *)

Definition crc_bit (c : Z) : Z :=
  if Z.testbit c 0 then Z.lxor (Z.shiftr c 1) 0xEDB88320 else Z.shiftr c 1.

Definition crc_byte (c : Z) (b : byte) : Z :=
  Nat.iter 8 crc_bit (Z.lxor c (u8 b)).

Definition crc32 (data : bytes) : Z :=
  Z.lxor (foldl crc_byte 0xFFFFFFFF data) 0xFFFFFFFF.

(** ** The chunker *)

Definition cdcMinSize : Z := 2 * 1024.
Definition cdcMaxSize : Z := 64 * 1024.
Definition cdcMask : Z := 0x1FFF.

Record ContentDefinedChunker := mkChunker {
  window : bytes;
  pos : nat;
}.

Definition NewContentDefinedChunker : ContentDefinedChunker := mkChunker (zeroes 64) 0.

(** The boundary test after byte [i]: [chunk] is [data[start:i+1]]. *)
Definition boundary (win chunk : bytes) : bool :=
  let size := len chunk in
  ((cdcMinSize <=? size) && (Z.land (crc32 (win ++ chunk)) cdcMask =? 0)) || (cdcMaxSize <=? size).

(** [Feed]: [chunk] is what was read since the last boundary.  The chunks are
    returned in the order [emit] is called with them; no [emit] of the program
    fails. *)
Fixpoint feed (c : ContentDefinedChunker) (chunk data : bytes) : list bytes :=
  match data with
  | [] => match chunk with [] => [] | _ => [chunk] end
  | b :: rest =>
      let win := <[pos c := b]> (window c) in
      let c := mkChunker win ((pos c + 1) mod length win) in
      let chunk := chunk ++ [b] in
      if boundary win chunk then chunk :: feed c [] rest else feed c chunk rest
  end.

Definition Feed (c : ContentDefinedChunker) (data : bytes) : list bytes := feed c [] data.

Record Block := mkBlock {
  CID : bytes;
  Data : bytes;
}.

#[global] Instance Block_eq_dec : EqDecision Block.
Proof. solve_decision. Defined.

Definition computeBlockCID `{CidLib} (data : bytes) : bytes := cid_sum data.

Definition CidFor `{CidLib} (data : bytes) : result bytes :=
  match data with
  | [] => Err (ErrText "cannot identify an empty block")
  | _ => Ok (computeBlockCID data)
  end.

(** The callback of [Chunk] on each chunk: stop at the first error. *)
Fixpoint identify `{CidLib} (chunks : list bytes) : result (list Block) :=
  match chunks with
  | [] => Ok []
  | d :: rest =>
      match CidFor d with
      | Err e => Err e
      | Ok c => match identify rest with
                | Ok bs => Ok (mkBlock c d :: bs)
                | Err e => Err e
                end
      end
  end.

Definition Chunk `{CidLib} (data : bytes) : result (list Block) :=
  identify (Feed NewContentDefinedChunker data).

(** ** Frames *)

Definition wireHello : Z := 1.
Definition wireManifest : Z := 2.
Definition wireBlock : Z := 3.
Definition wireComplete : Z := 4.
Definition wireAbort : Z := 5.

Definition maxFrameBytes : Z := Z.shiftl 4 20.

Record frame := mkFrame {
  f_Type : Z;
  f_CIDs : list bytes;
  f_Total : Z;
  f_CID : bytes;
  f_Data : bytes;
  f_Reason : bytes;
}.

#[global] Instance frame_eq_dec : EqDecision frame.
Proof. solve_decision. Defined.

Definition put_blob (b : bytes) : bytes := be_put 4 (len b) ++ b.

Definition encodeFrame (f : frame) : bytes :=
  [byte_of (f_Type f)] ++ be_put 4 (f_Total f) ++ be_put 4 (Z.of_nat (length (f_CIDs f)))
  ++ concat (put_blob <$> f_CIDs f) ++ put_blob (f_CID f) ++ put_blob (f_Data f)
  ++ put_blob (f_Reason f).

Definition readU32 : reader Z := fun b =>
  if len b <? 4 then (Err (ErrText "frame truncated"), b)
  else (Ok (be_get (take 4 b)), drop 4 b).

Definition readBlob : reader bytes := (
  let! n := readU32 in
  fun b =>
    if maxFrameBytes <? n then (Err (ErrText "blob exceeds the byte limit"), b)
    else if len b <? n then (Err (ErrText "blob claims more bytes than remain"), b)
    else (Ok (take (Z.to_nat n) b), drop (Z.to_nat n) b))%go.

Definition liftCid (r : result bytes) : reader bytes :=
  match r with Ok c => rret c | Err e => rfail e end.

Definition readCid `{CidLib} : reader bytes := (
  let! raw := readBlob in liftCid (cid_cast raw))%go.

Definition decodeFrame `{CidLib} (b : bytes) : result frame :=
  if len b <? 5 then Err (ErrText "frame too short") else
  let typ := be_get (take 1 b) in
  let total := be_get (take 4 (drop 1 b)) in
  ((let! count := readU32 in
    let! cids := (if len b <? count then rfail (ErrText "cid count cannot fit")
                  else rrepeat (Z.to_nat count) readCid) in
    let! cidRaw := readBlob in
    let! c := (match cidRaw with [] => rret [] | _ => liftCid (cid_cast cidRaw) end) in
    let! data := readBlob in
    let! reason := readBlob in
    rret (mkFrame typ cids total c data reason))%go (drop 5 b)).1.

(** * Lemmas *)

Lemma feed_concat c chunk data : concat (feed c chunk data) = chunk ++ data.
Proof.
  revert c chunk. induction data as [|b data IH]; intros c chunk; cbn [feed].
  - destruct chunk; simpl; by rewrite ?app_nil_r.
  - case_match; [cbn [concat]|]; rewrite IH, <- ?app_assoc; done.
Qed.

(** Sizes: every chunk is cut by [cdcMaxSize]; only the last may be short. *)
Lemma feed_sizes c chunk data :
  len chunk < cdcMaxSize ->
  Forall (fun d => 0 < len d <= cdcMaxSize) (feed c chunk data)
  /\ Forall (fun d => cdcMinSize <= len d) (removelast (feed c chunk data)).
Proof.
  revert c chunk. induction data as [|b data IH]; intros c chunk Hc; cbn [feed].
  - destruct chunk as [|x chunk]; [split; constructor|]. split; [|constructor].
    constructor; [|constructor]. unfold len in *. cbn [length] in *. lia.
  - set (win := <[_ := _]> _). assert (len (chunk ++ [b]) = len chunk + 1) as Hl by (rewrite len_app; done).
    pose proof (len_nonneg chunk).
    destruct (boundary win (chunk ++ [b])) eqn:Eb.
    + destruct (IH (mkChunker win ((pos c + 1) mod length win)) []) as [H1 H2]; [done|].
      split; [constructor; [lia|done]|].
      assert (cdcMinSize <= len (chunk ++ [b])) as Hmin.
      { unfold boundary in Eb. apply orb_true_iff in Eb as [[Eb _]%andb_true_iff|Eb].
        - by apply Z.leb_le.
        - apply Z.leb_le in Eb. unfold cdcMaxSize, cdcMinSize in *. lia. }
      destruct (feed _ [] data) as [|d ds]; [constructor|]. cbn [removelast]. constructor; done.
    + apply IH. unfold boundary in Eb. apply orb_false_iff in Eb as [_ Eb].
      by apply Z.leb_gt in Eb.
Qed.

Lemma identify_ok `{CidLib} chunks :
  Forall (fun d => 0 < len d) chunks ->
  identify chunks = Ok ((fun d => mkBlock (computeBlockCID d) d) <$> chunks).
Proof.
  induction 1 as [|d chunks Hd Hf IH]; [done|]. cbn [identify]. rewrite IH.
  destruct d; [unfold len in Hd; simpl in Hd; lia|done].
Qed.

Lemma readU32_be_put z k : 0 <= z < 2 ^ 32 -> readU32 (be_put 4 z ++ k) = (Ok z, k).
Proof.
  intros Hz. unfold readU32. rewrite len_app. pose proof (len_nonneg k).
  assert (len (be_put 4 z) = 4) as -> by (unfold len; by rewrite length_be_put).
  rewrite (proj2 (Z.ltb_ge _ _)) by lia.
  rewrite take_app_exact, drop_app_exact by apply length_be_put.
  rewrite be_get_put_small by lia. done.
Qed.

Lemma readBlob_put b k : len b <= maxFrameBytes -> readBlob (put_blob b ++ k) = (Ok b, k).
Proof.
  intros Hb. change maxFrameBytes with 4194304 in *. pose proof (len_nonneg b). unfold readBlob, put_blob, rbind.
  rewrite <- app_assoc, readU32_be_put by lia. change maxFrameBytes with 4194304.
  rewrite (proj2 (Z.ltb_ge 4194304 _)) by lia.
  rewrite (proj2 (Z.ltb_ge _ _)) by (rewrite len_app; pose proof (len_nonneg k); lia).
  rewrite take_app_exact, drop_app_exact by (unfold len; lia). done.
Qed.

(** Frames the program builds. *)
Record frame_ok `{CidLib} (f : frame) : Prop := {
  ok_type : 0 <= f_Type f < 256;
  ok_total : 0 <= f_Total f < 2 ^ 32;
  ok_count : Z.of_nat (length (f_CIDs f)) < 2 ^ 32;
  ok_cids : Forall (fun c => cid_cast c = Ok c /\ len c <= maxFrameBytes) (f_CIDs f);
  ok_cid : f_CID f = [] \/ cid_cast (f_CID f) = Ok (f_CID f);
  ok_cid_len : len (f_CID f) <= maxFrameBytes;
  ok_data : len (f_Data f) <= maxFrameBytes;
  ok_reason : len (f_Reason f) <= maxFrameBytes;
}.

Lemma concat_blobs_len cids : Z.of_nat (length cids) <= len (concat (put_blob <$> cids)).
Proof.
  induction cids as [|c cids IH]; [done|]. rewrite fmap_cons. cbn [concat length].
  rewrite len_app. unfold put_blob at 1. rewrite len_app. pose proof (len_nonneg c).
  assert (len (be_put 4 (len c)) = 4) by (unfold len; by rewrite length_be_put). lia.
Qed.

Lemma decodeFrame_encodeFrame `{CidLib} f : frame_ok f -> decodeFrame (encodeFrame f) = Ok f.
Proof.
  intros [Ht Htot Hcnt Hcids Hcid Hcl Hd Hr]. unfold decodeFrame, encodeFrame.
  set (tl := concat _ ++ _). set (b := [_] ++ _).
  assert (len b = 9 + len tl) as HL.
  { unfold b. rewrite !len_app. unfold len at 1 2 3. rewrite !length_be_put. simpl. lia. }
  assert (Z.of_nat (length (f_CIDs f)) <= len tl) as Hfit.
  { unfold tl. rewrite len_app. pose proof (concat_blobs_len (f_CIDs f)).
    match goal with |- _ <= _ + len ?x => pose proof (len_nonneg x) end. lia. }
  pose proof (len_nonneg tl). rewrite (proj2 (Z.ltb_ge _ 5)) by lia.
  assert (take 1 b = [byte_of (f_Type f)]) as -> by done.
  assert (take 4 (drop 1 b) = be_put 4 (f_Total f)) as ->
    by (apply (take_app_exact (be_put 4 (f_Total f))), length_be_put).
  assert (drop 5 b = be_put 4 (Z.of_nat (length (f_CIDs f))) ++ tl) as ->
    by (apply (drop_app_exact ([byte_of (f_Type f)] ++ be_put 4 (f_Total f)));
        rewrite length_app, length_be_put; done).
  rewrite be_get_cons, be_get_nil, u8_byte_of, Z.mod_small by lia.
  rewrite be_get_put_small by lia. unfold rbind at 1. rewrite readU32_be_put by lia.
  rewrite (proj2 (Z.ltb_ge (len b) _)) by lia. rewrite Nat2Z.id. unfold tl, rbind at 1.
  rewrite (rrepeat_concat put_blob).
  2: { eapply Forall_impl; [exact Hcids|]. intros c [Hc1 Hc2] k. unfold readCid, rbind.
       rewrite readBlob_put by done. by rewrite Hc1. }
  unfold rbind at 1. rewrite readBlob_put by done. unfold rbind at 1.
  assert (forall k : bytes, (match f_CID f with [] => rret [] | _ => liftCid (cid_cast (f_CID f)) end) k
            = (Ok (f_CID f), k)) as ->.
  { intros k. destruct Hcid as [->|E]; [done|]. destruct (f_CID f); [done|by rewrite E]. }
  unfold rbind at 1. rewrite readBlob_put by done. unfold rbind at 1.
  rewrite <- (app_nil_r (put_blob (f_Reason f))), readBlob_put by done.
  unfold rret, len. simpl. rewrite Z.mul_1_r, Z.add_0_r. by destruct f.
Qed.

(** ** Properties *)

(** Chunking loses nothing and is bounded: the chunks of a file, in order,
    are the file; every chunk has between 1 byte and 64 KiB, every one but the
    last at least 2 KiB; and each is identified by its content.  [Chunk] never
    fails. *)
Theorem chunk_reassembles `{CidLib} data :
  exists blocks, Chunk data = Ok blocks
  /\ concat (Data <$> blocks) = data
  /\ Forall (fun b => CID b = computeBlockCID (Data b) /\ 0 < len (Data b) <= cdcMaxSize) blocks
  /\ Forall (fun b => cdcMinSize <= len (Data b)) (removelast blocks).
Proof.
  destruct (feed_sizes NewContentDefinedChunker [] data) as [H1 H2]; [done|].
  unfold Chunk, Feed. rewrite identify_ok by (eapply Forall_impl; [exact H1|]; simpl; lia).
  eexists. split; [done|]. rewrite <- list_fmap_compose, list_fmap_id.
  split; [by rewrite feed_concat|]. split.
  - apply Forall_fmap. eapply Forall_impl; [exact H1|]. done.
  - revert H2. generalize (feed NewContentDefinedChunker [] data). intros l.
    induction l as [|d [|d' l] IH]; [constructor|constructor|].
    cbn [removelast fmap list_fmap] in *. intros HF. inversion_clear HF as [|? ? Hd HF'].
    constructor; [done|]. by apply IH.
Qed.

(** A frame is read back as it was written, for every frame whose fields
    fit the wire format (payload and reason up to 4 MiB, identifiers that cast
    to themselves). *)
Theorem frame_roundtrip `{CidLib} f : frame_ok f -> decodeFrame (encodeFrame f) = Ok f.
Proof. apply decodeFrame_encodeFrame. Qed.

(** * Witnesses *)

(** Identifiers of the shape of a CIDv1 (raw codec, a 32-byte digest). *)
Definition cid_prefix : bytes := [Byte.x01; Byte.x55; Byte.x12; Byte.x20].

Definition digest_cids : CidLib.
Proof.
  refine {| cid_sum := fun d => cid_prefix ++ @sha3 sha3_256_hash d;
            cid_cast := fun b => if decide (length b = 36%nat) then Ok b
                                 else Err (ErrText "invalid cid") |}.
  - intros d. rewrite length_app, sha3_length. done.
  - intros d. rewrite decide_True; [done|]. rewrite length_app, sha3_length. done.
  - intros b c H. by case_tests.
Defined.

#[local] Existing Instance digest_cids.

Definition ex_frame : frame :=
  mkFrame wireBlock [cid_sum (str "a")] 7 (cid_sum (str "b")) (str "b") (str "why").

Lemma frame_roundtrip_witness : decodeFrame (encodeFrame ex_frame) = Ok ex_frame.
Proof.
  apply frame_roundtrip. split.
  - vm_compute. split; congruence.
  - vm_compute. split; congruence.
  - vm_compute. reflexivity.
  - constructor; [|constructor]. split; [apply cid_cast_sum|]. unfold len. rewrite cid_sum_length.
    vm_compute. congruence.
  - right. apply cid_cast_sum.
  - cbn [f_CID ex_frame]. unfold len. rewrite cid_sum_length. vm_compute. congruence.
  - vm_compute. congruence.
  - vm_compute. congruence.
Defined.

Lemma chunk_reassembles_witness :
  exists blocks, Chunk (str "hello") = Ok blocks /\ concat (Data <$> blocks) = str "hello".
Proof.
  destruct (chunk_reassembles (str "hello")) as (blocks & H1 & H2 & _). by exists blocks.
Defined.
