(* ===== verification/BlockStore.v ===== *)
(** * The block store of pkg/services/files

    [memoryStore]: blocks and their reference counts under content
    identifiers.  [Put] and [Delete] of the file-backed variant also touch the
    disk: [write_ok] is whether [os.WriteFile] succeeds ([None] for a store
    without directory), and the result of [os.Remove] is ignored as in the
    code. *)

From S2P Require Import Prelude Bytes FileWire.

Local Open Scope Z_scope.

Record BlockMeta := mkMeta {
  Size : Z;
  Compressed : bool;
  Created : Z;
  RefCount : Z;
}.

Record memoryStore := mkStore {
  blocks : gmap bytes bytes;
  meta : gmap bytes BlockMeta;
}.

Definition NewMemoryStore : memoryStore := mkStore ∅ ∅.

Definition isZstd (data : bytes) : bool :=
  bool_decide (take 4 data = [Byte.x28; Byte.xb5; Byte.x2f; Byte.xfd]).

Section store.
Context `{HC : CidLib}.

Definition Put (now : Z) (write_ok : option bool) (b : Block) (s : memoryStore)
    : result unit * memoryStore :=
  if decide (length (Data b) = 0%nat) then (Err (ErrText "block is empty"), s) else
  if decide (computeBlockCID (Data b) <> CID b) then (Err (ErrText "CID mismatch"), s) else
  match meta s !! CID b with
  | Some m =>
      (Ok tt, mkStore (blocks s)
        (<[CID b := mkMeta (Size m) (Compressed m) (Created m) (RefCount m + 1)]> (meta s)))
  | None =>
      let m := mkMeta (len (Data b)) (isZstd (Data b)) now 1 in
      let s' := mkStore (<[CID b := Data b]> (blocks s)) (<[CID b := m]> (meta s)) in
      match write_ok with
      | Some false =>
          (Err (ErrText "write block to disk"),
           mkStore (delete (CID b) (blocks s')) (delete (CID b) (meta s')))
      | _ => (Ok tt, s')
      end
  end.

Definition Get (c : bytes) (s : memoryStore) : result Block :=
  match blocks s !! c with
  | Some d => Ok (mkBlock c d)
  | None => Err (ErrText "block not found")
  end.

Definition Has (c : bytes) (s : memoryStore) : bool := bool_decide (is_Some (blocks s !! c)).

Definition Delete (c : bytes) (s : memoryStore) : memoryStore :=
  match meta s !! c with
  | Some m =>
      let m' := mkMeta (Size m) (Compressed m) (Created m) (RefCount m - 1) in
      if 0 <? RefCount m' then mkStore (blocks s) (<[c := m']> (meta s))
      else mkStore (delete c (blocks s)) (delete c (meta s))
  | None => mkStore (delete c (blocks s)) (delete c (meta s))
  end.

Definition List_ (s : memoryStore) : list bytes := elements (dom (blocks s)).

Definition Size_ (c : bytes) (s : memoryStore) : result Z :=
  match meta s !! c with
  | Some m => Ok (Size m)
  | None => Err (ErrText "block not found")
  end.

Definition EncodeBlock (b : Block) : bytes := be_put 4 (len (Data b)) ++ Data b.

Definition DecodeBlock (data : bytes) : result Block :=
  if len data <? 4 then Err (ErrText "data too short for block header") else
  let length := be_get (take 4 data) in
  if len data <? 4 + length then Err (ErrText "data truncated") else
  let d := take (Z.to_nat length) (drop 4 data) in
  Ok (mkBlock (computeBlockCID d) d).

(** ** Specification: a counter per identifier

    What the operations promise: a put of a well-formed block adds one to the
    count of its identifier, a delete takes one off while there is one, and
    the block is there while the count is positive. *)

Inductive sop :=
| SPut (now : Z) (b : Block)
| SDelete (c : bytes).

Definition well_formed (b : Block) : Prop := Data b <> [] /\ CID b = computeBlockCID (Data b).

#[global] Instance well_formed_dec b : Decision (well_formed b) := decide (_ /\ _).

Definition count_op (c : bytes) (n : Z) (o : sop) : Z :=
  match o with
  | SPut _ b => if decide (well_formed b /\ CID b = c) then n + 1 else n
  | SDelete c' => if decide (c' = c) then Z.max 0 (n - 1) else n
  end.

Definition counts (c : bytes) (ops : list sop) : Z := foldl (count_op c) 0 ops.

Definition apply_sop (s : memoryStore) (o : sop) : memoryStore :=
  match o with
  | SPut now b => (Put now None b s).2
  | SDelete c => Delete c s
  end.

Definition run_store (ops : list sop) : memoryStore := foldl apply_sop NewMemoryStore ops.

(** The store against the counter of one identifier. *)
Definition store_rel (s : memoryStore) (c : bytes) (n : Z) : Prop :=
  0 <= n
  /\ (0 < n <-> is_Some (blocks s !! c))
  /\ (forall m, meta s !! c = Some m -> RefCount m = n)
  /\ (is_Some (meta s !! c) <-> is_Some (blocks s !! c))
  /\ (forall d, blocks s !! c = Some d -> c = computeBlockCID d /\ d <> []
        /\ exists m, meta s !! c = Some m /\ Size m = len d).

(** * Lemmas *)

Lemma Put_cases now b s :
  (~ well_formed b /\ exists e, Put now None b s = (Err e, s))
  \/ (well_formed b /\ (Put now None b s).1 = Ok tt).
Proof.
  unfold Put, well_formed. case_decide as H0.
  { left. split; [|eauto]. intros [H _]. by destruct (Data b). }
  case_decide as H1; [left; split; [naive_solver|eauto]|].
  right. split; [|by case_match]. split; [by intros E; rewrite E in H0|].
  destruct (decide (computeBlockCID (Data b) = CID b)); naive_solver.
Qed.

(** A put of a well-formed block under another identifier leaves [c] alone. *)
Lemma Put_ne now b s c :
  CID b <> c -> blocks (Put now None b s).2 !! c = blocks s !! c
               /\ meta (Put now None b s).2 !! c = meta s !! c.
Proof.
  intros Hne. unfold Put. repeat case_decide; [done..|].
  case_match; simpl; by rewrite !lookup_insert_ne.
Qed.

Lemma Put_eq now b s n :
  well_formed b -> store_rel s (CID b) n ->
  store_rel (Put now None b s).2 (CID b) (n + 1)
  /\ blocks (Put now None b s).2 !! CID b = Some (default (Data b) (blocks s !! CID b)).
Proof.
  intros [Hd Hc] (Hn & H1 & H2 & H3 & H4). unfold Put.
  rewrite decide_False by (by destruct (Data b)). rewrite decide_False by (intros E; by apply E).
  destruct (meta s !! CID b) as [m|] eqn:Em; simpl.
  - destruct (proj1 H3) as [d Hb]; [by eexists|].
    destruct (H4 d Hb) as (E1 & E2 & m' & E3 & E4). assert (m' = m) as -> by congruence.
    rewrite Hb. split; [|done]. split; [lia|]. simpl. rewrite lookup_insert_eq. split.
    { split; [intros _; by eexists|lia]. } split; [intros ? [= <-]; simpl; rewrite (H2 m); done|].
    split; [split; intros _; by eexists|]. intros d' E. assert (d' = d) as -> by congruence.
    split; [done|]. split; [done|]. eexists. split; [done|]. done.
  - assert (blocks s !! CID b = None) as Hb.
    { destruct (blocks s !! CID b) eqn:E; [|done]. destruct (proj2 H3) as [m ?]; [by eexists|congruence]. }
    assert (n = 0) as -> by (destruct (decide (0 < n)) as [Hp|]; [apply H1 in Hp as [? ?]; congruence|lia]).
    rewrite Hb. unfold store_rel. simpl. rewrite !lookup_insert_eq. split; [|done].
    split; [lia|]. split; [split; [intros _; by eexists|lia]|]. split; [by intros ? [= <-]|].
    split; [split; intros _; by eexists|]. intros d [= <-]. split; [done|]. split; [done|]. by eexists.
Qed.

Lemma Delete_rel s c n :
  store_rel s c n -> store_rel (Delete c s) c (Z.max 0 (n - 1)).
Proof.
  intros (Hn & H1 & H2 & H3 & H4). unfold Delete.
  destruct (meta s !! c) as [m|] eqn:Em; simpl.
  - rewrite (H2 m eq_refl). destruct (proj1 H3) as [d Hb]; [by eexists|].
    assert (0 < n) as Hp by (apply H1; by eexists).
    destruct (Z.ltb_spec 0 (n - 1)).
    + unfold store_rel. simpl. rewrite lookup_insert_eq. replace (Z.max 0 (n - 1)) with (n - 1) by lia.
      split; [lia|]. split; [split; [intros _; by eexists|lia]|]. split; [by intros ? [= <-]|].
      split; [split; intros _; by eexists|]. intros d' E. destruct (H4 d' E) as (? & ? & m' & E3 & E4).
      assert (m' = m) as -> by congruence. split; [done|]. split; [done|]. by eexists.
    + replace (Z.max 0 (n - 1)) with 0 by lia. unfold store_rel. simpl. rewrite !lookup_delete_eq.
      split; [lia|]. split; [split; [lia|by intros [? ?]]|]. done.
  - assert (blocks s !! c = None) as Hb.
    { destruct (blocks s !! c) eqn:E; [|done]. destruct (proj2 H3) as [m ?]; [by eexists|congruence]. }
    assert (n = 0) as -> by (destruct (decide (0 < n)) as [Hp|]; [apply H1 in Hp as [? ?]; congruence|lia]).
    unfold store_rel. simpl. rewrite !lookup_delete_eq.
    split; [lia|]. split; [split; [lia|by intros [? ?]]|]. done.
Qed.

Lemma Delete_ne s c c' : c' <> c -> blocks (Delete c' s) !! c = blocks s !! c
                                  /\ meta (Delete c' s) !! c = meta s !! c.
Proof.
  intros Hne. unfold Delete. case_match; [case_match|]; simpl;
    by rewrite ?lookup_insert_ne, ?lookup_delete_ne.
Qed.

Lemma store_rel_same s s' c n :
  blocks s' !! c = blocks s !! c -> meta s' !! c = meta s !! c -> store_rel s c n -> store_rel s' c n.
Proof. intros E1 E2. unfold store_rel. by rewrite E1, E2. Qed.

Lemma apply_sop_rel s c n o : store_rel s c n -> store_rel (apply_sop s o) c (count_op c n o).
Proof.
  intros Hr. destruct o as [now b|c']; simpl.
  - destruct (Put_cases now b s) as [[Hw [e ->]]|[Hw _]].
    + rewrite decide_False by naive_solver. done.
    + destruct (decide (CID b = c)) as [<-|Hne].
      * rewrite decide_True by done. by apply Put_eq.
      * rewrite decide_False by naive_solver. destruct (Put_ne now b s c Hne).
        by apply (store_rel_same s).
  - case_decide as E; [subst; by apply Delete_rel|].
    destruct (Delete_ne s c c' E). by apply (store_rel_same s).
Qed.

Lemma run_store_rel ops c : store_rel (run_store ops) c (counts c ops).
Proof.
  unfold run_store, counts.
  assert (store_rel NewMemoryStore c 0) as H0.
  { unfold store_rel. simpl. rewrite !lookup_empty. split; [lia|].
    split; [split; [lia|by intros [? ?]]|]. done. }
  revert H0. generalize NewMemoryStore, 0.
  induction ops as [|o ops IH]; intros s n Hr; simpl; [done|]. by apply IH, apply_sop_rel.
Qed.

Lemma DecodeBlock_EncodeBlock b k :
  len (Data b) < 2 ^ 32 -> CID b = computeBlockCID (Data b) ->
  DecodeBlock (EncodeBlock b ++ k) = Ok b.
Proof.
  intros Hl Hc. pose proof (len_nonneg (Data b)). pose proof (len_nonneg k).
  unfold DecodeBlock, EncodeBlock.
  assert (len (be_put 4 (len (Data b))) = 4) as H4 by (unfold len; by rewrite length_be_put).
  rewrite <- app_assoc, !len_app, H4.
  rewrite (proj2 (Z.ltb_ge _ 4)) by lia.
  rewrite take_app_exact, drop_app_exact by apply length_be_put.
  rewrite be_get_put_small by lia. rewrite (proj2 (Z.ltb_ge _ _)) by lia.
  rewrite take_app_exact by (unfold len; lia). rewrite <- Hc. by destruct b.
Qed.

(** ** Properties *)

(** The store implements a counter per content identifier: after any
    sequence of puts and deletes, a block can be read exactly when it was put
    more often than deleted (a delete at zero does nothing), what is read
    under an identifier has that identifier as the hash of its content, its
    recorded size is its length, and puts of empty or mislabelled blocks
    change nothing. *)
Theorem block_store_counts ops c :
  let s := run_store ops in
  (Has c s = true <-> 0 < counts c ops)
  /\ (forall b, Get c s = Ok b ->
        CID b = c /\ c = computeBlockCID (Data b) /\ Data b <> [] /\ Size_ c s = Ok (len (Data b)))
  /\ (0 < counts c ops -> exists b, Get c s = Ok b).
Proof.
  simpl. destruct (run_store_rel ops c) as (Hn & H1 & H2 & H3 & H4).
  unfold Has, Get, Size_. rewrite bool_decide_eq_true. split; [done|]. split.
  - intros b. destruct (blocks (run_store ops) !! c) as [d|] eqn:E; [|done]. intros [= <-]. simpl.
    destruct (H4 d eq_refl) as (? & ? & m & -> & ->). done.
  - intros Hp. apply H1 in Hp as [d ->]. by eexists.
Qed.

End store.

(** * Witness *)

#[local] Existing Instance digest_cids.

Definition ex_block : Block := mkBlock (computeBlockCID (str "b")) (str "b").

Lemma block_store_counts_witness :
  Has (CID ex_block) (run_store [SPut 1 ex_block; SPut 2 ex_block; SDelete (CID ex_block)]) = true.
Proof.
  apply (block_store_counts [SPut 1 ex_block; SPut 2 ex_block; SDelete (CID ex_block)]).
  vm_compute. reflexivity.
Defined.
