(* ===== verification/Transfer.v ===== *)
(** * File transfer over a data channel (pkg/services/files/transfer.go)

    [Send] and [Receive] as functions of the messages that arrive: [inbox] is
    the list of binary messages the channel delivers, in order; what the
    [OnMessage] handler cannot decode is dropped.  Running out of messages is
    the time-out of [nextFrame].  [live k] says whether the context is still
    live before the [k]-th block.  The goroutine [pump] only moves frames from
    the inbox to the loop of [Receive], in order, up to the final frame.
    Counters count blocks and bytes held in memory, so they do not overflow. *)

From S2P Require Import Prelude Bytes FileWire BlockStore.

Local Open Scope Z_scope.

Record TransferStats := mkTStats {
  TotalBlocks : Z;
  SentBlocks : Z;
  ReceivedBlocks : Z;
  SkippedBlocks : Z;
  BytesSent : Z;
  BytesReceived : Z;
  BytesSaved : Z;
  ResumedFrom : Z;
}.

#[global] Instance TransferStats_eq_dec : EqDecision TransferStats.
Proof. solve_decision. Defined.

Definition zero_stats : TransferStats := mkTStats 0 0 0 0 0 0 0 0.

(** ** Reassembly *)

Record reAssembler := mkAsm {
  order : list bytes;
  received : gmap bytes bytes;
}.

Definition newReAssembler (o : list bytes) : reAssembler := mkAsm o ∅.

Definition wants (c : bytes) (r : reAssembler) : bool :=
  existsb (fun want => bool_decide (want = c)) (order r).

Fixpoint assemble (o : list bytes) (m : gmap bytes bytes) : result bytes :=
  match o with
  | [] => Ok []
  | c :: rest =>
      match m !! c with
      | None => Err (ErrText "block never arrived")
      | Some d => match assemble rest m with
                  | Ok tl => Ok (d ++ tl)
                  | Err e => Err e
                  end
      end
  end.

Definition Bytes_ (r : reAssembler) : result bytes := assemble (order r) (received r).

Section transfer.
Context `{HC : CidLib}.

(** The frames pushed by the handler of [Attach]. *)
Definition deliver (inbox : list bytes) : list frame :=
  omap (fun m => match decodeFrame m with Ok f => Some f | Err _ => None end) inbox.

Fixpoint awaitFrame (want : Z) (fs : list frame) : result (frame * list frame) :=
  match fs with
  | [] => Err (ErrText "timed out waiting for a frame")
  | f :: rest => if f_Type f =? want then Ok (f, rest) else awaitFrame want rest
  end.

Definition mustFrame (kind : Z) : bytes := encodeFrame (mkFrame kind [] 0 [] [] []).

Definition manifest_of (o : list bytes) : bytes :=
  encodeFrame (mkFrame wireManifest o (wrapU 32 (Z.of_nat (length o))) [] [] []).

(** The block loop of [Send]: the statistics and the messages sent. *)
Fixpoint send_blocks (live : nat -> bool) (k : nat) (have : gset bytes) (bs : list Block)
    (st : TransferStats) : result TransferStats * list bytes :=
  match bs with
  | [] => (Ok st, [])
  | b :: rest =>
      if decide (CID b ∈ have) then
        send_blocks live (S k) have rest
          (mkTStats (TotalBlocks st) (SentBlocks st) (ReceivedBlocks st) (SkippedBlocks st + 1)
             (BytesSent st) (BytesReceived st) (BytesSaved st + len (Data b)) (ResumedFrom st))
      else if negb (live k) then (Err (ErrText "context done"), [])
      else
        let raw := encodeFrame (mkFrame wireBlock [] 0 (CID b) (Data b) []) in
        let '(r, out) := send_blocks live (S k) have rest
          (mkTStats (TotalBlocks st) (SentBlocks st + 1) (ReceivedBlocks st) (SkippedBlocks st)
             (BytesSent st + len (Data b)) (BytesReceived st) (BytesSaved st) (ResumedFrom st)) in
        (r, raw :: out)
  end.

Definition Send (live : nat -> bool) (data : bytes) (inbox : list bytes)
    : result TransferStats * list bytes :=
  match Chunk data with
  | Err e => (Err e, [])
  | Ok bs =>
      let o := CID <$> bs in
      let manifest := manifest_of o in
      match awaitFrame wireHello (deliver inbox) with
      | Err e => (Err e, [manifest])
      | Ok (reply, _) =>
          let have : gset bytes := list_to_set (f_CIDs reply) in
          let resumed := Z.of_nat (length (filter (fun c => c ∈ have) o)) in
          let st := mkTStats (Z.of_nat (length bs)) 0 0 0 0 0 0 resumed in
          match send_blocks live 0 have bs st with
          | (Err e, out) => (Err e, manifest :: out)
          | (Ok st', out) => (Ok st', manifest :: out ++ [mustFrame wireComplete])
          end
      end
  end.

(** The loop of [Receive] that looks up the blocks of the manifest. *)
Fixpoint seed (cids : list bytes) (s : memoryStore) (m : gmap bytes bytes)
    : list bytes * Z * gmap bytes bytes :=
  match cids with
  | [] => ([], 0, m)
  | c :: rest =>
      match blocks s !! c with
      | None => seed rest s m
      | Some d =>
          let '(held, n, m') := seed rest s (<[c := d]> m) in
          (c :: held, len d + n, m')
      end
  end.

(** The main loop. *)
Fixpoint recv_loop (now : Z) (fs : list frame) (asm : reAssembler) (s : memoryStore) (st : TransferStats)
    : result (bytes * TransferStats) * memoryStore :=
  match fs with
  | [] => (Err (ErrText "channel closed before the transfer completed"), s)
  | f :: rest =>
      if f_Type f =? wireBlock then
        if negb (wants (f_CID f) asm) then recv_loop now rest asm s st else
        match Put now None (mkBlock (f_CID f) (f_Data f)) s with
        | (Err e, s') => (Err e, s')
        | (Ok _, s') =>
            recv_loop now rest (mkAsm (order asm) (<[f_CID f := f_Data f]> (received asm))) s'
              (mkTStats (TotalBlocks st) (SentBlocks st) (ReceivedBlocks st + 1) (SkippedBlocks st)
                 (BytesSent st) (BytesReceived st + len (f_Data f)) (BytesSaved st) (ResumedFrom st))
        end
      else if f_Type f =? wireComplete then
        match Bytes_ asm with
        | Ok out => (Ok (out, st), s)
        | Err e => (Err e, s)
        end
      else if f_Type f =? wireAbort then (Err (ErrText "sender aborted"), s)
      else recv_loop now rest asm s st
  end.

(** [Receive]: the result, the store after it, and the messages sent back. *)
Definition Receive (now : Z) (inbox : list bytes) (s : memoryStore)
    : result (bytes * TransferStats) * memoryStore * list bytes :=
  match awaitFrame wireManifest (deliver inbox) with
  | Err e => (Err e, s, [])
  | Ok (manifest, rest) =>
      let cids := f_CIDs manifest in
      let '(held, heldBytes, m) := seed cids s ∅ in
      let reply := encodeFrame (mkFrame wireHello held (wrapU 32 (Z.of_nat (length cids))) [] [] []) in
      let st := mkTStats (Z.of_nat (length cids)) 0 0 (Z.of_nat (length held)) 0 0 heldBytes
                  (Z.of_nat (length held)) in
      let '(r, s') := recv_loop now rest (mkAsm cids m) s st in
      (r, s', [reply])
  end.

(** * Lemmas *)

(** No two different strings of [l] have the same identifier. *)
Definition cid_injective (l : list bytes) : Prop :=
  forall x y, x ∈ l -> y ∈ l -> computeBlockCID x = computeBlockCID y -> x = y.

Definition of_chunk (d : bytes) : Block := mkBlock (computeBlockCID d) d.

Lemma deliver_cons f fs : frame_ok f -> deliver (encodeFrame f :: fs) = f :: deliver fs.
Proof. intros Hf. unfold deliver. simpl. by rewrite decodeFrame_encodeFrame. Qed.

Lemma cid_frame_fits d : cid_cast (computeBlockCID d) = Ok (computeBlockCID d)
                         /\ len (computeBlockCID d) <= maxFrameBytes.
Proof.
  split; [apply cid_cast_sum|]. unfold computeBlockCID, len. rewrite cid_sum_length.
  change maxFrameBytes with 4194304. lia.
Qed.

Lemma cids_frame_ok t o :
  0 <= t < 256 -> Z.of_nat (length o) < 2 ^ 32 -> (forall c, c ∈ o -> exists d, c = computeBlockCID d) ->
  forall n, frame_ok (mkFrame t o (wrapU 32 n) [] [] []).
Proof.
  intros Ht Ho Hc n. split; simpl; try done; try (change maxFrameBytes with 4194304; unfold len; simpl; lia).
  - apply (wrapU_range 32). lia.
  - apply Forall_forall. intros c Hin. destruct (Hc c Hin) as (d & ->). apply cid_frame_fits.
  - by left.
Qed.

Lemma block_frame_ok d :
  0 < len d <= cdcMaxSize -> frame_ok (mkFrame wireBlock [] 0 (computeBlockCID d) d []).
Proof.
  intros Hd. unfold cdcMaxSize in Hd. destruct (cid_frame_fits d) as [H1 H2].
  split; simpl; try done; try (by constructor); try by right.
  - change maxFrameBytes with 4194304. lia.
Qed.

(** The sender skips exactly the blocks named in the reply. *)
Lemma send_blocks_spec live k have ds st :
  (forall i, live i = true) ->
  let unsent := filter (fun d => computeBlockCID d ∉ have) ds in
  let skipped := filter (fun d => computeBlockCID d ∈ have) ds in
  send_blocks live k have (of_chunk <$> ds) st
  = (Ok (mkTStats (TotalBlocks st) (SentBlocks st + Z.of_nat (length unsent)) (ReceivedBlocks st)
           (SkippedBlocks st + Z.of_nat (length skipped)) (BytesSent st + len (concat unsent))
           (BytesReceived st) (BytesSaved st + len (concat skipped)) (ResumedFrom st)),
     (fun d => encodeFrame (mkFrame wireBlock [] 0 (computeBlockCID d) d [])) <$> unsent).
Proof.
  intros Hlive. simpl. revert k st. induction ds as [|d ds IH]; intros k st.
  - simpl. destruct st. simpl. by rewrite !Z.add_0_r.
  - rewrite fmap_cons. cbn [send_blocks of_chunk CID Data]. rewrite !filter_cons.
    destruct (decide (computeBlockCID d ∈ have)) as [Hin|Hout].
    + rewrite (decide_False (P := _ ∉ _)) by tauto. rewrite IH. simpl.
      rewrite len_app. do 2 f_equal. f_equal; lia.
    + rewrite (decide_True (P := _ ∉ _)) by done. rewrite Hlive. simpl. rewrite IH. simpl.
      rewrite len_app. do 2 f_equal. f_equal; lia.
Qed.

(** What seeding finds in the store. *)
Lemma seed_spec cids s m :
  let '(held, n, m') := seed cids s m in
  held = filter (fun c => is_Some (blocks s !! c)) cids
  /\ n = len (concat (omap (fun c => blocks s !! c) cids))
  /\ (forall c, c ∈ cids -> is_Some (blocks s !! c) -> m' !! c = blocks s !! c)
  /\ (forall c, (c ∉ cids \/ blocks s !! c = None) -> m' !! c = m !! c).
Proof.
  revert m. induction cids as [|c cids IH]; intros m; simpl.
  { split_and!; try done. by intros c ?%elem_of_nil. }
  rewrite filter_cons. destruct (blocks s !! c) as [d|] eqn:E.
  - specialize (IH (<[c := d]> m)). destruct (seed cids s (<[c := d]> m)) as [[held n] m'].
    destruct IH as (-> & -> & Hin & Hout). rewrite decide_True by eauto. simpl.
    split; [done|]. split; [by rewrite len_app|]. split.
    + intros c' Hc' Hs. destruct (decide (c' ∈ cids)) as [Hc|Hc]; [by apply Hin|].
      apply elem_of_cons in Hc' as [->|?]; [|done].
      rewrite Hout by (by left). by rewrite lookup_insert_eq.
    + intros c' Hc'. rewrite not_elem_of_cons in Hc'. rewrite Hout by tauto.
      rewrite lookup_insert_ne; [done|]. intros ->. destruct Hc' as [[? _]|?]; congruence.
  - specialize (IH m). destruct (seed cids s m) as [[held n] m'].
    destruct IH as (-> & -> & Hin & Hout). rewrite decide_False by (intros [? ?]; congruence).
    split; [done|]. split; [done|]. split.
    + intros c' [->|Hc']%elem_of_cons Hs; [destruct Hs; congruence|by apply Hin].
    + intros c' Hc'. apply Hout. rewrite not_elem_of_cons in Hc'. tauto.
Qed.

Definition block_frame (d : bytes) : frame := mkFrame wireBlock [] 0 (computeBlockCID d) d [].

Definition add_chunks (m : gmap bytes bytes) (l : list bytes) : gmap bytes bytes :=
  foldl (fun m d => <[computeBlockCID d := d]> m) m l.

Lemma wants_in c asm : c ∈ order asm -> wants c asm = true.
Proof.
  intros Hc. unfold wants. apply existsb_exists. exists c. split; [by apply list_elem_of_In|].
  by apply bool_decide_eq_true_2.
Qed.

Lemma Put_keeps now b s c : is_Some (blocks s !! c) -> is_Some (blocks (Put now None b s).2 !! c).
Proof.
  intros Hc. unfold Put. repeat case_decide; try done. case_match; simpl; [done|].
  destruct (decide (CID b = c)) as [<-|Hne]; [rewrite lookup_insert_eq; by eexists|].
  by rewrite lookup_insert_ne.
Qed.

(** Meta data is kept for the blocks that are stored, and for no others. *)
Definition meta_matches (s : memoryStore) : Prop :=
  forall c, is_Some (meta s !! c) -> is_Some (blocks s !! c).

Lemma Put_matches now b s : meta_matches s -> meta_matches (Put now None b s).2.
Proof.
  intros Hm c. unfold Put. repeat case_decide; try apply Hm.
  destruct (meta s !! CID b) as [m|] eqn:E; simpl.
  - destruct (decide (CID b = c)) as [<-|Hne]; [intros _; apply Hm; by eexists|].
    rewrite lookup_insert_ne by done. apply Hm.
  - destruct (decide (CID b = c)) as [<-|Hne]; [rewrite !lookup_insert_eq; intros _; by eexists|].
    rewrite !lookup_insert_ne by done. apply Hm.
Qed.

Lemma Put_has now b s :
  meta_matches s -> (Put now None b s).1 = Ok tt -> is_Some (blocks (Put now None b s).2 !! CID b).
Proof.
  intros Hm. unfold Put. repeat case_decide; try done.
  destruct (meta s !! CID b) as [m|] eqn:E; simpl; intros _.
  - apply Hm. by eexists.
  - rewrite lookup_insert_eq. by eexists.
Qed.

(** Receiving the blocks of [l], all of them asked for. *)
Lemma recv_blocks now l rest asm s st :
  Forall (fun d => 0 < len d) l -> (forall d, d ∈ l -> computeBlockCID d ∈ order asm) -> meta_matches s ->
  exists s',
    recv_loop now ((block_frame <$> l) ++ rest) asm s st
    = recv_loop now rest (mkAsm (order asm) (add_chunks (received asm) l)) s'
        (mkTStats (TotalBlocks st) (SentBlocks st) (ReceivedBlocks st + Z.of_nat (length l))
           (SkippedBlocks st) (BytesSent st) (BytesReceived st + len (concat l)) (BytesSaved st)
           (ResumedFrom st))
    /\ (forall c, is_Some (blocks s !! c) -> is_Some (blocks s' !! c))
    /\ (forall d, d ∈ l -> is_Some (blocks s' !! computeBlockCID d)).
Proof.
  revert asm s st. induction l as [|d l IH]; intros asm s st Hpos Hw Hm.
  - exists s. simpl. rewrite !Z.add_0_r. split; [by destruct asm, st|]. split; [done|].
    by intros d ?%elem_of_nil.
  - inversion_clear Hpos as [|? ? Hd Hpos']. rewrite fmap_cons. cbn [app recv_loop].
    cbn [f_Type block_frame f_CID f_Data]. rewrite Z.eqb_refl.
    rewrite wants_in by (apply Hw; left). cbn [negb].
    destruct (Put_cases now (mkBlock (computeBlockCID d) d) s) as [[Hno _]|[_ Hok]].
    { destruct Hno. split; simpl; [|done]. intros ->. unfold len in Hd. simpl in Hd. lia. }
    pose proof (Put_has now (mkBlock (computeBlockCID d) d) s Hm Hok) as Hhas.
    pose proof (Put_keeps now (mkBlock (computeBlockCID d) d) s) as Hkeep.
    pose proof (Put_matches now (mkBlock (computeBlockCID d) d) s Hm) as Hm'.
    destruct (Put now None (mkBlock (computeBlockCID d) d) s) as [r s1]. simpl in Hok, Hhas, Hkeep, Hm'.
    subst r. edestruct (IH (mkAsm (order asm) (<[computeBlockCID d := d]> (received asm))) s1)
      as (s' & E & Hk & Hin); [done| |done|].
    { intros d' Hd'. apply Hw. by right. }
    exists s'. split; [|split].
    + rewrite E. simpl. f_equal. rewrite len_app. f_equal; lia.
    + intros c Hc. by apply Hk, Hkeep.
    + intros d' [->|Hd']%elem_of_cons; [by apply Hk|by apply Hin].
Qed.

Lemma add_chunks_lookup all l m d :
  cid_injective all -> (forall x, x ∈ l -> x ∈ all) -> d ∈ all ->
  (m !! computeBlockCID d = Some d \/ d ∈ l) -> add_chunks m l !! computeBlockCID d = Some d.
Proof.
  intros Hinj. revert m. induction l as [|x l IH]; intros m Hl Hd Hor; simpl.
  - destruct Hor as [?|?%elem_of_nil]; done.
  - apply IH; [intros y Hy; apply Hl; by right|done|].
    destruct (decide (computeBlockCID x = computeBlockCID d)) as [E|E].
    + left. assert (x = d) as -> by (apply Hinj; [apply Hl; left|done|done]). by rewrite lookup_insert_eq.
    + destruct Hor as [Hm|[->|?]%elem_of_cons]; [left; by rewrite lookup_insert_ne|done|by right].
Qed.

Lemma assemble_chunks ds m :
  (forall d, d ∈ ds -> m !! computeBlockCID d = Some d) ->
  assemble (computeBlockCID <$> ds) m = Ok (concat ds).
Proof.
  induction ds as [|d ds IH]; intros H; [done|]. rewrite fmap_cons. cbn [assemble concat].
  rewrite H by left.
  rewrite IH; [done|]. intros d' Hd'. apply H. by right.
Qed.

(** A list splits into the elements that satisfy a test and the others. *)
Lemma filter_lengths {A} (P Q : A -> Prop) `{forall x, Decision (P x), forall x, Decision (Q x)} (l : list A) :
  (forall x, Q x <-> ~ P x) -> (length (filter Q l) + length (filter P l) = length l)%nat.
Proof.
  intros HQ. induction l as [|x l IH]; [done|]. rewrite !filter_cons.
  destruct (decide (P x)), (decide (Q x)); simpl; try lia; exfalso; naive_solver.
Qed.

Lemma filter_bytes (P Q : bytes -> Prop) `{forall x, Decision (P x), forall x, Decision (Q x)} (l : list bytes) :
  (forall x, Q x <-> ~ P x) -> len (concat (filter Q l)) + len (concat (filter P l)) = len (concat l).
Proof.
  intros HQ. induction l as [|x l IH]; [done|]. rewrite !filter_cons. cbn [concat]. rewrite len_app.
  destruct (decide (P x)), (decide (Q x)); cbn [concat]; rewrite ?len_app; try lia; exfalso; naive_solver.
Qed.

Lemma removelast_bytes (l : list bytes) n :
  0 <= n -> Forall (fun d => n <= len d) (removelast l) ->
  n * (Z.of_nat (length l) - 1) <= len (concat l).
Proof.
  intros Hn. induction l as [|x [|y l] IH]; intros HF.
  - unfold len. simpl. lia.
  - simpl. pose proof (len_nonneg (x ++ [])). lia.
  - cbn [removelast] in HF. inversion_clear HF as [|? ? Hx HF']. specialize (IH HF').
    change (concat (x :: y :: l)) with (x ++ concat (y :: l)). rewrite len_app.
    cbn [length] in *. lia.
Qed.

Lemma run_store_integrity ops c d :
  blocks (run_store ops) !! c = Some d -> c = computeBlockCID d.
Proof. intros H. destruct (run_store_rel ops c) as (_ & _ & _ & _ & H4). by apply H4. Qed.

Lemma run_store_matches ops : meta_matches (run_store ops).
Proof. intros c. destruct (run_store_rel ops c) as (_ & _ & _ & H3 & _). apply H3. Qed.

(** The frames of a list of encoded messages. *)
Lemma deliver_app a b : deliver (a ++ b) = deliver a ++ deliver b.
Proof. unfold deliver. apply omap_app. Qed.

Lemma deliver_blocks l rest :
  Forall (fun d => 0 < len d <= cdcMaxSize) l ->
  deliver (((fun d => encodeFrame (block_frame d)) <$> l) ++ rest) = (block_frame <$> l) ++ deliver rest.
Proof.
  induction 1 as [|d l Hd Hl IH]; [done|]. rewrite !fmap_cons. cbn [app].
  rewrite deliver_cons by (by apply block_frame_ok). by rewrite IH.
Qed.

(** ** The two sides of a transfer *)

Definition unsent (s : memoryStore) (chunks : list bytes) : list bytes :=
  filter (fun d => Has (computeBlockCID d) s = false) chunks.

Definition skipped (s : memoryStore) (chunks : list bytes) : list bytes :=
  filter (fun d => Has (computeBlockCID d) s = true) chunks.

(** The reply of a receiver with store [s], and all the sender sends. *)
Definition held_of (s : memoryStore) (chunks : list bytes) : list bytes :=
  filter (fun c => is_Some (blocks s !! c)) (computeBlockCID <$> chunks).

Definition hello_frame (s : memoryStore) (chunks : list bytes) : frame :=
  mkFrame wireHello (held_of s chunks) (wrapU 32 (Z.of_nat (length chunks))) [] [] [].

Definition manifest_frame (chunks : list bytes) : frame :=
  mkFrame wireManifest (computeBlockCID <$> chunks) (wrapU 32 (Z.of_nat (length chunks))) [] [] [].

Definition stream_of (s : memoryStore) (chunks : list bytes) : list bytes :=
  encodeFrame (manifest_frame chunks)
  :: ((fun d => encodeFrame (block_frame d)) <$> unsent s chunks) ++ [mustFrame wireComplete].

Lemma chunks_fit data :
  len data < 2 ^ 42 ->
  let chunks := Feed NewContentDefinedChunker data in
  Chunk data = Ok (of_chunk <$> chunks)
  /\ Forall (fun d => 0 < len d <= cdcMaxSize) chunks
  /\ Z.of_nat (length chunks) < 2 ^ 32 /\ concat chunks = data.
Proof.
  intros Hsize. simpl. unfold Feed.
  destruct (feed_sizes NewContentDefinedChunker [] data) as [H1 H2]; [done|].
  pose proof (feed_concat NewContentDefinedChunker [] data) as Hc. simpl in Hc.
  split_and!; try done.
  - apply identify_ok. eapply Forall_impl; [exact H1|]. simpl. lia.
  - apply removelast_bytes in H2; [|unfold cdcMinSize; lia]. rewrite Hc in H2.
    unfold cdcMinSize in H2. lia.
Qed.

Lemma held_frame_ok s chunks :
  Z.of_nat (length chunks) < 2 ^ 32 -> frame_ok (hello_frame s chunks) /\ frame_ok (manifest_frame chunks).
Proof.
  intros Hl. split; apply cids_frame_ok; try (unfold wireHello, wireManifest; lia).
  - unfold held_of. pose proof (length_filter (fun c => is_Some (blocks s !! c)) (computeBlockCID <$> chunks)) as Hf.
    rewrite length_fmap in Hf. lia.
  - intros c [_ (d & -> & _)%list_elem_of_fmap]%list_elem_of_filter. eauto.
  - by rewrite length_fmap.
  - intros c (d & -> & _)%list_elem_of_fmap. eauto.
Qed.

Lemma have_iff s chunks d :
  d ∈ chunks ->
  (computeBlockCID d ∈ (list_to_set (held_of s chunks) : gset bytes)) <-> Has (computeBlockCID d) s = true.
Proof.
  intros Hd. rewrite elem_of_list_to_set. unfold held_of, Has.
  rewrite list_elem_of_filter, bool_decide_eq_true. split; [tauto|]. intros H. split; [done|].
  apply list_elem_of_fmap. eauto.
Qed.

Lemma send_side live s data :
  (forall i, live i = true) -> len data < 2 ^ 42 ->
  let chunks := Feed NewContentDefinedChunker data in
  exists sst,
    Send live data [encodeFrame (hello_frame s chunks)] = (Ok sst, stream_of s chunks)
    /\ TotalBlocks sst = Z.of_nat (length chunks)
    /\ SentBlocks sst = Z.of_nat (length (unsent s chunks))
    /\ SkippedBlocks sst = Z.of_nat (length (skipped s chunks))
    /\ BytesSent sst = len (concat (unsent s chunks))
    /\ BytesSaved sst = len (concat (skipped s chunks)).
Proof.
  intros Hlive Hsize. simpl. destruct (chunks_fit data Hsize) as (Hchk & Hsizes & Hcount & _).
  set (chunks := Feed NewContentDefinedChunker data) in *. unfold Send. rewrite Hchk.
  destruct (held_frame_ok s chunks Hcount) as [Hok _].
  rewrite deliver_cons by done. cbn [awaitFrame f_Type hello_frame]. rewrite Z.eqb_refl.
  cbn [f_CIDs hello_frame]. rewrite send_blocks_spec by done. cbv zeta.
  assert (filter (fun d => computeBlockCID d ∉ (list_to_set (held_of s chunks) : gset bytes)) chunks
          = unsent s chunks) as ->.
  { apply filter_ext_in. intros d Hd. rewrite have_iff by done. by rewrite not_true_iff_false. }
  assert (filter (fun d => computeBlockCID d ∈ (list_to_set (held_of s chunks) : gset bytes)) chunks
          = skipped s chunks) as ->.
  { apply filter_ext_in. intros d Hd. by apply have_iff. }
  eexists. split.
  - f_equal. unfold stream_of, manifest_of, manifest_frame.
    by rewrite <- list_fmap_compose, !length_fmap.
  - cbn [TotalBlocks SentBlocks SkippedBlocks BytesSent BytesSaved].
    rewrite length_fmap. split_and!; lia.
Qed.

Lemma complete_frame_ok : frame_ok (mkFrame wireComplete [] 0 [] [] []).
Proof.
  apply (cids_frame_ok wireComplete []) with (n := 0); [done|done|by intros c ?%elem_of_nil].
Qed.

Lemma receive_side now s data :
  len data < 2 ^ 42 ->
  (forall c d, blocks s !! c = Some d -> c = computeBlockCID d) -> meta_matches s ->
  let chunks := Feed NewContentDefinedChunker data in
  cid_injective (chunks ++ (map_to_list (blocks s)).*2) ->
  exists rst s',
    Receive now (stream_of s chunks) s = (Ok (data, rst), s', [encodeFrame (hello_frame s chunks)])
    /\ (forall d, d ∈ chunks -> Has (computeBlockCID d) s' = true)
    /\ TotalBlocks rst = Z.of_nat (length chunks)
    /\ ReceivedBlocks rst = Z.of_nat (length (unsent s chunks))
    /\ SkippedBlocks rst = Z.of_nat (length (skipped s chunks))
    /\ BytesReceived rst = len (concat (unsent s chunks)).
Proof.
  intros Hsize Hint Hm chunks Hinj. destruct (chunks_fit data Hsize) as (_ & Hsizes & Hcount & Hconcat).
  fold chunks in Hsizes, Hcount, Hconcat. destruct (held_frame_ok s chunks Hcount) as [_ Hok].
  assert (Forall (fun d => 0 < len d <= cdcMaxSize) (unsent s chunks)) as Hus.
  { eapply sublist_Forall; [apply sublist_filter|done]. }
  unfold Receive, stream_of. rewrite deliver_cons, deliver_blocks by done.
  cbn [awaitFrame f_Type manifest_frame]. rewrite Z.eqb_refl. cbn [f_CIDs manifest_frame].
  pose proof (seed_spec (computeBlockCID <$> chunks) s ∅) as Hseed.
  destruct (seed (computeBlockCID <$> chunks) s ∅) as [[held n] m].
  destruct Hseed as (-> & _ & Hmin & _). fold (held_of s chunks).
  edestruct (recv_blocks now (unsent s chunks) (deliver [mustFrame wireComplete])
    (mkAsm (computeBlockCID <$> chunks) m) s) as (s' & E & Hkeep & Hput);
    [eapply Forall_impl; [exact Hus|simpl; lia]| |done|].
  { intros d [_ Hd]%list_elem_of_filter. apply list_elem_of_fmap. eauto. }
  rewrite E. unfold mustFrame. rewrite deliver_cons by apply complete_frame_ok.
  cbn [recv_loop f_Type]. change (wireComplete =? wireBlock) with false.
  change (wireComplete =? wireComplete) with true. cbv iota. unfold Bytes_. cbn [order received].
  rewrite assemble_chunks, Hconcat.
  2: { intros d Hd. apply (add_chunks_lookup (chunks ++ (map_to_list (blocks s)).*2)); [done| | |].
       - intros x [_ Hx]%list_elem_of_filter. apply elem_of_app. by left.
       - apply elem_of_app. by left.
       - destruct (Has (computeBlockCID d) s) eqn:Eh; [left|right; by apply list_elem_of_filter].
         unfold Has in Eh. apply bool_decide_eq_true in Eh as Hs. destruct Hs as [d' Hd'].
         rewrite Hmin, Hd'; [|by apply list_elem_of_fmap; eauto|by eexists].
         f_equal. symmetry. apply Hinj; [apply elem_of_app; by left| |by apply Hint].
         apply elem_of_app. right. apply list_elem_of_fmap. exists (computeBlockCID d, d').
         split; [done|]. by apply elem_of_map_to_list. }
  eexists _, s'. split; [unfold hello_frame; by rewrite length_fmap|].
  split; [|cbn [TotalBlocks ReceivedBlocks SkippedBlocks BytesReceived]; split_and!].
  - intros d Hd. unfold Has. apply bool_decide_eq_true_2.
    destruct (Has (computeBlockCID d) s) eqn:Eh.
    + apply Hkeep. by apply bool_decide_eq_true in Eh.
    + apply Hput. by apply list_elem_of_filter.
  - done.
  - done.
  - unfold held_of, skipped, Has. clear. induction chunks as [|d l IH]; [done|].
    rewrite fmap_cons, !filter_cons. destruct (decide (is_Some (blocks s !! computeBlockCID d))) as [Hd|Hd].
    + rewrite decide_True by (by apply bool_decide_eq_true_2). simpl. lia.
    + rewrite decide_False by (rewrite bool_decide_eq_true; done). done.
  - done.
Qed.

(** ** Properties *)

(** C9: A transfer delivers the file.  For a file of up to 4 TiB and a receiver
    whose store was built by any sequence of puts and deletes, the exchange of
    [Send] and [Receive] over an ordered channel completes: the receiver gets
    exactly the data, every chunk is then in its store, the sender sends the
    chunks the receiver did not hold and no others, and both sides count the
    same; unless two of the strings involved have the same content
    identifier. *)
Theorem transfer_delivers now live data ops :
  let s := run_store ops in
  let chunks := Feed NewContentDefinedChunker data in
  (forall i, live i = true) -> len data < 2 ^ 42 ->
  cid_injective (chunks ++ (map_to_list (blocks s)).*2) ->
  exists out reply sst rst s',
    Send live data [reply] = (Ok sst, out)
    /\ Receive now out s = (Ok (data, rst), s', [reply])
    /\ (forall d, d ∈ chunks -> Has (computeBlockCID d) s' = true)
    /\ SentBlocks sst = Z.of_nat (length (filter (fun d => Has (computeBlockCID d) s = false) chunks))
    /\ SentBlocks sst + SkippedBlocks sst = TotalBlocks sst
    /\ BytesSent sst + BytesSaved sst = len data
    /\ ReceivedBlocks rst = SentBlocks sst /\ BytesReceived rst = BytesSent sst
    /\ SkippedBlocks rst = SkippedBlocks sst /\ TotalBlocks rst = TotalBlocks sst.
Proof.
  intros s chunks Hlive Hsize Hinj.
  destruct (chunks_fit data Hsize) as (Hchk & Hsizes & Hcount & Hconcat). fold chunks in Hchk, Hsizes, Hcount, Hconcat.
  destruct (send_side live s data Hlive Hsize) as (sst & Hsend & Hst). fold chunks in Hsend, Hst.
  destruct (receive_side now s data Hsize) as (rst & s' & Hrecv & Hin & Hrst);
    [apply run_store_integrity|apply run_store_matches|done|]. fold chunks in Hrecv, Hin, Hrst.
  eexists _, _, sst, rst, s'. split; [exact Hsend|]. split; [exact Hrecv|].
  destruct Hst as (-> & -> & -> & -> & ->), Hrst as (-> & -> & -> & ->).
  assert (forall d, Has (computeBlockCID d) s = false <-> ~ Has (computeBlockCID d) s = true) as Hneg
    by (intros d; by rewrite not_true_iff_false).
  pose proof (filter_lengths _ _ chunks Hneg) as HL. pose proof (filter_bytes _ _ chunks Hneg) as HB.
  rewrite Hconcat in HB. unfold skipped, unsent in *. split_and!; try done; lia.
Qed.

End transfer.

(** * Witness *)

#[local] Existing Instance digest_cids.

Lemma transfer_delivers_witness :
  exists out reply sst rst s',
    Send (fun _ => true) (str "hello") [reply] = (Ok sst, out)
    /\ Receive 5 out (run_store []) = (Ok (str "hello", rst), s', [reply]).
Proof.
  destruct (transfer_delivers 5 (fun _ => true) (str "hello") []) as (out & reply & sst & rst & s' & H1 & H2 & _).
  - done.
  - reflexivity.
  - intros x y Hx Hy _. vm_compute in Hx, Hy.
    apply list_elem_of_singleton in Hx, Hy. congruence.
  - exists out, reply, sst, rst, s'. exact (conj H1 H2).
Defined.
