(* ===== verification/Exchange.v ===== *)
(** * The block exchange (pkg/services/files/exchange.go)

    The wire format of want and have lists, and the protocol handler.  A stream
    carries one message; [handleStream] takes the bytes that arrive on it.  What
    it has to send or to pass to the installed callback is part of its result:
    the sends run concurrently in the code and may happen in any order, and the
    outcome of each is an operation of its own ([block_sent]). *)

From S2P Require Import Prelude Bytes Hash FileWire BlockStore.
Local Open Scope Z_scope.

Definition MsgWant : Z := 1.
Definition MsgHave : Z := 2.
Definition MsgBlock : Z := 3.
Definition MsgCancel : Z := 4.

Definition WantHave : Z := 1.
Definition WantWant : Z := 2.

(** A [WantType] and a priority are bytes. *)
Record WantEntry := mkWant {
  we_CID : bytes;
  we_Type : Z;
  we_Priority : Z;
}.

#[global] Instance WantEntry_eq_dec : EqDecision WantEntry.
Proof. solve_decision. Defined.

Definition maxWantEntries : Z := 4096.
Definition maxExchangePayload : Z := Z.shiftl 8 20.
Definition maxCIDLen : Z := 64.

(** ** Want lists *)

Definition encode_want (e : WantEntry) : bytes :=
  if maxCIDLen <? len (we_CID e) then []
  else be_put 2 (len (we_CID e)) ++ we_CID e ++ [byte_of (we_Type e); byte_of (we_Priority e)].

Definition encodeWantEntries (entries : list WantEntry) : bytes :=
  byte_of (Z.of_nat (length entries)) :: concat (encode_want <$> entries).

Section codec.
Context `{CidLib}.

(** One round of the loop: the entry read from what is left of the data. *)
Definition read_want : reader WantEntry := fun b =>
  if len b <? 2 then (Err (ErrText "data truncated at cid length"), b)
  else
    let n := be_get (take 2 b) in
    let b := drop 2 b in
    if maxCIDLen <? n then (Err (ErrText "cid over the limit"), b)
    else if len b <? n + 2 then (Err (ErrText "data truncated at cid body"), b)
    else
      match cid_cast (take (Z.to_nat n) b) with
      | Err _ => (Err (ErrText "malformed cid"), b)
      | Ok c =>
          let b := drop (Z.to_nat n) b in
          (Ok (mkWant c (be_get (take 1 b)) (be_get (take 1 (drop 1 b)))), drop 2 b)
      end.

Definition decodeWantEntries (data : bytes) : result (list WantEntry) :=
  match data with
  | [] => Err (ErrText "data too short")
  | c :: rest =>
      let count := u8 c in
      if maxWantEntries <? count then Err (ErrText "want list exceeds the limit")
      else (rrepeat (Z.to_nat count) read_want rest).1
  end.

(** ** Messages *)

Definition exchange_frame (msgType : Z) (payload : bytes) : bytes :=
  byte_of msgType :: be_put 4 (len payload) ++ payload.

(** [ExchangeMessage] as the callback sees it. *)
Inductive ExchangeMessage :=
| HaveMessage (CIDs : list bytes)
| BlockMessage (c data : bytes).

Record peerExchange := mkPeerExchange {
  pe_have : list WantEntry;
  pe_want : list WantEntry;
  pe_lastSeen : Z;
  blocksServed : Z;
  blocksReceived : Z;
  lastErr : option goerror;
}.

Definition NewExchangeProtocol : gmap bytes peerExchange := ∅.

Definition new_peer (now : Z) : peerExchange := mkPeerExchange [] [] now 0 0 None.

Definition peer_or_new (now : Z) (id : bytes) (e : gmap bytes peerExchange) : peerExchange :=
  default (new_peer now) (e !! id).

(** What a handler leaves to be done: blocks to send back, and the message for
    the callback. *)
Record Effects := mkEffects {
  to_send : list Block;
  to_handler : option ExchangeMessage;
}.

Definition no_effects : Effects := mkEffects [] None.

Definition handleWant (now : Z) (s : memoryStore) (id payload : bytes) (e : gmap bytes peerExchange)
    : gmap bytes peerExchange * Effects :=
  match decodeWantEntries payload with
  | Err _ => (e, no_effects)
  | Ok entries =>
      let wanted := filter (fun w => we_Type w = WantWant) entries in
      let p := peer_or_new now id e in
      let p := mkPeerExchange (pe_have p) wanted now (blocksServed p) (blocksReceived p) (lastErr p) in
      (<[id := p]> e,
       mkEffects (omap (fun w => match Get (we_CID w) s with Ok b => Some b | Err _ => None end) wanted) None)
  end.

(** The end of one of the sends. *)
Definition block_sent (id : bytes) (err : option goerror) (e : gmap bytes peerExchange) : gmap bytes peerExchange :=
  match e !! id with
  | None => e
  | Some p =>
      let served := match err with None => blocksServed p + 1 | Some _ => blocksServed p end in
      <[id := mkPeerExchange (pe_have p) (pe_want p) (pe_lastSeen p) served (blocksReceived p) err]> e
  end.

Definition handleHave (now : Z) (id payload : bytes) (e : gmap bytes peerExchange) : gmap bytes peerExchange * Effects :=
  match decodeWantEntries payload with
  | Err _ => (e, no_effects)
  | Ok entries =>
      let have := filter (fun w => we_Type w = WantHave) entries in
      let p := peer_or_new now id e in
      let p := mkPeerExchange have (pe_want p) now (blocksServed p) (blocksReceived p) (lastErr p) in
      (<[id := p]> e, mkEffects [] (Some (HaveMessage (we_CID <$> have))))
  end.

Definition handleBlock (id payload : bytes) (e : gmap bytes peerExchange) : gmap bytes peerExchange * Effects :=
  match DecodeBlock payload with
  | Err _ => (e, no_effects)
  | Ok b =>
      (match e !! id with
       | Some p =>
           <[id := mkPeerExchange (pe_have p) (pe_want p) (pe_lastSeen p) (blocksServed p)
                     (blocksReceived p + 1) (lastErr p)]> e
       | None => e
       end, mkEffects [] (Some (BlockMessage (CID b) (Data b))))
  end.

(** Identifiers are compared by their text, which is the same as comparing
    the bytes it writes out. *)
Definition handleCancel (id payload : bytes) (e : gmap bytes peerExchange) : gmap bytes peerExchange :=
  match decodeWantEntries payload with
  | Err _ => e
  | Ok entries =>
      match e !! id with
      | None => e
      | Some p =>
          let kept := filter (fun w => we_CID w ∉ we_CID <$> entries) (pe_want p) in
          <[id := mkPeerExchange (pe_have p) kept (pe_lastSeen p) (blocksServed p) (blocksReceived p) (lastErr p)]> e
      end
  end.

Definition handleStream (now : Z) (s : memoryStore) (id input : bytes) (e : gmap bytes peerExchange)
    : gmap bytes peerExchange * Effects :=
  match readFull 5 input with
  | (Err _, _) => (e, no_effects)
  | (Ok header, rest) =>
      let msgType := be_get (take 1 header) in
      let length := be_get (drop 1 header) in
      if maxExchangePayload <? length then (e, no_effects)
      else
        match readFull (Z.to_nat length) rest with
        | (Err _, _) => (e, no_effects)
        | (Ok payload, _) =>
            if msgType =? MsgWant then handleWant now s id payload e
            else if msgType =? MsgHave then handleHave now id payload e
            else if msgType =? MsgBlock then handleBlock id payload e
            else if msgType =? MsgCancel then (handleCancel id payload e, no_effects)
            else (e, no_effects)
        end
  end.

(** The bytes [SendWant], [SendHave] and [SendBlock] put on a stream. *)
Definition SendWant (entries : list WantEntry) : bytes := exchange_frame MsgWant (encodeWantEntries entries).
Definition SendHave (entries : list WantEntry) : bytes := exchange_frame MsgHave (encodeWantEntries entries).
Definition SendBlock (b : Block) : bytes := exchange_frame MsgBlock (EncodeBlock b).

(** ** Lemmas *)

Definition want_ok (e : WantEntry) : Prop :=
  len (we_CID e) <= maxCIDLen /\ cid_cast (we_CID e) = Ok (we_CID e) /\
  0 <= we_Type e < 256 /\ 0 <= we_Priority e < 256.

Lemma be_get_byte z : 0 <= z < 256 -> be_get [byte_of z] = z.
Proof.
  intros Hz. rewrite be_get_cons, be_get_nil, u8_byte_of, Z.mod_small by lia.
  change (8 * len []) with 0. lia.
Qed.

Lemma read_want_encode e k : want_ok e -> read_want (encode_want e ++ k) = (Ok e, k).
Proof.
  intros (Hl & Hc & Ht & Hp). unfold encode_want, read_want, maxCIDLen in *.
  rewrite (proj2 (Z.ltb_ge 64 (len (we_CID e)))) by lia. pose proof (len_nonneg (we_CID e)).
  rewrite <- !app_assoc. rewrite take_app_exact, drop_app_exact by apply length_be_put.
  rewrite be_get_put_small by (simpl; lia).
  rewrite !len_app. rewrite (proj2 (Z.ltb_ge _ 2)) by (unfold len; rewrite length_be_put; lia).
  rewrite (proj2 (Z.ltb_ge 64 _)) by lia.
  change (len [byte_of (we_Type e); byte_of (we_Priority e)]) with 2.
  rewrite (proj2 (Z.ltb_ge _ _)) by (pose proof (len_nonneg k); lia).
  rewrite take_app_exact, drop_app_exact by (unfold len; lia). rewrite Hc. cbn [app take drop].
  rewrite !be_get_byte by done. by destruct e.
Qed.

(** An encoded list comes back up to the length its count byte can hold. *)
Lemma decodeWantEntries_encode l :
  Forall want_ok l ->
  decodeWantEntries (encodeWantEntries l) = Ok (take (length l mod 256)%nat l).
Proof.
  intros Hl. unfold decodeWantEntries, encodeWantEntries. rewrite u8_byte_of.
  set (n := (length l mod 256)%nat).
  assert (Z.of_nat (length l) mod 256 = Z.of_nat n) as -> by (unfold n; by rewrite Nat2Z.inj_mod).
  assert (n < 256)%nat by (apply Nat.mod_upper_bound; lia).
  assert (n <= length l)%nat by (apply Nat.Div0.mod_le).
  unfold maxWantEntries. rewrite (proj2 (Z.ltb_ge _ _)) by lia. rewrite Nat2Z.id.
  rewrite <- (take_drop n l) at 1. rewrite fmap_app, concat_app.
  assert (length (take n l) = n) as Hn by (rewrite length_take; lia).
  rewrite <- Hn at 1. rewrite rrepeat_concat; [done|].
  apply Forall_take. eapply Forall_impl; [exact Hl|]. intros e He k. by apply read_want_encode.
Qed.

Lemma decodeWantEntries_short l :
  Forall want_ok l -> (length l < 256)%nat -> decodeWantEntries (encodeWantEntries l) = Ok l.
Proof.
  intros Hl Hn. rewrite decodeWantEntries_encode, Nat.mod_small by done.
  by rewrite take_ge by lia.
Qed.

Lemma handleStream_frame now s id t payload k e :
  0 <= t < 256 -> len payload <= maxExchangePayload ->
  handleStream now s id (exchange_frame t payload ++ k) e =
    if t =? MsgWant then handleWant now s id payload e
    else if t =? MsgHave then handleHave now id payload e
    else if t =? MsgBlock then handleBlock id payload e
    else if t =? MsgCancel then (handleCancel id payload e, no_effects)
    else (e, no_effects).
Proof.
  intros Ht Hlen. unfold handleStream, exchange_frame, maxExchangePayload in *.
  change (Z.shiftl 8 20) with 8388608 in *. pose proof (len_nonneg payload).
  replace ((byte_of t :: be_put 4 (len payload) ++ payload) ++ k)
    with ((byte_of t :: be_put 4 (len payload)) ++ payload ++ k) by (cbn [app]; by rewrite <- app_assoc).
  rewrite readFull_app by (cbn [length]; by rewrite length_be_put).
  cbn [take drop]. rewrite take_0, drop_0, be_get_byte by done.
  rewrite be_get_put_small by (simpl; lia). rewrite (proj2 (Z.ltb_ge _ _)) by lia.
  rewrite readFull_app by (unfold len; lia). done.
Qed.

Lemma handleStream_want now s id payload e :
  len payload <= maxExchangePayload ->
  handleStream now s id (exchange_frame MsgWant payload) e = handleWant now s id payload e.
Proof. intros. rewrite <- (app_nil_r (exchange_frame _ _)). by rewrite handleStream_frame by done. Qed.

Lemma handleStream_have now s id payload e :
  len payload <= maxExchangePayload ->
  handleStream now s id (exchange_frame MsgHave payload) e = handleHave now id payload e.
Proof. intros. rewrite <- (app_nil_r (exchange_frame _ _)). by rewrite handleStream_frame by done. Qed.

Lemma handleStream_block now s id payload e :
  len payload <= maxExchangePayload ->
  handleStream now s id (exchange_frame MsgBlock payload) e = handleBlock id payload e.
Proof. intros. rewrite <- (app_nil_r (exchange_frame _ _)). by rewrite handleStream_frame by done. Qed.

Lemma len_encode_want e : len (encode_want e) <= 68.
Proof.
  unfold encode_want, maxCIDLen. destruct (Z.ltb_spec 64 (len (we_CID e))); [done|].
  rewrite !len_app. unfold len in *. rewrite length_be_put. simpl. lia.
Qed.

Lemma len_encodeWantEntries l : len (encodeWantEntries l) <= 1 + 68 * Z.of_nat (length l).
Proof.
  unfold encodeWantEntries. change (byte_of ?x :: ?y) with ([byte_of x] ++ y). rewrite len_app.
  change (len [_]) with 1. apply Zplus_le_compat_l.
  induction l as [|e l IH]; [done|]. rewrite fmap_cons. cbn [concat length]. rewrite len_app.
  pose proof (len_encode_want e). lia.
Qed.
End codec.
