(* ===== verification/FileSync.v ===== *)
(** * Synchronisation of block stores (pkg/services/files/sync.go)

    The engine records what peers advertise, asks for what it lacks and stores
    what arrives.  It works over the exchange of [Exchange] and the store of
    [BlockStore]; a [Node] is the three together, wired as the daemon wires
    them, and [sync_round] is one exchange between two nodes, message by
    message.  The order in which a map is visited is an argument. *)

From S2P Require Import Prelude Bytes Hash FileWire BlockStore Exchange.
Local Open Scope Z_scope.

Record SyncStats := mkSyncStats {
  BlocksSent : Z;
  BlocksRecv : Z;
  BytesSent : Z;
  BytesRecv : Z;
  ActiveSyncs : Z;
  TotalSyncs : Z;
  FailedSyncs : Z;
}.

Record peerSyncState := mkPeerSync {
  ps_have : list bytes;
  ps_lastSync : Z;
  ps_inFlight : gset bytes;
  ps_bytesRecv : Z;
  ps_blocksRecv : Z;
  ps_failed : option goerror;
}.

Record syncEngine := mkEngine {
  se_peerID : bytes;
  se_exchange : bool;
  se_lister : option (list bytes);
  se_have : gset bytes;
  se_want : gset bytes;
  se_inFlight : gmap bytes Z;
  se_peers : gmap bytes peerSyncState;
  se_running : bool;
  se_interval : Z;
  se_stats : SyncStats;
}.

Definition NewSyncEngine (id : bytes) (interval : Z) : syncEngine :=
  mkEngine id false None ∅ ∅ ∅ ∅ false (if interval =? 0 then 5 * second else interval)
    (mkSyncStats 0 0 0 0 0 0 0).

(** Field updates. *)
Definition with_have (h : gset bytes) (s : syncEngine) : syncEngine :=
  mkEngine (se_peerID s) (se_exchange s) (se_lister s) h (se_want s) (se_inFlight s) (se_peers s)
    (se_running s) (se_interval s) (se_stats s).
Definition with_wants (w : gset bytes) (f : gmap bytes Z) (s : syncEngine) : syncEngine :=
  mkEngine (se_peerID s) (se_exchange s) (se_lister s) (se_have s) w f (se_peers s)
    (se_running s) (se_interval s) (se_stats s).
Definition with_sync_peers (p : gmap bytes peerSyncState) (s : syncEngine) : syncEngine :=
  mkEngine (se_peerID s) (se_exchange s) (se_lister s) (se_have s) (se_want s) (se_inFlight s) p
    (se_running s) (se_interval s) (se_stats s).
Definition with_stats (t : SyncStats) (s : syncEngine) : syncEngine :=
  mkEngine (se_peerID s) (se_exchange s) (se_lister s) (se_have s) (se_want s) (se_inFlight s)
    (se_peers s) (se_running s) (se_interval s) t.
Definition with_running (r : bool) (s : syncEngine) : syncEngine :=
  mkEngine (se_peerID s) (se_exchange s) (se_lister s) (se_have s) (se_want s) (se_inFlight s)
    (se_peers s) r (se_interval s) (se_stats s).

Definition SetExchange (s : syncEngine) : syncEngine :=
  mkEngine (se_peerID s) true (se_lister s) (se_have s) (se_want s) (se_inFlight s) (se_peers s)
    (se_running s) (se_interval s) (se_stats s).
Definition SetPeerSource (l : list bytes) (s : syncEngine) : syncEngine :=
  mkEngine (se_peerID s) (se_exchange s) (Some l) (se_have s) (se_want s) (se_inFlight s) (se_peers s)
    (se_running s) (se_interval s) (se_stats s).

(** The counters. *)
Definition count_total (t : SyncStats) : SyncStats :=
  mkSyncStats (BlocksSent t) (BlocksRecv t) (BytesSent t) (BytesRecv t) (ActiveSyncs t)
    (wrapU 64 (TotalSyncs t + 1)) (FailedSyncs t).
Definition count_failed (t : SyncStats) : SyncStats :=
  mkSyncStats (BlocksSent t) (BlocksRecv t) (BytesSent t) (BytesRecv t) (ActiveSyncs t)
    (TotalSyncs t) (wrapU 64 (FailedSyncs t + 1)).
Definition count_active (d : Z) (t : SyncStats) : SyncStats :=
  mkSyncStats (BlocksSent t) (BlocksRecv t) (BytesSent t) (BytesRecv t) (ActiveSyncs t + d)
    (TotalSyncs t) (FailedSyncs t).
Definition count_block (n : Z) (t : SyncStats) : SyncStats :=
  mkSyncStats (BlocksSent t) (wrapU 64 (BlocksRecv t + 1)) (BytesSent t) (wrapU 64 (BytesRecv t + n))
    (ActiveSyncs t) (TotalSyncs t) (FailedSyncs t).

Definition new_sync_peer : peerSyncState := mkPeerSync [] 0 ∅ 0 0 None.

Definition recordPeerHave (now : Z) (id : bytes) (have : list bytes) (s : syncEngine) : syncEngine :=
  let p := default new_sync_peer (se_peers s !! id) in
  with_sync_peers
    (<[id := mkPeerSync have now (ps_inFlight p) (ps_bytesRecv p) (ps_blocksRecv p) (ps_failed p)]> (se_peers s)) s.

(** An order in which [range] may visit a set of identifiers. *)
Record CidOrder := mkCidOrder {
  range_cids : gset bytes -> list bytes;
  range_cids_perm : forall m, range_cids m ≡ₚ elements m;
}.

Section engine.
Context `{CidLib}.

Definition buildHaveList (o : CidOrder) (st : memoryStore) (s : syncEngine) : list bytes * syncEngine :=
  let have := se_have s ∪ list_to_set (List_ st) in
  (range_cids o have, with_have have s).

(** The advertisement, as it goes on the wire. *)
Definition advertise (o : CidOrder) (st : memoryStore) (s : syncEngine) : result bytes * syncEngine :=
  if se_exchange s then
    let '(have, s) := buildHaveList o st s in
    (Ok (SendHave ((fun c => mkWant c WantHave 1) <$> have)), s)
  else (Err (ErrText "sync engine has no exchange"), s).

Definition buildWantList (o : CidOrder) (st : memoryStore) (id : bytes) (s : syncEngine)
    : list bytes * syncEngine :=
  let '(_, s) := buildHaveList o st s in
  (match se_peers s !! id with
   | None => []
   | Some p => filter (fun c => c ∉ se_have s /\ se_inFlight s !! c = None) (ps_have p)
   end, s).

(** The first part of [Sync], up to the message that is sent. *)
Definition begin_Sync (o : CidOrder) (now : Z) (st : memoryStore) (id : bytes) (s : syncEngine)
    : result unit * list bytes * syncEngine :=
  let s := with_stats (count_total (se_stats s)) s in
  if se_exchange s then
    let '(_, s) := buildHaveList o st s in
    let '(want, s) := buildWantList o st id s in
    match want with
    | [] => (Ok tt, [], s)
    | _ =>
        let p := default new_sync_peer (se_peers s !! id) in
        let p := mkPeerSync (ps_have p) now (list_to_set want ∪ ps_inFlight p) (ps_bytesRecv p)
                   (ps_blocksRecv p) None in
        let s := with_wants (list_to_set want ∪ se_want s)
                   (foldl (fun f c => <[c := now]> f) (se_inFlight s) want) s in
        let s := with_sync_peers (<[id := p]> (se_peers s)) s in
        (Ok tt, want, with_stats (count_active 1 (se_stats s)) s)
    end
  else
    (Err (ErrText "sync engine has no exchange"), [], with_stats (count_failed (se_stats s)) s).

(** The undoing of a want that could not be sent. *)
Definition fail_Sync (id : bytes) (want : list bytes) (err : goerror) (s : syncEngine) : syncEngine :=
  let s := with_wants (se_want s ∖ list_to_set want) (foldl (fun f c => delete c f) (se_inFlight s) want) s in
  let s :=
    match se_peers s !! id with
    | Some p => with_sync_peers
        (<[id := mkPeerSync (ps_have p) (ps_lastSync p) (ps_inFlight p ∖ list_to_set want) (ps_bytesRecv p)
                   (ps_blocksRecv p) (Some err)]> (se_peers s)) s
    | None => s
    end in
  with_stats (count_failed (count_active (-1) (se_stats s))) s.

(** [send] is the outcome of [SendWant], when it comes to that.  The message
    that was sent is part of the result. *)
Definition Sync (o : CidOrder) (now : Z) (send : option goerror) (st : memoryStore) (id : bytes)
    (s : syncEngine) : result unit * option bytes * syncEngine :=
  match begin_Sync o now st id s with
  | (Err e, _, s) => (Err e, None, s)
  | (Ok _, [], s) => (Ok tt, None, s)
  | (Ok _, want, s) =>
      match send with
      | Some e => (Err e, None, fail_Sync id want e s)
      | None => (Ok tt, Some (SendWant ((fun c => mkWant c WantWant 1) <$> want)), s)
      end
  end.

Definition WantList (s : syncEngine) : list bytes := elements (se_want s).

Definition ReceivedBlock (now : Z) (write_ok : option bool) (b : Block) (st : memoryStore)
    (s : syncEngine) : result unit * memoryStore * syncEngine :=
  match Put now write_ok b st with
  | (Err e, st) => (Err e, st, s)
  | (Ok _, st) =>
      let wasWanted := bool_decide (CID b ∈ se_want s) in
      let s := with_have ({[CID b]} ∪ se_have s) s in
      let s := with_wants (se_want s ∖ {[CID b]}) (delete (CID b) (se_inFlight s)) s in
      let t := count_block (len (Data b)) (se_stats s) in
      (Ok tt, st,
       with_stats (if wasWanted && (0 <? ActiveSyncs t) then count_active (-1) t else t) s)
  end.

Definition HandleBlock (now : Z) (write_ok : option bool) (id : bytes) (msg : ExchangeMessage)
    (st : memoryStore) (s : syncEngine) : result unit * memoryStore * syncEngine :=
  match msg with
  | HaveMessage cids => (Ok tt, st, recordPeerHave now id cids s)
  | BlockMessage c data =>
      match ReceivedBlock now write_ok (mkBlock c data) st s with
      | (Err e, st, s) => (Err e, st, s)
      | (Ok _, st, s) =>
          (Ok tt, st,
           match se_peers s !! id with
           | Some p => with_sync_peers
               (<[id := mkPeerSync (ps_have p) (ps_lastSync p) (ps_inFlight p ∖ {[c]})
                          (wrapU 64 (ps_bytesRecv p + len data)) (wrapU 64 (ps_blocksRecv p + 1))
                          (ps_failed p)]> (se_peers s)) s
           | None => s
           end)
      end
  end.

Record SyncProgress := mkProgress {
  pr_PeerID : bytes;
  pr_Have : list bytes;
  pr_InFlight : list bytes;
  pr_Complete : bool;
  pr_BytesRecv : Z;
  pr_TotalBytes : Z;
  pr_Err : option goerror;
}.

(** Peers are sorted by the text of their identifiers, which orders them as
    their bytes do; int64 sums wrap. *)
Definition progress_of (st : memoryStore) (id : bytes) (p : peerSyncState) : SyncProgress :=
  let inflight := merge_sort bytes_le (elements (ps_inFlight p)) in
  mkProgress id (ps_have p) inflight
    (bool_decide (inflight = []) && bool_decide (ps_failed p = None)) (ps_bytesRecv p)
    (foldl (fun total c => match Size_ c st with Ok sz => wrapS 64 (total + sz) | Err _ => total end) 0 (ps_have p))
    (ps_failed p).

Definition Progress (st : memoryStore) (s : syncEngine) : list SyncProgress :=
  omap (fun id => progress_of st id <$> se_peers s !! id) (merge_sort bytes_le (elements (dom (se_peers s)))).

Definition connectedPeers (s : syncEngine) : list bytes :=
  let seen := dom (se_peers s) in
  match se_lister s with
  | None => elements seen
  | Some l => merge_sort bytes_le (elements (seen ∪ list_to_set (filter (fun id => id <> se_peerID s) l)))
  end.

Definition Peers (s : syncEngine) : list bytes := elements (dom (se_peers s)).
Definition Stats (s : syncEngine) : SyncStats := se_stats s.

Definition Start (s : syncEngine) : result unit * syncEngine :=
  if se_running s then (Err (ErrText "sync engine already running"), s) else (Ok tt, with_running true s).

Definition Stop (s : syncEngine) : syncEngine := if se_running s then with_running false s else s.

(** One tick of the loop: the messages for each peer.  [send id] is the
    outcome of sending to it: the advertisement, then the want list. *)
Fixpoint tick_peers (o : CidOrder) (now : Z) (send : bytes -> option goerror * option goerror)
    (st : memoryStore) (ids : list bytes) (s : syncEngine) : list (bytes * bytes) * syncEngine :=
  match ids with
  | [] => ([], s)
  | id :: ids =>
      match advertise o st s with
      | (Err _, s) => tick_peers o now send st ids s
      | (Ok have, s) =>
          match (send id).1 with
          | Some _ => tick_peers o now send st ids s
          | None =>
              let '(_, want, s) := Sync o now (send id).2 st id s in
              let '(rest, s) := tick_peers o now send st ids s in
              ((id, have) :: ((fun m => (id, m)) <$> option_list want) ++ rest, s)
          end
      end
  end.

Definition tick o now send st s := tick_peers o now send st (connectedPeers s) s.

(** ** Roots and differences of lists of identifiers *)

Fixpoint pair_up (hash : bytes -> bytes -> bytes) (l : list bytes) : list bytes :=
  match l with
  | a :: b :: l => hash a b :: pair_up hash l
  | l => l
  end.

Definition hashPair `{Hash256} (a b : bytes) : bytes := if bytes_lt a b then sha3 (a ++ b) else sha3 (b ++ a).

(** Each level halves the list, so its length is fuel enough. *)
Fixpoint merkleRoot `{Hash256} (fuel : nat) (leaves : list bytes) : bytes :=
  match leaves with
  | [] => zeroes 32
  | [l] => l
  | _ =>
      match fuel with
      | O => zeroes 32
      | S fuel => merkleRoot fuel (pair_up hashPair (merge_sort bytes_le leaves))
      end
  end.

Fixpoint bytesCompare (a b : bytes) : Z :=
  match a, b with
  | x :: a, y :: b => if decide (x = y) then bytesCompare a b else u8 x - u8 y
  | a, b => len a - len b
  end.

(** [cid_hash] is the method [Hash] of an identifier, its multihash. *)
Definition merkle_leaf (cid_hash : bytes -> bytes) (c : bytes) : bytes := take 32 (cid_hash c ++ zeroes 32).

Definition computeMerkleRoot `{Hash256} `{CidLib} (cid_hash : bytes -> bytes) (fileCIDs : list bytes) : bytes :=
  match fileCIDs with
  | [] => []
  | [c] => c
  | _ => cid_sum (merkleRoot (length fileCIDs) (merkle_leaf cid_hash <$> fileCIDs))
  end.

Definition diffCIDs (a b : list bytes) : list bytes := filter (fun c => c ∉ b) a.

(** ** A node *)

Record Node := mkNode {
  n_id : bytes;
  n_store : memoryStore;
  n_exchange : gmap bytes peerExchange;
  n_engine : syncEngine;
}.

(** A message arrives: the exchange handles it, the engine is the callback;
    the blocks to send back are part of the result. *)
Definition deliver (now : Z) (from input : bytes) (n : Node) : Node * list Block :=
  let '(e, eff) := handleStream now (n_store n) from input (n_exchange n) in
  match to_handler eff with
  | None => (mkNode (n_id n) (n_store n) e (n_engine n), to_send eff)
  | Some msg =>
      let '(_, st, s) := HandleBlock now None from msg (n_store n) (n_engine n) in
      (mkNode (n_id n) st e s, to_send eff)
  end.

Definition with_engine (s : syncEngine) (n : Node) : Node := mkNode (n_id n) (n_store n) (n_exchange n) s.

Definition deliver_all (now : Z) (from : bytes) (blocks : list Block) (n : Node) : Node :=
  foldl (fun n b => (deliver now from (SendBlock b) n).1) n blocks.

(** [a] advertises to [b], [b] asks for what it lacks, [a] sends it and the
    blocks arrive in the order given by [shuffle]. *)
Definition sync_round (o : CidOrder) (now : Z) (shuffle : list Block -> list Block) (a b : Node)
    : result (Node * Node) :=
  match advertise o (n_store a) (n_engine a) with
  | (Err e, _) => Err e
  | (Ok have, sa) =>
      let a := with_engine sa a in
      let b := (deliver now (n_id a) have b).1 in
      match Sync o now None (n_store b) (n_id a) (n_engine b) with
      | (Err e, _, _) => Err e
      | (Ok _, None, sb) => Ok (a, with_engine sb b)
      | (Ok _, Some want, sb) =>
          let '(a, blocks) := deliver now (n_id b) want a in
          Ok (a, deliver_all now (n_id a) (shuffle blocks) (with_engine sb b))
      end
  end.
End engine.

(** ** Lemmas *)

Section lemmas.
Context `{CidLib}.
Implicit Types (st : memoryStore) (s : syncEngine) (n : Node).

(** A store that holds well-formed blocks, each with its record. *)
Definition store_ok st : Prop :=
  (forall c d, blocks st !! c = Some d -> c = computeBlockCID d /\ d <> []) /\
  (forall c, is_Some (meta st !! c) <-> is_Some (blocks st !! c)).

Lemma NewMemoryStore_ok : store_ok NewMemoryStore.
Proof. split; intros c; simpl; rewrite !lookup_empty; [by intros d|done]. Qed.

Lemma Put_ok now b st :
  store_ok st ->
  store_ok (Put now None b st).2 /\
  (well_formed b -> (Put now None b st).1 = Ok tt /\
     blocks (Put now None b st).2 = blocks st ∪ {[CID b := Data b]}).
Proof.
  intros [Hb Hm].
  destruct (Put_cases now b st) as [[Hw [e ->]]|[Hw Hok]]; [done|].
  assert (blocks (Put now None b st).2 = blocks st ∪ {[CID b := Data b]} /\
          dom (meta (Put now None b st).2) = dom (blocks (Put now None b st).2)) as [Hbl Hdom].
  { destruct Hw as [Hd Hc]. unfold Put. rewrite decide_False by (by destruct (Data b)).
    rewrite decide_False by (intros E; by apply E).
    assert (dom (meta st) = dom (blocks st)) as Hd0
      by (apply set_eq; intros c; rewrite !elem_of_dom; apply Hm).
    pose proof (Hm (CID b)) as Hmc. destruct (meta st !! CID b) as [m|] eqn:Em; simpl.
    - destruct (proj1 Hmc) as [d Hd']; [by eexists|]. split.
      + apply map_eq. intros c. rewrite lookup_union. destruct (decide (c = CID b)) as [->|Hne].
        * by rewrite Hd', lookup_singleton_eq.
        * rewrite lookup_singleton_ne by done. by destruct (blocks st !! c).
      + rewrite dom_insert_L, Hd0. apply subseteq_union_1_L. apply singleton_subseteq_l.
        apply elem_of_dom. by eexists.
    - assert (blocks st !! CID b = None) as Hnone.
      { destruct (blocks st !! CID b) eqn:E; [|done]. destruct (proj2 Hmc) as [m Hm']; [by eexists|congruence]. }
      split; [|by rewrite !dom_insert_L, Hd0].
      rewrite insert_union_singleton_r by done. done. }
  split; [|by intros _]. split.
  - intros c d. rewrite Hbl, lookup_union. destruct Hw as [Hd Hc].
    destruct (blocks st !! c) as [d0|] eqn:E; [rewrite union_Some_l; intros [= <-]; by apply Hb|].
    rewrite (left_id_L None _). intros [<- <-]%lookup_singleton_Some. done.
  - intros c. rewrite <- !elem_of_dom. by rewrite Hdom.
Qed.

Lemma foldl_inFlight_delete (want : list bytes) (f : gmap bytes Z) c :
  foldl (fun (f : gmap bytes Z) c => delete c f) f want !! c = if decide (c ∈ want) then None else f !! c.
Proof.
  revert f. induction want as [|x want IH]; intros f; [by rewrite decide_False by apply not_elem_of_nil|].
  cbn [foldl]. rewrite IH. destruct (decide (c ∈ want)) as [Hin|Hin]; [by rewrite decide_True by (by right)|].
  destruct (decide (c = x)) as [->|Hne]; [by rewrite lookup_delete_eq, decide_True by left|].
  rewrite lookup_delete_ne, decide_False by (rewrite ?elem_of_cons; naive_solver). done.
Qed.

Lemma foldl_inFlight_insert (now : Z) (want : list bytes) (f : gmap bytes Z) c :
  c ∉ want -> foldl (fun (f : gmap bytes Z) c => <[c := now]> f) f want !! c = f !! c.
Proof.
  revert f. induction want as [|x want IH]; intros f Hc; [done|]. cbn [foldl].
  rewrite not_elem_of_cons in Hc. rewrite IH by tauto. apply lookup_insert_ne. naive_solver.
Qed.

Lemma HandleBlock_block now id c d st s :
  store_ok st -> well_formed (mkBlock c d) ->
  exists st' s', HandleBlock now None id (BlockMessage c d) st s = (Ok tt, st', s') /\
    store_ok st' /\ blocks st' = blocks st ∪ {[c := d]} /\
    se_inFlight s' = delete c (se_inFlight s).
Proof.
  intros Hst Hw. destruct (Put_ok now (mkBlock c d) st Hst) as [Hok Hput].
  destruct (Hput Hw) as [H1 H2]. cbn [HandleBlock]. unfold ReceivedBlock.
  destruct (Put now None (mkBlock c d) st) as [r st']. simpl in *. subst r.
  eexists _, _. split; [done|]. split_and!; [done..|]. by repeat case_match.
Qed.

(** Whatever arrives, the store stays in order. *)
Lemma HandleBlock_store_ok now id msg st s :
  store_ok st -> store_ok (HandleBlock now None id msg st s).1.2.
Proof.
  intros Hst. destruct msg as [cids|c d]; [done|]. cbn [HandleBlock]. unfold ReceivedBlock.
  destruct (Put_ok now (mkBlock c d) st Hst) as [Hok _].
  destruct (Put now None (mkBlock c d) st) as [[[]|e] st']; simpl in *; by repeat case_match.
Qed.

Lemma deliver_store_ok now from input n : store_ok (n_store n) -> store_ok (n_store (deliver now from input n).1).
Proof.
  intros Hst. unfold deliver. destruct (handleStream _ _ _ _ _) as [e eff].
  destruct (to_handler eff) as [msg|]; [|done].
  pose proof (HandleBlock_store_ok now from msg (n_store n) (n_engine n) Hst) as Hok.
  by destruct (HandleBlock _ _ _ _ _ _) as [[r st] s].
Qed.

Definition sendable (b : Block) : Prop := well_formed b /\ len (Data b) + 4 <= maxExchangePayload.

Lemma deliver_block now from b n :
  store_ok (n_store n) -> sendable b ->
  let n' := (deliver now from (SendBlock b) n).1 in
  store_ok (n_store n') /\ blocks (n_store n') = blocks (n_store n) ∪ {[CID b := Data b]} /\
  se_inFlight (n_engine n') = delete (CID b) (se_inFlight (n_engine n)) /\ n_id n' = n_id n.
Proof.
  intros Hst [Hw Hlen]. unfold deliver, SendBlock. pose proof (len_nonneg (Data b)).
  assert (len (EncodeBlock b) = 4 + len (Data b)) as Hel
    by (unfold EncodeBlock; rewrite len_app; unfold len at 1; by rewrite length_be_put).
  rewrite handleStream_block by lia.
  unfold handleBlock. rewrite <- (app_nil_r (EncodeBlock b)), DecodeBlock_EncodeBlock;
    [|unfold maxExchangePayload in *; change (Z.shiftl 8 20) with 8388608 in *; lia|by destruct Hw].
  cbn [to_handler to_send].
  destruct (HandleBlock_block now from (CID b) (Data b) (n_store n) (n_engine n) Hst) as (st' & s' & -> & ? & ? & ?);
    [by destruct b|]. done.
Qed.

Lemma deliver_all_spec now from bs n :
  store_ok (n_store n) -> Forall sendable bs -> NoDup (CID <$> bs) ->
  let n' := deliver_all now from bs n in
  store_ok (n_store n') /\
  blocks (n_store n') = blocks (n_store n) ∪ list_to_map ((fun b => (CID b, Data b)) <$> bs) /\
  (forall c, se_inFlight (n_engine n') !! c =
     if decide (c ∈ CID <$> bs) then None else se_inFlight (n_engine n) !! c) /\ n_id n' = n_id n.
Proof.
  intros Hst Hbs. revert n Hst. induction Hbs as [|b bs Hb Hbs IH]; intros n Hst Hnd; cbv zeta.
  - simpl. split_and!; [done| |done|done]. by rewrite (right_id_L ∅ _).
  - rewrite fmap_cons in Hnd. apply NoDup_cons in Hnd as [Hnb Hnd].
    destruct (deliver_block now from b n Hst Hb) as (H1 & H2 & H3 & H4).
    unfold deliver_all. cbn [foldl]. destruct (IH _ H1 Hnd) as (I1 & I2 & I3 & I4). split_and!.
    + done.
    + unfold deliver_all in I2. rewrite I2, H2. rewrite fmap_cons. cbn [list_to_map foldr uncurry].
      rewrite <- (assoc_L (∪)). f_equal. by rewrite insert_union_singleton_l.
    + intros c. unfold deliver_all in I3. rewrite I3, H3, fmap_cons.
      destruct (decide (c ∈ CID <$> bs)) as [Hin|Hin]; [by rewrite decide_True by (by right)|].
      destruct (decide (c = CID b)) as [->|Hne]; [by rewrite lookup_delete_eq, decide_True by left|].
      rewrite lookup_delete_ne, decide_False by (rewrite ?elem_of_cons; naive_solver). done.
    + unfold deliver_all in I4. by rewrite I4.
Qed.
End lemmas.

(** ** One round between two nodes *)

Section round.
Context `{CidLib}.
Implicit Types (st : memoryStore) (s : syncEngine) (a b : Node).

Lemma cid_entry_ok t c d : (t = WantHave \/ t = WantWant) -> c = computeBlockCID d -> want_ok (mkWant c t 1).
Proof.
  intros Ht ->. unfold want_ok, computeBlockCID, maxCIDLen, len. cbn [we_CID we_Type we_Priority].
  rewrite cid_sum_length. split_and!; [lia|apply cid_cast_sum|..]; destruct Ht as [->| ->]; done.
Qed.

Definition entries (t : Z) (l : list bytes) : list WantEntry := (fun c => mkWant c t 1) <$> l.

Lemma filter_entries t (l : list bytes) : filter (fun w => we_Type w = t) (entries t l) = entries t l.
Proof.
  unfold entries. induction l as [|c l IH]; [done|]. rewrite !fmap_cons, filter_cons, decide_True by done. by rewrite IH.
Qed.

Lemma CID_entries t l : we_CID <$> entries t l = l.
Proof. unfold entries. rewrite <- list_fmap_compose. apply list_fmap_id. Qed.

(** A list of stored identifiers survives the wire if it is short enough. *)
Lemma decode_entries t st l :
  (t = WantHave \/ t = WantWant) -> store_ok st -> (length l < 256)%nat ->
  Forall (fun c => is_Some (blocks st !! c)) l ->
  decodeWantEntries (encodeWantEntries (entries t l)) = Ok (entries t l) /\
  len (encodeWantEntries (entries t l)) <= maxExchangePayload.
Proof.
  intros Ht [Hst _] Hlen Hl. split.
  - apply decodeWantEntries_short; [|unfold entries; by rewrite length_fmap]. unfold entries.
    apply Forall_fmap. eapply Forall_impl; [exact Hl|]. intros c [d Hd]. simpl.
    eapply cid_entry_ok; [done|]. by apply (Hst c d).
  - etransitivity; [apply len_encodeWantEntries|]. unfold entries. rewrite length_fmap.
    unfold maxExchangePayload. change (Z.shiftl 8 20) with 8388608. lia.
Qed.

Lemma deliver_have now id st l n :
  store_ok st -> (length l < 256)%nat -> Forall (fun c => is_Some (blocks st !! c)) l ->
  exists e, deliver now id (SendHave (entries WantHave l)) n =
    (mkNode (n_id n) (n_store n) e (recordPeerHave now id l (n_engine n)), []).
Proof.
  intros Hst Hlen Hl. destruct (decode_entries WantHave st l) as [Hd Hsz]; [by left|done..|].
  unfold deliver, SendHave. rewrite handleStream_have by done. unfold handleHave. rewrite Hd.
  rewrite filter_entries, CID_entries. cbn [to_handler to_send HandleBlock]. by eexists.
Qed.

Lemma deliver_want now id st l n :
  store_ok st -> n_store n = st -> (length l < 256)%nat -> Forall (fun c => is_Some (blocks st !! c)) l ->
  exists e, deliver now id (SendWant (entries WantWant l)) n =
    (mkNode (n_id n) (n_store n) e (n_engine n),
     omap (fun c => (fun d => mkBlock c d) <$> blocks st !! c) l).
Proof.
  intros Hst Hn Hlen Hl. destruct (decode_entries WantWant st l) as [Hd Hsz]; [by right|done..|].
  unfold deliver, SendWant. rewrite handleStream_want by done. unfold handleWant. rewrite Hd.
  rewrite filter_entries. cbn [to_handler to_send]. eexists. f_equal. rewrite Hn.
  unfold entries. apply list_omap_ext, Forall2_fmap_l, Forall_Forall2_diag, Forall_true.
  intros c. unfold Get. simpl. by destruct (blocks st !! c).
Qed.

(** What the diff asks for. *)
Definition missing st s (l : list bytes) : list bytes :=
  filter (fun c => c ∉ se_have s ∪ dom (blocks st) /\ se_inFlight s !! c = None) l.

Lemma Sync_spec o now st id s l p :
  se_exchange s = true -> se_peers s !! id = Some p -> ps_have p = l ->
  let want := missing st s l in
  exists s', Sync o now None st id s =
    (Ok tt, if decide (want = []) then None else Some (SendWant (entries WantWant want)), s') /\
  se_inFlight s' = foldl (fun (f : gmap bytes Z) c => <[c := now]> f) (se_inFlight s) want.
Proof.
  intros Hx Hp Hl want. unfold Sync, begin_Sync. cbn [with_stats se_exchange]. rewrite Hx.
  unfold buildWantList, buildHaveList. cbn [with_have with_stats se_have se_peers se_inFlight]. rewrite Hp, Hl.
  unfold List_. rewrite !list_to_set_elements_L, <- (assoc_L (∪)), (idemp_L (∪)).
  change (filter _ l) with want. destruct want as [|c want]; by eexists.
Qed.

Lemma union_dom_subseteq (m1 m2 : gmap bytes bytes) : dom m2 ⊆ dom m1 -> m1 ∪ m2 = m1.
Proof.
  intros Hs. apply map_eq. intros c. rewrite lookup_union. destruct (m1 !! c) as [d|] eqn:E.
  - by destruct (m2 !! c).
  - rewrite (left_id_L None _). apply not_elem_of_dom in E. apply not_elem_of_dom. set_solver.
Qed.

Lemma lookup_served st (l : list bytes) c :
  NoDup l -> Forall (fun c => is_Some (blocks st !! c)) l ->
  list_to_map (M := gmap bytes bytes)
    ((fun x => (CID x, Data x)) <$> omap (fun c => (fun d => mkBlock c d) <$> blocks st !! c) l) !! c
  = if decide (c ∈ l) then blocks st !! c else None.
Proof.
  induction l as [|x l IH]; intros Hnd Hl.
  - simpl. rewrite lookup_empty. by destruct (decide (c ∈ [])).
  - apply NoDup_cons in Hnd as [Hx Hnd]. inversion_clear Hl as [|? ? [d Hd] Hl'].
    cbn [omap list_omap]. rewrite Hd. cbn [fmap option_fmap option_map]. rewrite fmap_cons.
    cbn [list_to_map foldr uncurry CID Data]. destruct (decide (c = x)) as [->|Hne].
    + rewrite lookup_insert_eq, decide_True by left. done.
    + rewrite lookup_insert_ne by done.
      change (foldr _ ∅ ?l') with (list_to_map (M := gmap bytes bytes) l'). rewrite IH by done.
      destruct (decide (c ∈ l)); [by rewrite decide_True by (by right)|].
      rewrite decide_False; [done|]. rewrite elem_of_cons. naive_solver.
Qed.

Lemma served_props st (l : list bytes) :
  store_ok st -> (forall c d, blocks st !! c = Some d -> len d + 4 <= maxExchangePayload) ->
  Forall (fun c => is_Some (blocks st !! c)) l ->
  let bs := omap (fun c => (fun d => mkBlock c d) <$> blocks st !! c) l in
  CID <$> bs = l /\ Forall sendable bs.
Proof.
  intros [Hst _] Hsz Hl. induction Hl as [|c l [d Hd] Hl IH]; [done|].
  cbn [omap list_omap]. rewrite Hd. cbn [fmap option_fmap option_map]. destruct IH as [I1 I2]. split.
  - change (c :: (CID <$> omap (fun c => (fun d => mkBlock c d) <$> blocks st !! c) l) = c :: l). by rewrite I1.
  - constructor; [|done]. destruct (Hst c d Hd). split; [by split|]. by apply (Hsz c).
Qed.

(** What is asked for arrives, in any order, and is then no longer awaited. *)
Lemma fetch_wanted now shuffle idb a b (want : list bytes) :
  (forall l, shuffle l ≡ₚ l) -> store_ok (n_store a) -> store_ok (n_store b) ->
  NoDup want -> (length want < 256)%nat -> Forall (fun c => is_Some (blocks (n_store a) !! c)) want ->
  (forall c d, blocks (n_store a) !! c = Some d -> len d + 4 <= maxExchangePayload) ->
  (forall c, c ∈ dom (blocks (n_store a)) -> c ∈ want \/ c ∈ dom (blocks (n_store b))) ->
  exists a' served, deliver now idb (SendWant (entries WantWant want)) a = (a', served) /\
    n_store a' = n_store a /\ n_id a' = n_id a /\
    let b' := deliver_all now (n_id a) (shuffle served) b in
    store_ok (n_store b') /\ blocks (n_store b') = blocks (n_store b) ∪ blocks (n_store a) /\
    forall c, se_inFlight (n_engine b') !! c = if decide (c ∈ want) then None else se_inFlight (n_engine b) !! c.
Proof.
  intros Hsh Hsa Hsb Hnd Hlen Hsome Hsz Hcov. set (sta := n_store a) in *.
  destruct (deliver_want now idb sta want a Hsa eq_refl Hlen Hsome) as [e Hdel].
  destruct (served_props sta want Hsa Hsz Hsome) as [Hcids Hsend]. set (bs := omap _ want) in *.
  destruct (deliver_all_spec now (n_id a) (shuffle bs) b) as (D1 & D2 & D3 & _).
  { done. } { by rewrite Hsh. } { by rewrite Hsh, Hcids. }
  eexists _, bs. split; [exact Hdel|]. cbv zeta. split_and!; [done|done|done| |].
  - etransitivity; [exact D2|]. apply map_eq. intros c. rewrite !lookup_union.
    rewrite (list_to_map_proper _ ((fun x => (CID x, Data x)) <$> bs)) by
      (rewrite <- ?list_fmap_compose; try (by rewrite Hsh); change (NoDup (CID <$> shuffle bs)); by rewrite Hsh, Hcids).
    unfold bs. rewrite lookup_served by done. destruct (decide (c ∈ want)) as [|Hw]; [done|].
    destruct (blocks (n_store b) !! c) as [d|] eqn:E; [by destruct (blocks sta !! c)|].
    rewrite !(left_id_L None _). destruct (blocks sta !! c) as [d|] eqn:E'; [|done].
    apply elem_of_dom_2, Hcov in E' as [?|Hc]; [done|]. by apply not_elem_of_dom in E.
  - intros c. rewrite D3. destruct (decide (c ∈ want)) as [Hw|Hw].
    + by rewrite decide_True by by rewrite Hsh, Hcids.
    + by rewrite decide_False by by rewrite Hsh, Hcids.
Qed.

End round.

(** ** Other properties *)

Section more.
Context `{CidLib}.

(** Whatever bytes arrive from whomever, every block in the store is named by
    the hash of its content. *)
Lemma deliver_authentic now inputs (n : Node) :
  store_ok (n_store n) ->
  store_ok (n_store (foldl (fun n (x : bytes * bytes) => (deliver now x.1 x.2 n).1) n inputs)).
Proof.
  revert n. induction inputs as [|x inputs IH]; intros n Hn; [done|]. by apply IH, deliver_store_ok.
Qed.

(** A node with 256 blocks advertises none of them: the count is one byte. *)
Lemma advertisement_of_256_is_empty l :
  Forall want_ok l -> length l = 256%nat -> decodeWantEntries (encodeWantEntries l) = Ok [].
Proof. intros Hl Hn. rewrite decodeWantEntries_encode, Hn by done. done. Qed.

(** A block that was asked for and never arrived is not asked for again, from
    this peer or another, however long ago that was. *)
Lemma lost_block_is_never_retried o now st id s c t :
  se_inFlight s !! c = Some t ->
  c ∉ (buildWantList o st id s).1 /\
  forall send, exists t', se_inFlight (Sync o now send st id s).2 !! c = Some t'.
Proof.
  intros Hc. split.
  - unfold buildWantList, buildHaveList. cbn. destruct (se_peers s !! id); [|apply not_elem_of_nil].
    rewrite list_elem_of_filter. intros [[_ Hf] _]. congruence.
  - intros send. unfold Sync, begin_Sync. destruct (se_exchange (with_stats _ s)); [|by exists t].
    unfold buildWantList, buildHaveList. cbn.
    set (want := match se_peers s !! id with Some p => _ | None => [] end).
    assert (c ∉ want) as Hnw.
    { unfold want. destruct (se_peers s !! id); [|apply not_elem_of_nil].
      rewrite list_elem_of_filter. intros [[_ Hf] _]. congruence. }
    destruct want as [|w want]; [by exists t|]. exists t.
    rewrite not_elem_of_cons in Hnw. destruct Hnw as [Hcw Hnw].
    destruct send as [e|]; cbn.
    + unfold fail_Sync. cbn. rewrite lookup_insert_eq. cbn.
      rewrite (foldl_inFlight_delete want), decide_False by done.
      rewrite lookup_delete_ne by done. rewrite foldl_inFlight_insert by done. by rewrite lookup_insert_ne.
    + rewrite foldl_inFlight_insert by done. by rewrite lookup_insert_ne.
Qed.

#[local] Instance bytes_le_antisymm : AntiSymm (=) bytes_le.
Proof. intros a b Ha Hb. symmetry. by apply bytes_lt_total. Qed.

(** The root does not depend on the order of the leaves. *)
Lemma merkleRoot_Permutation `{Hash256} fuel l k : l ≡ₚ k -> merkleRoot fuel l = merkleRoot fuel k.
Proof.
  intros Hp. assert (merge_sort bytes_le l = merge_sort bytes_le k) as Hs.
  { apply (Sorted_unique bytes_le); [apply Sorted_merge_sort, _..|]. by rewrite !merge_sort_Permutation. }
  pose proof (Permutation_length Hp) as Hlen.
  destruct fuel as [|fuel]; destruct l as [|x [|y l]], k as [|x' [|y' k]]; try done;
    try (by apply Permutation_singleton_inj in Hp as ->). cbn [merkleRoot]. by rewrite Hs.
Qed.

(** [merkleRoot] and [hashPair] order by [bytesCompare]. *)
Lemma bytesCompare_lt a b : (bytesCompare a b <? 0) = bytes_lt a b.
Proof.
  revert b. induction a as [|x a IH]; intros [|y b].
  - done.
  - apply Z.ltb_lt. cbn [bytesCompare]. unfold len. cbn [length]. lia.
  - apply Z.ltb_ge. cbn [bytesCompare]. unfold len. cbn [length]. lia.
  - unfold bytes_lt in *. cbn [bytesCompare bytes_compare]. case_decide as E.
    + subst y. rewrite Z.compare_refl. apply IH.
    + destruct (Z.compare_spec (u8 x) (u8 y)) as [Hx|Hx|Hx]; [by apply u8_inj in Hx|apply Z.ltb_lt; lia|apply Z.ltb_ge; lia].
Qed.

(** The root of an index does not depend on the order of its files. *)
Lemma computeMerkleRoot_Permutation `{Hash256} `{CidLib} hash l k :
  l ≡ₚ k -> computeMerkleRoot hash l = computeMerkleRoot hash k.
Proof.
  intros Hp. apply Permutation_length in Hp as Hl. unfold computeMerkleRoot.
  destruct l as [|a [|b l]], k as [|c [|d k]]; try done.
  - by apply Permutation_singleton_inj in Hp as ->.
  - rewrite Hl. f_equal. apply merkleRoot_Permutation. by rewrite Hp.
Qed.

(** A leaf holds the first 32 bytes of a multihash, which begins with a type
    and a length: the last two bytes of a digest do not count. *)
Lemma merkle_leaf_cuts_digest (hash : bytes -> bytes) c c' d x y :
  length d = 30%nat -> hash c = [Byte.x12; Byte.x20] ++ d ++ x -> hash c' = [Byte.x12; Byte.x20] ++ d ++ y ->
  merkle_leaf hash c = merkle_leaf hash c'.
Proof. intros Hd E E'. unfold merkle_leaf. rewrite E, E'. cbn [app take]. rewrite <- !app_assoc. by rewrite !take_app_length'. Qed.


Lemma diffCIDs_spec (a b : list bytes) c : c ∈ diffCIDs a b <-> c ∈ a /\ c ∉ b.
Proof. unfold diffCIDs. rewrite list_elem_of_filter. tauto. Qed.
End more.

(** ** Witness *)

#[local] Existing Instance digest_cids.

Module SyncSample.
Definition blk (t : string) : Block := mkBlock (computeBlockCID (str t)) (str t).
Definition store_of (l : list Block) : memoryStore :=
  foldl (fun s b => (Put 0 None b s).2) NewMemoryStore l.
Definition node (id : string) (l : list Block) : Node :=
  mkNode (str id) (store_of l) NewExchangeProtocol (SetExchange (NewSyncEngine (str id) 0)).
Definition a : Node := node "a" [blk "one"; blk "two"; blk "three"].
Definition b : Node := node "b" [blk "two"; blk "four"].
Definition order : CidOrder := mkCidOrder elements (fun m => reflexivity _).
Lemma store_of_ok l : store_ok (store_of l).
Proof.
  unfold store_of. pose proof NewMemoryStore_ok as Hok. revert Hok. generalize NewMemoryStore.
  induction l as [|x l IH]; intros s Hok; [done|]. apply IH. by apply Put_ok.
Qed.
End SyncSample.

