(* ===== verification/Multipath.v ===== *)
(** * Links to a peer and the choice between them (pkg/link/multipath.go)

    A peer can be reached over several links.  The manager records one
    connection per link mode, keeps one of them as the primary, and sends each
    payload over one link.  Links and connections are interface values in the
    code: here a link is its name and mode, a connection is a handle, and what
    they do is the interface [LinkLayer] over a state of the network.

    Go ranges over a map in an order it does not fix: a function that ranges
    over the connections takes the order as an argument, an [Order].  The time
    is an argument too, read once per operation. *)

From S2P Require Import Prelude Bytes Float Qos.
Local Open Scope Z_scope.

Abbreviation LinkMode := Z.

Definition ModeWiFiStation : LinkMode := 0.
Definition ModeWiFiDirect : LinkMode := 1.
Definition ModeAdHocWiFi : LinkMode := 2.
Definition ModeUSBTether : LinkMode := 3.
Definition ModeBLE : LinkMode := 4.
Definition ModeAcoustic : LinkMode := 5.
Definition ModeNone : LinkMode := 6.

Record Link := mkLink {
  Name : bytes;
  Mode : LinkMode;
}.

#[global] Instance Link_eq_dec : EqDecision Link.
Proof. solve_decision. Defined.

(** A [net.Conn]. *)
Abbreviation Conn := Z.

(** The methods of links and connections that the manager calls. *)
Class LinkLayer (World : Type) := {
  IsAvailable : World -> Link -> bool;
  Connect : World -> Link -> bytes -> result Conn * World;
  Write : World -> Conn -> bytes -> (Z * option goerror) * World;
}.

Record LinkConnection := mkConnection {
  c_Link : option Link;
  c_Conn : option Conn;
  PeerAddr : bytes;
  Established : Z;
  LastUpdate : Z;
  BytesSent : Z;
  BytesRecv : Z;
  Latency : Z;
  Active : bool;
}.

#[global] Instance LinkConnection_eq_dec : EqDecision LinkConnection.
Proof. solve_decision. Defined.

Record AggregatedStats := mkStats {
  TotalSent : Z;
  TotalRecv : Z;
  TotalLinks : Z;
  PrimaryLink : LinkMode;
  AvgLatency : Z;
  StatsUpdate : Z;
}.

#[global] Instance AggregatedStats_eq_dec : EqDecision AggregatedStats.
Proof. solve_decision. Defined.

Record PeerLinkSet := mkPeerLinks {
  peerID : bytes;
  connections : gmap LinkMode LinkConnection;
  primary : LinkMode;
  aggregated : AggregatedStats;
  rrCursor : Z;
}.

#[global] Instance PeerLinkSet_eq_dec : EqDecision PeerLinkSet.
Proof. solve_decision. Defined.

Inductive AggregationMode :=
| AggregationFailover
| AggregationRoundRobin
| AggregationBandwidth
| AggregationLatency.

#[global] Instance AggregationMode_eq_dec : EqDecision AggregationMode.
Proof. solve_decision. Defined.

(** The configuration tables, the event channel and the callback of the
    manager play no part in what follows. *)
Record MultiPathManager := mkManager {
  links : list Link;
  peerLinks : gmap bytes PeerLinkSet;
  preferences : list LinkMode;
  aggregation : AggregationMode;
}.

Inductive EventType := PeerDiscovered | PeerLost | PeerUpdated.

Record PeerInfo := mkPeerInfo {
  ID : bytes;
  PublicKey : bytes;
  PeerName : bytes;
  Addrs : list bytes;
  Services : list bytes;
  PeerMode : LinkMode;
  RSSI : Z;
  PeerLatency : Z;
  Score : float64;
  LastSeen : Z;
  Version : bytes;
}.

Record PeerEvent := mkPeerEvent {
  Type_ : EventType;
  Peer : PeerInfo;
}.

(** An order in which [range] may visit a map. *)
Record Order := mkOrder {
  range : gmap LinkMode LinkConnection -> list (LinkMode * LinkConnection);
  range_perm : forall m, range m ≡ₚ map_to_list m;
}.

Definition defaultPreferences : list LinkMode :=
  [ModeWiFiStation; ModeWiFiDirect; ModeAdHocWiFi; ModeUSBTether; ModeBLE].

Definition NewMultiPathManager (ls : list Link) (prefs : option (list LinkMode))
    (agg : option AggregationMode) : MultiPathManager :=
  mkManager ls ∅ (default defaultPreferences prefs) (default AggregationBandwidth agg).

Definition linkForMode (mode : LinkMode) (m : MultiPathManager) : option Link :=
  snd <$> list_find (fun l => Mode l = mode) (links m).

(** ** The links of a peer *)

(** A connection is listed with the mode it is stored under: the code keeps a
    pointer and finds the mode again with [modeOf]. *)
Definition activeConnections (ord : Order) (pls : PeerLinkSet) : list (LinkMode * LinkConnection) :=
  filter (fun mc => Active mc.2 = true) (range ord (connections pls)).

Definition with_primary (p : LinkMode) (pls : PeerLinkSet) : PeerLinkSet :=
  mkPeerLinks (peerID pls) (connections pls) p (aggregated pls) (rrCursor pls).

Definition with_connections (cs : gmap LinkMode LinkConnection) (pls : PeerLinkSet) : PeerLinkSet :=
  mkPeerLinks (peerID pls) cs (primary pls) (aggregated pls) (rrCursor pls).

(** The loop over [modes]: the mode after the current primary. *)
Fixpoint successor (p : LinkMode) (modes : list LinkMode) : option LinkMode :=
  match modes with
  | m :: ((m' :: _) as rest) => if decide (m = p) then Some m' else successor p rest
  | _ => None
  end.

Definition lowest_latency (c : LinkConnection) (cs : list LinkConnection) : LinkConnection :=
  foldl (fun best c => if Latency c <? Latency best then c else best) c cs.

(** [ord] and [ord'] are the orders of the two [range] loops. *)
Definition updatePrimary (ord ord' : Order) (mode : AggregationMode) (pls : PeerLinkSet) : PeerLinkSet :=
  let conns := (activeConnections ord pls).*2 in
  if decide (conns = []) then pls else
  match filter (fun c => is_Some (c_Link c)) conns with
  | [] => with_primary ModeNone pls
  | first :: others =>
      let set_best (best : LinkConnection) :=
        match c_Link best with Some l => with_primary (Mode l) pls | None => pls end in
      match mode with
      | AggregationFailover =>
          if (negb (primary pls =? 0)
              && match connections pls !! primary pls with Some c => Active c | None => false end)%bool
          then pls else set_best first
      | AggregationRoundRobin =>
          let next := if primary pls =? 0 then None
                      else successor (primary pls) (range ord' (connections pls)).*1
                             ≫= fun m => connections pls !! m in
          match next with
          | Some c => match c_Link c with Some _ => set_best c | None => set_best first end
          | None => set_best first
          end
      | AggregationBandwidth | AggregationLatency => set_best (lowest_latency first others)
      end
  end.

Definition updateStats (now : Z) (ord : Order) (pls : PeerLinkSet) : PeerLinkSet :=
  let conns := (activeConnections ord pls).*2 in
  let n := Z.of_nat (length conns) in
  let a := aggregated pls in
  let sent := foldl (fun t c => wrapU 64 (t + BytesSent c)) (TotalSent a) conns in
  let recv := foldl (fun t c => wrapU 64 (t + BytesRecv c)) (TotalRecv a) conns in
  let latency := foldl (fun t c => wrapS 64 (t + Latency c)) 0 conns in
  mkPeerLinks (peerID pls) (connections pls) (primary pls)
    (mkStats sent recv n (primary pls)
       (if 0 <? n then Z.quot latency n else AvgLatency a) now)
    (rrCursor pls).

(** ** Discovery events *)

Definition with_peerLinks (p : gmap bytes PeerLinkSet) (m : MultiPathManager) : MultiPathManager :=
  mkManager (links m) p (preferences m) (aggregation m).

(** Another sighting on a mode that is recorded. *)
Definition refresh (now : Z) (p : PeerInfo) (c : LinkConnection) : LinkConnection :=
  mkConnection (c_Link c) (c_Conn c) (PeerAddr c) (Established c) now
    (wrapU 64 (BytesSent c + Z.of_nat (length (Addrs p))))
    (wrapU 64 (BytesRecv c + Z.of_nat (length (Addrs p))))
    (PeerLatency p) (Active c).

Definition deactivate (c : LinkConnection) : LinkConnection :=
  mkConnection (c_Link c) (c_Conn c) (PeerAddr c) (Established c) (LastUpdate c)
    (BytesSent c) (BytesRecv c) (Latency c) false.

(** The orders of the [range] loops one event goes through. *)
Record Orders := mkOrders { ord_primary : Order; ord_modes : Order; ord_stats : Order; ord_active : Order }.

Definition sight (now : Z) (o : Orders) (p : PeerInfo) (m : MultiPathManager) (pls : PeerLinkSet)
    : PeerLinkSet :=
  match connections pls !! PeerMode p with
  | Some c => with_connections (<[PeerMode p := refresh now p c]> (connections pls)) pls
  | None =>
      if (size (connections pls) <? 3)%nat then
        let c := mkConnection (linkForMode (PeerMode p) m) None (hd [] (Addrs p)) now 0 0 0
                   (PeerLatency p) true in
        updatePrimary (ord_primary o) (ord_modes o) (aggregation m)
          (with_connections (<[PeerMode p := c]> (connections pls)) pls)
      else pls
  end.

Definition lose (o : Orders) (p : PeerInfo) (m : MultiPathManager) (pls : PeerLinkSet) : PeerLinkSet :=
  match connections pls !! PeerMode p with
  | Some c =>
      updatePrimary (ord_primary o) (ord_modes o) (aggregation m)
        (with_connections (<[PeerMode p := deactivate c]> (connections pls)) pls)
  | None => pls
  end.

Definition new_peer (id : bytes) : PeerLinkSet :=
  mkPeerLinks id ∅ 0 (mkStats 0 0 0 0 0 0) 0.

Definition handleEvent (now : Z) (o : Orders) (evt : PeerEvent) (m : MultiPathManager) : MultiPathManager :=
  let p := Peer evt in
  match Type_ evt with
  | PeerDiscovered | PeerUpdated =>
      let existing := default (new_peer (ID p)) (peerLinks m !! ID p) in
      with_peerLinks
        (<[ID p := updateStats now (ord_stats o) (sight now o p m existing)]> (peerLinks m)) m
  | PeerLost =>
      match peerLinks m !! ID p with
      | None => m
      | Some pls =>
          let pls := updateStats now (ord_stats o) (lose o p m pls) in
          with_peerLinks
            (if decide (activeConnections (ord_active o) pls = []) then delete (ID p) (peerLinks m)
             else <[ID p := pls]> (peerLinks m)) m
      end
  end.

(** ** Sending *)

(** [throughput]: the bytes sent per second, or in all while the connection is
    younger than a second. *)
Definition throughput (now : Z) (c : LinkConnection) : float64 :=
  if time_is_zero (Established c) then f64_of_Z 0 else
  let elapsed := seconds (time_sub now (Established c)) in
  if f64_lt elapsed (f64_of_Z 1) then f64_of_Z (BytesSent c)
  else f64_div (f64_of_Z (BytesSent c)) elapsed.

(** The three orders [sort.SliceStable] is called with. *)
Definition mode_le (a b : LinkMode * LinkConnection) : Prop := a.1 <= b.1.
Definition latency_le (a b : LinkMode * LinkConnection) : Prop := Latency a.2 <= Latency b.2.
Definition throughput_ge (now : Z) (a b : LinkMode * LinkConnection) : Prop :=
  f64_lt (throughput now a.2) (throughput now b.2) = false.

#[global] Instance mode_le_dec : RelDecision mode_le := fun a b => decide (_ <= _).
#[global] Instance latency_le_dec : RelDecision latency_le := fun a b => decide (_ <= _).
#[global] Instance throughput_ge_dec now : RelDecision (throughput_ge now) := fun a b => decide (_ = _).

Definition primaryFirst (p : LinkMode) (l : list (LinkMode * LinkConnection))
    : list (LinkMode * LinkConnection) :=
  match list_find (fun u => u.1 = p) l with
  | Some (i, u) => u :: take i l ++ drop (S i) l
  | None => l
  end.

(** The connections that are active, have a link and have been dialled. *)
Definition usable (ord : Order) (pls : PeerLinkSet) : list (LinkMode * LinkConnection) :=
  filter (fun mc => is_Some (c_Link mc.2) /\ is_Some (c_Conn mc.2)) (activeConnections ord pls).

(** [usable[(start+i)%len(usable)]] for each [i]; an index below zero panics,
    which is [None]. *)
Definition rotate (start : Z) (l : list (LinkMode * LinkConnection))
    : option (list (LinkMode * LinkConnection)) :=
  let n := Z.of_nat (length l) in
  mapM (fun i => let k := Z.rem (start + Z.of_nat i) n in
                 if k <? 0 then None else l !! Z.to_nat k) (seq 0 (length l)).

Definition selectLinks (now : Z) (ord : Order) (mode : AggregationMode) (pls : PeerLinkSet)
    : option (list (LinkMode * LinkConnection)) * PeerLinkSet :=
  match usable ord pls with
  | [] => (Some [], pls)
  | u =>
      let base := primaryFirst (primary pls) (merge_sort mode_le u) in
      match mode with
      | AggregationRoundRobin =>
          let start := Z.rem (wrapS 64 (rrCursor pls)) (Z.of_nat (length base)) in
          match rotate start base with
          | None => (None, pls)
          | Some out =>
              (Some out, mkPeerLinks (peerID pls) (connections pls) (primary pls) (aggregated pls)
                           (wrapU 64 (rrCursor pls + 1)))
          end
      | AggregationBandwidth => (Some (merge_sort (throughput_ge now) base), pls)
      | AggregationLatency => (Some (merge_sort latency_le base), pls)
      | AggregationFailover => (Some base, pls)
      end
  end.

Section layer.
Context {World : Type} `{HL : LinkLayer World}.

Definition sent_over (now n : Z) (c : LinkConnection) : LinkConnection :=
  mkConnection (c_Link c) (c_Conn c) (PeerAddr c) (Established c) now
    (wrapU 64 (BytesSent c + wrapU 64 n)) (BytesRecv c) (Latency c) (Active c).

(** The loop of [SendToPeer]; [i] is the position in the list of candidates
    and [lastErr] the error so far.  A candidate always has a connection; the
    call of a method on a nil [Conn] would panic, which is [None]. *)
Fixpoint try_links (now : Z) (agg : AggregationMode) (i : nat) (lastErr : option goerror)
    (cands : list (LinkMode * LinkConnection)) (data : bytes) (w : World) (pls : PeerLinkSet)
    : option (Z * option goerror * World * PeerLinkSet) :=
  match cands with
  | [] => Some (0, lastErr, w, pls)
  | (mode, c) :: rest =>
      match c_Conn c with
      | None => None
      | Some conn =>
          match Write w conn data with
          | (n, Some e, w) =>
              if decide (agg = AggregationFailover) then try_links now agg (S i) (Some e) rest data w pls
              else Some (n, Some e, w, pls)
          | (n, None, w) =>
              let pls := with_connections (alter (sent_over now n) mode (connections pls)) pls in
              Some (n, None, w, if decide (i = 0%nat) then with_primary mode pls else pls)
          end
      end
  end.

(** [None] is a panic. *)
Definition SendToPeer (now : Z) (ord : Order) (id data : bytes) (w : World) (m : MultiPathManager)
    : option (Z * option goerror * World * MultiPathManager) :=
  match peerLinks m !! id with
  | None => Some (0, Some (ErrText "peer not connected"), w, m)
  | Some pls =>
      match selectLinks now ord (aggregation m) pls with
      | (None, _) => None
      | (Some [], pls) =>
          Some (0, Some (ErrText "no active connection to peer"), w,
                with_peerLinks (<[id := pls]> (peerLinks m)) m)
      | (Some cands, pls) =>
          match try_links now (aggregation m) 0 None cands data w pls with
          | None => None
          | Some (n, e, w, pls) => Some (n, e, w, with_peerLinks (<[id := pls]> (peerLinks m)) m)
          end
      end
  end.

Definition dialled (conn : Conn) (c : LinkConnection) : LinkConnection :=
  mkConnection (c_Link c) (Some conn) (PeerAddr c) (Established c) (LastUpdate c)
    (BytesSent c) (BytesRecv c) (Latency c) true.

(** One round of the loop of [ConnectToPeer]; a [Connect] that fails returns a
    nil [Conn]. *)
Definition connect_one (acc : World * gmap LinkMode LinkConnection * gmap LinkMode Conn)
    (mc : LinkMode * LinkConnection) : World * gmap LinkMode LinkConnection * gmap LinkMode Conn :=
  let '(w, cs, out) := acc in
  let '(mode, c) := mc in
  if negb (Active c) then acc else
  match c_Conn c with
  | Some conn => (w, cs, <[mode := conn]> out)
  | None =>
      match c_Link c with
      | None => acc
      | Some l =>
          match Connect w l (PeerAddr c) with
          | (Err _, w) => (w, cs, out)
          | (Ok conn, w) => (w, <[mode := dialled conn c]> cs, <[mode := conn]> out)
          end
      end
  end.

Definition ConnectToPeer (ord : Order) (p : PeerInfo) (w : World) (m : MultiPathManager)
    : result (gmap LinkMode Conn) * World * MultiPathManager :=
  match peerLinks m !! ID p with
  | None => (Err (ErrText "peer not known"), w, m)
  | Some pls =>
      let '(w, cs, out) := foldl connect_one (w, connections pls, ∅) (range ord (connections pls)) in
      let m := with_peerLinks (<[ID p := with_connections cs pls]> (peerLinks m)) m in
      (if decide (out = ∅) then Err (ErrText "no active connections to peer") else Ok out, w, m)
  end.

Definition BestLink (w : World) (m : MultiPathManager) : option Link :=
  head (omap (fun mode => snd <$> list_find (fun l => Mode l = mode /\ IsAvailable w l = true) (links m))
          (preferences m)).

End layer.

(** ** Queries and settings *)

Definition GetAggregatedStats (id : bytes) (m : MultiPathManager) : option AggregatedStats :=
  aggregated <$> peerLinks m !! id.

Definition GetPeerLinks (id : bytes) (m : MultiPathManager) : option (gmap LinkMode LinkConnection) :=
  (fun pls => filter (fun mc => Active mc.2 = true) (connections pls)) <$> peerLinks m !! id.

Definition SetAggregationMode (o : Orders) (mode : AggregationMode) (m : MultiPathManager) : MultiPathManager :=
  mkManager (links m) (updatePrimary (ord_primary o) (ord_modes o) mode <$> peerLinks m)
    (preferences m) mode.

Definition PeerCount (m : MultiPathManager) : Z := Z.of_nat (size (peerLinks m)).

(** * Lemmas *)

(** ** Orders and permutations *)

Lemma elem_of_range ord m mode c : (mode, c) ∈ range ord m <-> m !! mode = Some c.
Proof. by rewrite range_perm, elem_of_map_to_list. Qed.

Lemma range_nodup ord m : NoDup (range ord m).*1.
Proof. rewrite range_perm. apply NoDup_fst_map_to_list. Qed.

Lemma elem_of_active ord pls mode c :
  (mode, c) ∈ activeConnections ord pls <-> connections pls !! mode = Some c /\ Active c = true.
Proof. unfold activeConnections. rewrite list_elem_of_filter, elem_of_range. simpl. tauto. Qed.

Lemma elem_of_usable ord pls mode c :
  (mode, c) ∈ usable ord pls <->
    connections pls !! mode = Some c /\ Active c = true /\ is_Some (c_Link c) /\ is_Some (c_Conn c).
Proof. unfold usable. rewrite list_elem_of_filter, elem_of_active. simpl. tauto. Qed.

Lemma primaryFirst_perm p l : primaryFirst p l ≡ₚ l.
Proof.
  unfold primaryFirst. destruct (list_find _ l) as [[i u]|] eqn:E; [|done].
  apply list_find_Some in E as (Hi & _ & _).
  rewrite Permutation_middle. by rewrite take_drop_middle.
Qed.

Lemma rotate_eq (start : Z) l :
  0 <= start < Z.of_nat (length l) ->
  rotate start l = Some (drop (Z.to_nat start) l ++ take (Z.to_nat start) l).
Proof.
  intros Hs. unfold rotate. apply mapM_Some, Forall2_same_length_lookup_2.
  { rewrite length_seq, length_app, length_drop, length_take. lia. }
  intros i x y Hx Hy. apply lookup_seq in Hx as [-> Hi]. simpl in *.
  destruct (decide (start + Z.of_nat i < Z.of_nat (length l))) as [Hlt|Hge].
  - rewrite Z.rem_small by lia. replace (_ <? 0) with false by lia.
    rewrite lookup_app_l, lookup_drop in Hy by (rewrite length_drop; lia).
    rewrite <- Hy. f_equal. lia.
  - replace (start + Z.of_nat i) with (start + Z.of_nat i - Z.of_nat (length l) + 1 * Z.of_nat (length l)) by lia.
    rewrite Z.rem_add by nia. rewrite Z.rem_small by lia. replace (_ <? 0) with false by lia.
    rewrite lookup_app_r, lookup_take_lt, length_drop in Hy by (rewrite length_drop; lia).
    rewrite <- Hy. f_equal. lia.
Qed.

#[global] Instance mode_le_total : Total mode_le.
Proof. intros a b. unfold mode_le. lia. Qed.

#[global] Instance mode_le_trans : Transitive mode_le.
Proof. intros a b c. unfold mode_le. lia. Qed.

#[global] Instance latency_le_total : Total latency_le.
Proof. intros a b. unfold latency_le. lia. Qed.

#[global] Instance latency_le_trans : Transitive latency_le.
Proof. intros a b c. unfold latency_le. lia. Qed.

#[global] Instance throughput_ge_total now : Total (throughput_ge now).
Proof.
  intros a b. unfold throughput_ge. destruct (f64_lt _ _) eqn:E; [|by left]. right. by apply f64_lt_asym.
Qed.

(** ** Selection *)

(** How the candidates are ranked in each mode: in failover mode the primary
    comes first and the rest by mode; round robin starts at the cursor; the
    other two sort by the measurement. *)
Definition ranked (now : Z) (agg : AggregationMode) (pls : PeerLinkSet)
    (us cands : list (LinkMode * LinkConnection)) : Prop :=
  match agg with
  | AggregationFailover =>
      exists first rest, cands = first :: rest /\ StronglySorted mode_le rest
        /\ (primary pls ∈ us.*1 -> first.1 = primary pls)
        /\ (primary pls ∉ us.*1 -> StronglySorted mode_le cands)
  | AggregationRoundRobin =>
      let base := primaryFirst (primary pls) (merge_sort mode_le us) in
      let k := Z.to_nat (rrCursor pls mod Z.of_nat (length us)) in
      cands = drop k base ++ take k base
  | AggregationBandwidth => Sorted (throughput_ge now) cands
  | AggregationLatency => StronglySorted latency_le cands
  end.

Lemma StronglySorted_delete {A} (R : A -> A -> Prop) l i :
  StronglySorted R l -> StronglySorted R (take i l ++ drop (S i) l).
Proof.
  intros H. revert i. induction H as [|x l Hs IH Hf]; intros [|i]; simpl; rewrite ?drop_0; [by constructor..|done|].
  constructor; [apply IH|]. apply Forall_app. split; [by apply Forall_take|by apply Forall_drop].
Qed.

Lemma primaryFirst_ranked now pls us :
  us <> [] ->
  ranked now AggregationFailover pls us (primaryFirst (primary pls) (merge_sort mode_le us)).
Proof.
  intros Hus. set (l := merge_sort mode_le us).
  assert (l ≡ₚ us) as Hp by apply merge_sort_Permutation.
  assert (StronglySorted mode_le l) as Hs by (apply StronglySorted_merge_sort; apply _).
  unfold primaryFirst. destruct (list_find _ l) as [[i u]|] eqn:E.
  - apply list_find_Some in E as (Hi & Hu & _). exists u, (take i l ++ drop (S i) l).
    split; [done|]. split; [by apply StronglySorted_delete|]. split; [done|].
    intros []. apply list_elem_of_fmap. exists u. split; [done|]. rewrite <- Hp.
    by eapply list_elem_of_lookup_2.
  - apply list_find_None in E. rewrite Forall_forall in E.
    destruct l as [|x l]; [by apply Permutation_nil_l in Hp; subst|].
    exists x, l. split; [done|]. split; [by inversion Hs|]. split; [|done].
    intros (u & Hu1 & Hu2)%list_elem_of_fmap. rewrite <- Hp in Hu2. destruct (E u); done.
Qed.

Lemma selectLinks_spec now ord agg pls :
  usable ord pls <> [] -> 0 <= rrCursor pls < 2 ^ 63 ->
  exists cands pls', selectLinks now ord agg pls = (Some cands, pls')
    /\ cands ≡ₚ usable ord pls /\ ranked now agg pls (usable ord pls) cands
    /\ connections pls' = connections pls /\ primary pls' = primary pls.
Proof.
  intros Hu Hc. unfold selectLinks.
  set (base := primaryFirst (primary pls) (merge_sort mode_le (usable ord pls))).
  assert (base ≡ₚ usable ord pls) as Hb.
  { unfold base. by rewrite primaryFirst_perm, merge_sort_Permutation. }
  destruct (usable ord pls) as [|u us] eqn:E; [done|]. fold base.
  assert (length base = length (u :: us)) as Hl by by rewrite Hb.
  destruct agg.
  - exists base, pls. split; [done|]. split; [done|]. split; [|done]. rewrite <- E. unfold base.
    rewrite <- E. by apply primaryFirst_ranked; rewrite E.
  - rewrite wrapS_small by lia. rewrite Z.rem_mod_nonneg by (rewrite ?Hl; simpl; lia).
    rewrite rotate_eq by (apply Z.mod_pos_bound; rewrite Hl; simpl; lia).
    do 2 eexists. split; [done|]. split; [|split; [|done]].
    + by rewrite Permutation_app_comm, take_drop.
    + unfold ranked. by rewrite <- Hl.
  - do 2 eexists. split; [done|]. split; [by rewrite merge_sort_Permutation|]. split; [|done].
    apply Sorted_merge_sort, _.
  - do 2 eexists. split; [done|]. split; [by rewrite merge_sort_Permutation|]. split; [|done].
    apply StronglySorted_merge_sort; apply _.
Qed.

(** ** Writing *)

Section sending.
Context {World : Type} `{HL : LinkLayer World}.

Definition handle (u : LinkMode * LinkConnection) : Conn := default 0 (c_Conn u.2).

(** The writes over [us], one after the other, all fail and lead from [w] to
    [w']. *)
Fixpoint failing (data : bytes) (w : World) (us : list (LinkMode * LinkConnection)) (w' : World) : Prop :=
  match us with
  | [] => w = w'
  | u :: us => exists n e w1, Write w (handle u) data = (n, Some e, w1) /\ failing data w1 us w'
  end.

Lemma try_links_spec now agg i le cands data w pls :
  Forall (fun u => is_Some (c_Conn u.2)) cands ->
  exists failed w1, failing data w failed w1 /\
  ((exists u rest n w' pls', cands = failed ++ u :: rest /\ Write w1 (handle u) data = (n, None, w')
      /\ (agg <> AggregationFailover -> failed = [])
      /\ try_links now agg i le cands data w pls = Some (n, None, w', pls')
      /\ connections pls' = alter (sent_over now n) u.1 (connections pls))
   \/ (exists n e, try_links now agg i le cands data w pls = Some (n, e, w1, pls)
      /\ (e <> None \/ (cands = [] /\ e = le))
      /\ failed = (if decide (agg = AggregationFailover) then cands else take 1 cands))).
Proof.
  intros H. revert i le w. induction H as [|[mode c] cands [conn Hc] _ IH]; intros i le w.
  - exists [], w. split; [done|]. right. exists 0, le. split; [done|]. split; [by right|]. by case_decide.
  - simpl in Hc. simpl. rewrite Hc. destruct (Write w conn data) as [[n [e|]] w1] eqn:E.
    + assert (Write w (handle (mode, c)) data = (n, Some e, w1)) as E' by (unfold handle; simpl; by rewrite Hc).
      case_decide as Ha.
      * destruct (IH (S i) (Some e) w1) as (failed & w2 & Hf & [Hs|Hs]).
        -- destruct Hs as (u & rest & n' & w' & pls' & -> & Hw & Hag & Ht & Hcs).
           exists ((mode, c) :: failed), w2. split; [by exists n, e, w1|]. left.
           exists u, rest, n', w', pls'. split; [done|]. split; [done|]. by split.
        -- destruct Hs as (n' & e' & Ht & He & ->). exists ((mode, c) :: cands), w2.
           split; [by exists n, e, w1|]. right. exists n', e'. split; [done|].
           split; [left; destruct He as [?|[_ ->]]; done|]. done.
      * exists [(mode, c)], w1. split; [by exists n, e, w1|]. right. exists n, (Some e).
        split; [done|]. split; [by left|]. done.
    + exists [], w. split; [done|]. left. exists (mode, c), cands, n, w1.
      eexists. split; [done|]. split; [unfold handle; simpl; by rewrite Hc|]. split; [done|].
      split; [done|]. by destruct (decide (i = 0%nat)).
Qed.

Definition conns_of (m : MultiPathManager) (id : bytes) : option (gmap LinkMode LinkConnection) :=
  connections <$> peerLinks m !! id.


End sending.
