(* ===== verification/MultipathProps.v ===== *)
(** * The links of a peer: invariant, witnesses and examples

    What the operations of [Multipath] preserve along any run, whatever the
    network does and in whatever order maps are visited; and concrete managers
    on which the theorems and the deviations of the code are evaluated. *)

From S2P Require Import Prelude Bytes Float Qos Multipath.
Local Open Scope Z_scope.

(** ** What every operation preserves *)

(** The links of one peer: it has at most three connections, one of them
    active; each is over the registered link of its mode, if there is one; and
    the primary is a mode whose connection has a link, or [ModeNone]. *)
Definition links_ok (ls : list Link) (cs : gmap LinkMode LinkConnection) : Prop :=
  forall mode c, cs !! mode = Some c -> c_Link c = snd <$> list_find (fun l => Mode l = mode) ls.

Definition some_active (cs : gmap LinkMode LinkConnection) : Prop :=
  exists mode c, cs !! mode = Some c /\ Active c = true.

Definition primary_ok (pls : PeerLinkSet) : Prop :=
  primary pls = ModeNone
  \/ exists c, connections pls !! primary pls = Some c /\ is_Some (c_Link c).

Record peer_ok (ls : list Link) (id : bytes) (pls : PeerLinkSet) : Prop := {
  pk_id : peerID pls = id;
  pk_size : (size (connections pls) <= 3)%nat;
  pk_active : some_active (connections pls);
  pk_links : links_ok ls (connections pls);
  pk_primary : primary_ok pls;
}.

(** A connection that keeps its link and does not become inactive. *)
Definition keeps (c c' : LinkConnection) : Prop :=
  c_Link c' = c_Link c /\ (Active c = true -> Active c' = true).

Definition keeps_all : relation (gmap LinkMode LinkConnection) := map_Forall2 (fun _ => keeps).

#[global] Instance keeps_all_preorder : PreOrder keeps_all.
Proof.
  split.
  - intros cs mode. destruct (cs !! mode); by constructor.
  - intros a b c H1 H2 mode. specialize (H1 mode). specialize (H2 mode).
    inversion H1 as [x y [E1 A1] Ea Eb|Ea Eb]; rewrite <- Eb in H2; inversion H2 as [y' z [E2 A2]|]; subst;
      constructor. split; [congruence|auto].
Qed.

Lemma keeps_all_lookup cs cs' mode c :
  keeps_all cs cs' -> cs !! mode = Some c -> exists c', cs' !! mode = Some c' /\ keeps c c'.
Proof.
  intros H E. specialize (H mode). rewrite E in H. inversion H as [? c' Hk|]; subst. by exists c'.
Qed.

Lemma keeps_all_insert cs mode c c' :
  cs !! mode = Some c -> keeps c c' -> keeps_all cs (<[mode := c']> cs).
Proof.
  intros E H. rewrite <- (insert_id cs mode c E) at 1. by apply map_Forall2_insert_2.
Qed.

Lemma keeps_all_alter cs mode f :
  (forall c, keeps c (f c)) -> keeps_all cs (alter f mode cs).
Proof.
  intros H k. rewrite lookup_alter. case_decide; subst; destruct (cs !! _); constructor; [apply H|done].
Qed.

Lemma keeps_all_links ls cs cs' : keeps_all cs cs' -> links_ok ls cs -> links_ok ls cs'.
Proof.
  intros H Hl mode c' E. specialize (H mode). rewrite E in H. inversion H as [c ? Hk Ec|]; subst.
  destruct Hk as [El _]. rewrite El. by apply Hl.
Qed.

Lemma keeps_all_active cs cs' : keeps_all cs cs' -> some_active cs -> some_active cs'.
Proof.
  intros H (mode & c & E & Ha). destruct (keeps_all_lookup _ _ _ _ H E) as (c' & E' & _ & Hk).
  exists mode, c'. auto.
Qed.

Lemma keeps_all_size cs cs' : keeps_all cs cs' -> size cs' = size cs.
Proof. intros H. rewrite <- !size_dom. by rewrite (map_Forall2_dom_L _ _ _ H). Qed.

Lemma peer_ok_keeps ls id pls pls' :
  peer_ok ls id pls -> peerID pls' = peerID pls -> keeps_all (connections pls) (connections pls') ->
  (primary pls' = primary pls
   \/ exists c, connections pls !! primary pls' = Some c /\ is_Some (c_Link c)) ->
  peer_ok ls id pls'.
Proof.
  intros [Hid Hsz Ha Hl Hp] Hi Hk Hpr.
  assert (forall mode c, connections pls !! mode = Some c -> is_Some (c_Link c) ->
            exists c', connections pls' !! mode = Some c' /\ is_Some (c_Link c')) as Hkp.
  { intros mode c E Hs. destruct (keeps_all_lookup _ _ _ _ Hk E) as (c' & E' & El & _).
    exists c'. by rewrite El. }
  split; [congruence|by rewrite (keeps_all_size _ _ Hk)|by eapply keeps_all_active|by eapply keeps_all_links|].
  destruct Hpr as [Hpr|(c & E & Hs)]; [|right; by eapply Hkp].
  unfold primary_ok in *. rewrite Hpr. destruct Hp as [Hp|(c & E & Hs)]; [by left|right; by eapply Hkp].
Qed.

(** *** The primary *)

Lemma updatePrimary_fields ord ord' mode pls :
  exists p, updatePrimary ord ord' mode pls = with_primary p pls.
Proof.
  unfold updatePrimary. exists (primary (updatePrimary ord ord' mode pls)). unfold updatePrimary.
  destruct pls. repeat case_match; reflexivity.
Qed.

Lemma lowest_latency_in c cs : lowest_latency c cs ∈ c :: cs.
Proof.
  unfold lowest_latency. revert c. induction cs as [|d cs IH]; intros c; simpl; [left|].
  destruct (_ <? _).
  - right. apply IH.
  - specialize (IH c). apply elem_of_cons in IH as [->|H]; [left|right; by right].
Qed.

(** Setting the primary to the mode of the link of a recorded connection. *)
Lemma with_primary_ok ls pls mode c l :
  links_ok ls (connections pls) -> connections pls !! mode = Some c -> c_Link c = Some l ->
  primary_ok (with_primary (Mode l) pls).
Proof.
  intros Hl E Ec. right. simpl. specialize (Hl _ _ E). rewrite Ec in Hl. symmetry in Hl.
  apply fmap_Some in Hl as ([i l'] & Hf & ->). apply list_find_Some in Hf as (_ & Hm & _). simpl in *.
  exists c. rewrite Hm. split; [done|]. by rewrite Ec.
Qed.

Lemma elem_of_active_snd ord pls c :
  c ∈ (activeConnections ord pls).*2 ->
  exists mode, connections pls !! mode = Some c /\ Active c = true.
Proof. intros ([mode c'] & -> & H)%list_elem_of_fmap. apply elem_of_active in H. by exists mode. Qed.

Lemma active_nonempty ord pls : some_active (connections pls) <-> activeConnections ord pls <> [].
Proof.
  split.
  - intros (mode & c & E & Ha) Hn. assert ((mode, c) ∈ activeConnections ord pls) as H by by apply elem_of_active.
    rewrite Hn in H. by apply elem_of_nil in H.
  - destruct (activeConnections ord pls) as [|[mode c] l] eqn:E; [done|]. intros _. exists mode, c.
    apply (elem_of_active ord). rewrite E. left.
Qed.

Lemma updatePrimary_primary ls ord ord' mode pls :
  links_ok ls (connections pls) -> some_active (connections pls) ->
  primary pls = 0 \/ primary_ok pls ->
  primary_ok (updatePrimary ord ord' mode pls).
Proof.
  intros Hl Ha Hp. unfold updatePrimary. case_decide as Hn.
  { apply (active_nonempty ord) in Ha. by apply fmap_nil_inv in Hn. }
  destruct (filter _ _) as [|first others] eqn:Ef; [by left|].
  assert (forall c, c ∈ first :: others -> exists md l, connections pls !! md = Some c /\ c_Link c = Some l) as Hc.
  { intros c. rewrite <- Ef, list_elem_of_filter. intros [[l Hs] (md & E & _)%elem_of_active_snd]. by exists md, l. }
  assert (forall c, c ∈ first :: others ->
            primary_ok match c_Link c with Some l => with_primary (Mode l) pls | None => pls end) as Hset.
  { intros c (md & l & E & El)%Hc. rewrite El. by eapply with_primary_ok. }
  destruct mode; simpl.
  - destruct (negb _ && _)%bool eqn:Ek; [|apply Hset; left]. destruct Hp as [Hp|Hp]; [|done].
    apply andb_true_iff in Ek as [Ek _]. by rewrite Hp in Ek.
  - destruct (if primary pls =? 0 then None else _) as [c|] eqn:En; [|apply Hset; left].
    destruct (c_Link c) as [l|] eqn:El; [|apply Hset; left].
    destruct (primary pls =? 0); [done|]. apply bind_Some in En as (md & _ & E).
    by eapply with_primary_ok.
  - apply Hset, lowest_latency_in.
  - apply Hset, lowest_latency_in.
Qed.

(** *** The operations *)

Definition manager_ok (m : MultiPathManager) : Prop :=
  forall id pls, peerLinks m !! id = Some pls -> peer_ok (links m) id pls.

Lemma manager_ok_insert m id pls :
  manager_ok m -> peer_ok (links m) id pls -> manager_ok (with_peerLinks (<[id := pls]> (peerLinks m)) m).
Proof.
  intros Hm Hp id' pls'. simpl. destruct (decide (id = id')) as [->|Hn].
  - rewrite lookup_insert_eq. by intros [= <-].
  - rewrite lookup_insert_ne by done. apply Hm.
Qed.

Lemma updateStats_ok ls id now ord pls : peer_ok ls id pls -> peer_ok ls id (updateStats now ord pls).
Proof. intros H. eapply peer_ok_keeps; [exact H|done|simpl; reflexivity|by left]. Qed.

Lemma sight_ok id now o p m pls :
  peer_ok (links m) id pls \/ pls = new_peer id -> peer_ok (links m) id (sight now o p m pls).
Proof.
  intros H. unfold sight. destruct (connections pls !! PeerMode p) as [c|] eqn:E.
  - destruct H as [H| ->]; [|done]. eapply peer_ok_keeps; [exact H|done| |by left].
    simpl. by eapply keeps_all_insert.
  - destruct (size (connections pls) <? 3)%nat eqn:Es.
    2: { destruct H as [H| ->]; [done|]. by simpl in Es; rewrite map_size_empty in Es. }
    apply Nat.ltb_lt in Es.
    destruct (updatePrimary_fields (ord_primary o) (ord_modes o) (aggregation m)
      (with_connections (<[PeerMode p := mkConnection (linkForMode (PeerMode p) m) None (hd [] (Addrs p))
         now 0 0 0 (PeerLatency p) true]> (connections pls)) pls)) as [pr Hpr].
    assert (links_ok (links m) (connections pls)) as Hl.
    { destruct H as [H| ->]; [apply H|]. by intros md c; simpl; rewrite lookup_empty. }
    set (pls' := with_connections _ pls) in *.
    assert (links_ok (links m) (connections pls')) as Hl'.
    { intros md c. simpl. destruct (decide (PeerMode p = md)) as [<-|Hn].
      - rewrite lookup_insert_eq. by intros [= <-].
      - rewrite lookup_insert_ne by done. apply Hl. }
    assert (some_active (connections pls')) as Ha.
    { exists (PeerMode p). eexists. simpl. by rewrite lookup_insert_eq. }
    assert (primary_ok (updatePrimary (ord_primary o) (ord_modes o) (aggregation m) pls')) as Hp.
    { eapply updatePrimary_primary; [done|done|]. destruct H as [H| ->]; [|by left]. right.
      destruct (pk_primary _ _ _ H) as [Hp|(c & Ec & Hs)]; [by left|right].
      exists c. split; [|done]. simpl. rewrite lookup_insert_ne; [done|]. congruence. }
    rewrite Hpr in Hp |- *. split; try done.
    + destruct H as [H| ->]; [apply H|done].
    + simpl. rewrite map_size_insert_None by done. lia.
Qed.

Lemma lose_ok id o p m pls :
  peer_ok (links m) id pls ->
  some_active (connections (lose o p m pls)) -> peer_ok (links m) id (lose o p m pls).
Proof.
  intros H. unfold lose. destruct (connections pls !! PeerMode p) as [c|] eqn:E; [|done].
  set (pls' := with_connections _ pls).
  destruct (updatePrimary_fields (ord_primary o) (ord_modes o) (aggregation m) pls') as [pr Hpr].
  rewrite Hpr. simpl. intros Ha.
  assert (links_ok (links m) (connections pls')) as Hl.
  { intros md c'. simpl. destruct (decide (PeerMode p = md)) as [<-|Hn].
    - rewrite lookup_insert_eq. intros [= <-]. by apply (pk_links _ _ _ H _ c).
    - rewrite lookup_insert_ne by done. apply (pk_links _ _ _ H). }
  assert (primary_ok (updatePrimary (ord_primary o) (ord_modes o) (aggregation m) pls')) as Hp.
  { eapply updatePrimary_primary; [done|done|]. right.
    destruct (pk_primary _ _ _ H) as [Hp|(c' & Ec & Hs)]; [by left|right]. simpl.
    destruct (decide (PeerMode p = primary pls)) as [Hq|Hn].
    - rewrite <- Hq, lookup_insert_eq. exists (deactivate c). split; [done|]. assert (c' = c) as -> by congruence. done.
    - exists c'. by rewrite lookup_insert_ne. }
  rewrite Hpr in Hp. split; try done.
  - apply H.
  - simpl. rewrite map_size_insert_Some by done. apply H.
Qed.

Lemma handleEvent_ok now o evt m : manager_ok m -> manager_ok (handleEvent now o evt m).
Proof.
  intros Hm. unfold handleEvent.
  assert (manager_ok (with_peerLinks (<[ID (Peer evt) := updateStats now (ord_stats o)
    (sight now o (Peer evt) m (default (new_peer (ID (Peer evt))) (peerLinks m !! ID (Peer evt))))]>
    (peerLinks m)) m)) as Hs.
  { apply manager_ok_insert; [done|]. apply updateStats_ok, sight_ok.
    destruct (peerLinks m !! ID (Peer evt)) as [pls|] eqn:E; [left; by apply Hm|by right]. }
  destruct (Type_ evt); [exact Hs| |exact Hs].
  destruct (peerLinks m !! ID (Peer evt)) as [pls|] eqn:E; [|done]. case_decide as Hn.
  - intros id pls'. simpl. intros [_ H]%lookup_delete_Some. by apply Hm.
  - apply manager_ok_insert; [done|]. apply updateStats_ok, lose_ok; [by apply Hm|].
    by apply (active_nonempty (ord_active o)) in Hn.
Qed.

(** A candidate is a connection of the peer that has a link. *)
Definition linked (pls : PeerLinkSet) (u : LinkMode * LinkConnection) : Prop :=
  connections pls !! u.1 = Some u.2 /\ is_Some (c_Link u.2).

Lemma rotate_Forall (P : LinkMode * LinkConnection -> Prop) start l out :
  rotate start l = Some out -> Forall P l -> Forall P out.
Proof.
  intros H%mapM_Some HP. induction H as [|i u ks out E _ IH]; constructor; [|done].
  simpl in E. destruct (_ <? 0); [done|]. by eapply Forall_lookup_1 in E.
Qed.

Lemma selectLinks_linked now ord agg pls cands pls' :
  selectLinks now ord agg pls = (Some cands, pls') ->
  Forall (linked pls) cands /\ connections pls' = connections pls
  /\ primary pls' = primary pls /\ peerID pls' = peerID pls.
Proof.
  unfold selectLinks. destruct (usable ord pls) as [|u us] eqn:Eu; [intros [= <- <-]; by repeat split|].
  set (base := primaryFirst _ _). assert (Forall (linked pls) base) as Hb.
  { assert (base ≡ₚ usable ord pls) as -> by (rewrite Eu; unfold base; by rewrite primaryFirst_perm, merge_sort_Permutation).
    apply Forall_forall. intros [md c] (E & _ & Hl & _)%elem_of_usable. by split. }
  destruct agg; [| destruct (rotate _ base) as [out|] eqn:Er; [|done] | |]; intros [= <- <-];
    (split; [|by repeat split]).
  - done.
  - by eapply rotate_Forall.
  - by rewrite merge_sort_Permutation.
  - by rewrite merge_sort_Permutation.
Qed.

Section steps.
Context {World : Type} `{HL : LinkLayer World}.

Lemma try_links_keeps now agg i le cands data (w : World) pls n e w' pls' :
  try_links now agg i le cands data w pls = Some (n, e, w', pls') -> Forall (linked pls) cands ->
  peerID pls' = peerID pls /\ keeps_all (connections pls) (connections pls')
  /\ (primary pls' = primary pls
      \/ exists c, connections pls !! primary pls' = Some c /\ is_Some (c_Link c)).
Proof.
  intros H Hc. revert i le w H. induction Hc as [|[md c] cands [Hu Hl] _ IH]; intros i le w; simpl.
  - intros [= <- <- <- <-]. split; [done|]. split; [reflexivity|by left].
  - destruct (c_Conn c) as [conn|]; [|done]. destruct (Write w conn data) as [[n' [e'|]] w1].
    + case_decide; [by apply IH|]. intros [= <- <- <- <-]. split; [done|]. split; [reflexivity|by left].
    + intros [= <- <- <- <-]. simpl in *.
      assert (keeps_all (connections pls) (alter (sent_over now n') md (connections pls))) as Hk
        by by apply keeps_all_alter.
      case_decide; (split; [done|]); (split; [exact Hk|]); [right; by exists c|by left].
Qed.

Lemma SendToPeer_ok now ord id data (w : World) m n e w' m' :
  SendToPeer now ord id data w m = Some (n, e, w', m') -> manager_ok m ->
  manager_ok m' /\ links m' = links m.
Proof.
  unfold SendToPeer. intros H Hm. destruct (peerLinks m !! id) as [pls|] eqn:E; [|by simplify_eq].
  destruct (selectLinks now ord (aggregation m) pls) as [[cands|] pls1] eqn:Es; [|done].
  destruct (selectLinks_linked _ _ _ _ _ _ Es) as (Hl & Hc & Hp & Hi).
  assert (peer_ok (links m) id pls1) as H1.
  { eapply peer_ok_keeps; [by apply Hm|done|by rewrite Hc|by left]. }
  destruct cands as [|u cands].
  - simplify_eq. split; [|done]. by apply manager_ok_insert.
  - destruct (try_links _ _ _ _ _ _ _ _) as [[[[n1 e1] w1] pls2]|] eqn:Et; [|done]. simplify_eq.
    apply try_links_keeps in Et as (Hi2 & Hk & Hp2).
    2: { eapply Forall_impl; [exact Hl|]. intros v [Hv Hv']. split; [|done]. by rewrite Hc. }
    split; [|done]. apply manager_ok_insert; [done|]. by eapply peer_ok_keeps.
Qed.

Lemma connect_one_keeps (w : World) cs out mc cs0 :
  keeps_all cs0 cs -> cs0 !! mc.1 = Some mc.2 -> keeps_all cs0 (connect_one (w, cs, out) mc).1.2.
Proof.
  destruct mc as [md c]. intros Hk E. unfold connect_one.
  destruct (negb (Active c)); [done|]. destruct (c_Conn c); [done|]. destruct (c_Link c) as [l|] eqn:El; [|done].
  destruct (Connect w l (PeerAddr c)) as [[conn|e] w1]; [|done]. simpl. intros k.
  destruct (decide (md = k)) as [<-|Hn].
  - rewrite lookup_insert_eq. simpl in E. rewrite E. constructor. split; [by rewrite El|done].
  - rewrite lookup_insert_ne by done. apply Hk.
Qed.

Lemma ConnectToPeer_ok ord p (w : World) m :
  manager_ok m ->
  manager_ok (ConnectToPeer ord p w m).2 /\ links (ConnectToPeer ord p w m).2 = links m.
Proof.
  intros Hm. unfold ConnectToPeer. destruct (peerLinks m !! ID p) as [pls|] eqn:E; [|done].
  assert (forall l (w : World) cs out, keeps_all (connections pls) cs ->
            Forall (fun mc => connections pls !! mc.1 = Some mc.2) l ->
            keeps_all (connections pls) (foldl connect_one (w, cs, out) l).1.2) as Hf.
  { clear -HL. induction l as [|mc l IH]; intros w cs out Hk Hl; [done|].
    cbn [foldl]. inversion Hl as [|? ? Hmc Hl']; subst. pose proof (connect_one_keeps w cs out mc _ Hk Hmc) as H.
    destruct (connect_one (w, cs, out) mc) as [[w1 cs1] out1]. by apply IH. }
  specialize (Hf (range ord (connections pls)) w (connections pls) ∅ ltac:(reflexivity)).
  destruct (foldl _ _ _) as [[w1 cs1] out1]. simpl. split; [|done]. apply manager_ok_insert; [done|].
  eapply peer_ok_keeps; [by apply Hm|done| |by left]. simpl in Hf. apply Hf. apply Forall_forall.
  intros [md c] H. by apply (elem_of_range ord).
Qed.

(** The operations of a manager; the network may do anything meanwhile. *)
Inductive mp_step : World * MultiPathManager -> World * MultiPathManager -> Prop :=
| mp_event now o evt w m : mp_step (w, m) (w, handleEvent now o evt m)
| mp_tick now ord w m : mp_step (w, m) (w, with_peerLinks (updateStats now ord <$> peerLinks m) m)
| mp_mode o mode w m : mp_step (w, m) (w, SetAggregationMode o mode m)
| mp_connect ord p w m :
    mp_step (w, m) ((ConnectToPeer ord p w m).1.2, (ConnectToPeer ord p w m).2)
| mp_send now ord id data w m n e w' m' :
    SendToPeer now ord id data w m = Some (n, e, w', m') -> mp_step (w, m) (w', m')
| mp_world w w' m : mp_step (w, m) (w', m).

Lemma mp_step_ok s s' : mp_step s s' -> manager_ok s.2 -> manager_ok s'.2 /\ links s'.2 = links s.2.
Proof.
  intros H Hm. destruct H as [now o evt w m|now ord w m|o mode w m|ord p w m|now ord id data w m n e w' m' E|w w' m];
    simpl in *.
  - split; [by apply handleEvent_ok|]. unfold handleEvent. by repeat case_match.
  - split; [|done]. intros id pls. simpl. rewrite lookup_fmap. intros (q & Hq & ->)%fmap_Some.
    by apply updateStats_ok, Hm.
  - split; [|done]. intros id pls. simpl. rewrite lookup_fmap. intros (q & Hq & ->)%fmap_Some.
    apply Hm in Hq as Hok. destruct (updatePrimary_fields (ord_primary o) (ord_modes o) mode q) as [pr Hpr].
    pose proof (updatePrimary_primary (links m) (ord_primary o) (ord_modes o) mode q
                  (pk_links _ _ _ Hok) (pk_active _ _ _ Hok) (or_intror (pk_primary _ _ _ Hok))) as Hp.
    rewrite Hpr in *. destruct Hok. by split.
  - by apply ConnectToPeer_ok.
  - by eapply SendToPeer_ok.
  - done.
Qed.

(** Whatever is discovered, lost, dialled and sent, in whatever order maps
    are visited: every peer the manager knows has at least one active
    connection and at most three; each connection is over the registered link
    of its mode, if one is registered; and the primary link of a peer is one
    of its connections with a link behind it, unless it is [ModeNone]. *)
Theorem multipath_invariant ls prefs agg (w w' : World) m id pls :
  rtc mp_step (w, NewMultiPathManager ls prefs agg) (w', m) ->
  peerLinks m !! id = Some pls -> peer_ok ls id pls.
Proof.
  intros H E. assert (manager_ok m /\ links m = ls) as [Hm <-]; [|by apply Hm].
  change m with (w', m).2. revert H. generalize (w', m). apply rtc_ind_r.
  - split; [|done]. intros i p. simpl. by rewrite lookup_empty.
  - intros s s' _ Hs [Hm Hl]. destruct (mp_step_ok _ _ Hs Hm) as [? ?]. split; [done|congruence].
Qed.

End steps.

(** * Witnesses and examples *)

Definition some_order : Order := mkOrder map_to_list (fun _ => reflexivity _).
Definition some_orders : Orders := mkOrders some_order some_order some_order some_order.

(** A network in which every write goes through; its state is the list of the
    connections written to. *)
#[local] Instance reliable : LinkLayer (list Conn) := {
  IsAvailable := fun _ _ => true;
  Connect := fun w l _ => (Ok (Mode l), w);
  Write := fun w c data => ((len data, None), w ++ [c]);
}.

Definition ex_links : list Link :=
  [mkLink (str "wifi") ModeWiFiDirect; mkLink (str "usb") ModeUSBTether; mkLink (str "ble") ModeBLE].

Definition ex_sighting (mode latency : Z) : PeerInfo :=
  mkPeerInfo (zeroes 32) (zeroes 32) [] [str "a:1"] [] mode 0 latency f64_half 0 [].

Definition ex_event (t : EventType) (mode latency : Z) : PeerEvent :=
  mkPeerEvent t (ex_sighting mode latency).

Definition ex_run (evts : list PeerEvent) (m : MultiPathManager) : MultiPathManager :=
  foldl (fun m e => handleEvent 10 some_orders e m) m evts.

(** Three links to one peer, all dialled. *)
Definition ex_manager (agg : AggregationMode) : MultiPathManager :=
  let m := ex_run [ex_event PeerDiscovered ModeWiFiDirect 30; ex_event PeerDiscovered ModeUSBTether 5;
                   ex_event PeerDiscovered ModeBLE 90]
             (NewMultiPathManager ex_links None (Some agg)) in
  (ConnectToPeer some_order (ex_sighting 0 0) [] m).2.

Definition ex_pls (agg : AggregationMode) : PeerLinkSet :=
  default (new_peer []) (peerLinks (ex_manager agg) !! zeroes 32).


Lemma ex_run_reachable evts (w : list Conn) m : rtc mp_step (w, m) (w, ex_run evts m).
Proof.
  revert m. induction evts as [|e evts IH]; intros m; [apply rtc_refl|].
  eapply rtc_l; [apply (mp_event 10 some_orders e)|apply IH].
Qed.

Lemma ex_manager_reachable agg :
  rtc mp_step ([], NewMultiPathManager ex_links None (Some agg)) ([], ex_manager agg).
Proof.
  etransitivity; [apply ex_run_reachable|].
  eapply rtc_l; [apply (mp_connect some_order (ex_sighting 0 0))|].
  eapply rtc_l; [apply mp_world|apply rtc_refl].
Qed.

Lemma multipath_invariant_witness :
  peer_ok ex_links (zeroes 32) (ex_pls AggregationLatency)
  /\ size (connections (ex_pls AggregationLatency)) = 3%nat.
Proof.
  split; [|vm_compute; reflexivity].
  apply (multipath_invariant ex_links None (Some AggregationLatency) [] [] (ex_manager AggregationLatency)).
  - apply ex_manager_reachable.
  - vm_compute. reflexivity.
Defined.

(** Successive sends, and the links that carried them. *)
Fixpoint ex_sends (k : nat) (w : list Conn) (m : MultiPathManager) : list Conn :=
  match k with
  | O => w
  | S k => match SendToPeer 20 some_order (zeroes 32) (str "hi") w m with
           | Some (_, _, w, m) => ex_sends k w m
           | None => w
           end
  end.

(** Round robin does not go round: [SendToPeer] makes the link that carried a
    payload the primary, [primaryFirst] moves it to the front, and the cursor
    then counts in another list.  Of these three links one carries nothing, and
    another carries two payloads in a row. *)
Lemma round_robin_starves :
  ex_sends 21 [] (ex_manager AggregationRoundRobin)
  = concat (replicate 7 [ModeBLE; ModeWiFiDirect; ModeBLE]).
Proof. decide_vm. Qed.

(** A link that was lost and is discovered again stays inactive as long as the
    peer has another active link. *)
Lemma rediscovered_link_stays_inactive :
  let m := ex_run [ex_event PeerLost ModeUSBTether 5; ex_event PeerDiscovered ModeUSBTether 5]
             (ex_manager AggregationFailover) in
  (Active <$> (conns_of m (zeroes 32) ≫= lookup ModeUSBTether)) = Some false
  /\ (Active <$> (conns_of m (zeroes 32) ≫= lookup ModeBLE)) = Some true.
Proof. decide_vm. Qed.

(** [updateStats] adds the counters of the connections to the totals each time
    it runs, so the totals grow without any traffic. *)
Lemma stats_counted_again :
  let m := match SendToPeer 20 some_order (zeroes 32) (str "hi") [] (ex_manager AggregationFailover) with
           | Some (_, _, _, m) => m
           | None => ex_manager AggregationFailover
           end in
  let tick m := with_peerLinks (updateStats 25 some_order <$> peerLinks m) m in
  TotalSent <$> GetAggregatedStats (zeroes 32) (tick m) = Some 2
  /\ TotalSent <$> GetAggregatedStats (zeroes 32) (tick (tick m)) = Some 4.
Proof. decide_vm. Qed.
