(* ===== verification/LinkManager.v ===== *)
(** * The link manager (pkg/link/manager.go)

    The manager keeps one record per peer, fed by the discovery events of all
    links, and chooses a link to connect over.  It shares the types of
    [Multipath]; what links do is the interface [LinkLayer].  A link that is
    asked whether it is available answers without a change of the network. *)

From S2P Require Import Prelude Bytes Float Qos Multipath.
Local Open Scope Z_scope.

(** ** Configuration (pkg/link/types.go) *)

Record LinkConfig := mkLinkConfig {
  cfg_Mode : LinkMode;
  Enabled : bool;
  AdvertiseInterval : Z;
  ScanInterval : Z;
  MaxRetries : Z;
  Timeout : Z;
}.

(** The zero value, which is what a lookup in the table yields for a mode
    without an entry. *)
Definition zero_config : LinkConfig := mkLinkConfig 0 false 0 0 0 0.

Definition DefaultLinkConfigs : gmap LinkMode LinkConfig :=
  list_to_map
    [(ModeWiFiStation, mkLinkConfig ModeWiFiStation true (30 * second) (10 * second) 3 (5 * second));
     (ModeWiFiDirect, mkLinkConfig ModeWiFiDirect true (5 * second) (2 * second) 3 (10 * second));
     (ModeAdHocWiFi, mkLinkConfig ModeAdHocWiFi true (10 * second) (5 * second) 3 (5 * second));
     (ModeUSBTether, mkLinkConfig ModeUSBTether true (5 * second) (2 * second) 1 (3 * second));
     (ModeBLE, mkLinkConfig ModeBLE true (1 * second) (1 * second) 5 (5 * second))].

Record Manager := mkLinkManager {
  links : list Link;
  active : option Link;
  peers : gmap bytes PeerInfo;
  configs : gmap LinkMode LinkConfig;
  preferences : list LinkMode;
  autoEscalate : bool;
}.

Definition NewManager (ls : list Link) (prefs : option (list LinkMode))
    (cfgs : option (gmap LinkMode LinkConfig)) (escalate : bool) : Manager :=
  mkLinkManager ls None ∅ (default DefaultLinkConfigs cfgs) (default defaultPreferences prefs) escalate.

Definition with_peers (ps : gmap bytes PeerInfo) (m : Manager) : Manager :=
  mkLinkManager (links m) (active m) ps (configs m) (preferences m) (autoEscalate m).

Definition linkForMode (mode : LinkMode) (m : Manager) : option Link :=
  snd <$> list_find (fun l => Mode l = mode) (links m).

Definition Peers (m : Manager) : list PeerInfo := (map_to_list (peers m)).*2.
Definition PeerCount (m : Manager) : nat := size (peers m).
Definition ActiveLink (m : Manager) : option Link := active m.

(** ** Scores *)

Definition f64_frac (a b : Z) : float64 := f64_div (f64_of_Z a) (f64_of_Z b).

Definition score_base : float64 := Eval vm_compute in f64_half.
Definition score_fresh : float64 := Eval vm_compute in f64_frac 2 10.
Definition score_strong : float64 := Eval vm_compute in f64_frac 1 10.
Definition score_weak : float64 := Eval vm_compute in f64_frac 5 100.
Definition score_cap : float64 := Eval vm_compute in f64_of_Z 1.

(** The score from the three measurements it depends on; [old] is not used. *)
Definition score_of (since latency rssi : Z) : float64 :=
  let score := score_base in
  let score := if since <? 30 * second then f64_add score score_fresh else score in
  let score :=
    if latency <? 10 * millisecond then f64_add score score_strong
    else if latency <? 50 * millisecond then f64_add score score_weak
    else score in
  let score :=
    if -60 <? rssi then f64_add score score_strong
    else if -80 <? rssi then f64_add score score_weak
    else score in
  if f64_lt score_cap score then score_cap else score.

Definition computeScore (now : Z) (old new : PeerInfo) : float64 :=
  score_of (time_sub now (LastSeen new)) (PeerLatency new) (RSSI new).

Definition with_Score (s : float64) (p : PeerInfo) : PeerInfo :=
  mkPeerInfo (ID p) (PublicKey p) (PeerName p) (Addrs p) (Services p) (PeerMode p) (RSSI p)
    (PeerLatency p) s (LastSeen p) (Version p).

Section manager.
Context {World : Type} `{LinkLayer World}.
Implicit Types (w : World) (m : Manager).

(** ** Events *)

(** The escalation is announced, not performed: the link it would use. *)
Definition tryEscalate w (p : PeerInfo) m : option Link :=
  snd <$> list_find (fun l => Mode l = ModeWiFiDirect /\ IsAvailable w l = true) (links m).

(** One event: the new table, the event passed to [onPeer], the escalation. *)
Definition handleEvent (now : Z) w (evt : PeerEvent) m : Manager * PeerEvent * option Link :=
  let p := Peer evt in
  let '(m, evt) :=
    match Type_ evt with
    | PeerDiscovered | PeerUpdated =>
        match peers m !! ID p with
        | Some existing =>
            let p := with_Score (computeScore now existing p) p in
            (if f64_lt (Score existing) (Score p) then with_peers (<[ID p := p]> (peers m)) m else m,
             mkPeerEvent (Type_ evt) p)
        | None =>
            let p := with_Score score_base p in
            (with_peers (<[ID p := p]> (peers m)) m, mkPeerEvent (Type_ evt) p)
        end
    | PeerLost =>
        (match peers m !! ID p with
         | Some _ => with_peers (delete (ID p) (peers m)) m
         | None => m
         end, evt)
    end in
  (m, evt,
   if autoEscalate m && (PeerMode (Peer evt) =? ModeBLE) then tryEscalate w (Peer evt) m else None).

(** The links discovery is started on. *)
Definition Run w m : list Link :=
  filter (fun l => Enabled (default zero_config (configs m !! Mode l)) = true
                   /\ IsAvailable w l = true) (links m).

(** ** The choice of a link *)

Fixpoint best_of w (ls : list Link) (prefs : list LinkMode) : option Link :=
  match prefs with
  | [] => None
  | mode :: prefs =>
      match list_find (fun l => Mode l = mode /\ IsAvailable w l = true) ls with
      | Some (_, l) => Some l
      | None => best_of w ls prefs
      end
  end.

Definition BestLink w m : option Link := best_of w (links m) (preferences m).

(** The addresses of a peer over one link, up to the first that answers. *)
Fixpoint try_addrs w (l : Link) (addrs : list bytes) : option Conn * World :=
  match addrs with
  | [] => (None, w)
  | a :: addrs =>
      match Connect w l a with
      | (Ok c, w) => (Some c, w)
      | (Err _, w) => try_addrs w l addrs
      end
  end.

Fixpoint try_links w (ls : list Link) (addrs : list bytes) : option Conn * World :=
  match ls with
  | [] => (None, w)
  | l :: ls =>
      if IsAvailable w l then
        match try_addrs w l addrs with
        | (Some c, w) => (Some c, w)
        | (None, w) => try_links w ls addrs
        end
      else try_links w ls addrs
  end.

Definition ConnectToPeer w (p : PeerInfo) m : result Conn * World :=
  let '(r, w) :=
    match linkForMode (PeerMode p) m with
    | Some l => try_addrs w l (Addrs p)
    | None => (None, w)
    end in
  match r with
  | Some c => (Ok c, w)
  | None =>
      match try_links w (links m) (Addrs p) with
      | (Some c, w) => (Ok c, w)
      | (None, w) => (Err (ErrText "no available link to reach peer"), w)
      end
  end.

(** ** Theorems *)

Lemma list_find_link_Some (P : Link -> Prop) `{forall l, Decision (P l)} ls i l :
  list_find P ls = Some (i, l) -> l ∈ ls /\ P l.
Proof. intros (Hl & HP & _)%list_find_Some. split; [by eapply list_elem_of_lookup_2|done]. Qed.

(** The best link is available and of a preferred mode, and no available link
    has a mode that is preferred to its own; there is none only when no link of
    a preferred mode is available. *)
Lemma BestLink_spec w m :
  match BestLink w m with
  | Some l =>
      l ∈ links m /\ IsAvailable w l = true /\
      exists before after, preferences m = before ++ Mode l :: after /\
        forall l', l' ∈ links m -> IsAvailable w l' = true -> Mode l' ∉ before
  | None => forall l, l ∈ links m -> IsAvailable w l = true -> Mode l ∉ preferences m
  end.
Proof.
  unfold BestLink. generalize (preferences m) as prefs.
  induction prefs as [|mode prefs IH]; simpl; [by intros l _ _ ?%elem_of_nil|].
  destruct (list_find _ (links m)) as [[i l]|] eqn:E.
  - apply list_find_link_Some in E as (Hl & HP & HA).
    split_and!; [done..|]. exists [], prefs. rewrite HP. split; [done|]. by intros l' _ _ ?%elem_of_nil.
  - apply list_find_None in E. rewrite Forall_forall in E.
    assert (forall l', l' ∈ links m -> IsAvailable w l' = true -> Mode l' <> mode) as Hno
      by (intros l' Hl' HA' Hm; by apply (E l' Hl')).
    destruct (best_of w (links m) prefs) as [l|].
    + destruct IH as (Hl & HA & before & after & -> & Hb). split_and!; [done..|].
      exists (mode :: before), after. split; [done|]. intros l' Hl' HA'.
      rewrite elem_of_cons. intros [Hm|Hm]; [by eapply Hno|by eapply Hb].
    + intros l Hl HA. rewrite elem_of_cons. intros [Hm|Hm]; [by eapply Hno|by eapply IH].
Qed.

(** ** Connecting

    On a network whose answers do not depend on the attempts made before. *)
Section stable.
Context (reach : Link -> bytes -> bool) (up : Link -> bool).
Context (Hreach : forall w l a, is_ok (fst (Connect w l a)) = reach l a).
Context (Hup : forall w l, IsAvailable w l = up l).

Lemma try_addrs_spec w l addrs :
  is_Some (fst (try_addrs w l addrs)) <-> exists a, a ∈ addrs /\ reach l a = true.
Proof.
  revert w. induction addrs as [|a addrs IH]; intros w; simpl.
  - split; [by intros []|]. by intros (a & ?%elem_of_nil & _).
  - specialize (Hreach w l a). destruct (Connect w l a) as [[c|e] w']; simpl in *.
    + split; [|by eexists]. intros _. exists a. split; [left|done].
    + rewrite IH. split; intros (b & Hb & Hr).
      * exists b. split; [by right|done].
      * rewrite elem_of_cons in Hb. destruct Hb as [->|Hb]; [congruence|by exists b].
Qed.

Lemma dial_links_spec w ls addrs :
  is_Some (fst (try_links w ls addrs)) <->
  exists l a, l ∈ ls /\ up l = true /\ a ∈ addrs /\ reach l a = true.
Proof.
  revert w. induction ls as [|l ls IH]; intros w; simpl.
  - split; [by intros []|]. by intros (l & a & ?%elem_of_nil & _).
  - assert (forall b : Prop, (exists l' a, l' ∈ l :: ls /\ up l' = true /\ a ∈ addrs /\ reach l' a = true) <->
      ((up l = true /\ exists a, a ∈ addrs /\ reach l a = true) \/
       exists l' a, l' ∈ ls /\ up l' = true /\ a ∈ addrs /\ reach l' a = true)) as Hsplit.
    { intros _. split.
      - intros (l' & a & [->|Hin]%elem_of_cons & Hu & Ha); [left; by eauto|right; by exists l', a].
      - intros [[Hu (a & Ha)]|(l' & a & Hin & Hu & Ha)]; [exists l, a|exists l', a]; rewrite elem_of_cons; tauto. }
    rewrite (Hsplit True), Hup. destruct (up l).
    + pose proof (try_addrs_spec w l addrs) as Ht.
      destruct (try_addrs w l addrs) as [[c|] w']; simpl in *.
      * split; [|by eexists]. intros _. left. split; [done|]. apply Ht. by eexists.
      * rewrite IH. split; [by right|]. intros [[_ HA%Ht]|?]; [by destruct HA|done].
    + rewrite IH. split; [by right|]. by intros [[? _]|?].
Qed.

(** A connection is made exactly if one of the peer's addresses answers over
    the link the peer was found on, or over any link that is available. *)
Lemma ConnectToPeer_spec w p m :
  is_ok (fst (ConnectToPeer w p m)) = true <->
  exists l a, a ∈ Addrs p /\ reach l a = true /\
    (linkForMode (PeerMode p) m = Some l \/ (l ∈ links m /\ up l = true)).
Proof.
  unfold ConnectToPeer. destruct (linkForMode (PeerMode p) m) as [l0|].
  - pose proof (try_addrs_spec w l0 (Addrs p)) as Ht.
    destruct (try_addrs w l0 (Addrs p)) as [[c|] w']; simpl in *; [naive_solver|].
    pose proof (dial_links_spec w' (links m) (Addrs p)) as Hl.
    destruct (try_links w' (links m) (Addrs p)) as [[c|] w'']; simpl in *; [naive_solver|].
    split; [done|]. intros (l & a & Ha & Hr & [[= ->]|[Hin Hu]]).
    + by destruct (proj2 Ht (ex_intro _ a (conj Ha Hr))).
    + assert (is_Some (None : option Conn)) as [] by (apply Hl; naive_solver). done.
  - pose proof (dial_links_spec w (links m) (Addrs p)) as Hl.
    destruct (try_links w (links m) (Addrs p)) as [[c|] w'']; simpl in *; [naive_solver|].
    split; [done|]. intros (l & a & Ha & Hr & [|[Hin Hu]]); [done|].
    assert (is_Some (None : option Conn)) as [] by (apply Hl; naive_solver). done.
Qed.
End stable.

(** ** The table of peers *)

(** The scores a table can hold, in increasing order: what the measurements
    can add up to. *)
Definition all_scores : list float64 :=
  since ← [0; 30 * second]; lat ← [0; 10 * millisecond; 50 * millisecond];
  rssi ← [-59; -79; -80]; [score_of since lat rssi].

Lemma score_of_ext since lat rssi s l r :
  (s <? 30 * second) = (since <? 30 * second) ->
  (l <? 10 * millisecond) = (lat <? 10 * millisecond) ->
  (l <? 50 * millisecond) = (lat <? 50 * millisecond) ->
  (-60 <? r) = (-60 <? rssi) -> (-80 <? r) = (-80 <? rssi) ->
  score_of since lat rssi = score_of s l r.
Proof. intros H1 H2 H3 H4 H5. unfold score_of. by rewrite H1, H2, H3, H4, H5. Qed.

Lemma score_of_in since lat rssi : score_of since lat rssi ∈ all_scores.
Proof.
  rewrite (score_of_ext since lat rssi
    (if since <? 30 * second then 0 else 30 * second)
    (if lat <? 10 * millisecond then 0 else if lat <? 50 * millisecond then 10 * millisecond else 50 * millisecond)
    (if -60 <? rssi then -59 else if -80 <? rssi then -79 else -80)).
  - unfold all_scores. 
    apply list_elem_of_bind; eexists; split; [apply list_elem_of_bind; eexists; split;
      [apply list_elem_of_bind; eexists; split; [by apply list_elem_of_singleton|]|]|].
    + destruct (-60 <? rssi); [left|]. destruct (-80 <? rssi); [right; left|right; right; left].
    + destruct (lat <? 10 * millisecond); [left|].
      destruct (lat <? 50 * millisecond); [right; left|right; right; left].
    + destruct (since <? 30 * second); [left|right; left].
  - by destruct (since <? _).
  - destruct (Z.ltb_spec lat (10 * millisecond)); [done|]. by destruct (lat <? _).
  - destruct (Z.ltb_spec lat (10 * millisecond)).
    + symmetry. apply Z.ltb_lt. unfold millisecond in *. lia.
    + by destruct (lat <? _).
  - destruct (-60 <? rssi); [done|]. by destruct (-80 <? rssi).
  - destruct (Z.ltb_spec (-60) rssi).
    + symmetry. apply Z.ltb_lt. lia.
    + by destruct (-80 <? rssi).
Qed.

(** A peer already recorded changes only to a strictly better score: the
    addresses and the time of a sighting that scores the same are dropped. *)
Lemma handleEvent_known now w evt m old :
  Type_ evt <> PeerLost -> peers m !! ID (Peer evt) = Some old ->
  let s := computeScore now old (Peer evt) in
  peers (fst (fst (handleEvent now w evt m))) =
    if f64_lt (Score old) s then <[ID (Peer evt) := with_Score s (Peer evt)]> (peers m) else peers m.
Proof.
  intros Ht Hold. unfold handleEvent. rewrite Hold.
  destruct (Type_ evt); try done; simpl; by case_match.
Qed.

Definition event_result now w evt m : Manager := fst (fst (handleEvent now w evt m)).

Definition link_wf m : Prop :=
  active m = None /\
  map_Forall (fun id p => ID p = id /\ Score p ∈ score_base :: all_scores) (peers m).

Lemma handleEvent_wf now w evt m : link_wf m -> link_wf (event_result now w evt m).
Proof.
  intros [Ha Hp]. unfold event_result, handleEvent.
  assert (forall p, Score p ∈ score_base :: all_scores ->
            link_wf (with_peers (<[ID p := p]> (peers m)) m)) as Hins.
  { intros p Hs. split; [done|]. simpl. apply map_Forall_insert_2; [|done]. done. }
  destruct (Type_ evt); simpl; destruct (peers m !! ID (Peer evt)) as [old|] eqn:E; simpl;
    try (split; done); try case_match; simpl; try (split; done).
  all: try (apply (Hins (with_Score _ (Peer evt))); simpl; (left || (right; apply score_of_in))).
  all: split; [done|]; simpl; by apply map_Forall_delete.
Qed.

(** Run from a fresh manager, the table holds every peer under its own
    identifier with a score of at least a half and below one, and no link is
    ever recorded as active. *)
Lemma link_manager_run ls prefs cfgs esc (evts : list (Z * World * PeerEvent)) :
  let m := foldl (fun m e => event_result (fst (fst e)) (snd (fst e)) (snd e) m)
             (NewManager ls prefs cfgs esc) evts in
  ActiveLink m = None /\
  map_Forall (fun id p => ID p = id /\ f64_lt (Score p) score_base = false
                          /\ f64_lt (Score p) score_cap = true) (peers m).
Proof.
  cbv zeta.
  assert (link_wf (NewManager ls prefs cfgs esc)) as Hwf
    by (split; [done|]; apply map_Forall_empty).
  generalize dependent (NewManager ls prefs cfgs esc). induction evts as [|e evts IH]; intros m Hwf; simpl.
  - destruct Hwf as [Ha Hp]. split; [done|]. eapply map_Forall_impl; [exact Hp|].
    intros id p [Hid Hs]. split; [done|].
    assert (Forall (fun s => f64_lt s score_base = false /\ f64_lt s score_cap = true)
              (score_base :: all_scores)) as HF by decide_vm.
    rewrite Forall_forall in HF. by apply HF.
  - apply IH. by apply handleEvent_wf.
Qed.

End manager.
