(* ===== verification/Discovery.v ===== *)
(** * Discovery of peers (pkg/discovery/types.go, discovery.go)

    The peer database merges what the discovery modes report; the orchestrator
    feeds it with their events and decays the peers that are lost.  The
    database keeps pointers to records that only the orchestrator writes, so it
    is a map of values here.  [BestPeers] ranges over that map: the order in
    which it does is an argument.  The clock is read once per operation. *)

From S2P Require Import Prelude Bytes Float Qos Multipath LinkManager.
Local Open Scope Z_scope.

Inductive EventType := PeerFound | PeerLost | PeerUpdated.

Record ServiceInfo := mkServiceInfo {
  svc_Name : bytes;
  Port : Z;
  TXT : gmap bytes bytes;
}.

Record PeerInfo := mkDiscovered {
  ID : bytes;
  PublicKey : bytes;
  Name : bytes;
  Addrs : list bytes;
  Services : list ServiceInfo;
  Source : bytes;
  RSSI : Z;
  Latency : Z;
  Score : float64;
  LastSeen : Z;
  FirstSeen : Z;
  Version : bytes;
}.

Record PeerEvent := mkDiscoveryEvent {
  Type_ : EventType;
  Peer : PeerInfo;
}.

#[global] Instance ServiceInfo_eq_dec : EqDecision ServiceInfo.
Proof. solve_decision. Defined.
#[global] Instance discovered_eq_dec : EqDecision PeerInfo.
Proof. solve_decision. Defined.
#[global] Instance DiscoveryEventType_eq_dec : EqDecision EventType.
Proof. solve_decision. Defined.
#[global] Instance discovery_event_eq_dec : EqDecision PeerEvent.
Proof. solve_decision. Defined.

Definition with_Addrs (a : list bytes) (p : PeerInfo) : PeerInfo :=
  mkDiscovered (ID p) (PublicKey p) (Name p) a (Services p) (Source p) (RSSI p) (Latency p)
    (Score p) (LastSeen p) (FirstSeen p) (Version p).
Definition with_Score (s : float64) (p : PeerInfo) : PeerInfo :=
  mkDiscovered (ID p) (PublicKey p) (Name p) (Addrs p) (Services p) (Source p) (RSSI p) (Latency p)
    s (LastSeen p) (FirstSeen p) (Version p).
Definition with_LastSeen (t : Z) (p : PeerInfo) : PeerInfo :=
  mkDiscovered (ID p) (PublicKey p) (Name p) (Addrs p) (Services p) (Source p) (RSSI p) (Latency p)
    (Score p) t (FirstSeen p) (Version p).
Definition with_FirstSeen (t : Z) (p : PeerInfo) : PeerInfo :=
  mkDiscovered (ID p) (PublicKey p) (Name p) (Addrs p) (Services p) (Source p) (RSSI p) (Latency p)
    (Score p) (LastSeen p) t (Version p).
Definition with_Source (s : bytes) (p : PeerInfo) : PeerInfo :=
  mkDiscovered (ID p) (PublicKey p) (Name p) (Addrs p) (Services p) s (RSSI p) (Latency p)
    (Score p) (LastSeen p) (FirstSeen p) (Version p).

(** ** The peer database *)

Abbreviation PeerDatabase := (gmap bytes PeerInfo).

Definition NewPeerDatabase : PeerDatabase := ∅.

(** The loop over [b] with the set of addresses seen. *)
Fixpoint merge_new (seen : gset bytes) (b : list bytes) : list bytes :=
  match b with
  | [] => []
  | addr :: b =>
      if decide (addr ∈ seen) then merge_new seen b else addr :: merge_new ({[addr]} ∪ seen) b
  end.

Definition mergeAddrs (a b : list bytes) : list bytes := a ++ merge_new (list_to_set a) b.

Definition Add (now : Z) (peer : PeerInfo) (db : PeerDatabase) : PeerDatabase :=
  let peer :=
    match db !! ID peer with
    | Some existing =>
        let peer := with_FirstSeen (FirstSeen existing) peer in
        let peer := if f64_lt (Score peer) (Score existing) then with_Score (Score existing) peer else peer in
        with_Addrs (mergeAddrs (Addrs existing) (Addrs peer)) peer
    | None => peer
    end in
  let peer := with_LastSeen now peer in
  let peer := if time_is_zero (FirstSeen peer) then with_FirstSeen now peer else peer in
  <[ID peer := peer]> db.

Definition Get (id : bytes) (db : PeerDatabase) : option PeerInfo := db !! id.
Definition Remove (id : bytes) (db : PeerDatabase) : PeerDatabase := delete id db.
Definition All (db : PeerDatabase) : list PeerInfo := (map_to_list db).*2.
Definition Count (db : PeerDatabase) : nat := size db.

Definition GC (now timeout : Z) (db : PeerDatabase) : nat * PeerDatabase :=
  let db' := filter (fun e => ~ (timeout < time_sub now (LastSeen (snd e)))) db in
  ((size db - size db')%nat, db').

(** ** The best peers

    Selection sort of the first [n] places. *)

Definition higher (all : list PeerInfo) (j k : nat) : bool :=
  match all !! j, all !! k with
  | Some p, Some q => f64_lt (Score q) (Score p)
  | _, _ => false
  end.

Definition max_index (all : list PeerInfo) (i : nat) : nat :=
  foldl (fun maxIdx j => if higher all j maxIdx then j else maxIdx) i (seq (S i) (length all - S i)).

Definition swap {A} (i j : nat) (l : list A) : list A :=
  match l !! i, l !! j with
  | Some x, Some y => <[j := x]> (<[i := y]> l)
  | _, _ => l
  end.

Definition select (n : nat) (all : list PeerInfo) : list PeerInfo :=
  foldl (fun all i => swap i (max_index all i) all) all (seq 0 (Nat.min n (length all))).

Definition BestPeers (order : list PeerInfo) (n : Z) : list PeerInfo :=
  if n <=? 0 then [] else take (Z.to_nat n) (select (Z.to_nat n) order).

(** ** The orchestrator *)

Record DiscoveryMode := mkMode {
  mode_Name : bytes;
  RequiresWiFi : bool;
}.

Record Orchestrator := mkOrchestrator {
  nodeID : bytes;
  db : PeerDatabase;
  linkManager : option Manager;
  modes : list DiscoveryMode;
  (** a handler is identified by a number *)
  handlers : list Z;
  stopped : bool;
}.

Definition NewOrchestrator (id : bytes) (ms : list DiscoveryMode) (lm : option Manager)
    (onPeer : option Z) : Orchestrator :=
  mkOrchestrator id NewPeerDatabase lm ms (option_list onPeer) false.

Definition with_db (d : PeerDatabase) (o : Orchestrator) : Orchestrator :=
  mkOrchestrator (nodeID o) d (linkManager o) (modes o) (handlers o) (stopped o).

Definition computeScore (now : Z) (old new : PeerInfo) : float64 :=
  score_of (time_sub now (LastSeen new)) (Latency new) (RSSI new).

Definition score_half : float64 := Eval vm_compute in f64_half.
Definition score_floor : float64 := Eval vm_compute in f64_frac 1 10.

(** The peer a sighting stores. *)
Definition sighted (now : Z) (existing : option PeerInfo) (p : PeerInfo) : PeerInfo :=
  let p :=
    match existing with
    | Some e =>
        with_Addrs (mergeAddrs (Addrs e) (Addrs p))
          (with_FirstSeen (FirstSeen e) (with_Score (computeScore now e p) p))
    | None => with_FirstSeen now (with_Score score_base p)
    end in
  with_LastSeen now p.

(** One event: the orchestrator, and the handlers called with the event. *)
Definition handleEvent (now : Z) (evt : PeerEvent) (o : Orchestrator)
    : Orchestrator * list (Z * PeerEvent) :=
  let notify evt := map (fun h => (h, evt)) (handlers o) in
  let p := Peer evt in
  match Type_ evt with
  | PeerFound | PeerUpdated =>
      let existing := Get (ID p) (db o) in
      if decide (ID p = nodeID o) then (o, [])
      else
        let p := sighted now existing p in
        (with_db (Add now p (db o)) o, notify (mkDiscoveryEvent (Type_ evt) p))
  | PeerLost =>
      (match Get (ID p) (db o) with
       | Some peer =>
           let peer := with_Score (f64_mul (Score peer) score_half) peer in
           let d := <[ID p := peer]> (db o) in
           with_db (if f64_lt (Score peer) score_floor then Remove (ID p) d else d) o
       | None => o
       end, notify evt)
  end.

(** An event of a mode is passed on under the name of the mode. *)
Definition consumeModeEvent (now : Z) (name : bytes) (evt : PeerEvent) (o : Orchestrator)
    : Orchestrator * list (Z * PeerEvent) :=
  handleEvent now (mkDiscoveryEvent (Type_ evt) (with_Source name (Peer evt))) o.

Definition gcTick (now : Z) (o : Orchestrator) : Orchestrator :=
  with_db (snd (GC now (5 * minute) (db o))) o.

Definition OnPeer (h : Z) (o : Orchestrator) : Orchestrator :=
  mkOrchestrator (nodeID o) (db o) (linkManager o) (modes o) (handlers o ++ [h]) (stopped o).

(** Stopping, and the modes that are told to stop. *)
Definition Stop (o : Orchestrator) : Orchestrator * list DiscoveryMode :=
  if stopped o then (o, [])
  else (mkOrchestrator (nodeID o) (db o) (linkManager o) (modes o) (handlers o) true, modes o).

Definition hasWiFi {World} `{LinkLayer World} (w : World) (o : Orchestrator) : bool :=
  match linkManager o with
  | None => true
  | Some lm =>
      match BestLink w lm with
      | None => false
      | Some best => (Mode best =? ModeWiFiStation) || (Mode best =? ModeWiFiDirect)
      end
  end.

(** The modes whose events are consumed; [start] says which of them start. *)
Definition Run {World} `{LinkLayer World} (start : DiscoveryMode -> bool) (w : World)
    (o : Orchestrator) : list DiscoveryMode :=
  filter (fun m => (RequiresWiFi m && negb (hasWiFi w o))%bool = false /\ start m = true) (modes o).

(** What happens to an orchestrator, at non-decreasing times. *)
Inductive reachable (id : bytes) : Z -> Orchestrator -> Prop :=
| reach_new now ms lm h :
    0 < now -> reachable id now (NewOrchestrator id ms lm h)
| reach_event t now o evt :
    reachable id t o -> t <= now -> reachable id now (fst (handleEvent now evt o))
| reach_gc t now o :
    reachable id t o -> t <= now -> reachable id now (gcTick now o)
| reach_handler t o h :
    reachable id t o -> reachable id t (OnPeer h o)
| reach_stop t o :
    reachable id t o -> reachable id t (fst (Stop o)).

(** ** Merging addresses *)

Lemma elem_of_merge_new seen b x : x ∈ merge_new seen b <-> x ∈ b /\ x ∉ seen.
Proof.
  revert seen. induction b as [|y b IH]; intros seen; simpl; [set_solver|].
  case_decide; [rewrite IH; set_solver|]. rewrite !elem_of_cons, IH. set_unfold.
  destruct (decide (x = y)); naive_solver.
Qed.

Lemma NoDup_merge_new seen b : NoDup (merge_new seen b).
Proof.
  revert seen. induction b as [|y b IH]; intros seen; simpl; [constructor|].
  case_decide; [done|]. constructor; [|done]. rewrite elem_of_merge_new. set_solver.
Qed.

Lemma merge_new_id seen b : NoDup b -> (forall x, x ∈ b -> x ∉ seen) -> merge_new seen b = b.
Proof.
  intros Hb. revert seen. induction Hb as [|y b Hy Hb IH]; intros seen Hs; simpl; [done|].
  rewrite decide_False by (apply Hs; left). f_equal. apply IH. set_solver.
Qed.

Lemma merge_new_skip seen l b : (forall x, x ∈ l -> x ∈ seen) -> merge_new seen (l ++ b) = merge_new seen b.
Proof.
  induction l as [|y l IH]; intros Hl; simpl; [done|].
  rewrite decide_True by (apply Hl; left). apply IH. set_solver.
Qed.

Lemma elem_of_mergeAddrs a b x : x ∈ mergeAddrs a b <-> x ∈ a \/ x ∈ b.
Proof.
  unfold mergeAddrs. rewrite elem_of_app, elem_of_merge_new, elem_of_list_to_set.
  destruct (decide (x ∈ a)); tauto.
Qed.

Lemma NoDup_mergeAddrs a b : NoDup a -> NoDup (mergeAddrs a b).
Proof.
  intros Ha. unfold mergeAddrs. apply NoDup_app. split_and!; [done| |apply NoDup_merge_new].
  intros x Hx. rewrite elem_of_merge_new, elem_of_list_to_set. tauto.
Qed.

(** The database merges addresses that the orchestrator has merged already. *)
Lemma mergeAddrs_again a b : mergeAddrs a (mergeAddrs a b) = mergeAddrs a b.
Proof.
  unfold mergeAddrs. f_equal. rewrite merge_new_skip by set_solver.
  apply merge_new_id; [apply NoDup_merge_new|]. intros x. rewrite elem_of_merge_new. tauto.
Qed.

(** ** The selection sort *)

Definition not_below (p q : PeerInfo) : Prop := f64_lt (Score p) (Score q) = false.
Definition rated (p : PeerInfo) : Prop := f64_is_nan (Score p) = false.

Lemma not_below_trans p q r : rated q -> not_below p q -> not_below q r -> not_below p r.
Proof. apply f64_ge_trans. Qed.

Lemma max_scan_spec all i k :
  Forall rated all -> (i + k < length all)%nat ->
  let m := foldl (fun maxIdx j => if higher all j maxIdx then j else maxIdx) i (seq (S i) k) in
  (i <= m <= i + k)%nat /\
  exists y, all !! m = Some y /\
    forall j z, (i <= j <= i + k)%nat -> all !! j = Some z -> not_below y z.
Proof.
  intros Hr. induction k as [|k IH]; intros Hlen; cbv zeta.
  - simpl. split; [lia|]. destruct (lookup_lt_is_Some_2 all i ltac:(lia)) as [y Hy].
    exists y. split; [done|]. intros j z Hj Hz. assert (j = i) as -> by lia.
    simplify_eq. apply f64_lt_irrefl.
  - rewrite seq_S, foldl_app. specialize (IH ltac:(lia)). cbv zeta in IH.
    destruct IH as (Hm & y & Hy & Hmax). revert Hm Hy Hmax.
    generalize (foldl (fun maxIdx j => if higher all j maxIdx then j else maxIdx) i (seq (S i) k)).
    intros m Hm Hy Hmax. cbn [foldl].
    destruct (lookup_lt_is_Some_2 all (S i + k) ltac:(lia)) as [q Hq].
    unfold higher. rewrite Hq, Hy. destruct (f64_lt (Score y) (Score q)) eqn:E.
    + split; [lia|]. exists q. split; [done|]. intros j z Hj Hz.
      destruct (decide (j = S i + k)%nat) as [->|]; [simplify_eq; apply f64_lt_irrefl|].
      eapply not_below_trans; [|by apply f64_lt_asym|eapply Hmax; [|done]; lia].
      rewrite Forall_forall in Hr. apply Hr. by eapply list_elem_of_lookup_2.
    + split; [lia|]. exists y. split; [done|]. intros j z Hj Hz.
      destruct (decide (j = S i + k)%nat) as [->|]; [by simplify_eq|]. eapply Hmax; [|done]. lia.
Qed.

Lemma swap_suffix {A} (pre suf : list A) x m y :
  (length pre <= m)%nat -> (pre ++ x :: suf) !! m = Some y ->
  exists suf', swap (length pre) m (pre ++ x :: suf) = pre ++ y :: suf' /\ y :: suf' ≡ₚ x :: suf.
Proof.
  intros Hm Hy. unfold swap. rewrite list_lookup_middle by done. rewrite Hy.
  rewrite insert_app_r_alt, Nat.sub_diag by lia.
  rewrite lookup_app_r in Hy by lia. rewrite insert_app_r_alt by lia. cbn [list_insert insert].
  destruct (m - length pre)%nat as [|k] eqn:E; simpl in *.
  - simplify_eq. by exists suf.
  - exists (<[k := x]> suf). split; [done|].
    apply list_elem_of_split_length in Hy as (l1 & l2 & -> & ->).
    rewrite insert_app_r_alt, Nat.sub_diag by lia. simpl. rewrite <- !Permutation_middle.
    apply perm_swap.
Qed.

(** After [i] rounds: the first [i] places are sorted and above the rest. *)
Definition selected (all : list PeerInfo) (i : nat) (l : list PeerInfo) : Prop :=
  l ≡ₚ all /\ StronglySorted not_below (take i l) /\
  forall p q, p ∈ take i l -> q ∈ drop i l -> not_below p q.

Lemma StronglySorted_snoc {A} (R : A -> A -> Prop) l x :
  StronglySorted R l -> (forall y, y ∈ l -> R y x) -> StronglySorted R (l ++ [x]).
Proof.
  induction 1 as [|z l Hl IH Hz]; intros Hx; simpl; constructor.
  - constructor.
  - constructor.
  - apply IH. intros y Hy. apply Hx. by right.
  - rewrite Forall_app. split; [done|]. constructor; [|done]. apply Hx. left.
Qed.

Lemma select_round all i l :
  Forall rated all -> (i < length all)%nat -> selected all i l ->
  selected all (S i) (swap i (max_index l i) l).
Proof.
  intros Hr Hi (Hp & Hs & Hb).
  assert (length l = length all) as Hlen by by rewrite Hp.
  assert (Forall rated l) as Hrl by by rewrite Hp.
  destruct (max_scan_spec l i (length l - S i)) as (Hm & y & Hy & Hmax); [done|lia|].
  fold (max_index l i) in Hm, Hy.
  destruct (lookup_lt_is_Some_2 l i ltac:(lia)) as [x Hx].
  pose proof (take_drop_middle l i x Hx) as Hsplit.
  assert (length (take i l) = i) as Hti by (rewrite length_take; lia).
  destruct (swap_suffix (take i l) (drop (S i) l) x (max_index l i) y) as (suf' & Hsw & Hperm);
    [lia|by rewrite Hsplit|].
  rewrite Hsplit, Hti in Hsw. rewrite Hsw. unfold selected.
  assert (drop i l = x :: drop (S i) l) as Hd by (rewrite <- Hsplit at 1; by rewrite drop_app_exact).
  assert (forall q, q ∈ y :: suf' -> not_below y q) as Hymax.
  { intros q Hq. rewrite Hperm, <- Hd in Hq. apply list_elem_of_lookup in Hq as [k Hk].
    rewrite lookup_drop in Hk. eapply Hmax; [|done]. apply lookup_lt_Some in Hk. lia. }
  assert (take (S i) (take i l ++ y :: suf') = take i l ++ [y]) as ->.
  { rewrite take_app_ge by lia. rewrite Hti. by replace (S i - i)%nat with 1%nat by lia. }
  assert (drop (S i) (take i l ++ y :: suf') = suf') as ->.
  { rewrite drop_app_ge by lia. rewrite Hti. by replace (S i - i)%nat with 1%nat by lia. }
  split_and!.
  - rewrite Hperm, Hsplit. done.
  - apply StronglySorted_snoc; [done|]. intros p Hpp. apply Hb; [done|].
    rewrite Hd, <- Hperm. left.
  - intros p q. rewrite elem_of_app, list_elem_of_singleton. intros [Hpp| ->] Hq.
    + apply Hb; [done|]. rewrite Hd, <- Hperm. by right.
    + apply Hymax. by right.
Qed.

Lemma select_spec n all : Forall rated all -> selected all (Nat.min n (length all)) (select n all).
Proof.
  intros Hr. unfold select.
  assert (Nat.min n (length all) <= length all)%nat as Hle by lia.
  generalize dependent (Nat.min n (length all)). intros k. induction k as [|k IH]; intros Hle.
  - split_and!; [done|constructor|]. intros p q Hp. simpl in Hp. by apply elem_of_nil in Hp.
  - rewrite seq_S, foldl_app. cbn [foldl]. apply select_round; [done|lia|]. apply IH. lia.
Qed.

(** The best peers are distinct entries of the database in the order of their
    scores, as many as asked for when there are enough, and none that is left
    out has a higher score. *)
Lemma BestPeers_spec d order n :
  order ≡ₚ All d -> map_Forall (fun _ => rated) d ->
  exists rest, BestPeers order n ++ rest ≡ₚ All d /\
    length (BestPeers order n) = Nat.min (Z.to_nat n) (Count d) /\
    StronglySorted not_below (BestPeers order n) /\
    forall p q, p ∈ BestPeers order n -> q ∈ rest -> not_below p q.
Proof.
  intros Ho Hr.
  assert (length order = Count d) as Hlen
    by (rewrite Ho; unfold All, Count; by rewrite length_fmap, length_map_to_list).
  unfold BestPeers. destruct (Z.leb_spec n 0).
  { exists (All d). replace (Z.to_nat n) with 0%nat by lia. simpl.
    split_and!; [done..|constructor|]. by intros p q ?%elem_of_nil. }
  destruct (select_spec (Z.to_nat n) order) as (Hp & Hs & Hb).
  { rewrite Ho. unfold All. rewrite Forall_fmap. apply map_Forall_to_list in Hr.
    eapply Forall_impl; [exact Hr|]. intros [] ?. done. }
  assert (length (select (Z.to_nat n) order) = length order) as Hl by by rewrite Hp.
  assert (take (Nat.min (Z.to_nat n) (length order)) (select (Z.to_nat n) order) =
          take (Z.to_nat n) (select (Z.to_nat n) order)) as Ht.
  { destruct (decide (Z.to_nat n <= length order)%nat); [by rewrite Nat.min_l by lia|].
    rewrite Nat.min_r by lia. rewrite !take_ge by lia. done. }
  rewrite Ht in Hs, Hb. exists (drop (Nat.min (Z.to_nat n) (length order)) (select (Z.to_nat n) order)).
  split_and!; [|rewrite length_take; lia|done|done].
  rewrite <- Ht, take_drop. by rewrite Hp, Ho.
Qed.

(** ** Events *)

(** A stored score: what sightings give, possibly halved. *)
Definition base_scores : list float64 := remove_dups (score_base :: @all_scores).

Definition halve (s : float64) : float64 := f64_mul s score_half.

Definition live_scores : list float64 := Eval vm_compute in
  remove_dups (filter (fun s => f64_lt s score_floor = false)
    (s ← base_scores; [s; halve s; halve (halve s); halve (halve (halve s))])).

Lemma computeScore_live now e p : computeScore now e p ∈ live_scores.
Proof.
  assert (Forall (fun s => s ∈ live_scores) all_scores) as HF by decide_vm.
  rewrite Forall_forall in HF. apply HF, score_of_in.
Qed.

Lemma base_live : score_base ∈ live_scores.
Proof. decide_vm. Qed.

Lemma live_scores_range : Forall (fun s => f64_lt s score_floor = false /\ f64_lt s score_cap = true
  /\ f64_is_nan s = false) live_scores.
Proof. decide_vm. Qed.

Lemma live_scores_halve :
  Forall (fun s => f64_lt (halve s) score_floor = true \/ halve s ∈ live_scores) live_scores.
Proof. decide_vm. Qed.

(** Four halvings take every live score below the floor. *)
Lemma live_scores_decay :
  Forall (fun s => exists k, (k < 4)%nat /\ f64_lt (Nat.iter (S k) halve s) score_floor = true) live_scores.
Proof.
  assert (Forall (fun s => Exists (fun k => f64_lt (Nat.iter (S k) halve s) score_floor = true) (seq 0 4))
    live_scores) as HF by decide_vm.
  eapply Forall_impl; [exact HF|]. cbn beta. intros s (k & Hk & Hs)%Exists_exists.
  rewrite elem_of_seq in Hk. exists k. split; [lia|done].
Qed.

Definition entry_ok (id : bytes) (now : Z) (k : bytes) (p : PeerInfo) : Prop :=
  ID p = k /\ k <> id /\ Score p ∈ live_scores /\ 0 < FirstSeen p <= LastSeen p /\ LastSeen p <= now.

Definition disc_inv (id : bytes) (now : Z) (o : Orchestrator) : Prop :=
  nodeID o = id /\ 0 < now /\ map_Forall (entry_ok id now) (db o).

Lemma time_is_zero_pos t : 0 < t -> time_is_zero t = false.
Proof. intros Ht. apply Z.eqb_neq. lia. Qed.

#[local] Arguments time_is_zero : simpl never.
#[local] Arguments mergeAddrs : simpl never.

(** What [Add] stores after a sighting has been merged. *)
Lemma Add_sighted now p d :
  0 < now -> map_Forall (fun _ q => 0 < FirstSeen q) d ->
  Add now (sighted now (d !! ID p) p) d =
  <[ID p :=
      match d !! ID p with
      | Some e =>
          let s := computeScore now e p in
          with_LastSeen now (with_Addrs (mergeAddrs (Addrs e) (Addrs p))
            (with_FirstSeen (FirstSeen e) (with_Score (if f64_lt s (Score e) then Score e else s) p)))
      | None => with_LastSeen now (with_FirstSeen now (with_Score score_base p))
      end]> d.
Proof.
  intros Hnow Hd. unfold Add, sighted.
  destruct (d !! ID p) as [e|] eqn:E; simpl; rewrite E; simpl.
  - specialize (Hd _ _ E). simpl in Hd.
    destruct (f64_lt _ _); simpl.
    all: rewrite time_is_zero_pos, mergeAddrs_again by done; done.
  - by rewrite time_is_zero_pos.
Qed.

Lemma entry_ok_later id t now k p : t <= now -> entry_ok id t k p -> entry_ok id now k p.
Proof. intros Ht (? & ? & ? & ? & ?). split_and!; try done; lia. Qed.

Lemma disc_inv_later id t now o : t <= now -> disc_inv id t o -> disc_inv id now o.
Proof.
  intros Ht (Hn & H0 & Hd). split_and!; [done|lia|]. eapply map_Forall_impl; [exact Hd|].
  intros k p. by apply entry_ok_later.
Qed.

Lemma handleEvent_inv id now evt o : disc_inv id now o -> disc_inv id now (fst (handleEvent now evt o)).
Proof.
  intros (Hn & H0 & Hd). pose proof Hd as Hd'. unfold handleEvent, Get, Remove.
  assert (map_Forall (fun _ q => 0 < FirstSeen q) (db o)) as Hfs
    by (eapply map_Forall_impl; [exact Hd|]; intros k p (? & ? & ? & ? & ?); lia).
  assert (ID (Peer evt) <> nodeID o ->
    disc_inv id now (with_db (Add now (sighted now (db o !! ID (Peer evt)) (Peer evt)) (db o)) o)) as Hsight.
  { intros Hself. split_and!; [done..|]. simpl. rewrite Add_sighted by done.
    apply map_Forall_insert_2; [|done].
    destruct (db o !! ID (Peer evt)) as [e|] eqn:E; simpl.
    - destruct (Hd _ _ E) as (? & ? & ? & ? & ?).
      split_and!; simpl; [done|congruence| |lia..].
      case_match; [done|apply computeScore_live].
    - split_and!; simpl; [done|congruence|apply base_live|lia..]. }
  destruct (Type_ evt); simpl.
  - case_decide; [done|]. by apply Hsight.
  - destruct (db o !! ID (Peer evt)) as [p|] eqn:E; [|done]. split_and!; [done..|]. simpl.
    destruct (Hd _ _ E) as (Hid & Hk & Hs & Ht & Hl).
    pose proof live_scores_halve as HF. rewrite Forall_forall in HF.
    case_match eqn:El.
    + rewrite delete_insert_eq. by apply map_Forall_delete.
    + apply map_Forall_insert_2; [|done]. split_and!; simpl; try done; try lia.
      destruct (HF _ Hs) as [C|]; [|done]. unfold halve in C. congruence.
  - case_decide; [done|]. by apply Hsight.
Qed.

Lemma discovery_reachable_inv id now o : reachable id now o -> disc_inv id now o.
Proof.
  induction 1 as [now ms lm h H0|t now o evt _ IH Ht|t now o _ IH Ht|t o h _ IH|t o _ IH].
  - split_and!; [done..|]. apply map_Forall_empty.
  - apply handleEvent_inv. by eapply disc_inv_later.
  - destruct (disc_inv_later _ _ _ _ Ht IH) as (? & ? & Hd). split_and!; [done..|]. simpl.
    intros k p Hk. apply map_lookup_filter_Some in Hk as [Hk _]. by apply Hd.
  - destruct IH as (? & ? & ?). by split_and!.
  - destruct IH as (? & ? & ?). unfold Stop. case_match; by split_and!.
Qed.


(** A sighting of another node: its record afterwards has exactly the
    addresses known before and the ones reported, none twice if none was, the
    first time it was seen, the present as the last, and no lower score; no
    other record changes, and every handler is told. *)
Theorem discovery_sighting id t now evt o :
  reachable id t o -> t <= now -> Type_ evt <> PeerLost -> ID (Peer evt) <> id ->
  let '(o', calls) := handleEvent now evt o in
  exists p, db o' = <[ID (Peer evt) := p]> (db o) /\
    LastSeen p = now /\ calls.*1 = handlers o /\
    match db o !! ID (Peer evt) with
    | Some e =>
        (forall a, a ∈ Addrs p <-> a ∈ Addrs e \/ a ∈ Addrs (Peer evt)) /\
        (NoDup (Addrs e) -> NoDup (Addrs p)) /\
        FirstSeen p = FirstSeen e /\ not_below p e
    | None => Addrs p = Addrs (Peer evt) /\ FirstSeen p = now /\ Score p = score_base
    end.
Proof.
  intros Hr Ht Hty Hid.
  destruct (disc_inv_later _ _ _ _ Ht (discovery_reachable_inv _ _ _ Hr)) as (Hn & H0 & Hd).
  assert (map_Forall (fun _ q => 0 < FirstSeen q) (db o)) as Hfs
    by (eapply map_Forall_impl; [exact Hd|]; intros k p (? & ? & ? & ? & ?); lia).
  assert (forall evt', (map (fun h : Z => (h, evt' : PeerEvent)) (handlers o)).*1 = handlers o) as Hc
    by (intros evt'; induction (handlers o) as [|h hs IH]; simpl; [done|by f_equal]).
  unfold handleEvent, Get. destruct (Type_ evt) eqn:Ety; try done; rewrite decide_False by congruence;
    rewrite Add_sighted by done; eexists; split_and!; try done; destruct (db o !! ID (Peer evt)) as [e|];
    simpl; try done; split_and!; try done;
    try (intros; apply elem_of_mergeAddrs); try (by apply NoDup_mergeAddrs);
    unfold not_below; simpl; case_match; (done || apply f64_lt_irrefl).
Qed.

(** A record is dropped after at most four reports of its loss in a row. *)
Definition lose (evt : PeerEvent) (o : Orchestrator) (now : Z) : Orchestrator :=
  fst (handleEvent now evt o).

Lemma handleEvent_lost now evt o p :
  Type_ evt = PeerLost -> db o !! ID (Peer evt) = Some p ->
  db (fst (handleEvent now evt o)) !! ID (Peer evt) =
    if f64_lt (halve (Score p)) score_floor then None else Some (with_Score (halve (Score p)) p).
Proof.
  intros Ht Hp. unfold handleEvent, Get, Remove. rewrite Ht, Hp. simpl. unfold halve.
  case_match; [apply lookup_delete_eq|apply lookup_insert_eq].
Qed.

Lemma handleEvent_lost_none now evt o :
  Type_ evt = PeerLost -> db o !! ID (Peer evt) = None -> fst (handleEvent now evt o) = o.
Proof. intros Ht Hp. unfold handleEvent, Get. by rewrite Ht, Hp. Qed.

Lemma discovery_lost id t o evt times :
  reachable id t o -> Type_ evt = PeerLost -> length times = 4%nat ->
  db (foldl (lose evt) o times) !! ID (Peer evt) = None.
Proof.
  intros Hr Ht Hl. destruct (discovery_reachable_inv _ _ _ Hr) as (_ & _ & Hd).
  assert (forall times o, db o !! ID (Peer evt) = None -> db (foldl (lose evt) o times) !! ID (Peer evt) = None)
    as Hnone.
  { clear -Ht. intros times. induction times as [|x times IH]; intros o Ho; simpl; [done|].
    apply IH. unfold lose. by rewrite handleEvent_lost_none. }
  destruct (db o !! ID (Peer evt)) as [p|] eqn:E; [|by apply Hnone].
  destruct (Hd _ _ E) as (_ & _ & Hs & _).
  pose proof live_scores_decay as HF. rewrite Forall_forall in HF.
  destruct (HF _ Hs) as (k & Hk & Hf).
  assert (k < length times)%nat as Hk' by lia. clear -Ht E Hk' Hf Hnone.
  revert o p times E Hk' Hf. induction k as [|k IH]; intros o p [|x times] E Hk' Hf; simpl in *; try lia.
  - apply Hnone. unfold lose. by rewrite (handleEvent_lost _ _ _ p), Hf.
  - destruct (db (lose evt o x) !! ID (Peer evt)) as [q|] eqn:Eq; [|by apply Hnone].
    apply (IH _ q); [done|lia|]. unfold lose in Eq. rewrite (handleEvent_lost _ _ _ p) in Eq by done.
    case_match; simplify_eq. simpl. by rewrite Nat.iter_swap.
Qed.

(** The garbage collection keeps what was seen within the timeout. *)
Lemma GC_spec now timeout d :
  let '(n, d') := GC now timeout d in
  (forall k p, d' !! k = Some p <-> d !! k = Some p /\ time_sub now (LastSeen p) <= timeout) /\
  (n + size d' = size d)%nat.
Proof.
  unfold GC. split.
  - intros k p. rewrite map_lookup_filter_Some. simpl. split; intros [? ?]; split; (done || lia).
  - match goal with |- (?a - ?b + ?b = ?a)%nat => assert (b <= a)%nat; [|lia] end.
    apply map_subseteq_size, map_filter_subseteq.
Qed.

(** ** Witnesses *)

Module Sample.
Definition self : bytes := [byte_of 1].
Definition peer (id : Z) (addrs : list Z) (rssi : Z) : PeerInfo :=
  mkDiscovered [byte_of id] [] [] (map (fun a => [byte_of a]) addrs) [] [] rssi 0 (f64_of_Z 0) 0 0 [].
Definition fresh : Orchestrator := NewOrchestrator self [] None (Some 7).
Definition seen1 := fst (handleEvent 100 (mkDiscoveryEvent PeerFound (peer 2 [9; 8] (-90))) fresh).
Definition seen2 := fst (handleEvent 200 (mkDiscoveryEvent PeerFound (peer 3 [5] 0)) seen1).
Definition seen3 := fst (handleEvent 300 (mkDiscoveryEvent PeerUpdated (peer 3 [5; 6] 0)) seen2).
Lemma seen3_reachable : reachable self 300 seen3.
Proof.
  apply (reach_event _ 200 300 seen2); [|lia]. apply (reach_event _ 100 200 seen1); [|lia].
  apply (reach_event _ 50 100 fresh); [|lia]. apply reach_new. lia.
Qed.
End Sample.


Lemma discovery_sighting_witness :
  exists p, db (fst (handleEvent 400 (mkDiscoveryEvent PeerFound (Sample.peer 3 [6; 7] 0)) Sample.seen3))
      = <[[byte_of 3] := p]> (db Sample.seen3) /\ LastSeen p = 400.
Proof.
  destruct (discovery_sighting Sample.self 300 400 (mkDiscoveryEvent PeerFound (Sample.peer 3 [6; 7] 0))
    Sample.seen3 Sample.seen3_reachable) as (p & H1 & H2 & _); [done|done|done|].
  exists p. split; [exact H1|exact H2].
Defined.
