(* ===== verification/Dns.v ===== *)
(** * The message format of pkg/services/dns

    [ParseMessage] and [SerializeMessage] with names, compression pointers and
    records.  The reader follows a compression pointer by a recursive call and
    does not bound how often: [readName] takes fuel for the rounds of its loop
    and its recursive calls, [None] is the run that has not returned.  The
    round trip gives the fuel that is enough for what [SerializeMessage]
    writes; a pointer to itself is shown to exhaust any fuel. *)

From S2P Require Import Prelude Bytes.
Local Open Scope Z_scope.

Abbreviation RecordType := Z.

Definition TypeA : RecordType := 1.
Definition TypeNS : RecordType := 2.
Definition TypeCNAME : RecordType := 5.
Definition TypePTR : RecordType := 12.
Definition TypeMX : RecordType := 15.
Definition TypeTXT : RecordType := 16.
Definition TypeAAAA : RecordType := 28.
Definition TypeSRV : RecordType := 33.
Definition TypeHTTPS : RecordType := 65.
Definition TypeSVCB : RecordType := 64.

Record DNSHeader := mkHeader {
  h_ID : Z;
  Flags : Z;
  QDCOUNT : Z;
  ANCOUNT : Z;
  NSCOUNT : Z;
  ARCOUNT : Z;
}.

Record DNSQuestion := mkQuestion {
  q_Name : bytes;
  q_Type : RecordType;
  q_Class : Z;
}.

Record DNSRecord := mkRecord {
  r_Name : bytes;
  r_Type : RecordType;
  r_Class : Z;
  TTL : Z;
  RDLength : Z;
  RData : bytes;
}.

Record DNSMessage := mkDNSMessage {
  Header : DNSHeader;
  Questions : list DNSQuestion;
  Answers : list DNSRecord;
  Authorities : list DNSRecord;
  Additionals : list DNSRecord;
}.

#[global] Instance DNSHeader_eq_dec : EqDecision DNSHeader.
Proof. solve_decision. Defined.
#[global] Instance DNSQuestion_eq_dec : EqDecision DNSQuestion.
Proof. solve_decision. Defined.
#[global] Instance DNSRecord_eq_dec : EqDecision DNSRecord.
Proof. solve_decision. Defined.
#[global] Instance DNSMessage_eq_dec : EqDecision DNSMessage.
Proof. solve_decision. Defined.

(** ** Names *)

Definition dot : byte := Byte.x2e.

(** The loop of [splitName]; [cur] is [name[start:i]]. *)
Fixpoint split_from (cur name : bytes) : list bytes :=
  match name with
  | [] => if decide (cur = []) then [] else [cur]
  | b :: rest => if decide (b = dot) then cur :: split_from [] rest else split_from (cur ++ [b]) rest
  end.

Definition splitName (name : bytes) : list bytes := split_from [] name.

Fixpoint joinName (parts : list bytes) : bytes :=
  match parts with
  | [] => []
  | [p] => p
  | p :: rest => p ++ dot :: joinName rest
  end.

Definition encode_label (p : bytes) : bytes := byte_of (len p) :: p.

Definition encodeName (name : bytes) : bytes :=
  let name := if decide (last name = Some dot) then take (length name - 1) name else name in
  concat (encode_label <$> splitName name) ++ [Byte.x00].

(** [data[a:b]] *)
Definition slice (data : bytes) (a n : nat) : bytes := take n (drop a data).

Definition u16_at (data : bytes) (o : nat) : Z := be_get (slice data o 2).
Definition u32_at (data : bytes) (o : nat) : Z := be_get (slice data o 4).

Fixpoint readName (fuel : nat) (data : bytes) (offset : nat) (parts : list bytes)
    : option (result (bytes * nat)) :=
  match fuel with
  | O => None
  | S fuel =>
      match data !! offset with
      | None => Some (Ok (joinName parts, offset))
      | Some b =>
          let length_ := Z.to_nat (u8 b) in
          if decide (length_ = 0%nat) then Some (Ok (joinName parts, offset + 1)%nat)
          else if decide (Z.land (u8 b) 0xC0 = 0xC0) then
            if decide (length data <= offset + 1)%nat then Some (Err (ErrText "truncated pointer"))
            else
              let ptr := Z.to_nat (Z.land (u16_at data offset) 0x3FFF) in
              match readName fuel data ptr [] with
              | None => None
              | Some (Err e) => Some (Err e)
              | Some (Ok (name, _)) => Some (Ok (joinName (parts ++ [name]), offset + 2)%nat)
              end
          else
            let offset := (offset + 1)%nat in
            if decide (length data < offset + length_)%nat then Some (Err (ErrText "truncated name"))
            else readName fuel data (offset + length_) (parts ++ [slice data offset length_])
      end
  end.

(** ** Questions and records *)

Definition readQuestion (fuel : nat) (data : bytes) (offset : nat)
    : option (result (DNSQuestion * nat)) :=
  match readName fuel data offset [] with
  | None => None
  | Some (Err e) => Some (Err e)
  | Some (Ok (name, off)) =>
      if decide (length data < off + 4)%nat then Some (Err (ErrText "dns question truncated"))
      else Some (Ok (mkQuestion name (u16_at data off) (u16_at data (off + 2)), off + 4)%nat)
  end.

Definition readRecord (fuel : nat) (data : bytes) (offset : nat)
    : option (result (DNSRecord * nat)) :=
  match readName fuel data offset [] with
  | None => None
  | Some (Err e) => Some (Err e)
  | Some (Ok (name, off)) =>
      if decide (length data < off + 10)%nat then Some (Err (ErrText "dns record truncated"))
      else
        let rdlen := u16_at data (off + 8) in
        let off' := (off + 10)%nat in
        if decide (length data < off' + Z.to_nat rdlen)%nat then Some (Err (ErrText "dns rdata truncated"))
        else Some (Ok (mkRecord name (u16_at data off) (u16_at data (off + 2)) (u32_at data (off + 4))
                         rdlen (slice data off' (Z.to_nat rdlen)), (off' + Z.to_nat rdlen)%nat))
  end.

(** A loop that reads [n] items one after the other. *)
Fixpoint read_all {A} (item : nat -> option (result (A * nat))) (n : nat) (offset : nat)
    : option (result (list A * nat)) :=
  match n with
  | O => Some (Ok ([], offset))
  | S n =>
      match item offset with
      | None => None
      | Some (Err e) => Some (Err e)
      | Some (Ok (a, off)) =>
          match read_all item n off with
          | Some (Ok (l, off)) => Some (Ok (a :: l, off))
          | r => r
          end
      end
  end.

(** Sequencing of steps that may not return or fail. *)
Definition and_then {A B} (r : option (result A)) (k : A -> option (result B)) : option (result B) :=
  match r with
  | None => None
  | Some (Err e) => Some (Err e)
  | Some (Ok a) => k a
  end.

Definition parse_header (data : bytes) : DNSHeader :=
  mkHeader (u16_at data 0) (u16_at data 2) (u16_at data 4) (u16_at data 6) (u16_at data 8)
    (u16_at data 10).

Definition ParseMessage (fuel : nat) (data : bytes) : option (result DNSMessage) :=
  if decide (length data < 12)%nat then Some (Err (ErrText "dns message too short")) else
  let h := parse_header data in
  and_then (read_all (readQuestion fuel data) (Z.to_nat (QDCOUNT h)) 12) (fun '(qs, o) =>
  and_then (read_all (readRecord fuel data) (Z.to_nat (ANCOUNT h)) o) (fun '(ans, o) =>
  and_then (read_all (readRecord fuel data) (Z.to_nat (NSCOUNT h)) o) (fun '(auth, o) =>
  and_then (read_all (readRecord fuel data) (Z.to_nat (ARCOUNT h)) o) (fun '(add_, _) =>
  Some (Ok (mkDNSMessage h qs ans auth add_)))))).

Definition encode_question (q : DNSQuestion) : bytes :=
  encodeName (q_Name q) ++ be_put 2 (q_Type q) ++ be_put 2 (q_Class q).

Definition encode_record (r : DNSRecord) : bytes :=
  encodeName (r_Name r) ++ be_put 2 (r_Type r) ++ be_put 2 (r_Class r) ++ be_put 4 (TTL r)
  ++ be_put 2 (len (RData r)) ++ RData r.

Definition appendRecord (buf : bytes) (r : DNSRecord) : bytes := buf ++ encode_record r.

Definition count16 {A} (l : list A) : bytes := be_put 2 (Z.of_nat (length l)).

Definition SerializeMessage (msg : DNSMessage) : bytes :=
  let buf := be_put 2 (h_ID (Header msg)) ++ be_put 2 (Flags (Header msg))
             ++ count16 (Questions msg) ++ count16 (Answers msg)
             ++ count16 (Authorities msg) ++ count16 (Additionals msg) in
  let buf := foldl (fun b q => b ++ encode_question q) buf (Questions msg) in
  let buf := foldl appendRecord buf (Answers msg) in
  let buf := foldl appendRecord buf (Authorities msg) in
  foldl appendRecord buf (Additionals msg).

(** * Lemmas *)

(** ** Names *)

(** The names that survive: labels of 1 to 191 bytes and no final dot.  The
    reader takes every length below [0xC0] for a literal label. *)
Definition label_ok (p : bytes) : Prop := (0 < length p < 192)%nat.
Definition name_ok (name : bytes) : Prop := Forall label_ok (splitName name) /\ last name <> Some dot.

#[global] Instance name_ok_dec name : Decision (name_ok name).
Proof. unfold name_ok, label_ok. apply _. Defined.

Lemma split_from_nil cur name : split_from cur name = [] -> cur = [] /\ name = [].
Proof.
  revert cur. induction name as [|b name IH]; intros cur; simpl; [by case_decide|].
  case_decide; [done|]. intros [[]%app_nil _]%IH. done.
Qed.

Lemma joinName_cons p ps : ps <> [] -> joinName (p :: ps) = p ++ dot :: joinName ps.
Proof. by destruct ps. Qed.

Lemma joinName_split_from cur name :
  last (cur ++ name) <> Some dot -> joinName (split_from cur name) = cur ++ name.
Proof.
  revert cur. induction name as [|b name IH]; intros cur Hl; simpl.
  - rewrite app_nil_r. by case_decide; subst.
  - case_decide as Hb.
    + subst b. destruct (decide (split_from [] name = [])) as [E|E].
      { apply split_from_nil in E as [_ ->]. by rewrite last_snoc in Hl. }
      rewrite joinName_cons by done. f_equal. f_equal. apply (IH []).
      destruct name as [|c name]; [done|]. intros Hd. apply Hl.
      change (dot :: c :: name) with ([dot] ++ c :: name). by rewrite app_assoc, last_app_cons.
    + rewrite IH by by rewrite <- app_assoc. by rewrite <- app_assoc.
Qed.

Lemma pointer_bits b : Z.land (u8 b) 0xC0 = 0xC0 <-> 192 <= u8 b.
Proof. destruct b; vm_compute; split; congruence. Qed.

Lemma slice_app pre x post a n :
  length pre = a -> length x = n -> slice (pre ++ x ++ post) a n = x.
Proof. intros <- <-. unfold slice. by rewrite drop_app_length, take_app_length. Qed.

Lemma length_encode_label p : length (encode_label p) = S (length p).
Proof. done. Qed.

Lemma length_labels ps : (length ps <= length (concat (encode_label <$> ps)))%nat.
Proof.
  induction ps as [|p ps IH]; [simpl; lia|]. rewrite fmap_cons. cbn [concat length].
  rewrite length_app, length_encode_label. lia.
Qed.

Lemma readName_labels fuel data pre ps post parts :
  data = pre ++ (concat (encode_label <$> ps) ++ [Byte.x00]) ++ post -> Forall label_ok ps ->
  (length ps < fuel)%nat ->
  readName fuel data (length pre) parts
  = Some (Ok (joinName (parts ++ ps), length pre + length (concat (encode_label <$> ps) ++ [Byte.x00]))%nat).
Proof.
  intros Hd Hps. revert fuel pre parts Hd.
  induction Hps as [|p ps Hp Hps IH]; intros [|fuel] pre parts Hd Hf; simpl in Hf; try lia; cbn [readName].
  - replace (data !! length pre) with (Some Byte.x00) by (by rewrite Hd; simpl; rewrite list_lookup_middle).
    simpl. by rewrite app_nil_r.
  - destruct Hp as [Hp1 Hp2].
    assert (u8 (byte_of (len p)) = len p) as Hu by (rewrite u8_byte_of; unfold len; rewrite Z.mod_small; lia).
    replace (data !! length pre) with (Some (byte_of (len p))) by (by rewrite Hd; simpl; rewrite list_lookup_middle).
    rewrite Hu. unfold len. rewrite Nat2Z.id.
    rewrite decide_False by lia. rewrite decide_False.
    2: { intros H. fold (len p) in H. rewrite <- Hu in H. apply pointer_bits in H. rewrite Hu in H. unfold len in H. lia. }
    assert (data = (pre ++ [byte_of (len p)]) ++ p ++ concat (encode_label <$> ps) ++ [Byte.x00] ++ post) as Hd1.
    { rewrite Hd. simpl. by rewrite <- !app_assoc. }
    assert (length (pre ++ [byte_of (len p)]) = length pre + 1)%nat as Hl1 by by rewrite length_app.
    rewrite decide_False by (rewrite Hd1, !length_app; simpl; lia).
    rewrite Hd1 at 2. rewrite slice_app by (simpl; lia || done).
    replace (length pre + 1 + length p)%nat with (length (pre ++ encode_label p))
      by (rewrite length_app, length_encode_label; lia).
    rewrite IH; [|rewrite Hd; simpl; by rewrite <- !app_assoc|lia].
    rewrite <- app_assoc. do 3 f_equal. rewrite fmap_cons. cbn [concat].
    rewrite !length_app, length_encode_label. lia.
Qed.

Lemma encodeName_ok name : name_ok name -> encodeName name = concat (encode_label <$> splitName name) ++ [Byte.x00].
Proof. intros [_ H]. unfold encodeName. by rewrite decide_False. Qed.

Lemma readName_encode fuel data pre name post :
  data = pre ++ encodeName name ++ post -> name_ok name -> (length data < fuel)%nat ->
  readName fuel data (length pre) [] = Some (Ok (name, length (pre ++ encodeName name))).
Proof.
  intros Hd Hn Hf. rewrite (encodeName_ok _ Hn) in *. erewrite readName_labels; [|exact Hd|apply Hn|].
  - rewrite (length_app pre), app_nil_l. unfold splitName at 1.
    rewrite (joinName_split_from [] name); [done|]. apply Hn.
  - rewrite Hd, !length_app in Hf. pose proof (length_labels (splitName name)). lia.
Qed.

(** ** Messages *)

Definition u16 (z : Z) : Prop := 0 <= z < 2 ^ 16.

Definition question_ok (q : DNSQuestion) : Prop :=
  name_ok (q_Name q) /\ u16 (q_Type q) /\ u16 (q_Class q).

Definition record_ok (r : DNSRecord) : Prop :=
  name_ok (r_Name r) /\ u16 (r_Type r) /\ u16 (r_Class r) /\ 0 <= TTL r < 2 ^ 32 /\ u16 (len (RData r)).

(** A record with the length field the data has. *)
Definition with_rdlength (r : DNSRecord) : DNSRecord :=
  mkRecord (r_Name r) (r_Type r) (r_Class r) (TTL r) (len (RData r)) (RData r).

Definition small {A} (l : list A) : Prop := u16 (Z.of_nat (length l)).

Record message_ok (msg : DNSMessage) : Prop := {
  mo_id : u16 (h_ID (Header msg));
  mo_flags : u16 (Flags (Header msg));
  mo_small : small (Questions msg) /\ small (Answers msg) /\ small (Authorities msg) /\ small (Additionals msg);
  mo_questions : Forall question_ok (Questions msg);
  mo_records : Forall record_ok (Answers msg) /\ Forall record_ok (Authorities msg) /\ Forall record_ok (Additionals msg);
}.

(** The message with the counts and lengths that [SerializeMessage] writes. *)
Definition canonical (msg : DNSMessage) : DNSMessage :=
  mkDNSMessage
    (mkHeader (h_ID (Header msg)) (Flags (Header msg)) (Z.of_nat (length (Questions msg)))
       (Z.of_nat (length (Answers msg))) (Z.of_nat (length (Authorities msg)))
       (Z.of_nat (length (Additionals msg))))
    (Questions msg) (with_rdlength <$> Answers msg) (with_rdlength <$> Authorities msg)
    (with_rdlength <$> Additionals msg).

Lemma u16_at_app pre z post a : length pre = a -> u16 z -> u16_at (pre ++ be_put 2 z ++ post) a = z.
Proof.
  intros Ha Hz. unfold u16_at. rewrite slice_app by (done || apply length_be_put). by apply be_get_put_small.
Qed.

Lemma u32_at_app pre z post a :
  length pre = a -> 0 <= z < 2 ^ 32 -> u32_at (pre ++ be_put 4 z ++ post) a = z.
Proof.
  intros Ha Hz. unfold u32_at. rewrite slice_app by (done || apply length_be_put). by apply be_get_put_small.
Qed.

Lemma readQuestion_encode fuel data pre q post :
  data = pre ++ encode_question q ++ post -> question_ok q -> (length data < fuel)%nat ->
  readQuestion fuel data (length pre) = Some (Ok (q, length (pre ++ encode_question q))).
Proof.
  intros Hd (Hn & Ht & Hc) Hf. unfold readQuestion, encode_question in *.
  rewrite <- !app_assoc in Hd. erewrite readName_encode by done. set (p := pre ++ encodeName (q_Name q)).
  assert (data = p ++ be_put 2 (q_Type q) ++ be_put 2 (q_Class q) ++ post) as Hd1 by by unfold p; rewrite <- app_assoc.
  assert (length (pre ++ encodeName (q_Name q) ++ be_put 2 (q_Type q) ++ be_put 2 (q_Class q)) = length p + 4)%nat as Hl.
  { unfold p. rewrite !length_app, !length_be_put. lia. }
  rewrite decide_False by (rewrite Hd1, !length_app, !length_be_put; lia). rewrite Hl. do 3 f_equal.
  rewrite Hd1 at 1. rewrite u16_at_app by done.
  rewrite Hd1, app_assoc, u16_at_app by (done || by rewrite length_app, length_be_put). by destruct q.
Qed.

Lemma readRecord_encode fuel data pre r post :
  data = pre ++ encode_record r ++ post -> record_ok r -> (length data < fuel)%nat ->
  readRecord fuel data (length pre) = Some (Ok (with_rdlength r, length (pre ++ encode_record r))).
Proof.
  intros Hd (Hn & Ht & Hc & Httl & Hr) Hf. unfold readRecord, encode_record in *.
  rewrite <- !app_assoc in Hd. erewrite readName_encode by done. set (p := pre ++ encodeName (r_Name r)).
  set (p2 := p ++ be_put 2 (r_Type r)). set (p4 := p2 ++ be_put 2 (r_Class r)).
  set (p8 := p4 ++ be_put 4 (TTL r)). set (p10 := p8 ++ be_put 2 (len (RData r))).
  assert (length p2 = length p + 2 /\ length p4 = length p + 4 /\ length p8 = length p + 8
          /\ length p10 = length p + 10)%nat as (L2 & L4 & L8 & L10).
  { unfold p10, p8, p4, p2. rewrite !length_app, !length_be_put. lia. }
  assert (data = p10 ++ RData r ++ post) as D10.
  { unfold p10, p8, p4, p2, p. by rewrite <- !app_assoc. }
  assert (u16_at data (length p) = r_Type r) as ->.
  { rewrite D10. unfold p10, p8, p4, p2. rewrite <- !app_assoc. by apply u16_at_app. }
  assert (u16_at data (length p + 2) = r_Class r) as ->.
  { rewrite D10, <- L2. unfold p10, p8, p4. rewrite <- !app_assoc. by apply u16_at_app. }
  assert (u32_at data (length p + 4) = TTL r) as ->.
  { rewrite D10, <- L4. unfold p10, p8. rewrite <- !app_assoc. by apply u32_at_app. }
  assert (u16_at data (length p + 8) = len (RData r)) as ->.
  { rewrite D10, <- L8. unfold p10. rewrite <- !app_assoc. by apply u16_at_app. }
  assert (Z.to_nat (len (RData r)) = length (RData r)) as -> by (unfold len; lia).
  assert (length data = length p + 10 + length (RData r) + length post)%nat as Ld.
  { rewrite D10, !length_app. lia. }
  rewrite !decide_False by lia. rewrite D10, slice_app by done. do 3 f_equal. f_equal.
  unfold p10, p8, p4, p2, p in *. rewrite !length_app, !length_be_put in *. lia.
Qed.

Lemma read_all_encode {A} (item : nat -> option (result (A * nat))) (enc : A -> bytes) (norm : A -> A)
    (P : A -> Prop) data l :
  (forall pre x post, data = pre ++ enc x ++ post -> P x ->
     item (length pre) = Some (Ok (norm x, length (pre ++ enc x)))) ->
  forall pre post, data = pre ++ concat (enc <$> l) ++ post -> Forall P l ->
  read_all item (length l) (length pre) = Some (Ok (norm <$> l, length (pre ++ concat (enc <$> l)))).
Proof.
  intros Hi. induction l as [|x l IH]; intros pre post Hd HP; cbn [read_all length].
  - simpl. by rewrite app_nil_r.
  - apply Forall_cons in HP as [Hx Hl]. rewrite fmap_cons in Hd. cbn [concat] in Hd. rewrite <- app_assoc in Hd.
    erewrite Hi by done. erewrite (IH (pre ++ enc x) post) by (done || by rewrite <- app_assoc).
    rewrite !fmap_cons. cbn [concat]. by rewrite <- app_assoc.
Qed.

Lemma foldl_append {A} (f : A -> bytes) b l : foldl (fun b x => b ++ f x) b l = b ++ concat (f <$> l).
Proof.
  revert b. induction l as [|x l IH]; intros b; simpl; [by rewrite app_nil_r|]. by rewrite IH, <- app_assoc.
Qed.

Definition header_bytes (msg : DNSMessage) : bytes :=
  be_put 2 (h_ID (Header msg)) ++ be_put 2 (Flags (Header msg)) ++ count16 (Questions msg)
  ++ count16 (Answers msg) ++ count16 (Authorities msg) ++ count16 (Additionals msg).

Lemma length_header_bytes msg : length (header_bytes msg) = 12%nat.
Proof. unfold header_bytes, count16. by rewrite !length_app, !length_be_put. Qed.

Lemma SerializeMessage_eq msg :
  SerializeMessage msg
  = header_bytes msg ++ concat (encode_question <$> Questions msg) ++ concat (encode_record <$> Answers msg)
    ++ concat (encode_record <$> Authorities msg) ++ concat (encode_record <$> Additionals msg).
Proof.
  unfold SerializeMessage, appendRecord. rewrite !foldl_append. unfold header_bytes. by rewrite <- !app_assoc.
Qed.

Lemma parse_header_bytes msg rest :
  message_ok msg -> parse_header (header_bytes msg ++ rest) = Header (canonical msg).
Proof.
  intros [Hi Hf (H1 & H2 & H3 & H4) _ _]. unfold parse_header, header_bytes, count16, small in *.
  set (a0 := be_put 2 (h_ID (Header msg))). set (a1 := be_put 2 (Flags (Header msg))).
  set (a2 := be_put 2 (Z.of_nat (length (Questions msg)))). set (a3 := be_put 2 (Z.of_nat (length (Answers msg)))).
  set (a4 := be_put 2 (Z.of_nat (length (Authorities msg)))).
  assert (length a0 = 2 /\ length a1 = 2 /\ length a2 = 2 /\ length a3 = 2 /\ length a4 = 2)%nat
    as (L0 & L1 & L2 & L3 & L4) by (repeat split; apply length_be_put).
  rewrite <- !app_assoc. unfold canonical. cbn [Header]. f_equal.
  - by apply (u16_at_app []).
  - by apply (u16_at_app a0).
  - rewrite (app_assoc a0). apply (u16_at_app (a0 ++ a1)); [rewrite length_app; lia|done].
  - rewrite (app_assoc a0), (app_assoc (a0 ++ a1)).
    apply (u16_at_app ((a0 ++ a1) ++ a2)); [rewrite !length_app; lia|done].
  - rewrite (app_assoc a0), (app_assoc (a0 ++ a1)), (app_assoc ((a0 ++ a1) ++ a2)).
    apply (u16_at_app (((a0 ++ a1) ++ a2) ++ a3)); [rewrite !length_app; lia|done].
  - rewrite (app_assoc a0), (app_assoc (a0 ++ a1)), (app_assoc ((a0 ++ a1) ++ a2)),
      (app_assoc (((a0 ++ a1) ++ a2) ++ a3)).
    apply (u16_at_app ((((a0 ++ a1) ++ a2) ++ a3) ++ a4)); [rewrite !length_app; lia|done].
Qed.

(** C35: A message is read back as it was written: for every message whose
    numbers fit their fields and whose names have labels of 1 to 191 bytes,
    [ParseMessage] of what [SerializeMessage] writes returns (the fuel is more
    than the length of the data) the message, with the counts of the header
    and the lengths of the records set to what they are. *)
Theorem dns_message_roundtrip msg fuel :
  message_ok msg -> (length (SerializeMessage msg) < fuel)%nat ->
  ParseMessage fuel (SerializeMessage msg) = Some (Ok (canonical msg)).
Proof.
  intros Hm Hf. set (data := SerializeMessage msg) in *. pose proof (SerializeMessage_eq msg) as Hd. fold data in Hd.
  unfold ParseMessage. rewrite decide_False.
  2: { rewrite Hd, length_app, length_header_bytes. lia. }
  assert (parse_header data = Header (canonical msg)) as -> by (rewrite Hd; by apply parse_header_bytes).
  unfold canonical. cbn [Header QDCOUNT ANCOUNT NSCOUNT ARCOUNT]. rewrite !Nat2Z.id.
  destruct (mo_records _ Hm) as (Ha & Hu & Hx).
  assert (forall l pre post, data = pre ++ concat (encode_record <$> l) ++ post -> Forall record_ok l ->
            read_all (readRecord fuel data) (length l) (length pre)
            = Some (Ok (with_rdlength <$> l, length (pre ++ concat (encode_record <$> l))))) as Hrec.
  { intros l pre post. apply (read_all_encode _ _ _ record_ok). intros p x q E Hr. by eapply readRecord_encode. }
  rewrite <- (length_header_bytes msg).
  erewrite (read_all_encode (readQuestion fuel data) encode_question (fun q => q) question_ok data (Questions msg));
    [|intros p x q E Hq; by eapply readQuestion_encode|exact Hd|apply Hm].
  cbn [and_then]. erewrite Hrec; [|rewrite Hd; rewrite <- !app_assoc; reflexivity|done].
  cbn [and_then]. erewrite Hrec; [|rewrite Hd; rewrite <- !app_assoc; reflexivity|done].
  cbn [and_then]. erewrite Hrec; [|rewrite Hd; rewrite <- !app_assoc, app_nil_r; reflexivity|done].
  cbn [and_then]. by rewrite list_fmap_id.
Qed.

(** A name that is a pointer to itself is never read: [readName] calls itself
    with the same arguments.  A query of 18 bytes is enough. *)
Lemma readName_self_pointer fuel pre post o :
  length pre = o -> (o < 2 ^ 14)%nat ->
  readName fuel (pre ++ be_put 2 (0xC000 + Z.of_nat o) ++ post) o [] = None.
Proof.
  intros Ho Hb. set (data := pre ++ _ ++ post).
  assert (u16_at data o = 0xC000 + Z.of_nat o) as Hu.
  { apply u16_at_app; [done|]. change (2 ^ 14)%nat with (Z.to_nat 16384) in Hb. unfold u16. lia. }
  assert (Z.land (0xC000 + Z.of_nat o) 0x3FFF = Z.of_nat o) as Hl.
  { change 0x3FFF with (Z.ones 14). rewrite Z.land_ones by lia. change (0xC000) with (3 * 2 ^ 14).
    rewrite Z.add_comm, Z.mod_add by lia. apply Z.mod_small. change (2 ^ 14)%nat with (Z.to_nat 16384) in Hb. lia. }
  assert (exists b, data !! o = Some b /\ 192 <= u8 b) as (b & Hb0 & Hbits).
  { destruct (be_put 2 (0xC000 + Z.of_nat o)) as [|b [|b2 [|]]] eqn:E;
      try (apply (f_equal length) in E; rewrite length_be_put in E; discriminate E).
    exists b. split; [unfold data; rewrite ?E; by apply list_lookup_middle|].
    unfold data in Hu. rewrite ?E in Hu. unfold u16_at in Hu.
    rewrite (slice_app pre [b; b2] post o 2 Ho eq_refl), !be_get_cons, be_get_nil in Hu. unfold len in Hu. simpl in Hu.
    pose proof (u8_range b). pose proof (u8_range b2). lia. }
  assert (o + 2 <= length data)%nat as Hlen by (unfold data; rewrite !length_app, length_be_put; lia).
  induction fuel as [|fuel IH]; [done|]. cbn [readName]. rewrite Hb0.
  rewrite decide_False by lia. rewrite decide_True by by apply pointer_bits.
  rewrite decide_False by lia. by rewrite Hu, Hl, Nat2Z.id, IH.
Qed.

Definition looping_query : bytes :=
  (zeroes 4 ++ be_put 2 1 ++ zeroes 6) ++ be_put 2 (0xC000 + Z.of_nat 12) ++ zeroes 4.

Lemma ParseMessage_diverges fuel : ParseMessage fuel looping_query = None.
Proof.
  assert (readName fuel looping_query 12 [] = None) as H.
  { apply readName_self_pointer; [vm_compute; reflexivity|]. apply Nat.ltb_lt. vm_compute. reflexivity. }
  unfold ParseMessage. rewrite decide_False by (apply Nat.nlt_ge, Nat.leb_le; vm_compute; reflexivity).
  assert (QDCOUNT (parse_header looping_query) = 1) as E by (vm_compute; reflexivity).
  cbv zeta. rewrite E. change (Z.to_nat 1) with 1%nat. cbn [read_all]. unfold readQuestion. by rewrite H.
Qed.

(** * Witness *)

Definition ex_query : DNSMessage :=
  mkDNSMessage (mkHeader 7 0x8000 1 1 0 0) [mkQuestion (str "node.localweb") TypeA 1]
    [mkRecord (str "node.localweb") TypeA 1 60 4 (be_put 4 0x0A000001)] [] [].

Lemma dns_message_roundtrip_witness : ParseMessage 100 (SerializeMessage ex_query) = Some (Ok ex_query).
Proof.
  apply (dns_message_roundtrip ex_query 100).
  - split; [split; vm_compute; congruence|split; vm_compute; congruence| | |].
    + repeat split; vm_compute; congruence.
    + repeat constructor; try (vm_compute; congruence). all: apply Nat.ltb_lt; vm_compute; reflexivity.
    + repeat constructor; try (vm_compute; congruence). all: apply Nat.ltb_lt; vm_compute; reflexivity.
  - apply Nat.ltb_lt. vm_compute. reflexivity.
Defined.
