(* ===== verification/DnsServer.v ===== *)
(** * The name server of pkg/services/dns

    The zone, its signature, the cache and the handler of a query.  The zone is
    shared with the code that made it, which may change the records at any
    time: an edit is a step of its own.  Ed25519 is the interface of
    [Ed25519]; [parse_ip4] is the dotted form [net.ParseIP] and [To4] give of
    an address.  The start of authority and the transfer list of a zone play
    no part.  Reading the socket is not modelled: a query is the bytes of a
    datagram, the reply is what is written back. *)

From S2P Require Import Prelude Bytes Ed25519 Dns.
From stdpp Require Import pretty.
Local Open Scope Z_scope.

Definition CacheTTL : Z := 5 * minute.
Definition RNXDomain : Z := 3.

Record ResourceRecord := mkRR {
  rr_Record : DNSRecord;
  rr_Data : bytes;
}.

#[global] Instance ResourceRecord_eq_dec : EqDecision ResourceRecord.
Proof. solve_decision. Defined.

Record Zone := mkZone {
  Records : gmap bytes (list ResourceRecord);
  Signer : bytes;
  SignedAt : Z;
  Sig : bytes;
}.

Record cacheEntry := mkCached {
  ce_record : DNSRecord;
  ce_expires : Z;
}.

Record Server := mkServer {
  zone : Zone;
  cache : gmap bytes cacheEntry;
}.

#[global] Instance Zone_eq_dec : EqDecision Zone.
Proof. solve_decision. Defined.
#[global] Instance cacheEntry_eq_dec : EqDecision cacheEntry.
Proof. solve_decision. Defined.
#[global] Instance Server_eq_dec : EqDecision Server.
Proof. solve_decision. Defined.

Definition NewServer (z : Zone) : Server := mkServer z ∅.

(** ** The signed form of a zone *)

(** The comparison [sort.SliceStable] is called with. *)
Definition rr_less (a b : ResourceRecord) : bool :=
  if negb (r_Type (rr_Record a) =? r_Type (rr_Record b)) then r_Type (rr_Record a) <? r_Type (rr_Record b)
  else if negb (r_Class (rr_Record a) =? r_Class (rr_Record b))
  then r_Class (rr_Record a) <? r_Class (rr_Record b)
  else if negb (TTL (rr_Record a) =? TTL (rr_Record b)) then TTL (rr_Record a) <? TTL (rr_Record b)
  else bytes_lt (rr_Data a) (rr_Data b).

Definition rr_le (a b : ResourceRecord) : Prop := rr_less b a = false.
#[global] Instance rr_le_dec : RelDecision rr_le := fun a b => decide (_ = _).

Definition canonical_rr (name : bytes) (rr : ResourceRecord) : bytes :=
  name ++ be_put 2 (r_Type (rr_Record rr)) ++ be_put 2 (r_Class (rr_Record rr))
  ++ be_put 4 (TTL (rr_Record rr)) ++ rr_Data rr.

Definition zoneCanonical (z : Zone) : bytes :=
  let names := merge_sort bytes_le (map_to_list (Records z)).*1 in
  concat ((fun name => concat (canonical_rr name <$> merge_sort rr_le (default [] (Records z !! name)))) <$> names).

Section server.
Context `{HE : Ed25519} (parse_ip4 : bytes -> option (Z * Z * Z * Z)).

Definition SignZone (now : Z) (pub priv : bytes) (s : Server) : result unit * Server :=
  if decide (pub = zeroes 32) then (Err (ErrText "zone signer public key is empty"), s) else
  let sig := ed_sign priv (zoneCanonical (zone s)) in
  if decide (length sig <> 64%nat) then (Err (ErrText "unexpected signature length"), s) else
  (Ok tt, mkServer (mkZone (Records (zone s)) pub now sig) ∅).

(** ** Resolution *)

Definition reverseName (addr : bytes) : bytes :=
  match parse_ip4 addr with
  | None => addr
  | Some (a, b, c, d) =>
      str (pretty d) ++ str "." ++ str (pretty c) ++ str "." ++ str (pretty b) ++ str "." ++ str (pretty a)
      ++ str ".in-addr.arpa"
  end.

(** The record that is served: the record with the data of the resource
    record. *)
Definition served (rr : ResourceRecord) : DNSRecord :=
  let r := rr_Record rr in mkRecord (r_Name r) (r_Type r) (r_Class r) (TTL r) (RDLength r) (rr_Data rr).

Definition lookup_name (q : DNSQuestion) : bytes :=
  if decide (q_Type q = TypePTR) then reverseName (q_Name q) else q_Name q.

Definition resolve (z : Zone) (q : DNSQuestion) : result DNSRecord :=
  match Records z !! lookup_name q with
  | None => Err (ErrText "not found")
  | Some records =>
      if (negb (bool_decide (Signer z = zeroes 32)) && negb (ed_verify (Signer z) (zoneCanonical z) (Sig z)))%bool
      then Err (ErrText "zone signature verification failed")
      else match list_find (fun rr => r_Type (rr_Record rr) = q_Type q) records with
           | Some (_, rr) => Ok (served rr)
           | None => match records with rr :: _ => Ok (served rr) | [] => Err (ErrText "not found") end
           end
  end.

(** ** Queries *)

Definition cache_key (q : DNSQuestion) : bytes := take 255 (q_Name q).

(** The response to a question, before it is written out. *)
Definition respond (now id : Z) (q : DNSQuestion) (s : Server) : DNSMessage * Server :=
  let reply flags answers := mkDNSMessage (mkHeader id flags 1 0 0 0) [q] answers [] [] in
  let fresh :=
    match resolve (zone s) q with
    | Err _ => (reply (Z.lor 0x8000 (Z.shiftl RNXDomain 3)) [], s)
    | Ok r =>
        (reply 0x8000 [r],
         if Z.of_nat (size (cache s)) <? 10000
         then mkServer (zone s) (<[cache_key q := mkCached r (time_add now CacheTTL)]> (cache s))
         else s)
    end in
  match cache s !! cache_key q with
  | Some e => if time_before now (ce_expires e) then (reply 0x8000 [ce_record e], s) else fresh
  | None => fresh
  end.

(** [None]: the handler has not returned with this fuel; no bytes: nothing is
    sent. *)
Definition handleQuery (fuel : nat) (now : Z) (data : bytes) (s : Server) : option (option bytes * Server) :=
  match ParseMessage fuel data with
  | None => None
  | Some (Err _) => Some (None, s)
  | Some (Ok msg) =>
      match Questions msg with
      | [] => Some (None, s)
      | q :: _ => let '(r, s) := respond now (h_ID (Header msg)) q s in Some (Some (SerializeMessage r), s)
      end
  end.

(** ** Runs *)

(** A server with the zones it has resolved from, and when. *)
Inductive dns_step : Server * list (Z * Zone) -> Server * list (Z * Zone) -> Prop :=
| step_query fuel now data s reply s' hist :
    handleQuery fuel now data s = Some (reply, s') ->
    dns_step (s, hist) (s', (now, zone s) :: hist)
| step_sign now pub priv s hist : dns_step (s, hist) ((SignZone now pub priv s).2, hist)
| step_edit recs s hist :
    dns_step (s, hist)
      (mkServer (mkZone recs (Signer (zone s)) (SignedAt (zone s)) (Sig (zone s))) (cache s), hist).

(** [r] is what zone [z] has for [q], and its signature holds if it is signed. *)
Definition vouched (z : Zone) (q : DNSQuestion) (r : DNSRecord) : Prop :=
  (exists rrs rr, Records z !! lookup_name q = Some rrs /\ rr ∈ rrs /\ r = served rr)
  /\ (Signer z <> zeroes 32 -> ed_verify (Signer z) (zoneCanonical z) (Sig z) = true).

Lemma resolve_vouched z q r : resolve z q = Ok r -> vouched z q r.
Proof.
  unfold resolve. destruct (Records z !! lookup_name q) as [rrs|] eqn:E; [|done].
  destruct (negb _ && negb _)%bool eqn:Ev; [done|]. intros H. split.
  - exists rrs. destruct (list_find _ rrs) as [[i rr]|] eqn:Ef.
    + apply list_find_Some in Ef as (Hi & _ & _). exists rr. split; [done|]. split; [|congruence].
      by eapply list_elem_of_lookup_2.
    + destruct rrs as [|rr rrs]; [done|]. exists rr. split; [done|]. split; [left|congruence].
  - intros Hs. apply andb_false_iff in Ev as [Ev|Ev]; apply negb_false_iff in Ev; [|done].
    by apply bool_decide_eq_true in Ev.
Qed.

(** Every cached answer was vouched for by a zone the server had when it was
    resolved. *)
Definition cache_ok (s : Server) (hist : list (Z * Zone)) : Prop :=
  Z.of_nat (size (cache s)) <= 10000
  /\ forall k e, cache s !! k = Some e -> exists t z q,
       (t, z) ∈ hist /\ cache_key q = k /\ vouched z q (ce_record e) /\ ce_expires e = t + CacheTTL.

Lemma respond_cases now i q s :
  let '(r, s') := respond now i q s in
  zone s' = zone s /\ Questions r = [q] /\ h_ID (Header r) = i /\
  ((Answers r = [] /\ cache s' = cache s)
   \/ (exists e, cache s !! cache_key q = Some e /\ now < ce_expires e /\ Answers r = [ce_record e]
                 /\ cache s' = cache s)
   \/ (exists x, resolve (zone s) q = Ok x /\ Answers r = [x]
                 /\ (cache s' = cache s
                     \/ Z.of_nat (size (cache s)) < 10000
                        /\ cache s' = <[cache_key q := mkCached x (now + CacheTTL)]> (cache s)))).
Proof.
  unfold respond.
  destruct (cache s !! cache_key q) as [e|] eqn:Ec; [destruct (time_before now (ce_expires e)) eqn:Et|].
  { repeat split. right. left. exists e. unfold time_before in Et. apply Z.ltb_lt in Et. done. }
  all: destruct (resolve (zone s) q) as [x|] eqn:Er; [|by repeat split; left].
  all: destruct (Z.of_nat (size (cache s)) <? 10000) eqn:Es; repeat split; right; right; exists x;
    repeat split; [right|by left].
  all: by apply Z.ltb_lt in Es.
Qed.

Lemma dns_step_ok st st' : dns_step st st' -> cache_ok st.1 st.2 -> cache_ok st'.1 st'.2.
Proof.
  intros H [Hsz Hc]. destruct H as [fuel now data s reply s' hist E|now pub priv s hist|recs s hist]; simpl in *.
  - assert (cache_ok s ((now, zone s) :: hist)) as Hs.
    { split; [done|]. intros k e Hk. destruct (Hc k e Hk) as (t & z & q & Ht & Hq). exists t, z, q.
      split; [by right|done]. }
    unfold handleQuery in E. destruct (ParseMessage fuel data) as [[msg|]|]; [|by simplify_eq|done].
    destruct (Questions msg) as [|q qs]; [by simplify_eq|].
    pose proof (respond_cases now (h_ID (Header msg)) q s) as Hr.
    destruct (respond now (h_ID (Header msg)) q s) as [r s1]. simplify_eq.
    destruct Hr as (_ & _ & _ & [[_ Hch]|[(e & _ & _ & _ & Hch)|(x & Hx & _ & [Hch|[Hlt Hch]])]]);
      unfold cache_ok; rewrite Hch; try exact Hs. split.
    + rewrite map_size_insert. destruct (cache s !! cache_key q); simpl; lia.
    + intros k e. destruct (decide (cache_key q = k)) as [<-|Hn].
      * rewrite lookup_insert_eq. intros [= <-]. exists now, (zone s), q. split; [left|].
        split; [done|]. split; [by apply resolve_vouched|done].
      * rewrite lookup_insert_ne by done. apply Hs.
  - unfold SignZone. by repeat case_decide.
  - by split.
Qed.

(** C24: Every answer is vouched for.  However queries, signings and edits of
    the zone follow each other, an answer comes from the records under the
    name asked for (cut to 255 bytes) of the zone as it was when the query
    came in, or as it was at an earlier query less than five minutes old; if
    that zone had a signer, its signature covered the records then.  The
    cache never holds more than 10000 answers. *)
Theorem dns_answers_vouched z s hist now id q r :
  rtc dns_step (NewServer z, []) (s, hist) -> r ∈ Answers (respond now id q s).1 ->
  Z.of_nat (size (cache s)) <= 10000
  /\ exists t z' q', cache_key q' = cache_key q /\ vouched z' q' r
     /\ ((t, z') = (now, zone s) \/ ((t, z') ∈ hist /\ now < t + CacheTTL)).
Proof.
  intros H Hr. assert (cache_ok s hist) as [Hsz Hc].
  { change (cache_ok (s, hist).1 (s, hist).2). revert H. generalize (s, hist). apply rtc_ind_r.
    - split; simpl; [rewrite map_size_empty; lia|]. intros k e. by rewrite lookup_empty.
    - intros st st' _ Hs IH. by eapply dns_step_ok. }
  split; [done|]. pose proof (respond_cases now id q s) as Hcs.
  destruct (respond now id q s) as [m s1]. simpl in Hr.
  destruct Hcs as (_ & _ & _ & [[Ha _]|[(e & He & Hlt & Ha & _)|(x & Hx & Ha & _)]]); rewrite Ha in Hr.
  - by apply elem_of_nil in Hr.
  - apply list_elem_of_singleton in Hr as ->. destruct (Hc _ _ He) as (t & z' & q' & Ht & Hk & Hv & Hexp).
    exists t, z', q'. split; [done|]. split; [done|]. right. split; [done|]. by rewrite <- Hexp.
  - apply list_elem_of_singleton in Hr as ->. exists now, (zone s), q. split; [done|].
    split; [by apply resolve_vouched|by left].
Qed.

End server.

(** * Witness and examples *)

#[local] Existing Instance toy_ed25519.

Definition no_ip (_ : bytes) : option (Z * Z * Z * Z) := None.

Definition ex_rr (name : bytes) (t : RecordType) (data : bytes) : ResourceRecord :=
  mkRR (mkRecord name t 1 60 (len data) []) data.

Definition ex_name : bytes := str "n.localweb".

Definition ex_zone : Zone :=
  mkZone {[ex_name := [ex_rr ex_name TypeA (str "addr"); ex_rr ex_name TypeTXT (str "text")]]} (zeroes 32) 0 (zeroes 64).

(** The zone, signed. *)
Definition ex_server : Server := (SignZone 5 (repeat Byte.x01 32) (repeat Byte.x01 32) (NewServer ex_zone)).2.

Definition ex_question (t : RecordType) : DNSQuestion := mkQuestion ex_name t 1.

Lemma dns_answers_vouched_witness :
  let r := mkRecord ex_name TypeTXT 1 60 4 (str "text") in
  exists t z' q', cache_key q' = cache_key (ex_question TypeTXT) /\ vouched no_ip z' q' r
    /\ ((t, z') = (9, zone ex_server) \/ ((t, z') ∈ ([] : list (Z * Zone)) /\ 9 < t + CacheTTL)).
Proof.
  refine (proj2 (dns_answers_vouched no_ip ex_zone ex_server [] 9 1 (ex_question TypeTXT) _ _ _)).
  - eapply rtc_l; [apply (step_sign no_ip 5 (repeat Byte.x01 32) (repeat Byte.x01 32))|apply rtc_refl].
  - vm_compute. left.
Defined.

(** The cache is keyed by the name alone: after a query for the address, the
    query for the text of the same name is answered with the address. *)
Lemma dns_cache_confuses_types :
  let s := (respond no_ip 9 1 (ex_question TypeA) ex_server).2 in
  resolve no_ip (zone s) (ex_question TypeTXT) = Ok (mkRecord ex_name TypeTXT 1 60 4 (str "text"))
  /\ Answers (respond no_ip 10 2 (ex_question TypeTXT) s).1 = [mkRecord ex_name TypeA 1 60 4 (str "addr")].
Proof. decide_vm. Qed.

(** A name that does not exist is answered with the response code 8 and not
    with 3, the code of NXDOMAIN: the code belongs in the lowest four bits. *)
Lemma dns_nxdomain_code :
  let r := (respond no_ip 9 1 (mkQuestion (str "other.localweb") TypeA 1) ex_server).1 in
  Answers r = [] /\ Z.land (Flags (Header r)) 0xF = 8.
Proof. decide_vm. Qed.

(** The signed form has no separators: one zone with two records and another
    in which the data of the first has swallowed the second have the same
    signed form, so the signature of one holds for the other. *)
Definition ex_merged_zone : Zone :=
  mkZone {[ex_name := [ex_rr ex_name TypeA
             (str "addr" ++ canonical_rr ex_name (ex_rr ex_name TypeTXT (str "text")))]]}
    (Signer (zone ex_server)) 5 (Sig (zone ex_server)).

Lemma dns_signed_form_ambiguous :
  let q := ex_question TypeTXT in
  zoneCanonical ex_merged_zone = zoneCanonical (zone ex_server)
  /\ ed_verify (Signer ex_merged_zone) (zoneCanonical ex_merged_zone) (Sig ex_merged_zone) = true
  /\ resolve no_ip ex_merged_zone q <> resolve no_ip (zone ex_server) q.
Proof. decide_vm. Qed.
