(* ===== verification/Docs.v ===== *)
(** * Collaborative documents (pkg/services/docs/document.go)

    A document keeps its lines, a block type for each of them, an RGA with the
    characters, and a history for undo.  Operations are whole-line edits at a
    position.  A slice expression out of range panics: an operation that can
    panic returns [None] then.  The mutex is left out (every operation holds
    it throughout), and so is the event channel. *)

From S2P Require Import Prelude Bytes Rga.
Local Open Scope Z_scope.

Abbreviation BlockType := Z.
Definition BlockParagraph : BlockType := 0.

Inductive OpType := OpInsert | OpDelete | OpFormatBlock | OpTitleChange | OpUnknown (b : byte).

Record Op := mkOp {
  o_Type : OpType;
  o_DocID : bytes;
  o_AuthorID : bytes;
  o_Position : Z;
  o_Value : bytes;
  o_BlockType : BlockType;
  o_Title : bytes;
  o_Timestamp : Z;
}.

#[global] Instance OpType_eq_dec : EqDecision OpType.
Proof. solve_decision. Defined.
#[global] Instance Op_eq_dec : EqDecision Op.
Proof. solve_decision. Defined.

Record OpResult := mkOpResult {
  Applied : bool;
  Position : Z;
  Error : option goerror;
}.

#[global] Instance OpResult_eq_dec : EqDecision OpResult.
Proof. solve_decision. Defined.

Record Document := mkDoc {
  d_id : bytes;
  d_title : bytes;
  d_rga : RGA;
  d_blockTypes : list BlockType;
  d_lines : list bytes;
  d_history : list Op;
  d_historyIdx : nat;
  d_version : Z;
  d_updatedAt : Z;
  d_nodeID : bytes;
}.

#[global] Instance Document_eq_dec : EqDecision Document.
Proof. solve_decision. Defined.

Definition NewDocument (id title nodeID : bytes) : Document :=
  mkDoc id title (NewRGA nodeID) [] [] [] 0 0 0 nodeID.

Definition newline : bytes := [Byte.x0a].

(** ** Slices *)

(** [insertSlice] and [insertSliceBlock]. *)
Definition insertSlice {A} (l : list A) (pos : nat) (x : A) : list A :=
  if decide (length l <= pos)%nat then l ++ [x] else take pos l ++ x :: drop pos l.

(** [append(s[:pos], s[pos+1:]...)] *)
Definition removeSlice {A} (l : list A) (pos : nat) : option (list A) :=
  if decide (pos < length l)%nat then Some (take pos l ++ drop (S pos) l) else None.

(** ** Characters

    [range] over a string visits its runes, and [string(ch)] encodes one
    again: the valid UTF-8 sequences of the string in order, with the
    replacement character for each byte that is not part of one. *)

Definition cont (lo hi : Z) (b : byte) : bool := (lo <=? u8 b) && (u8 b <=? hi).

Definition replacement : bytes := [Byte.xef; Byte.xbf; Byte.xbd].

(** The number of bytes of the rune at the front, if it is valid. *)
Definition rune_length (s : bytes) : option nat :=
  match s with
  | [] => None
  | b :: rest =>
      let x := u8 b in
      if x <? 0x80 then Some 1%nat
      else if (0xC2 <=? x) && (x <=? 0xDF) then
        match rest with
        | c :: _ => if cont 0x80 0xBF c then Some 2%nat else None
        | _ => None
        end
      else if (0xE0 <=? x) && (x <=? 0xEF) then
        let lo := if x =? 0xE0 then 0xA0 else 0x80 in
        let hi := if x =? 0xED then 0x9F else 0xBF in
        match rest with
        | c :: d :: _ => if cont lo hi c && cont 0x80 0xBF d then Some 3%nat else None
        | _ => None
        end
      else if (0xF0 <=? x) && (x <=? 0xF4) then
        let lo := if x =? 0xF0 then 0x90 else 0x80 in
        let hi := if x =? 0xF4 then 0x8F else 0xBF in
        match rest with
        | c :: d :: e :: _ =>
            if cont lo hi c && cont 0x80 0xBF d && cont 0x80 0xBF e then Some 4%nat else None
        | _ => None
        end
      else None
  end.

Fixpoint runes_fuel (fuel : nat) (s : bytes) : list bytes :=
  match fuel, s with
  | S fuel, _ :: rest =>
      match rune_length s with
      | Some n => take n s :: runes_fuel fuel (drop n s)
      | None => replacement :: runes_fuel fuel rest
      end
  | _, _ => []
  end.

(** Each round consumes a byte. *)
Definition runes (s : bytes) : list bytes := runes_fuel (length s) s.

(** ** Edits *)

Definition edited (now : Z) (lines : list bytes) (bts : list BlockType) (rga : RGA) (entry : Op) (d : Document)
    : Document :=
  mkDoc (d_id d) (d_title d) rga bts lines (d_history d ++ [entry]) (length (d_history d ++ [entry]))
    (wrapS 64 (d_version d + 1)) now (d_nodeID d).

(** The loop over the characters: the first insertion uses [lastCharID], the
    others the empty ID. *)
Fixpoint push_chars (lastCharID : bytes) (chars : list bytes) (r : RGA) : RGA :=
  match chars with
  | [] => r
  | ch :: rest => push_chars [] rest (Insert lastCharID ch r)
  end.

Definition pushLineToRGA (nodeID : bytes) (linePos : Z) (lineText : bytes) (r : RGA) : RGA :=
  let lastCharID :=
    if 0 <? Length r then
      match Get r (Length r - 1) with
      | Ok lastCh => if decide (lastCh = []) then head_id else make_id 0 nodeID lastCh
      | Err _ => head_id
      end
    else head_id in
  if linePos <? Length r then push_chars [] (runes lineText) (Insert lastCharID newline r)
  else push_chars lastCharID (runes lineText) r.

Definition refused (msg : string) : OpResult := mkOpResult false 0 (Some (ErrText msg)).

Definition line_count (d : Document) : Z := Z.of_nat (length (d_lines d)).

Definition applyInsert (now : Z) (op : Op) (d : Document) : OpResult * Document :=
  if (o_Position op <? 0) || (line_count d <? o_Position op)
  then (refused "insert position out of range", d) else
  let pos := Z.to_nat (o_Position op) in
  let '(lines, bts) :=
    if o_Position op =? line_count d then (d_lines d ++ [o_Value op], d_blockTypes d ++ [BlockParagraph])
    else (insertSlice (d_lines d) pos (o_Value op), insertSlice (d_blockTypes d) pos BlockParagraph) in
  (mkOpResult true (o_Position op) None,
   edited now lines bts (pushLineToRGA (d_nodeID d) (o_Position op) (o_Value op) (d_rga d)) op d).

Definition applyDelete (now : Z) (op : Op) (d : Document) : option (OpResult * Document) :=
  if (o_Position op <? 0) || (line_count d <=? o_Position op)
  then Some (refused "delete position out of range", d) else
  let pos := Z.to_nat (o_Position op) in
  lines ← removeSlice (d_lines d) pos;
  bts ← removeSlice (d_blockTypes d) pos;
  let delOp := mkOp OpDelete (d_id d) (o_AuthorID op) (o_Position op) [] BlockParagraph [] (o_Timestamp op) in
  Some (mkOpResult true (o_Position op) None, edited now lines bts (d_rga d) delOp d).

Definition applyFormatBlock (now : Z) (op : Op) (d : Document) : OpResult * Document :=
  if (o_Position op <? 0) || (Z.of_nat (length (d_blockTypes d)) <=? o_Position op)
  then (refused "format position out of range", d) else
  let fmtOp := mkOp OpFormatBlock (d_id d) (o_AuthorID op) (o_Position op) [] (o_BlockType op) []
                 (o_Timestamp op) in
  (mkOpResult true (o_Position op) None,
   edited now (d_lines d) (<[Z.to_nat (o_Position op) := o_BlockType op]> (d_blockTypes d)) (d_rga d) fmtOp d).

Definition applyTitleChange (now : Z) (op : Op) (d : Document) : OpResult * Document :=
  (mkOpResult true 0 None,
   mkDoc (d_id d) (o_Title op) (d_rga d) (d_blockTypes d) (d_lines d) (d_history d) (d_historyIdx d)
     (wrapS 64 (d_version d + 1)) now (d_nodeID d)).

Definition ApplyOp (now : Z) (op : Op) (d : Document) : option (OpResult * Document) :=
  match o_Type op with
  | OpInsert => Some (applyInsert now op d)
  | OpDelete => applyDelete now op d
  | OpFormatBlock => Some (applyFormatBlock now op d)
  | OpTitleChange => Some (applyTitleChange now op d)
  | OpUnknown _ => Some (refused "unknown op type", d)
  end.

(** ** Merging *)

(** The characters [Get] returns for the indices below [Length], up to the
    first error. *)
Fixpoint chars_from (r : RGA) (i n : nat) : list bytes :=
  match n with
  | O => []
  | S n => match Get r (Z.of_nat i) with
           | Ok ch => ch :: chars_from r (S i) n
           | Err _ => []
           end
  end.

Definition rga_chars (r : RGA) : list bytes := chars_from r 0 (Z.to_nat (Length r)).

(** The loop of [rebuildFromRGA], with the final [append(lines, current)]. *)
Fixpoint collect_lines (current : bytes) (chars : list bytes) : list bytes :=
  match chars with
  | [] => [current]
  | ch :: rest => if decide (ch = newline) then current :: collect_lines [] rest
                  else collect_lines (current ++ ch) rest
  end.

(** The block types of the old lines, as far as they go, then paragraphs. *)
Definition carry_types (old : list BlockType) (n : nat) : list BlockType :=
  take n (old ++ replicate n BlockParagraph).

Definition rebuildFromRGA (d : Document) : Document :=
  let lines := collect_lines [] (rga_chars (d_rga d)) in
  mkDoc (d_id d) (d_title d) (d_rga d) (carry_types (d_blockTypes d) (length lines)) lines (d_history d)
    (d_historyIdx d) (d_version d) (d_updatedAt d) (d_nodeID d).

(** One remote operation; its result is dropped, an unknown type is ignored. *)
Definition merge_one (now : Z) (d : Document) (op : Op) : option Document := snd <$> ApplyOp now op d.

Fixpoint merge_ops (now : Z) (ops : list Op) (d : Document) : option Document :=
  match ops with
  | [] => Some d
  | op :: ops => merge_one now d op ≫= merge_ops now ops
  end.

Definition Merge (now : Z) (ops : list Op) (d : Document) : option Document :=
  rebuildFromRGA <$> merge_ops now ops d.

(** ** Undo and redo *)

Definition replaced (now : Z) (title : bytes) (lines : list bytes) (bts : list BlockType) (idx : nat) (d : Document)
    : Document :=
  mkDoc (d_id d) title (d_rga d) bts lines (d_history d) idx (wrapS 64 (d_version d + 1)) now (d_nodeID d).

Definition not_applied : OpResult := mkOpResult false 0 None.

(** Take a line out, or put one in, at a recorded position: what [Undo] and
    [Redo] share. *)
Definition take_out (op : Op) (d : Document) : option (OpResult * list bytes * list BlockType) :=
  if o_Position op <? line_count d then
    let pos := Z.to_nat (o_Position op) in
    lines ← removeSlice (d_lines d) pos;
    bts ← removeSlice (d_blockTypes d) pos;
    Some (mkOpResult true (o_Position op) None, lines, bts)
  else Some (not_applied, d_lines d, d_blockTypes d).

Definition put_in (op : Op) (d : Document) : option (OpResult * list bytes * list BlockType) :=
  if o_Position op <=? line_count d then
    let pos := Z.to_nat (o_Position op) in
    Some (mkOpResult true (o_Position op) None, insertSlice (d_lines d) pos (o_Value op),
          insertSlice (d_blockTypes d) pos BlockParagraph)
  else Some (not_applied, d_lines d, d_blockTypes d).

Definition set_type (bt : BlockType) (op : Op) (d : Document) : option (OpResult * list bytes * list BlockType) :=
  if o_Position op <? Z.of_nat (length (d_blockTypes d)) then
    Some (mkOpResult true (o_Position op) None, d_lines d,
          <[Z.to_nat (o_Position op) := bt]> (d_blockTypes d))
  else Some (not_applied, d_lines d, d_blockTypes d).

Definition set_title (d : Document) : option (OpResult * list bytes * list BlockType) :=
  Some (mkOpResult true 0 None, d_lines d, d_blockTypes d).

Definition Undo (now : Z) (d : Document) : option (OpResult * Document) :=
  match d_historyIdx d with
  | O => Some (refused "nothing to undo", d)
  | S idx =>
      op ← d_history d !! idx;
      let same := Some (not_applied, d_lines d, d_blockTypes d) in
      '(r, lines, bts) ← match o_Type op with
                         | OpInsert => take_out op d
                         | OpDelete => put_in op d
                         | OpFormatBlock => set_type BlockParagraph op d
                         | OpTitleChange => set_title d
                         | OpUnknown _ => same
                         end;
      let title := match o_Type op with OpTitleChange => [] | _ => d_title d end in
      Some (r, replaced now title lines bts idx d)
  end.

Definition Redo (now : Z) (d : Document) : option (OpResult * Document) :=
  if decide (length (d_history d) <= d_historyIdx d)%nat then Some (refused "nothing to redo", d) else
  op ← d_history d !! d_historyIdx d;
  let same := Some (not_applied, d_lines d, d_blockTypes d) in
  '(r, lines, bts) ← match o_Type op with
                     | OpInsert => put_in op d
                     | OpDelete => take_out op d
                     | OpFormatBlock => set_type (o_BlockType op) op d
                     | OpTitleChange => set_title d
                     | OpUnknown _ => same
                     end;
  let title := match o_Type op with OpTitleChange => o_Title op | _ => d_title d end in
  Some (r, replaced now title lines bts (S (d_historyIdx d)) d).

Definition CanUndo (d : Document) : bool := (0 <? d_historyIdx d)%nat.
Definition CanRedo (d : Document) : bool := (d_historyIdx d <? length (d_history d))%nat.

(** ** Local edits and queries *)

Definition stringToID (s : bytes) : bytes := take 32 (s ++ zeroes 32).

Definition NewInsertOp (docID author : bytes) (position : Z) (value : bytes) (ts : Z) : Op :=
  mkOp OpInsert docID author position value BlockParagraph [] ts.
Definition NewDeleteOp (docID author : bytes) (position ts : Z) : Op :=
  mkOp OpDelete docID author position [] BlockParagraph [] ts.
Definition NewFormatBlockOp (docID author : bytes) (position : Z) (bt : BlockType) (ts : Z) : Op :=
  mkOp OpFormatBlock docID author position [] bt [] ts.

Definition Insert_ (now position : Z) (text : bytes) (d : Document) : option (OpResult * Document) :=
  ApplyOp now (NewInsertOp (d_id d) (stringToID (d_nodeID d)) position text (time_unix_nano now)) d.
Definition Delete_ (now position : Z) (d : Document) : option (OpResult * Document) :=
  ApplyOp now (NewDeleteOp (d_id d) (stringToID (d_nodeID d)) position (time_unix_nano now)) d.
Definition FormatBlock (now position : Z) (bt : BlockType) (d : Document) : option (OpResult * Document) :=
  ApplyOp now (NewFormatBlockOp (d_id d) (stringToID (d_nodeID d)) position bt (time_unix_nano now)) d.

Fixpoint joinLines (lines : list bytes) : bytes :=
  match lines with
  | [] => []
  | [l] => l
  | l :: rest => l ++ newline ++ joinLines rest
  end.

Definition Text (d : Document) : bytes := joinLines (d_lines d).

(** The loop of [splitLines]; [cur] is [s[start:i]]. *)
Fixpoint split_lines (cur s : bytes) : list bytes :=
  match s with
  | [] => [cur]
  | b :: rest => if decide (b = Byte.x0a) then cur :: split_lines [] rest else split_lines (cur ++ [b]) rest
  end.

Definition splitLines (s : bytes) : list bytes := if decide (s = []) then [] else split_lines [] s.

Definition rebuildLinesFromRGARaw (r : RGA) : list bytes :=
  if Length r =? 0 then [] else splitLines (concat (rga_chars r)).

(** * Lemmas *)

(** A document is well formed when every line has a block type, the history
    index is within the history and recorded positions are not negative. *)
Record doc_ok (d : Document) : Prop := {
  ok_types : length (d_lines d) = length (d_blockTypes d);
  ok_idx : (d_historyIdx d <= length (d_history d))%nat;
  ok_history : Forall (fun op => 0 <= o_Position op) (d_history d);
}.

Lemma length_insertSlice {A} (l : list A) pos x : length (insertSlice l pos x) = S (length l).
Proof.
  unfold insertSlice. case_decide; rewrite length_app; simpl; [lia|]. rewrite length_take, length_drop. lia.
Qed.

Lemma removeSlice_Some {A} (l : list A) pos :
  (pos < length l)%nat -> exists l', removeSlice l pos = Some l' /\ S (length l') = length l.
Proof.
  intros H. unfold removeSlice. rewrite decide_True by done. eexists. split; [done|].
  rewrite length_app, length_take, length_drop. lia.
Qed.

Lemma removeSlice_insertSlice {A} (l : list A) pos x :
  (pos <= length l)%nat -> removeSlice (insertSlice l pos x) pos = Some l.
Proof.
  intros H. unfold removeSlice. rewrite length_insertSlice, decide_True by lia. f_equal.
  unfold insertSlice. case_decide.
  - replace pos with (length l) by lia. rewrite take_app_length, drop_ge by (rewrite length_app; simpl; lia).
    by rewrite app_nil_r.
  - rewrite take_app_exact, drop_app_ge by (rewrite length_take; lia).
    rewrite length_take, Nat.min_l by lia. replace (S pos - pos)%nat with 1%nat by lia.
    rewrite skipn_cons, drop_0. apply take_drop.
Qed.

Lemma insertSlice_end {A} (l : list A) x : insertSlice l (length l) x = l ++ [x].
Proof. unfold insertSlice. by rewrite decide_True. Qed.

Lemma length_carry_types old n : length (carry_types old n) = n.
Proof. unfold carry_types. rewrite length_take, length_app, length_replicate. lia. Qed.

Lemma edited_ok now lines bts rga entry d :
  doc_ok d -> length lines = length bts -> 0 <= o_Position entry -> doc_ok (edited now lines bts rga entry d).
Proof.
  intros [_ _ Hh] Hl Hp. split; simpl; [done|lia|]. apply Forall_app. split; [done|by constructor].
Qed.

(** An accepted insertion, written in one way. *)
Lemma applyInsert_spec now op d :
  doc_ok d -> 0 <= o_Position op <= line_count d ->
  applyInsert now op d
  = (mkOpResult true (o_Position op) None,
     edited now (insertSlice (d_lines d) (Z.to_nat (o_Position op)) (o_Value op))
       (insertSlice (d_blockTypes d) (Z.to_nat (o_Position op)) BlockParagraph)
       (pushLineToRGA (d_nodeID d) (o_Position op) (o_Value op) (d_rga d)) op d).
Proof.
  intros Hd Hp. unfold applyInsert.
  assert ((o_Position op <? 0) || (line_count d <? o_Position op) = false) as -> by (apply orb_false_iff; split; lia).
  destruct (Z.eqb_spec (o_Position op) (line_count d)) as [E|E]; [|done].
  rewrite E. unfold line_count. rewrite Nat2Z.id, insertSlice_end.
  rewrite (ok_types _ Hd), insertSlice_end. by rewrite <- (ok_types _ Hd).
Qed.

Lemma ApplyOp_total now op d :
  doc_ok d -> exists r d', ApplyOp now op d = Some (r, d') /\ doc_ok d'.
Proof.
  intros Hd. pose proof (ok_types _ Hd) as Ht. unfold ApplyOp. destruct (o_Type op) eqn:E.
  - destruct (decide (0 <= o_Position op <= line_count d)) as [Hp|Hp].
    + rewrite applyInsert_spec by done. do 2 eexists. split; [done|].
      apply edited_ok; [done| |lia]. rewrite !length_insertSlice. lia.
    + unfold applyInsert.
      assert ((o_Position op <? 0) || (line_count d <? o_Position op) = true) as -> by (apply orb_true_iff; lia).
      by do 2 eexists.
  - unfold applyDelete. destruct (_ || _) eqn:Ep; [by do 2 eexists|]. apply orb_false_iff in Ep as [H1 H2].
    apply Z.ltb_ge in H1. apply Z.leb_gt in H2. unfold line_count in H2.
    destruct (removeSlice_Some (d_lines d) (Z.to_nat (o_Position op))) as (ls & -> & Hl); [lia|].
    destruct (removeSlice_Some (d_blockTypes d) (Z.to_nat (o_Position op))) as (bs & -> & Hb); [lia|].
    simpl. do 2 eexists. split; [done|]. apply edited_ok; [done|lia|done].
  - unfold applyFormatBlock. destruct (_ || _) eqn:Ep; [by do 2 eexists|]. apply orb_false_iff in Ep as [H1 _].
    do 2 eexists. split; [done|]. apply edited_ok; [done|by rewrite length_insert|simpl; lia].
  - do 2 eexists. split; [done|]. destruct Hd. by split.
  - by do 2 eexists.
Qed.

Lemma Merge_total now ops d : doc_ok d -> exists d', Merge now ops d = Some d' /\ doc_ok d'.
Proof.
  intros Hd. unfold Merge. assert (exists d', merge_ops now ops d = Some d' /\ doc_ok d') as (d' & -> & [_ ? ?]).
  { revert d Hd. induction ops as [|op ops IH]; intros d Hd; [by exists d|]. simpl. unfold merge_one.
    destruct (ApplyOp_total now op d Hd) as (r & d' & -> & Hd'). simpl. by apply IH. }
  eexists. split; [done|]. split; simpl; [by rewrite length_carry_types|done|done].
Qed.

(** The three building blocks of [Undo] and [Redo] succeed and keep the two
    lists in step. *)
Lemma take_out_total op d :
  doc_ok d -> 0 <= o_Position op -> exists r ls bs, take_out op d = Some (r, ls, bs) /\ length ls = length bs.
Proof.
  intros Hd Hp. pose proof (ok_types _ Hd) as Ht. unfold take_out, line_count.
  destruct (Z.ltb_spec (o_Position op) (Z.of_nat (length (d_lines d)))); [|by do 3 eexists].
  destruct (removeSlice_Some (d_lines d) (Z.to_nat (o_Position op))) as (ls & -> & Hl); [lia|].
  destruct (removeSlice_Some (d_blockTypes d) (Z.to_nat (o_Position op))) as (bs & -> & Hb); [lia|].
  simpl. do 3 eexists. split; [done|lia].
Qed.

Lemma put_in_total op d :
  doc_ok d -> exists r ls bs, put_in op d = Some (r, ls, bs) /\ length ls = length bs.
Proof.
  intros Hd. pose proof (ok_types _ Hd) as Ht. unfold put_in. destruct (_ <=? _); do 3 eexists; (split; [done|]).
  - rewrite !length_insertSlice. lia.
  - done.
Qed.

Lemma set_type_total bt op d :
  doc_ok d -> exists r ls bs, set_type bt op d = Some (r, ls, bs) /\ length ls = length bs.
Proof.
  intros Hd. pose proof (ok_types _ Hd) as Ht. unfold set_type. destruct (_ <? _); do 3 eexists; (split; [done|]).
  - by rewrite length_insert.
  - done.
Qed.

Lemma Undo_total now d : doc_ok d -> exists r d', Undo now d = Some (r, d') /\ doc_ok d'.
Proof.
  intros Hd. pose proof (ok_idx _ Hd) as Hi. pose proof (ok_history _ Hd) as Hh. unfold Undo.
  destruct (d_historyIdx d) as [|idx] eqn:Eidx; [by do 2 eexists|].
  destruct (lookup_lt_is_Some_2 (d_history d) idx) as [op Hop]; [lia|]. rewrite Hop. cbn [mbind option_bind].
  assert (0 <= o_Position op) as Hp by (by eapply Forall_lookup_1 in Hh).
  match goal with |- context [mbind _ ?x] =>
    assert (exists r ls bs, x = Some (r, ls, bs) /\ length ls = length bs) as (r & ls & bs & -> & Hl) end.
  { destruct (o_Type op); [by apply take_out_total|by apply put_in_total|by apply set_type_total| |];
      do 3 eexists; (split; [done|apply Hd]). }
  cbn [mbind option_bind]. do 2 eexists. split; [done|]. split; simpl; [done|lia|done].
Qed.

Lemma Redo_total now d : doc_ok d -> exists r d', Redo now d = Some (r, d') /\ doc_ok d'.
Proof.
  intros Hd. pose proof (ok_idx _ Hd) as Hi. pose proof (ok_history _ Hd) as Hh. unfold Redo. case_decide as Hx; [by do 2 eexists|].
  destruct (lookup_lt_is_Some_2 (d_history d) (d_historyIdx d)) as [op Hop]; [lia|]. rewrite Hop. cbn [mbind option_bind].
  assert (0 <= o_Position op) as Hp by (by eapply Forall_lookup_1 in Hh).
  match goal with |- context [mbind _ ?x] =>
    assert (exists r ls bs, x = Some (r, ls, bs) /\ length ls = length bs) as (r & ls & bs & -> & Hl) end.
  { destruct (o_Type op); [by apply put_in_total|by apply take_out_total|by apply set_type_total| |];
      do 3 eexists; (split; [done|apply Hd]). }
  cbn [mbind option_bind]. do 2 eexists. split; [done|]. split; simpl; [done|lia|done].
Qed.

Lemma joinLines_collect cur chars : joinLines (collect_lines cur chars) = cur ++ concat chars.
Proof.
  revert cur. induction chars as [|ch chars IH]; intros cur; simpl; [by rewrite app_nil_r|].
  case_decide as E; [|by rewrite IH, <- app_assoc]. subst ch.
  assert (forall c cs, exists l ls, collect_lines c cs = l :: ls) as Hne.
  { intros c cs. revert c. induction cs; intros c; simpl; [by do 2 eexists|]. case_decide; [by do 2 eexists|done]. }
  destruct (Hne [] chars) as (l & ls & El). specialize (IH []). rewrite El in *. simpl in *. by rewrite IH.
Qed.

(** ** Sequences of calls *)

Inductive doc_call :=
  | CApply (op : Op)
  | CMerge (ops : list Op)
  | CUndo
  | CRedo.

Definition run_call (now : Z) (c : doc_call) (d : Document) : option Document :=
  match c with
  | CApply op => snd <$> ApplyOp now op d
  | CMerge ops => Merge now ops d
  | CUndo => snd <$> Undo now d
  | CRedo => snd <$> Redo now d
  end.

Fixpoint run_calls (cs : list (Z * doc_call)) (d : Document) : option Document :=
  match cs with
  | [] => Some d
  | (now, c) :: cs => run_call now c d ≫= run_calls cs
  end.

Lemma run_call_total now c d : doc_ok d -> exists d', run_call now c d = Some d' /\ doc_ok d'.
Proof.
  intros Hd. destruct c; simpl.
  - destruct (ApplyOp_total now op d Hd) as (r & d' & -> & ?). by exists d'.
  - by apply Merge_total.
  - destruct (Undo_total now d Hd) as (r & d' & -> & ?). by exists d'.
  - destruct (Redo_total now d Hd) as (r & d' & -> & ?). by exists d'.
Qed.

Lemma NewDocument_ok id title nodeID : doc_ok (NewDocument id title nodeID).
Proof. split; simpl; [done|lia|done]. Qed.

(** whatever operations a fresh document is given, local or remote, in
    range or not, of a known type or not, and however undo, redo and merges
    are mixed in, no call panics on a slice index; and every document so
    reached has exactly one block type per line, a history index within its
    history and only non-negative positions in it. *)
Theorem docs_never_panic (id title nodeID : bytes) (cs : list (Z * doc_call)) :
  exists d, run_calls cs (NewDocument id title nodeID) = Some d /\ doc_ok d.
Proof.
  generalize (NewDocument_ok id title nodeID). generalize (NewDocument id title nodeID).
  induction cs as [|[now c] cs IH]; intros d Hd; [by exists d|]. simpl.
  destruct (run_call_total now c d Hd) as (d' & -> & Hd'). by apply IH.
Qed.

(** ** Undo and redo of insertions *)

(** The lines (or block types) after a sequence of insertions. *)
Definition put_all {A} (val : Op -> A) (ops : list Op) (l : list A) : list A :=
  foldl (fun l op => insertSlice l (Z.to_nat (o_Position op)) (val op)) l ops.

Definition para (_ : Op) : BlockType := BlockParagraph.

(** Insertions that are accepted in this order on a document of [n] lines. *)
Fixpoint in_range (n : Z) (ops : list Op) : Prop :=
  match ops with
  | [] => True
  | op :: ops => o_Type op = OpInsert /\ 0 <= o_Position op <= n /\ in_range (n + 1) ops
  end.

(** The part of a document that undo and redo work on. *)
Record view (d : Document) (ls : list bytes) (bs : list BlockType) (hist : list Op) (idx : nat) : Prop := {
  v_lines : d_lines d = ls;
  v_types : d_blockTypes d = bs;
  v_hist : d_history d = hist;
  v_idx : d_historyIdx d = idx;
}.

Definition undo_n (now : Z) (n : nat) (d : Document) : option Document :=
  run_calls (replicate n (now, CUndo)) d.
Definition redo_n (now : Z) (n : nat) (d : Document) : option Document :=
  run_calls (replicate n (now, CRedo)) d.

Lemma put_all_snoc {A} (val : Op -> A) ops op l :
  put_all val (ops ++ [op]) l = insertSlice (put_all val ops l) (Z.to_nat (o_Position op)) (val op).
Proof. unfold put_all. by rewrite foldl_app. Qed.

Lemma length_put_all {A} (val : Op -> A) ops l : length (put_all val ops l) = (length ops + length l)%nat.
Proof.
  revert l. induction ops as [|op ops IH]; intros l; [done|]. simpl. rewrite IH, length_insertSlice. lia.
Qed.

Lemma in_range_snoc n ops op :
  in_range n (ops ++ [op]) <->
  in_range n ops /\ o_Type op = OpInsert /\ 0 <= o_Position op <= n + Z.of_nat (length ops).
Proof.
  revert n. induction ops as [|o ops IH]; intros n; simpl.
  - rewrite Z.add_0_r. tauto.
  - rewrite IH. replace (n + Z.of_nat (S (length ops))) with (n + 1 + Z.of_nat (length ops)) by lia. tauto.
Qed.

(** Undoing and redoing one insertion. *)
Lemma undo_insert now op ls bs hist idx d :
  hist !! idx = Some op -> o_Type op = OpInsert -> 0 <= o_Position op <= Z.of_nat (length ls) ->
  length ls = length bs ->
  view d (insertSlice ls (Z.to_nat (o_Position op)) (o_Value op))
    (insertSlice bs (Z.to_nat (o_Position op)) BlockParagraph) hist (S idx) ->
  exists d', run_call now CUndo d = Some d' /\ view d' ls bs hist idx.
Proof.
  intros Hop Ht Hp Hl [E1 E2 E3 E4]. cbn [run_call]. unfold Undo, take_out, line_count.
  rewrite E4, E3, Hop. cbn [mbind option_bind]. rewrite Ht, E1, E2, length_insertSlice.
  assert (o_Position op <? Z.of_nat (S (length ls)) = true) as -> by (apply Z.ltb_lt; lia).
  rewrite !removeSlice_insertSlice by lia. simpl. eexists. split; [done|]. by split; simpl.
Qed.

Lemma redo_insert now op ls bs hist idx d :
  hist !! idx = Some op -> o_Type op = OpInsert -> 0 <= o_Position op <= Z.of_nat (length ls) ->
  view d ls bs hist idx ->
  exists d', run_call now CRedo d = Some d' /\
    view d' (insertSlice ls (Z.to_nat (o_Position op)) (o_Value op))
      (insertSlice bs (Z.to_nat (o_Position op)) BlockParagraph) hist (S idx).
Proof.
  intros Hop Ht Hp [E1 E2 E3 E4]. cbn [run_call]. unfold Redo, put_in, line_count.
  rewrite E4, E3, decide_False by (apply lookup_lt_Some in Hop; lia).
  rewrite Hop. cbn [mbind option_bind]. rewrite Ht, E1, E2.
  assert (o_Position op <=? Z.of_nat (length ls) = true) as -> by (apply Z.leb_le; lia).
  simpl. eexists. split; [done|]. by split; simpl.
Qed.

(** ... and a whole sequence of them. *)
Lemma undo_all now ls bs pre ops post d :
  length ls = length bs -> in_range (Z.of_nat (length ls)) ops ->
  view d (put_all o_Value ops ls) (put_all para ops bs) (pre ++ ops ++ post) (length (pre ++ ops)) ->
  exists d', undo_n now (length ops) d = Some d' /\ view d' ls bs (pre ++ ops ++ post) (length pre).
Proof.
  intros Hl. revert post d. induction ops as [|op ops IH] using rev_ind; intros post d Hr Hv.
  { exists d. split; [done|]. by rewrite app_nil_r in Hv. }
  apply in_range_snoc in Hr as (Hr & Ht & Hp). rewrite !put_all_snoc in Hv.
  rewrite (app_assoc pre ops [op]), (last_length (pre ++ ops)) in Hv. rewrite last_length.
  assert ((pre ++ (ops ++ [op]) ++ post) !! length (pre ++ ops) = Some op) as Hop.
  { rewrite <- (app_assoc ops), (app_assoc pre). by apply list_lookup_middle. }
  edestruct (undo_insert now op) as (d1 & E1 & Hv1); [exact Hop|done| | |exact Hv|].
  { rewrite length_put_all. lia. }
  { rewrite !length_put_all. lia. }
  rewrite <- (app_assoc ops) in Hv1. destruct (IH ([op] ++ post) d1 Hr Hv1) as (d2 & E2 & Hv2).
  exists d2. rewrite <- (app_assoc ops). split; [|done].
  unfold undo_n in *. cbn [replicate run_calls]. by rewrite E1.
Qed.

Lemma redo_all now ls bs pre ops post d :
  in_range (Z.of_nat (length ls)) ops ->
  view d ls bs (pre ++ ops ++ post) (length pre) ->
  exists d', redo_n now (length ops) d = Some d' /\
    view d' (put_all o_Value ops ls) (put_all para ops bs) (pre ++ ops ++ post) (length (pre ++ ops)).
Proof.
  revert ls bs pre d. induction ops as [|op ops IH]; intros ls bs pre d Hr Hv.
  { exists d. split; [done|]. by rewrite app_nil_r. }
  destruct Hr as (Ht & Hp & Hr).
  edestruct (redo_insert now op) as (d1 & E1 & Hv1); [|done|exact Hp|exact Hv|].
  { by apply list_lookup_middle. }
  destruct (IH (insertSlice ls (Z.to_nat (o_Position op)) (o_Value op))
              (insertSlice bs (Z.to_nat (o_Position op)) BlockParagraph) (pre ++ [op]) d1) as (d2 & E2 & Hv2).
  { rewrite length_insertSlice. by replace (Z.of_nat (S (length ls))) with (Z.of_nat (length ls) + 1) by lia. }
  { by rewrite <- (app_assoc pre), last_length. }
  exists d2. rewrite <- !app_assoc in Hv2. split; [|done].
  unfold redo_n in *. cbn [length replicate run_calls]. by rewrite E1.
Qed.

Lemma insert_all now ops d :
  doc_ok d -> in_range (line_count d) ops ->
  exists d', run_calls ((fun op => (now, CApply op)) <$> ops) d = Some d' /\
    d_lines d' = put_all o_Value ops (d_lines d) /\
    d_blockTypes d' = put_all para ops (d_blockTypes d) /\
    d_history d' = d_history d ++ ops /\
    (ops <> [] -> d_historyIdx d' = length (d_history d ++ ops)).
Proof.
  revert d. induction ops as [|op ops IH]; intros d Hd Hr; [exists d; by rewrite app_nil_r|].
  destruct Hr as (Ht & Hp & Hr). rewrite fmap_cons. cbn [run_calls run_call]. unfold ApplyOp.
  rewrite Ht, applyInsert_spec by done.
  set (d1 := edited now _ _ _ op d). cbn [fmap option_fmap option_map snd mbind option_bind].
  assert (doc_ok d1) as Hd1.
  { apply edited_ok; [done| |lia]. rewrite !length_insertSlice. f_equal. apply Hd. }
  destruct (IH d1 Hd1) as (d2 & E & H1 & H2 & H3 & H4).
  { subst d1. unfold line_count, edited. simpl. rewrite length_insertSlice.
    unfold line_count in Hr. by replace (Z.of_nat (S (length (d_lines d)))) with (Z.of_nat (length (d_lines d)) + 1) by lia. }
  exists d2. rewrite E, H1, H2, H3. unfold d1, edited at 3. simpl. split_and!; try done.
  - by rewrite <- app_assoc.
  - intros _. destruct ops as [|op' ops]; [|rewrite H4 by done; simpl; by rewrite <- app_assoc].
    simpl in E. injection E as <-. done.
Qed.

(** insertions are undone and redone exactly.  After any accepted
    sequence of insertions into a well-formed document, as many undos give
    the original lines and block types back, as many redos after them give
    the lines and block types that the insertions had made, and none of these
    calls panics. *)
Theorem docs_undo_redo (now : Z) (ops : list Op) (d : Document) :
  doc_ok d -> ops <> [] -> in_range (line_count d) ops ->
  exists d1 d2 d3,
    run_calls ((fun op => (now, CApply op)) <$> ops) d = Some d1 /\
    undo_n now (length ops) d1 = Some d2 /\
    redo_n now (length ops) d2 = Some d3 /\
    d_lines d1 = put_all o_Value ops (d_lines d) /\
    d_lines d2 = d_lines d /\ d_blockTypes d2 = d_blockTypes d /\
    d_lines d3 = d_lines d1 /\ d_blockTypes d3 = d_blockTypes d1.
Proof.
  intros Hd Hne Hr. destruct (insert_all now ops d Hd Hr) as (d1 & E1 & H1 & H2 & H3 & H4).
  specialize (H4 Hne).
  destruct (undo_all now (d_lines d) (d_blockTypes d) (d_history d) ops [] d1) as (d2 & E2 & Hv2); [apply Hd|done| |].
  { split; [done|done|by rewrite app_nil_r|done]. }
  destruct (redo_all now (d_lines d) (d_blockTypes d) (d_history d) ops [] d2) as (d3 & E3 & Hv3); [done|done|].
  destruct Hv2, Hv3. exists d1, d2, d3. split_and!; congruence.
Qed.

(** ** Examples *)

Definition doc0 : Document := NewDocument (str "d1") (str "Notes") (str "n").
Definition ins (pos : Z) (v : string) : Op := NewInsertOp (str "d1") (zeroes 32) pos (str v) 0.
Definition del (pos : Z) : Op := NewDeleteOp (str "d1") (zeroes 32) pos 0.
Definition lines_after (cs : list doc_call) : option (list bytes) :=
  d_lines <$> run_calls ((fun c => (0, c)) <$> cs) doc0.

Lemma docs_undo_redo_witness :
  exists d1 d2 d3,
    run_calls ((fun op => (5, CApply op)) <$> [ins 0 "a"; ins 0 "b"; ins 1 "c"]) doc0 = Some d1 /\
    undo_n 5 3 d1 = Some d2 /\ redo_n 5 3 d2 = Some d3 /\
    d_lines d1 = [str "b"; str "c"; str "a"] /\
    d_lines d2 = [] /\ d_blockTypes d2 = [] /\
    d_lines d3 = d_lines d1 /\ d_blockTypes d3 = d_blockTypes d1.
Proof.
  apply (docs_undo_redo 5 [ins 0 "a"; ins 0 "b"; ins 1 "c"] doc0).
  - apply NewDocument_ok.
  - done.
  - repeat split; vm_compute; by intros.
Defined.

(** Two lines of one character each become one line after a merge, even of
    no operations: the separator is left out because the line number is
    compared with the number of characters. *)
Lemma merge_joins_lines :
  lines_after [CApply (ins 0 "a"); CApply (ins 1 "b")] = Some [str "a"; str "b"] /\
  lines_after [CApply (ins 0 "a"); CApply (ins 1 "b"); CMerge []] = Some [str "ab"].
Proof. decide_vm. Qed.

(** A deleted line comes back with the next merge: the deletion never reaches
    the character sequence the lines are rebuilt from. *)
Lemma merge_restores_deleted :
  lines_after [CApply (ins 0 "gone"); CApply (del 0)] = Some [] /\
  lines_after [CApply (ins 0 "gone"); CApply (del 0); CMerge []] = Some [str "gone"].
Proof. decide_vm. Qed.

(** Undoing a deletion puts an empty line where the deleted one was. *)
Lemma undo_delete_loses_text :
  lines_after [CApply (ins 0 "text"); CApply (del 0); CUndo] = Some [[]].
Proof. decide_vm. Qed.

(** A title change is not recorded, so the undo after it undoes the edit
    before it. *)
Lemma undo_skips_title :
  (fun d => (d_title d, d_lines d)) <$>
    run_calls ((fun c => (0, c)) <$>
      [CApply (ins 0 "line"); CApply (mkOp OpTitleChange [] [] 0 [] 0 (str "New") 0); CUndo]) doc0
  = Some (str "New", []).
Proof. decide_vm. Qed.

(** Two replicas that merge the same two operations in different orders end
    with different text. *)
Lemma merge_order_matters :
  lines_after [CMerge [ins 0 "ab"; ins 0 "cd"]] <> lines_after [CMerge [ins 0 "cd"; ins 0 "ab"]].
Proof. decide_vm. Qed.
