(* ===== verification/DocsCodec.v ===== *)
(** * The wire formats of the documents service

    [marshalOp]/[unmarshalOp] and the message envelope of
    pkg/services/docs/types.go, and [Document.Marshal]/[Unmarshal] of
    document.go.  Lengths are 32-bit and big-endian; a parse is the chain of
    [len(data) < offset+n] tests of the code on the bytes that remain. *)

From S2P Require Import Prelude Bytes OrSetCodec Rga RgaInv RgaCodec Docs.
Local Open Scope Z_scope.

(** [data[offset:offset+n]] behind its length test. *)
Definition cut (n : Z) (b : bytes) : option (bytes * bytes) :=
  if len b <? n then None else Some (take (Z.to_nat n) b, drop (Z.to_nat n) b).

Definition encodeUint32 (v : Z) : bytes := be_put 4 v.
Definition decodeUint32 (b : bytes) : Z := be_get b.
Definition encodeInt64 (v : Z) : bytes := be_put 8 v.
Definition decodeInt64 (b : bytes) : Z := wrapS 64 (be_get b).

(** A length-prefixed string. *)
Definition put32 (b : bytes) : bytes := encodeUint32 (len b) ++ b.

Definition op_byte (t : OpType) : byte :=
  match t with
  | OpInsert => byte_of 0 | OpDelete => byte_of 1 | OpFormatBlock => byte_of 2 | OpTitleChange => byte_of 3
  | OpUnknown b => b
  end.

Definition op_of_byte (b : byte) : OpType :=
  if u8 b =? 0 then OpInsert else if u8 b =? 1 then OpDelete
  else if u8 b =? 2 then OpFormatBlock else if u8 b =? 3 then OpTitleChange else OpUnknown b.

(** ** Operations *)

Definition marshalOp (op : Op) : bytes :=
  op_byte (o_Type op) :: o_AuthorID op ++ encodeInt64 (o_Timestamp op) ++ encodeUint32 (o_Position op)
  ++ put32 (o_Value op) ++ encodeUint32 (o_BlockType op) ++ put32 (o_Title op).

Definition with_block (op : Op) (bt : Z) (title : bytes) : Op :=
  mkOp (o_Type op) (o_DocID op) (o_AuthorID op) (o_Position op) (o_Value op) bt title (o_Timestamp op).

(** The optional tail: block type, then title. *)
Definition unmarshal_tail (op : Op) (data : bytes) : Op :=
  match cut 4 data with
  | None => with_block op BlockParagraph []
  | Some (bt, data) =>
      let op := with_block op (decodeUint32 bt mod 256) [] in
      match cut 4 data with
      | None => op
      | Some (n, data) =>
          match cut (decodeUint32 n) data with
          | None => op
          | Some (title, _) => with_block op (o_BlockType op) title
          end
      end
  end.

Definition unmarshalOp (data : bytes) : result Op :=
  if len data <? 1 + 32 + 8 + 4 + 4 then Err (ErrText "op payload too short") else
  let typ := op_of_byte (nth 0 data Byte.x00) in
  let author := take 32 (drop 1 data) in
  let ts := decodeInt64 (take 8 (drop 33 data)) in
  let pos := decodeUint32 (take 4 (drop 41 data)) in
  let valLen := decodeUint32 (take 4 (drop 45 data)) in
  match cut valLen (drop 49 data) with
  | None => Err (ErrText "op value truncated")
  | Some (value, rest) => Ok (unmarshal_tail (mkOp typ [] author pos value BlockParagraph [] ts) rest)
  end.

(** ** Messages *)

Definition DocMsgOperation : Z := 1.

Record DocMessage := mkDocMessage {
  dm_Type : Z;
  dm_DocID : bytes;
  dm_AuthorID : bytes;
  dm_Payload : bytes;
  dm_Timestamp : Z;
}.

Definition encodeDocMessage (m : DocMessage) : bytes :=
  byte_of (dm_Type m) :: put32 (dm_DocID m) ++ dm_AuthorID m ++ encodeInt64 (dm_Timestamp m) ++ dm_Payload m.

Definition decodeDocMessage (data : bytes) : result DocMessage :=
  if len data <? 1 + 4 + 32 + 8 then Err (ErrText "doc message too short") else
  let typ := u8 (nth 0 data Byte.x00) in
  let nameLen := decodeUint32 (take 4 (drop 1 data)) in
  if len data <? 5 + nameLen + 32 + 8 then Err (ErrText "doc message truncated") else
  let rest := drop (Z.to_nat nameLen) (drop 5 data) in
  Ok (mkDocMessage typ (take (Z.to_nat nameLen) (drop 5 data)) (take 32 rest) (drop 40 rest)
        (decodeInt64 (take 8 (drop 32 rest)))).

Definition encodeOpPayload (op : Op) (docID : bytes) : bytes :=
  encodeDocMessage (mkDocMessage DocMsgOperation docID (zeroes 32) (marshalOp op) 0).

Definition decodeOpPayload (data : bytes) : result (Op * bytes) :=
  match decodeDocMessage data with
  | Err e => Err e
  | Ok msg => match unmarshalOp (dm_Payload msg) with
              | Err e => Err e
              | Ok op => Ok (op, dm_DocID msg)
              end
  end.

(** ** Documents *)

Definition Marshal (d : Document) : bytes :=
  put32 (d_id d) ++ put32 (d_title d) ++ put32 (RgaCodec.Marshal (d_rga d)) ++ encodeInt64 (d_version d)
  ++ encodeUint32 (Z.of_nat (length (d_blockTypes d))) ++ (byte_of <$> d_blockTypes d)
  ++ encodeUint32 (Z.of_nat (length (d_lines d))) ++ concat (put32 <$> d_lines d).

(** The setters of [Unmarshal]'s assignments. *)
Definition set_id (d : Document) (id : bytes) : Document :=
  mkDoc id (d_title d) (d_rga d) (d_blockTypes d) (d_lines d) (d_history d) (d_historyIdx d) (d_version d)
    (d_updatedAt d) (d_nodeID d).
Definition set_doc_title (d : Document) (title : bytes) : Document :=
  mkDoc (d_id d) title (d_rga d) (d_blockTypes d) (d_lines d) (d_history d) (d_historyIdx d) (d_version d)
    (d_updatedAt d) (d_nodeID d).
Definition set_rga (d : Document) (r : RGA) : Document :=
  mkDoc (d_id d) (d_title d) r (d_blockTypes d) (d_lines d) (d_history d) (d_historyIdx d) (d_version d)
    (d_updatedAt d) (d_nodeID d).
Definition set_version (d : Document) (v : Z) : Document :=
  mkDoc (d_id d) (d_title d) (d_rga d) (d_blockTypes d) (d_lines d) (d_history d) (d_historyIdx d) v
    (d_updatedAt d) (d_nodeID d).
Definition set_content (d : Document) (bts : list BlockType) (lines : list bytes) : Document :=
  mkDoc (d_id d) (d_title d) (d_rga d) bts lines (d_history d) (d_historyIdx d) (d_version d)
    (d_updatedAt d) (d_nodeID d).

(** The block types the code knows. *)
Definition block_type_count : Z := 8.

Definition known_block (b : byte) : BlockType := if u8 b <? block_type_count then u8 b else BlockParagraph.

(** The loop over the lines: it stops at the first that does not fit. *)
Fixpoint read_lines (n : nat) (data : bytes) : list bytes :=
  match n with
  | O => []
  | S n => match cut 4 data with
           | None => []
           | Some (l, data) => match cut (decodeUint32 l) data with
                               | None => []
                               | Some (line, data) => line :: read_lines n data
                               end
           end
  end.

(** What remains after the RGA: version, block types, lines.  A payload that
    ends early is accepted, with the lines taken from the RGA. *)
Definition unmarshal_content (d : Document) (data : bytes) : Document :=
  let from_rga := rebuildLinesFromRGARaw (d_rga d) in
  match cut 8 data with
  | None => set_content d [] from_rga
  | Some (v, data) =>
      let d := set_version d (decodeInt64 v) in
      match cut 4 data with
      | None => set_content d [] from_rga
      | Some (n, data) =>
          match cut (decodeUint32 n) data with
          | None => set_content d [] from_rga
          | Some (bts, data) =>
              let bts := known_block <$> bts in
              match cut 4 data with
              | None => set_content d bts from_rga
              | Some (n, data) =>
                  let lines := read_lines (Z.to_nat (decodeUint32 n)) data in
                  set_content d (carry_types bts (length lines)) lines
              end
          end
      end
  end.

Definition Unmarshal (data : bytes) (d : Document) : Document * result unit :=
  match cut 4 data with
  | None => (d, Err (ErrText "document data too short"))
  | Some (n, data) =>
  match cut (decodeUint32 n) data with
  | None => (d, Err (ErrText "document id truncated"))
  | Some (id, data) =>
  let d := set_id d id in
  match cut 4 data with
  | None => (d, Err (ErrText "title length truncated"))
  | Some (n, data) =>
  match cut (decodeUint32 n) data with
  | None => (d, Err (ErrText "title truncated"))
  | Some (title, data) =>
  let d := set_doc_title d title in
  match cut 4 data with
  | None => (d, Err (ErrText "rga length truncated"))
  | Some (n, data) =>
  match cut (decodeUint32 n) data with
  | None => (d, Err (ErrText "rga data truncated"))
  | Some (rgaData, data) =>
  let '(rga, e) := RgaCodec.Unmarshal rgaData (d_rga d) in
  match e with
  | Err _ => (set_rga d rga, Err (ErrText "rga unmarshal"))
  | Ok _ => (unmarshal_content (set_rga d rga) data, Ok tt)
  end end end end end end end.

(** * Lemmas *)

Definition fits32 (b : bytes) : Prop := len b < 2 ^ 32.

Lemma cut_app n a k : len a = n -> cut n (a ++ k) = Some (a, k).
Proof.
  intros <-. unfold cut, len. rewrite length_app, (proj2 (Z.ltb_ge _ _)) by lia.
  rewrite Nat2Z.id. by rewrite take_app_length, drop_app_length.
Qed.

Lemma len_encodeUint32 v : len (encodeUint32 v) = 4.
Proof. unfold len, encodeUint32. by rewrite length_be_put. Qed.

Lemma len_encodeInt64 v : len (encodeInt64 v) = 8.
Proof. unfold len, encodeInt64. by rewrite length_be_put. Qed.

Lemma decode_encode32 v : 0 <= v < 2 ^ 32 -> decodeUint32 (encodeUint32 v) = v.
Proof. intros H. unfold decodeUint32, encodeUint32. apply be_get_put_small. simpl. lia. Qed.

Lemma decode_encode64 v : int64_min <= v <= int64_max -> decodeInt64 (encodeInt64 v) = v.
Proof.
  unfold int64_min, int64_max. intros H. unfold decodeInt64, encodeInt64. rewrite be_get_put.
  change (v mod _) with (wrapU 64 v). rewrite wrapS_wrapU, wrapS_small by lia. done.
Qed.

(** Reading back a length-prefixed string. *)
Lemma cut_len b k : cut 4 (put32 b ++ k) = Some (encodeUint32 (len b), b ++ k).
Proof. unfold put32. rewrite <- app_assoc. apply cut_app, len_encodeUint32. Qed.

Lemma cut_body b k : fits32 b -> cut (decodeUint32 (encodeUint32 (len b))) (b ++ k) = Some (b, k).
Proof. intros H. unfold fits32, len in *. rewrite decode_encode32 by lia. by apply cut_app. Qed.

Lemma op_of_op_byte t : (forall b, t = OpUnknown b -> 4 <= u8 b) -> op_of_byte (op_byte t) = t.
Proof.
  intros H. destruct t as [| | | |b]; try done. specialize (H b eq_refl). unfold op_of_byte. simpl.
  by rewrite !(proj2 (Z.eqb_neq _ _)) by lia.
Qed.

(** An operation whose fields fit their fields on the wire. *)
Record op_fits (op : Op) : Prop := {
  of_type : forall b, o_Type op = OpUnknown b -> 4 <= u8 b;
  of_author : length (o_AuthorID op) = 32%nat;
  of_position : 0 <= o_Position op < 2 ^ 32;
  of_value : fits32 (o_Value op);
  of_block : 0 <= o_BlockType op < 256;
  of_title : fits32 (o_Title op);
  of_ts : int64_min <= o_Timestamp op <= int64_max;
}.

Lemma unmarshal_tail_put op bt title :
  0 <= bt < 256 -> fits32 title ->
  unmarshal_tail op (encodeUint32 bt ++ put32 title) = with_block op bt title.
Proof.
  intros Hb Ht. unfold unmarshal_tail. rewrite cut_app by apply len_encodeUint32.
  rewrite <- (app_nil_r (put32 title)), cut_len, cut_body by done.
  rewrite decode_encode32 by lia. by rewrite Z.mod_small by lia.
Qed.

(** Fixed-width fields at their offsets. *)
Lemma drop_fields {A} n (a k : list A) : length a = n -> drop n (a ++ k) = k.
Proof. intros <-. apply drop_app_length. Qed.

Lemma unmarshal_marshalOp op :
  op_fits op ->
  unmarshalOp (marshalOp op)
  = Ok (mkOp (o_Type op) [] (o_AuthorID op) (o_Position op) (o_Value op) (o_BlockType op) (o_Title op)
          (o_Timestamp op)).
Proof.
  intros [Ht Ha Hp Hv Hb Hti Hs]. unfold marshalOp, put32 at 1.
  set (tl := encodeUint32 (o_BlockType op) ++ put32 (o_Title op)).
  set (data := _ :: _). unfold unmarshalOp.
  assert (1 + 32 + 8 + 4 + 4 <= len data) as Hl.
  { unfold data, len, encodeInt64, encodeUint32. cbn [length]. rewrite !length_app, !length_be_put, Ha. lia. }
  rewrite (proj2 (Z.ltb_ge _ _)) by lia. clear Hl.
  assert (drop 1 data = o_AuthorID op ++ encodeInt64 (o_Timestamp op) ++ encodeUint32 (o_Position op)
            ++ encodeUint32 (len (o_Value op)) ++ o_Value op ++ tl) as E1
    by (unfold data; cbn [drop]; by rewrite <- !app_assoc).
  assert (drop 33 data = encodeInt64 (o_Timestamp op) ++ encodeUint32 (o_Position op)
            ++ encodeUint32 (len (o_Value op)) ++ o_Value op ++ tl) as E33
    by (change 33%nat with (1 + 32)%nat; rewrite <- drop_drop, E1; by apply drop_fields).
  assert (drop 41 data = encodeUint32 (o_Position op) ++ encodeUint32 (len (o_Value op)) ++ o_Value op ++ tl) as E41
    by (change 41%nat with (33 + 8)%nat; rewrite <- drop_drop, E33; by apply drop_fields, length_be_put).
  assert (drop 45 data = encodeUint32 (len (o_Value op)) ++ o_Value op ++ tl) as E45
    by (change 45%nat with (41 + 4)%nat; rewrite <- drop_drop, E41; by apply drop_fields, length_be_put).
  assert (drop 49 data = o_Value op ++ tl) as E49
    by (change 49%nat with (45 + 4)%nat; rewrite <- drop_drop, E45; by apply drop_fields, length_be_put).
  rewrite E1, E33, E41, E45, E49. unfold data. cbn [nth].
  rewrite op_of_op_byte, !take_app_exact by first [done|apply length_be_put].
  rewrite cut_body by done. unfold tl. rewrite unmarshal_tail_put by done.
  rewrite decode_encode64, decode_encode32 by done. done.
Qed.

Lemma decode_encodeDocMessage m :
  0 <= dm_Type m < 256 -> fits32 (dm_DocID m) -> length (dm_AuthorID m) = 32%nat ->
  int64_min <= dm_Timestamp m <= int64_max -> decodeDocMessage (encodeDocMessage m) = Ok m.
Proof.
  intros Ht Hd Ha Hs. unfold encodeDocMessage, put32. rewrite <- app_assoc.
  set (data := _ :: _). unfold decodeDocMessage.
  assert (len data = 5 + len (dm_DocID m) + 32 + 8 + len (dm_Payload m)) as Hl.
  { unfold data, len, encodeInt64, encodeUint32. cbn [length]. rewrite !length_app, !length_be_put, Ha. lia. }
  assert (drop 5 data = dm_DocID m ++ dm_AuthorID m ++ encodeInt64 (dm_Timestamp m) ++ dm_Payload m) as E5
    by (change 5%nat with (1 + 4)%nat; rewrite <- drop_drop; by apply drop_fields, length_be_put).
  assert (take 4 (drop 1 data) = encodeUint32 (len (dm_DocID m))) as E4
    by (unfold data; cbn [drop]; by apply take_app_exact, length_be_put).
  rewrite E4, E5. unfold fits32 in Hd. unfold len in Hd, Hl |- *. rewrite decode_encode32 by lia.
  rewrite !(proj2 (Z.ltb_ge _ _)) by lia. rewrite Nat2Z.id, take_app_length, drop_app_length.
  rewrite take_app_exact by done.
  assert (drop 32 (dm_AuthorID m ++ encodeInt64 (dm_Timestamp m) ++ dm_Payload m)
          = encodeInt64 (dm_Timestamp m) ++ dm_Payload m) as E32 by (by apply drop_fields).
  change 40%nat with (32 + 8)%nat. rewrite <- drop_drop, E32, drop_fields by apply length_be_put.
  rewrite take_app_exact by apply length_be_put. rewrite decode_encode64 by done.
  unfold data. cbn [nth]. rewrite u8_byte_of, Z.mod_small by lia. by destruct m.
Qed.

Lemma read_lines_put lines k :
  Forall fits32 lines -> read_lines (length lines) (concat (put32 <$> lines) ++ k) = lines.
Proof.
  induction 1 as [|l lines Hl _ IH]; [done|]. rewrite fmap_cons. cbn [concat length read_lines].
  rewrite <- app_assoc, cut_len, cut_body by done. by rewrite IH.
Qed.

Lemma known_blocks bts :
  Forall (fun bt => 0 <= bt < block_type_count) bts -> known_block <$> (byte_of <$> bts) = bts.
Proof.
  unfold block_type_count. induction 1 as [|bt bts Hb _ IH]; [done|]. rewrite !fmap_cons, IH. f_equal.
  unfold known_block, block_type_count. rewrite u8_byte_of, Z.mod_small by lia.
  by rewrite (proj2 (Z.ltb_lt _ _)) by lia.
Qed.

Lemma carry_types_all bts : carry_types bts (length bts) = bts.
Proof. unfold carry_types. by rewrite take_app_length. Qed.

(** * Properties *)

(** An operation sent in an operation message arrives: decoding the
    encoded payload gives the document ID it was sent under and the operation
    with every field but its own document ID, which is not on the wire.  The
    operation must have a position of 32 bits without sign, a value and a
    title of less than 4 GiB. *)
Theorem docs_op_roundtrip (op : Op) (docID : bytes) :
  op_fits op -> fits32 docID ->
  decodeOpPayload (encodeOpPayload op docID)
  = Ok (mkOp (o_Type op) [] (o_AuthorID op) (o_Position op) (o_Value op) (o_BlockType op) (o_Title op)
          (o_Timestamp op), docID).
Proof.
  intros Hop Hd. unfold decodeOpPayload, encodeOpPayload.
  rewrite decode_encodeDocMessage by (cbn [dm_Type dm_DocID dm_AuthorID dm_Timestamp]; first [done|by vm_compute]).
  cbn [dm_Payload dm_DocID]. by rewrite unmarshal_marshalOp.
Qed.

(** A document that fits the format: one block type per line, all of them
    known, and everything below the 32-bit lengths. *)
Record doc_fits (d : Document) : Prop := {
  df_ok : doc_ok d;
  df_id : fits32 (d_id d);
  df_title : fits32 (d_title d);
  df_rga : fits32 (RgaCodec.Marshal (d_rga d));
  df_nodes : Forall node_fits (nodes (d_rga d)) /\ Z.of_nat (length (nodes (d_rga d))) < 65536;
  df_version : int64_min <= d_version d <= int64_max;
  df_types : Forall (fun bt => 0 <= bt < block_type_count) (d_blockTypes d);
  df_count : Z.of_nat (length (d_lines d)) < 2 ^ 32;
  df_lines : Forall fits32 (d_lines d);
}.

Lemma rga_reloaded r r0 :
  Forall node_fits (nodes r) -> Z.of_nat (length (nodes r)) < 65536 ->
  RgaCodec.Unmarshal (RgaCodec.Marshal r) r0
  = (mkRGA (head r0) (nodes r)
       (wrapS 64 (Z.of_nat (length (filter (fun n => Deleted n = false) (nodes r))))) (clock r0) (nodeID r0), Ok tt).
Proof.
  intros Hf Hn. unfold RgaCodec.Unmarshal, RgaCodec.Marshal. rewrite decode_encodeRGAList by done.
  unfold count16. rewrite Z.mod_small, Nat2Z.id, firstn_all by lia. by rewrite load_nodes_id.
Qed.

Lemma unmarshal_content_put d0 d :
  doc_fits d ->
  unmarshal_content d0 (encodeInt64 (d_version d)
    ++ encodeUint32 (Z.of_nat (length (d_blockTypes d))) ++ (byte_of <$> d_blockTypes d)
    ++ encodeUint32 (Z.of_nat (length (d_lines d))) ++ concat (put32 <$> d_lines d))
  = set_content (set_version d0 (d_version d)) (d_blockTypes d) (d_lines d).
Proof.
  intros []. pose proof (ok_types _ df_ok0) as Hl. unfold unmarshal_content.
  rewrite cut_app by apply len_encodeInt64. rewrite cut_app by apply len_encodeUint32.
  rewrite decode_encode32 by lia. rewrite cut_app by (unfold len; by rewrite length_fmap).
  rewrite known_blocks by done. rewrite cut_app by apply len_encodeUint32. rewrite decode_encode32 by lia.
  rewrite Nat2Z.id, <- (app_nil_r (concat _)), read_lines_put by done.
  rewrite Hl, carry_types_all, decode_encode64 by done. done.
Qed.

(** a saved document is read back: [Unmarshal] of [Marshal] gives the
    receiving document the ID, title, version, lines and block types of the
    saved one and its characters (all nodes of the RGA in order, with the
    receiver's clock), and keeps the receiver's undo history. *)
Theorem docs_marshal_roundtrip (d d0 : Document) :
  doc_fits d ->
  Unmarshal (Marshal d) d0
  = (mkDoc (d_id d) (d_title d)
       (mkRGA (head (d_rga d0)) (nodes (d_rga d))
          (wrapS 64 (Z.of_nat (length (filter (fun n => Deleted n = false) (nodes (d_rga d))))))
          (clock (d_rga d0)) (nodeID (d_rga d0)))
       (d_blockTypes d) (d_lines d) (d_history d0) (d_historyIdx d0) (d_version d) (d_updatedAt d0)
       (d_nodeID d0), Ok tt).
Proof.
  intros Hd. pose proof Hd as []. destruct df_nodes0 as [Hf Hn]. unfold Unmarshal, Marshal.
  do 3 (rewrite cut_len, cut_body by done). cbn [set_doc_title set_id d_rga].
  rewrite rga_reloaded by done. by rewrite unmarshal_content_put.
Qed.

(** ** Examples *)

Definition saved_doc : Document :=
  default doc0 (run_calls [(7, CApply (ins 0 "first")); (8, CApply (ins 1 "second"));
                           (9, CApply (NewFormatBlockOp (str "d1") (zeroes 32) 0 1 0))] doc0).

#[local] Instance node_fits_dec n : Decision (node_fits n).
Proof. unfold node_fits, fits16. apply _. Defined.

Lemma saved_doc_fits : doc_fits saved_doc.
Proof.
  split.
  - split; [reflexivity|apply Nat.leb_le; reflexivity|]. repeat constructor; by vm_compute.
  - by vm_compute.
  - by vm_compute.
  - by vm_compute.
  - split; [decide_vm|by vm_compute].
  - by vm_compute.
  - decide_vm.
  - by vm_compute.
  - repeat constructor; by vm_compute.
Qed.

Lemma docs_marshal_roundtrip_witness :
  d_lines (Unmarshal (Marshal saved_doc) doc0).1 = [str "first"; str "second"] /\
  d_blockTypes (Unmarshal (Marshal saved_doc) doc0).1 = [1; 0].
Proof.
  rewrite (docs_marshal_roundtrip saved_doc doc0 saved_doc_fits). by vm_compute.
Defined.

Lemma docs_op_roundtrip_witness :
  decodeOpPayload (encodeOpPayload (ins 3 "hello") (str "d1"))
  = Ok (mkOp OpInsert [] (zeroes 32) 3 (str "hello") 0 [] 0, str "d1").
Proof.
  apply (docs_op_roundtrip (ins 3 "hello") (str "d1")); [|by vm_compute].
  split; [by intros|reflexivity|by vm_compute|by vm_compute|by vm_compute|by vm_compute|by vm_compute].
Defined.

(** A payload that ends after the characters is accepted, but leaves lines
    without block types: deleting one of them is an index out of range. *)
Lemma truncated_document_panics :
  let r := Unmarshal (take (length (Marshal saved_doc) - 37) (Marshal saved_doc)) doc0 in
  r.2 = Ok tt /\ d_lines r.1 = [str "first"; str "second"] /\ d_blockTypes r.1 = [] /\
  Delete_ 0 0 r.1 = None.
Proof. decide_vm. Qed.

(** A negative position does not survive the wire: it is sent as a uint32. *)
Lemma negative_position_wraps :
  decodeOpPayload (encodeOpPayload (ins (-1) "x") (str "d1"))
  = Ok (mkOp OpInsert [] (zeroes 32) (2 ^ 32 - 1) (str "x") 0 [] 0, str "d1").
Proof. decide_vm. Qed.
