(* ===== verification/Calls.v ===== *)
(** * Voice calls (pkg/services/voice)

    The life cycle of a call and the table of calls of call.go, the signed
    signals of signaling.go and the media frames of server.go.  A [*Call] is
    handed out to callers that keep it, so calls live in a heap and the
    manager holds references: a call can change through a reference after the
    manager has forgotten it, and the other way round.  The logging, the
    WebRTC sessions and the encoders are not modelled. *)

From S2P Require Import Prelude Bytes Ed25519.
Local Open Scope Z_scope.

(** ** Data *)

Inductive CallState :=
  | CallStateIdle | CallStateCalling | CallStateRinging | CallStateConnected | CallStateEnded.

#[global] Instance CallState_eq_dec : EqDecision CallState.
Proof. solve_decision. Defined.

Record TrackInfo := mkTrack {
  t_ID : bytes; t_Kind : Z; t_Direction : Z; t_Codec : Z; t_MimeType : bytes;
  t_SampleRate : Z; t_FrameRate : Z; t_Width : Z; t_Height : Z; t_Bitrate : Z;
}.

Record ICECandidate := mkCandidate {
  i_ID : bytes; i_Type : Z; i_Address : bytes; i_Port : Z; i_Protocol : bytes; i_Priority : Z;
  i_SDPFormat : bytes;
}.

Record CallConfig := mkCallConfig {
  cfg_Caller : bytes;
  cfg_Callee : bytes;
  cfg_ChannelID : bytes;
  cfg_AudioCodec : Z;
  cfg_VideoCodec : Z;
  cfg_EnableVideo : bool;
  cfg_EnableData : bool;
  cfg_PrivKey : option bytes;
}.

Record Call := mkCall {
  c_id : bytes;
  c_state : CallState;
  c_caller : bytes;
  c_callee : bytes;
  c_channelID : bytes;
  c_config : CallConfig;
  c_tracks : gmap bytes TrackInfo;
  c_candidates : gmap bytes ICECandidate;
  c_createdAt : Z;
  c_endedAt : Z;
}.

#[global] Instance TrackInfo_eq_dec : EqDecision TrackInfo.
Proof. solve_decision. Defined.
#[global] Instance ICECandidate_eq_dec : EqDecision ICECandidate.
Proof. solve_decision. Defined.
#[global] Instance CallConfig_eq_dec : EqDecision CallConfig.
Proof. solve_decision. Defined.
#[global] Instance Call_eq_dec : EqDecision Call.
Proof. solve_decision. Defined.

(** ** A call *)

(** 16 bytes of the 17 characters ["%x-%x"] gives for two 4-byte prefixes. *)
Definition call_id (caller callee : bytes) : bytes :=
  take 16 (hex_encode (take 4 caller) ++ str "-" ++ hex_encode (take 4 callee) ++ zeroes 16).

Definition NewCall (now : Z) (cfg : CallConfig) : Call :=
  mkCall (call_id (cfg_Caller cfg) (cfg_Callee cfg)) CallStateIdle (cfg_Caller cfg) (cfg_Callee cfg)
    (cfg_ChannelID cfg) cfg ∅ ∅ now 0.

Definition with_state (c : Call) (s : CallState) : Call :=
  mkCall (c_id c) s (c_caller c) (c_callee c) (c_channelID c) (c_config c) (c_tracks c) (c_candidates c)
    (c_createdAt c) (c_endedAt c).

Definition AddCandidate (cand : ICECandidate) (c : Call) : Call :=
  mkCall (c_id c) (c_state c) (c_caller c) (c_callee c) (c_channelID c) (c_config c) (c_tracks c)
    (<[i_ID cand := cand]> (c_candidates c)) (c_createdAt c) (c_endedAt c).

Definition ErrCallNotFound : goerror := ErrText "call not found".
Definition ErrInvalidTransition : goerror := ErrText "invalid state transition".
Definition ErrCallEnded : goerror := ErrText "call ended".

Definition AddTrack (t : TrackInfo) (c : Call) : result unit * Call :=
  if decide (c_state c = CallStateEnded) then (Err ErrCallEnded, c) else
  (Ok tt, mkCall (c_id c) (c_state c) (c_caller c) (c_callee c) (c_channelID c) (c_config c)
            (<[t_ID t := t]> (c_tracks c)) (c_candidates c) (c_createdAt c) (c_endedAt c)).

(** The table [allowed]; an ended call has no entry in it. *)
Definition allowed (s : CallState) : option (list CallState) :=
  match s with
  | CallStateIdle => Some [CallStateCalling]
  | CallStateCalling => Some [CallStateRinging; CallStateConnected; CallStateEnded]
  | CallStateRinging => Some [CallStateConnected; CallStateEnded]
  | CallStateConnected => Some [CallStateEnded]
  | CallStateEnded => None
  end.

Definition transition (newState : CallState) (c : Call) : result unit * Call :=
  match allowed (c_state c) with
  | None => (Err ErrInvalidTransition, c)
  | Some valid => if decide (newState ∈ valid) then (Ok tt, with_state c newState)
                  else (Err ErrInvalidTransition, c)
  end.

Definition Call_ : Call -> result unit * Call := transition CallStateCalling.
Definition Ringing : Call -> result unit * Call := transition CallStateRinging.
Definition Accept_ : Call -> result unit * Call := transition CallStateConnected.

Definition End_ (c : Call) : result unit * Call :=
  if decide (c_state c = CallStateEnded) then (Err ErrCallEnded, c) else transition CallStateEnded c.

Definition EndedAt (c : Call) : option Z := if time_is_zero (c_endedAt c) then None else Some (c_endedAt c).

(** ** The table of calls *)

Abbreviation ref := nat.

Record CallManager := mkManager {
  heap : list Call;
  calls : gmap bytes ref;
  byPeer : gmap bytes bytes;
}.

#[global] Instance CallManager_eq_dec : EqDecision CallManager.
Proof. solve_decision. Defined.

Definition NewCallManager : CallManager := mkManager [] ∅ ∅.

(** Run an operation of a call through its reference. *)
Definition at_ref (p : ref) (f : Call -> result unit * Call) (m : CallManager) : result unit * CallManager :=
  match heap m !! p with
  | Some c => let '(r, c') := f c in (r, mkManager (<[p := c']> (heap m)) (calls m) (byPeer m))
  | None => (Err ErrCallNotFound, m)
  end.

Definition Create (now : Z) (cfg : CallConfig) (m : CallManager) : option ref * CallManager :=
  let '(r, call) := Call_ (NewCall now cfg) in
  match r with
  | Err _ => (None, m)
  | Ok _ =>
      let p := length (heap m) in
      (Some p, mkManager (heap m ++ [call]) (<[c_id call := p]> (calls m))
                 (<[cfg_Callee cfg := c_id call]> (<[cfg_Caller cfg := c_id call]> (byPeer m))))
  end.

Definition Get (id : bytes) (m : CallManager) : result ref :=
  match calls m !! id with Some p => Ok p | None => Err ErrCallNotFound end.

Definition GetByPeer (peer : bytes) (m : CallManager) : result ref :=
  match byPeer m !! peer with
  | None => Err ErrCallNotFound
  | Some id => Get id m
  end.

Definition on_call (id : bytes) (f : Call -> result unit * Call) (m : CallManager) : result unit * CallManager :=
  match Get id m with
  | Err e => (Err e, m)
  | Ok p => at_ref p f m
  end.

Definition Ring (id : bytes) : CallManager -> result unit * CallManager := on_call id Ringing.
Definition Accept (id : bytes) : CallManager -> result unit * CallManager := on_call id Accept_.

(** The part of [End] under the manager's lock. *)
Definition forget (id : bytes) (p : ref) (m : CallManager) : CallManager :=
  match heap m !! p with
  | Some c => mkManager (heap m) (delete id (calls m)) (delete (c_callee c) (delete (c_caller c) (byPeer m)))
  | None => m
  end.

Definition End (id : bytes) (m : CallManager) : result unit * CallManager :=
  match Get id m with
  | Err e => (Err e, m)
  | Ok p => let '(r, m') := at_ref p End_ m in
            match r with
            | Err e => (Err e, m')
            | Ok _ => (Ok tt, forget id p m')
            end
  end.

Definition ActiveCalls (m : CallManager) : list ref :=
  filter (fun p => c_state <$> heap m !! p <> Some CallStateEnded)
    (map_to_list (calls m)).*2.

Definition Stop (m : CallManager) : CallManager := mkManager (heap m) ∅ ∅.

(** ** Steps

    What can happen to the table: operations of the manager and operations
    through a reference, in any order.  [End] takes the manager's lock only
    after it has ended the call, so its two halves are steps of their own and
    anything may come between them. *)
Inductive call_step (m : CallManager) : CallManager -> Prop :=
  | step_create now cfg : call_step m (Create now cfg m).2
  | step_ring id : call_step m (Ring id m).2
  | step_accept id : call_step m (Accept id m).2
  | step_end_first id : call_step m (on_call id End_ m).2
  | step_end_second id p c :
      heap m !! p = Some c -> c_id c = id -> c_state c = CallStateEnded -> call_step m (forget id p m)
  | step_direct p f :
      f ∈ [Call_; Ringing; Accept_; End_] -> call_step m (at_ref p f m).2
  | step_track p t : call_step m (at_ref p (AddTrack t) m).2
  | step_candidate p cand : call_step m (at_ref p (fun c => (Ok tt, AddCandidate cand c)) m).2
  | step_stop : call_step m (Stop m).

Definition call_steps : CallManager -> CallManager -> Prop := rtc call_step.

(** ** Signals *)

Record SignalMessage := mkSignal {
  s_Type : Z;
  s_CallID : bytes;
  s_Sender : bytes;
  s_Timestamp : Z;
  s_Payload : bytes;
  s_Signature : bytes;
}.

(** Of the sender only the first byte is part of it. *)
Definition CanonicalForm (m : SignalMessage) : bytes :=
  s_CallID m ++ [byte_of (s_Type m)] ++ [nth 0 (s_Sender m) Byte.x00] ++ be_put 8 (s_Timestamp m) ++ s_Payload m.

Section signals.
Context `{HE : Ed25519}.

Definition Sign (m : SignalMessage) (priv : bytes) : SignalMessage :=
  mkSignal (s_Type m) (s_CallID m) (s_Sender m) (s_Timestamp m) (s_Payload m) (ed_sign priv (CanonicalForm m)).

Definition ValidateSignal (m : SignalMessage) (pub : bytes) : result unit :=
  if negb (len (s_Signature m) =? 64) then Err (ErrText "invalid signature length")
  else if negb (ed_verify pub (CanonicalForm m) (s_Signature m))
  then Err (ErrText "signal signature verification failed")
  else Ok tt.

End signals.

(** ** Media frames *)

Record MediaFrameHeader := mkFrameHeader {
  mf_CallID : bytes;
  mf_TrackID : bytes;
  mf_Sequence : Z;
  mf_IsKey : bool;
}.

Definition MarshalFrame (callID trackID : bytes) (seq : Z) (isKey : bool) (payload : bytes) : bytes :=
  callID ++ be_put 2 (len trackID) ++ trackID ++ be_put 4 seq ++ [if isKey then Byte.x01 else Byte.x00] ++ payload.

Definition UnmarshalFrame (data : bytes) : result (MediaFrameHeader * bytes) :=
  if len data <? 18 then Err (ErrText "frame too short") else
  let callID := take 16 data in
  let trackIDLen := be_get (take 2 (drop 16 data)) in
  if len data <? 18 + trackIDLen + 5 then Err (ErrText "frame incomplete") else
  let n := Z.to_nat trackIDLen in
  let rest := drop n (drop 18 data) in
  Ok (mkFrameHeader callID (take n (drop 18 data)) (be_get (take 4 rest))
        (bool_decide (nth 4 rest Byte.x00 = Byte.x01)), drop 5 rest).

(** * Lemmas *)

Definition edge (s s' : CallState) : Prop := exists l, allowed s = Some l /\ s' ∈ l.

(** States only move along the table. *)
Definition path : CallState -> CallState -> Prop := rtc edge.

(** What any operation may do to a call. *)
Record evolves (c c' : Call) : Prop := {
  ev_id : c_id c' = c_id c;
  ev_caller : c_caller c' = c_caller c;
  ev_callee : c_callee c' = c_callee c;
  ev_path : path (c_state c) (c_state c');
  ev_tracks : c_state c = CallStateEnded -> c_tracks c' = c_tracks c;
  ev_ended : c_endedAt c' = c_endedAt c;
}.

Lemma path_ended s : path CallStateEnded s -> s = CallStateEnded.
Proof. intros H. inversion H as [|? y ? [l [E ?]]]; [done|]. discriminate. Qed.

Lemma path_idle s s' : path s s' -> s <> CallStateIdle -> s' <> CallStateIdle.
Proof.
  induction 1 as [|s y s' [l [E Hin]] _ IH]; [done|]. intros _. apply IH.
  destruct s; simpl in E; simplify_eq; set_solver.
Qed.

#[global] Instance evolves_preorder : PreOrder evolves.
Proof.
  split; [by split; try done; apply rtc_refl|].
  intros a b c [] []. split; try congruence.
  - by etrans.
  - intros E. rewrite ev_tracks1; [auto|]. rewrite E in ev_path0. by apply path_ended.
Qed.

Lemma transition_evolves s c : evolves c (transition s c).2.
Proof.
  unfold transition. destruct (allowed (c_state c)) as [l|] eqn:E; [|done].
  destruct (decide (s ∈ l)) as [Hin|]; [|done].
  split; try done. simpl. apply rtc_once. by exists l.
Qed.

Lemma End_evolves c : evolves c (End_ c).2.
Proof. unfold End_. case_decide; [done|]. apply transition_evolves. Qed.

Lemma direct_evolves f c : f ∈ [Call_; Ringing; Accept_; End_] -> evolves c (f c).2.
Proof.
  rewrite !elem_of_cons, elem_of_nil. intros [->|[->|[->|[->|[]]]]];
    first [apply transition_evolves | apply End_evolves].
Qed.

Lemma AddTrack_evolves t c : evolves c (AddTrack t c).2.
Proof. unfold AddTrack. case_decide; [done|]. by split. Qed.

Lemma AddCandidate_evolves cand c : evolves c (AddCandidate cand c).
Proof. by split. Qed.

(** Every call of [h] is still there, further along. *)
Definition heap_evolves (h h' : list Call) : Prop :=
  forall p c, h !! p = Some c -> exists c', h' !! p = Some c' /\ evolves c c'.

#[global] Instance heap_evolves_preorder : PreOrder heap_evolves.
Proof.
  split; [by intros h p c H; exists c|]. intros h1 h2 h3 H12 H23 p c Hc.
  destruct (H12 p c Hc) as (c' & Hc' & E1). destruct (H23 p c' Hc') as (c'' & Hc'' & E2).
  exists c''. split; [done|by etrans].
Qed.

(** The invariant of the table. *)
Record table_ok (m : CallManager) : Prop := {
  ok_calls : forall id p, calls m !! id = Some p -> exists c, heap m !! p = Some c /\ c_id c = id;
  ok_heap : forall p c, heap m !! p = Some c ->
    c_id c = call_id (c_caller c) (c_callee c) /\ c_state c <> CallStateIdle /\ c_endedAt c = 0;
  ok_peers : forall peer id, byPeer m !! peer = Some id ->
    exists a b, id = call_id a b /\ (peer = a \/ peer = b);
}.

Lemma at_ref_evolves p f m :
  (forall c, evolves c (f c).2) ->
  heap_evolves (heap m) (heap (at_ref p f m).2) /\
  calls (at_ref p f m).2 = calls m /\ byPeer (at_ref p f m).2 = byPeer m /\
  (forall q c', heap (at_ref p f m).2 !! q = Some c' -> exists c, heap m !! q = Some c /\ evolves c c').
Proof.
  intros Hf. unfold at_ref. destruct (heap m !! p) as [c|] eqn:Ec;
    [|by split_and!; [done..|]; intros q c' Hq; exists c'].
  specialize (Hf c). destruct (f c) as [r c'] eqn:Ef. simpl in *. split_and!; [|done|done|].
  - intros q c0 Hq. destruct (decide (p = q)) as [->|Hne].
    + rewrite list_lookup_insert_eq by (by eapply lookup_lt_Some). exists c'. by simplify_eq.
    + rewrite list_lookup_insert_ne by done. by exists c0.
  - intros q c1 Hq. destruct (decide (p = q)) as [->|Hne].
    + rewrite list_lookup_insert_eq in Hq by (by eapply lookup_lt_Some). simplify_eq. by exists c.
    + rewrite list_lookup_insert_ne in Hq by done. by exists c1.
Qed.

Lemma at_ref_ok p f m : (forall c, evolves c (f c).2) -> table_ok m -> table_ok (at_ref p f m).2.
Proof.
  intros Hf [H1 H2 H3]. destruct (at_ref_evolves p f m Hf) as (He & Ec & Eb & Hback). split.
  - rewrite Ec. intros id q Hq. destruct (H1 id q Hq) as (c & Hc & Eid).
    destruct (He q c Hc) as (c' & Hc' & []). exists c'. split; congruence.
  - intros q c' Hq. destruct (Hback q c' Hq) as (c & Hc & []). destruct (H2 q c Hc) as (E1 & E2 & E3).
    split_and!; [congruence|by eapply path_idle|congruence].
  - by rewrite Eb.
Qed.

Lemma on_call_at_ref id f m :
  (on_call id f m).2 = m \/ exists p, (on_call id f m).2 = (at_ref p f m).2.
Proof. unfold on_call. destruct (Get id m); [right; eauto|by left]. Qed.

Lemma Create_spec now cfg m :
  Create now cfg m
  = (Some (length (heap m)),
     mkManager (heap m ++ [with_state (NewCall now cfg) CallStateCalling])
       (<[call_id (cfg_Caller cfg) (cfg_Callee cfg) := length (heap m)]> (calls m))
       (<[cfg_Callee cfg := call_id (cfg_Caller cfg) (cfg_Callee cfg)]>
          (<[cfg_Caller cfg := call_id (cfg_Caller cfg) (cfg_Callee cfg)]> (byPeer m)))).
Proof. done. Qed.

Lemma Create_ok now cfg m : table_ok m -> table_ok (Create now cfg m).2.
Proof.
  intros [H1 H2 H3]. rewrite Create_spec. split; cbn [snd heap calls byPeer].
  - intros id p. rewrite lookup_insert_Some. intros [[<- <-]|[_ Hp]].
    + eexists. split; [by apply list_lookup_middle|done].
    + destruct (H1 id p Hp) as (c & Hc & Eid). exists c. split; [by apply lookup_app_l_Some|done].
  - intros p c Hp. apply lookup_app_Some in Hp as [Hp|[_ Hp]]; [by eapply H2|].
    apply list_lookup_singleton_Some in Hp as [_ <-]. done.
  - intros peer id. rewrite !lookup_insert_Some. intros [[<- <-]|[_ [[<- <-]|[_ Hp]]]]; [eauto|eauto|by eapply H3].
Qed.

Lemma forget_spec id p m c :
  heap m !! p = Some c ->
  forget id p m = mkManager (heap m) (delete id (calls m)) (delete (c_callee c) (delete (c_caller c) (byPeer m))).
Proof. unfold forget. by intros ->. Qed.

Lemma call_step_evolves m m' : call_step m m' -> heap_evolves (heap m) (heap m').
Proof.
  assert (forall p f, (forall c, evolves c (f c).2) -> heap_evolves (heap m) (heap (at_ref p f m).2)) as Hat
    by (intros p f Hf; by apply at_ref_evolves).
  assert (forall id f, (forall c, evolves c (f c).2) -> heap_evolves (heap m) (heap (on_call id f m).2)) as Hon.
  { intros id f Hf. destruct (on_call_at_ref id f m) as [->|[p ->]]; [done|auto]. }
  destruct 1; try (by apply Hon; intros; first [apply transition_evolves | apply End_evolves]).
  - rewrite Create_spec. intros p c Hc. exists c. split; [by apply lookup_app_l_Some|done].
  - by erewrite forget_spec.
  - apply Hat. intros. by apply direct_evolves.
  - apply Hat, AddTrack_evolves.
  - apply Hat. intros. apply AddCandidate_evolves.
  - done.
Qed.

Lemma call_step_ok m m' : call_step m m' -> table_ok m -> table_ok m'.
Proof.
  intros Hs Hm. assert (forall id f, (forall c, evolves c (f c).2) -> table_ok (on_call id f m).2) as Hon.
  { intros id f Hf. destruct (on_call_at_ref id f m) as [->|[p ->]]; [done|by apply at_ref_ok]. }
  destruct Hs; try (by apply Hon; intros; first [apply transition_evolves | apply End_evolves]).
  - by apply Create_ok.
  - erewrite forget_spec by done. destruct Hm as [Hc Hh Hp]. split; cbn [heap calls byPeer].
    + intros i q. rewrite lookup_delete_Some. intros [_ Hq]. by apply Hc.
    + done.
    + intros peer i. rewrite !lookup_delete_Some. intros (_ & _ & Hq). by eapply Hp.
  - apply at_ref_ok; [intros; by apply direct_evolves|done].
  - apply at_ref_ok; [apply AddTrack_evolves|done].
  - apply at_ref_ok; [intros; apply AddCandidate_evolves|done].
  - destruct Hm. by split.
Qed.

Lemma table_reachable m : call_steps NewCallManager m -> table_ok m.
Proof.
  intros H. assert (table_ok NewCallManager) as H0 by (split; simpl; intros; simplify_map_eq).
  revert H0. induction H as [|m1 m2 m3 Hs _ IH]; [done|]. intros H0. apply IH. by eapply call_step_ok.
Qed.

Lemma call_steps_evolve m m' : call_steps m m' -> heap_evolves (heap m) (heap m').
Proof. induction 1 as [|m1 m2 m3 Hs _ IH]; [done|]. etrans; [by apply call_step_evolves|done]. Qed.

(** * Properties *)

(** C26: the life of a call.  Take any table of calls reached from a new
    manager by any interleaving of its operations with operations on calls
    through references kept from earlier, and any later state of it.  Then
    every registered ID belongs to a call that has this ID and has been
    started; the call found for a peer has the ID of a pair of peers this peer
    is one of; and every call ever made keeps its ID, its caller and its callee,
    has only moved along the table of allowed transitions, and once ended
    stays ended with the tracks it had. *)
Theorem voice_call_lifecycle (m m' : CallManager) :
  call_steps NewCallManager m -> call_steps m m' ->
  (forall id p, Get id m = Ok p ->
     exists c, heap m !! p = Some c /\ c_id c = id /\ c_state c <> CallStateIdle) /\
  (forall peer p, GetByPeer peer m = Ok p ->
     exists c a b, heap m !! p = Some c /\ c_id c = call_id a b /\ (peer = a \/ peer = b)) /\
  (forall p c, heap m !! p = Some c ->
     exists c', heap m' !! p = Some c' /\ c_id c' = c_id c /\ c_caller c' = c_caller c /\
       c_callee c' = c_callee c /\ path (c_state c) (c_state c') /\
       (c_state c = CallStateEnded -> c_state c' = CallStateEnded /\ c_tracks c' = c_tracks c)).
Proof.
  intros Hm Hm'. apply table_reachable in Hm as [H1 H2 H3]. unfold GetByPeer, Get. split_and!.
  - intros id p. destruct (calls m !! id) eqn:E; intros ?; simplify_eq.
    destruct (H1 _ _ E) as (c & Hc & Ei). exists c. split_and!; [done..|by eapply H2].
  - intros peer p. destruct (byPeer m !! peer) as [id|] eqn:Ep; [|done].
    destruct (calls m !! id) eqn:E; intros ?; simplify_eq.
    destruct (H1 _ _ E) as (c & Hc & Ei). destruct (H3 _ _ Ep) as (a & b & -> & Hab). by exists c, a, b.
  - intros p c Hc. destruct (call_steps_evolve _ _ Hm' p c Hc) as (c' & Hc' & []).
    exists c'. split_and!; try done. intros E. split; [|auto]. rewrite E in ev_path0. by apply path_ended.
Qed.

(** C38: ending a call.  For a registered call that is still going on, [End]
    succeeds, the call is ended, its ID and both of its peers are forgotten,
    every other call and registered ID is left alone.  For one that was ended
    through its reference, [End] answers that it has ended and changes nothing. *)
Theorem voice_end_call (m : CallManager) (id : bytes) (p : ref) (c : Call) :
  call_steps NewCallManager m -> Get id m = Ok p -> heap m !! p = Some c ->
  if decide (c_state c = CallStateEnded) then End id m = (Err ErrCallEnded, m)
  else exists m', End id m = (Ok tt, m') /\
    c_state <$> heap m' !! p = Some CallStateEnded /\
    Get id m' = Err ErrCallNotFound /\
    GetByPeer (c_caller c) m' = Err ErrCallNotFound /\ GetByPeer (c_callee c) m' = Err ErrCallNotFound /\
    (forall q, q <> p -> heap m' !! q = heap m !! q) /\
    (forall i, i <> id -> Get i m' = Get i m).
Proof.
  intros Hm Hg Hc. destruct (ok_heap _ (table_reachable _ Hm) p c Hc) as (_ & Hni & _).
  unfold End, at_ref. rewrite Hg, Hc. unfold End_. case_decide as Hs.
  { f_equal. destruct m as [h cs bp]. simpl in *. by rewrite list_insert_id. }
  assert (transition CallStateEnded c = (Ok tt, with_state c CallStateEnded)) as ->
    by (unfold transition; destruct (c_state c); done).
  eexists. split; [done|]. assert (p < length (heap m))%nat as Hp by (by eapply lookup_lt_Some).
  erewrite forget_spec by (cbn [heap]; by rewrite list_lookup_insert_eq). cbn [with_state c_caller c_callee].
  unfold GetByPeer, Get. cbn [heap calls byPeer].
  rewrite list_lookup_insert_eq by done. split_and!; try done.
  - by rewrite lookup_delete_eq.
  - destruct (decide (c_caller c = c_callee c)) as [->|Hne]; [by rewrite lookup_delete_eq|].
    by rewrite lookup_delete_ne, lookup_delete_eq.
  - by rewrite lookup_delete_eq.
  - intros q Hq. by rewrite list_lookup_insert_ne.
  - intros i Hi. by rewrite lookup_delete_ne.
Qed.

Section signed.
Context `{HE : Ed25519}.

(** A signed signal validates under the signer's public key, and what
    was signed determines the call, the type, the time and the payload of the
    message, and the first byte of its sender. *)
Theorem voice_signal_signed (m m' : SignalMessage) (priv : bytes) :
  ValidateSignal (Sign m priv) (ed_public priv) = Ok tt /\
  (length (s_CallID m) = 16%nat -> length (s_CallID m') = 16%nat ->
   0 <= s_Type m < 256 -> 0 <= s_Type m' < 256 ->
   int64_min <= s_Timestamp m <= int64_max -> int64_min <= s_Timestamp m' <= int64_max ->
   CanonicalForm m = CanonicalForm m' ->
   s_CallID m = s_CallID m' /\ s_Type m = s_Type m' /\ s_Timestamp m = s_Timestamp m' /\
   s_Payload m = s_Payload m' /\ nth 0 (s_Sender m) Byte.x00 = nth 0 (s_Sender m') Byte.x00).
Proof.
  split.
  - unfold ValidateSignal. change (CanonicalForm (Sign m priv)) with (CanonicalForm m). simpl.
    unfold len. by rewrite ed_sign_length, ed_verify_sign.
  - intros Hc Hc' Ht Ht' Hs Hs' E. unfold CanonicalForm in E.
    apply app_inj_1 in E as [-> E]; [|congruence]. apply app_inj_1 in E as [Et E]; [|done].
    apply app_inj_1 in E as [Es E]; [|done].
    apply app_inj_1 in E as [Ets Ep]; [|by rewrite !length_be_put].
    apply (f_equal (fun b => u8 (nth 0 b Byte.x00))) in Et. cbn [nth] in Et. rewrite !u8_byte_of, !Z.mod_small in Et by lia.
    apply (f_equal be_get) in Ets. rewrite !be_get_put in Ets.
    change (wrapU 64 (s_Timestamp m) = wrapU 64 (s_Timestamp m')) in Ets.
    apply (f_equal (wrapS 64)) in Ets. unfold int64_min, int64_max in *.
    rewrite !wrapS_wrapU, !wrapS_small in Ets by lia. by simplify_eq.
Qed.

End signed.

(** A media frame is read back. *)
Lemma media_frame_roundtrip callID trackID seq isKey payload :
  length callID = 16%nat -> len trackID < 2 ^ 16 -> 0 <= seq < 2 ^ 32 ->
  UnmarshalFrame (MarshalFrame callID trackID seq isKey payload)
  = Ok (mkFrameHeader callID trackID seq isKey, payload).
Proof.
  intros Hc Ht Hs. unfold MarshalFrame. set (data := callID ++ _). unfold UnmarshalFrame.
  assert (len data = 23 + len trackID + len payload) as Hl.
  { unfold data, len. rewrite !length_app, !length_be_put, Hc. simpl. lia. }
  assert (drop 16 data = be_put 2 (len trackID) ++ trackID ++ be_put 4 seq
            ++ [if isKey then Byte.x01 else Byte.x00] ++ payload) as E16 by (by apply drop_app_exact).
  assert (drop 18 data = trackID ++ be_put 4 seq ++ [if isKey then Byte.x01 else Byte.x00] ++ payload) as E18
    by (change 18%nat with (16 + 2)%nat; rewrite <- drop_drop, E16; by apply drop_app_exact, length_be_put).
  unfold len in *. rewrite (proj2 (Z.ltb_ge _ _)) by lia. rewrite E16, E18.
  rewrite take_app_exact, be_get_put_small by first [apply length_be_put|simpl; lia].
  rewrite (proj2 (Z.ltb_ge _ _)) by lia. rewrite Nat2Z.id, take_app_length, drop_app_length.
  rewrite take_app_exact, be_get_put_small by first [apply length_be_put|simpl; lia].
  rewrite app_nth2 by (rewrite length_be_put; lia). rewrite length_be_put.
  change 5%nat with (4 + 1)%nat. rewrite <- drop_drop, drop_app_exact by apply length_be_put.
  unfold data. rewrite take_app_exact by done. by destruct isKey.
Qed.

(** ** Examples *)

Definition peer_a : bytes := byte_of 1 :: zeroes 31.
Definition peer_b : bytes := byte_of 2 :: zeroes 31.
Definition peer_c : bytes := byte_of 3 :: zeroes 31.
Definition config (a b : bytes) : CallConfig := mkCallConfig a b (str "ch") 1 2 false false None.
Definition id_ab : bytes := call_id peer_a peer_b.

Definition ringing_ab : CallManager := (Ring id_ab (Create 5 (config peer_a peer_b) NewCallManager).2).2.

Lemma ringing_ab_reachable : call_steps NewCallManager ringing_ab.
Proof. eapply rtc_l; [apply step_create|]. apply rtc_once, step_ring. Qed.

Definition call_ab : Call := with_state (NewCall 5 (config peer_a peer_b)) CallStateRinging.

Lemma ringing_ab_call : heap ringing_ab !! 0%nat = Some call_ab /\ Get id_ab ringing_ab = Ok 0%nat.
Proof. decide_vm. Qed.

Lemma voice_call_lifecycle_witness :
  exists c c', heap ringing_ab !! 0%nat = Some c /\ heap (End id_ab ringing_ab).2 !! 0%nat = Some c' /\
    c_state c = CallStateRinging /\ path (c_state c) (c_state c') /\ c_state c' = CallStateEnded.
Proof.
  destruct (proj2 (proj2 (voice_call_lifecycle ringing_ab (on_call id_ab End_ ringing_ab).2 ringing_ab_reachable
    (rtc_once _ _ (step_end_first _ _)))) 0%nat call_ab (proj1 ringing_ab_call))
    as (c' & Hc' & _ & _ & _ & Hp & _).
  exists call_ab, c'. split_and!; [apply ringing_ab_call|exact Hc'|reflexivity|exact Hp|].
  vm_compute in Hc'. injection Hc' as <-. reflexivity.
Defined.

Lemma voice_end_call_witness :
  exists m', End id_ab ringing_ab = (Ok tt, m') /\ Get id_ab m' = Err ErrCallNotFound.
Proof.
  destruct (voice_end_call ringing_ab id_ab 0 call_ab ringing_ab_reachable
    (proj2 ringing_ab_call) (proj1 ringing_ab_call)) as (m' & E & _ & Hg & _).
  exists m'. by split.
Defined.

#[local] Existing Instance toy_ed25519.

Lemma voice_signal_signed_witness :
  let m := mkSignal 1 (zeroes 16) peer_a 5 (str "offer") [] in
  ValidateSignal (Sign m (str "key")) (ed_public (str "key")) = Ok tt /\ s_Payload m = str "offer".
Proof.
  split; [apply (voice_signal_signed _ (mkSignal 1 (zeroes 16) peer_a 5 (str "offer") []))|].
  destruct (proj2 (voice_signal_signed (mkSignal 1 (zeroes 16) peer_a 5 (str "offer") [])
    (mkSignal 1 (zeroes 16) peer_a 5 (str "offer") [])  (str "key"))) as (_ & _ & _ & Hp & _);
    [reflexivity|reflexivity|by vm_compute|by vm_compute|by vm_compute|by vm_compute|reflexivity|exact Hp].
Defined.

(** Two calls of one peer: when the first ends, the second is no longer found
    for the peer, though it is still going on. *)
Lemma end_hides_other_call :
  let m := (Create 6 (config peer_a peer_c) (Create 5 (config peer_a peer_b) NewCallManager).2).2 in
  let m' := (End id_ab m).2 in
  GetByPeer peer_a m = Ok 1%nat /\ GetByPeer peer_a m' = Err ErrCallNotFound /\ ActiveCalls m' = [1%nat].
Proof. decide_vm. Qed.

(** The ID has no room for the last digit of the callee's prefix: a call to
    another peer can replace a call that is going on. *)
Lemma call_ids_collide :
  let peer_b' := byte_of 2 :: zeroes 2 ++ byte_of 1 :: zeroes 28 in
  peer_b <> peer_b' /\ call_id peer_a peer_b = call_id peer_a peer_b' /\
  ActiveCalls (Create 6 (config peer_a peer_b') (Create 5 (config peer_a peer_b) NewCallManager).2).2 = [1%nat].
Proof. decide_vm. Qed.

(** No operation records when a call ended. *)
Lemma ended_time_never_set m p c :
  call_steps NewCallManager m -> heap m !! p = Some c -> EndedAt c = None.
Proof.
  intros Hm Hc. destruct (ok_heap _ (table_reachable _ Hm) p c Hc) as (_ & _ & E). unfold EndedAt. by rewrite E.
Qed.

(** The signature does not cover the sender beyond its first byte. *)
Lemma signature_ignores_sender :
  let m := mkSignal 1 (zeroes 16) peer_a 5 (str "offer") [] in
  let s := Sign m (str "key") in
  let forged := mkSignal 1 (zeroes 16) (byte_of 1 :: replicate 31 (byte_of 9)) 5 (str "offer") (s_Signature s) in
  s_Sender forged <> s_Sender s /\ ValidateSignal forged (ed_public (str "key")) = Ok tt.
Proof. decide_vm. Qed.
