(* ===== verification/Text.v ===== *)
(** * Strings

    The functions of Go's [strings] and [bufio] packages that the text
    protocols use, on byte strings. *)

From S2P Require Import Prelude Bytes.
Local Open Scope Z_scope.

(** ** Case

    The results are only ever compared with ASCII constants.  Two letters
    outside ASCII have an ASCII capital: U+0131 (I) and U+017F (S).  The
    other bytes outside ASCII are left alone here, since what they become is
    outside ASCII too.  No letter outside ASCII has one of the letters the
    program looks for as its small form. *)

Definition upper (b : byte) : byte := if (97 <=? u8 b) && (u8 b <=? 122) then byte_of (u8 b - 32) else b.
Definition lower (b : byte) : byte := if (65 <=? u8 b) && (u8 b <=? 90) then byte_of (u8 b + 32) else b.

Fixpoint ToUpper (s : bytes) : bytes :=
  match s with
  | Byte.xc4 :: Byte.xb1 :: s => Byte.x49 :: ToUpper s
  | Byte.xc5 :: Byte.xbf :: s => Byte.x53 :: ToUpper s
  | b :: s => upper b :: ToUpper s
  | [] => []
  end.

Definition ToLower (s : bytes) : bytes := lower <$> s.

(** ** Searching *)

Fixpoint strip_prefix (p s : bytes) : option bytes :=
  match p, s with
  | [], _ => Some s
  | a :: p, b :: s => if decide (a = b) then strip_prefix p s else None
  | _, _ => None
  end.

Definition HasPrefix (s p : bytes) : bool := bool_decide (is_Some (strip_prefix p s)).

Fixpoint Contains (s p : bytes) : bool :=
  HasPrefix s p || match s with [] => false | _ :: s => Contains s p end.

(** [SplitN(s, sep, 2)] for a separator of one byte. *)
Fixpoint cut_at (sep : byte) (s : bytes) : bytes * option bytes :=
  match s with
  | [] => ([], None)
  | b :: s => if decide (b = sep) then ([], Some s)
              else let '(a, rest) := cut_at sep s in (b :: a, rest)
  end.

(** [Split(s, sep)] for a separator of one byte. *)
Fixpoint Split (sep : byte) (s : bytes) : list bytes :=
  match s with
  | [] => [[]]
  | b :: s => if decide (b = sep) then [] :: Split sep s
              else match Split sep s with
                   | [] => [[b]]
                   | a :: rest => (b :: a) :: rest
                   end
  end.

(** ** Trimming *)

Fixpoint drop_leading (cutset s : bytes) : bytes :=
  match s with
  | b :: s' => if decide (b ∈ cutset) then drop_leading cutset s' else s
  | [] => []
  end.

Definition drop_trailing (cutset s : bytes) : bytes := reverse (drop_leading cutset (reverse s)).

(** [Trim] and [TrimRight] with a set of ASCII characters. *)
Definition Trim (s cutset : bytes) : bytes := drop_trailing cutset (drop_leading cutset s).
Definition TrimRight (s cutset : bytes) : bytes := drop_trailing cutset s.

(** The encodings of the runes [unicode.IsSpace] accepts. *)
Definition space_runes : list bytes :=
  [[Byte.x09]; [Byte.x0a]; [Byte.x0b]; [Byte.x0c]; [Byte.x0d]; [Byte.x20];
   [Byte.xc2; Byte.x85]; [Byte.xc2; Byte.xa0]; [Byte.xe1; Byte.x9a; Byte.x80]]
  ++ ((fun b => [Byte.xe2; Byte.x80; b]) <$>
       [Byte.x80; Byte.x81; Byte.x82; Byte.x83; Byte.x84; Byte.x85; Byte.x86; Byte.x87; Byte.x88; Byte.x89;
        Byte.x8a; Byte.xa8; Byte.xa9; Byte.xaf])
  ++ [[Byte.xe2; Byte.x81; Byte.x9f]; [Byte.xe3; Byte.x80; Byte.x80]].

Fixpoint strip_any (runes : list bytes) (s : bytes) : option bytes :=
  match runes with
  | [] => None
  | r :: runes => match strip_prefix r s with
                  | Some s' => Some s'
                  | None => strip_any runes s
                  end
  end.

(** Each round takes at least a byte off. *)
Fixpoint strip_all (fuel : nat) (runes : list bytes) (s : bytes) : bytes :=
  match fuel with
  | O => s
  | S fuel => match strip_any runes s with
              | Some s' => strip_all fuel runes s'
              | None => s
              end
  end.

Definition trim_left_space (s : bytes) : bytes := strip_all (length s) space_runes s.

Definition TrimSpace (s : bytes) : bytes :=
  let s := trim_left_space s in
  reverse (strip_all (length s) (reverse <$> space_runes) (reverse s)).

(** ** Reading lines *)

(** [bufio.Reader.ReadString('\n')]: the line with its end, whether the end
    was found (an error is returned otherwise), and what follows. *)
Fixpoint ReadString (s : bytes) : bytes * bool * bytes :=
  match s with
  | [] => ([], false, [])
  | b :: s => if decide (b = Byte.x0a) then ([b], true, s)
              else let '(line, found, rest) := ReadString s in (b :: line, found, rest)
  end.

Definition crlf : bytes := [Byte.x0d; Byte.x0a].

Definition chomp (line : bytes) : bytes := TrimRight line crlf.

(** The largest token of a [bufio.Scanner]: a line and its end have to fit. *)
Definition MaxScanTokenSize : Z := 65536.

Definition drop_cr (line : bytes) : bytes :=
  match reverse line with
  | Byte.x0d :: r => reverse r
  | _ => line
  end.

(** The lines a [bufio.Scanner] gives, or the error of a line that is too
    long; the text after the last newline is a line unless it is empty. *)
Definition scan_lines (s : bytes) : result (list bytes) :=
  let parts := Split Byte.x0a s in
  let lines := if decide (last parts = Some []) then removelast parts else parts in
  if decide (Exists (fun l => MaxScanTokenSize <= len l) lines)
  then Err (ErrText "bufio.Scanner: token too long")
  else Ok (drop_cr <$> lines).

(** * Lemmas *)

Lemma ReadString_spec s : (ReadString s).1.1 ++ (ReadString s).2 = s.
Proof.
  induction s as [|b s IH]; [done|]. simpl. case_decide; [by simplify_eq/=|].
  destruct (ReadString s) as [[line found] rest]. simpl in *. by rewrite IH.
Qed.

Lemma ReadString_shorter s : (ReadString s).1.2 = true -> (length (ReadString s).2 < length s)%nat.
Proof.
  induction s as [|b s IH]; [done|]. simpl. case_decide; [simpl; lia|].
  destruct (ReadString s) as [[line found] rest]. simpl in *. intros Hf. specialize (IH Hf). lia.
Qed.

Lemma strip_prefix_Some p s r : strip_prefix p s = Some r <-> s = p ++ r.
Proof.
  revert s. induction p as [|a p IH]; intros [|b s]; simpl; try (split; congruence).
  case_decide; [subst; rewrite IH; split; congruence|]. split; congruence.
Qed.

Lemma HasPrefix_true s p : HasPrefix s p = true <-> exists r, s = p ++ r.
Proof.
  unfold HasPrefix. rewrite bool_decide_eq_true. split.
  - intros [r H]. exists r. by apply strip_prefix_Some.
  - intros [r ->]. exists r. by apply strip_prefix_Some.
Qed.

Lemma cut_at_spec sep s :
  let '(a, rest) := cut_at sep s in
  sep ∉ a /\ s = match rest with Some r => a ++ sep :: r | None => a end.
Proof.
  induction s as [|b s IH]; simpl; [split; [set_solver|done]|].
  case_decide as E; [split; [set_solver|by subst]|].
  destruct (cut_at sep s) as [a [r|]]; simpl in *; destruct IH as [? ->]; (split; [set_solver|done]).
Qed.

Lemma Split_one sep a : sep ∉ a -> Split sep a = [a].
Proof.
  induction a as [|c a IH]; [done|]. intros [Hc Ha]%not_elem_of_cons. cbn [Split].
  rewrite decide_False by done. by rewrite IH.
Qed.

Lemma Split_cons sep a s : sep ∉ a -> Split sep (a ++ sep :: s) = a :: Split sep s.
Proof.
  induction a as [|c a IH]; cbn [app Split]; [by rewrite decide_True|]. intros [Hc Ha]%not_elem_of_cons.
  rewrite decide_False by done. by rewrite IH.
Qed.
