(* ===== verification/MailGuard.v ===== *)
(** * Mail: what guards the servers (pkg/services/email)

    The rate limiter, the proof-of-work check and the credential store of
    antispam.go and types.go.  Every operation holds the object's mutex throughout, so operations are
    functions on its state.  PBKDF2 is a parameter. *)

From S2P Require Import Prelude Bytes Hash Bits.
From stdpp Require Import pretty.
Local Open Scope Z_scope.

(** ** Rate limiter *)

Record RateLimiter := mkLimiter {
  emails : gmap bytes (list Z);
  rl_limit : Z;
  rl_window : Z;
}.

Definition NewRateLimiter (limit window : Z) : RateLimiter := mkLimiter ∅ limit window.

Definition recent (window now : Z) (l : list Z) : list Z := filter (fun t => time_sub now t <= window) l.

Definition Allow (now : Z) (sender : bytes) (r : RateLimiter) : bool * RateLimiter :=
  let rec := recent (rl_window r) now (default [] (emails r !! sender)) in
  if rl_limit r <=? Z.of_nat (length rec) then (false, r)
  else (true, mkLimiter (<[sender := rec ++ [now]]> (emails r)) (rl_limit r) (rl_window r)).

Definition Reset (sender : bytes) (r : RateLimiter) : RateLimiter :=
  mkLimiter (delete sender (emails r)) (rl_limit r) (rl_window r).

(** ** Proof of work *)

Record PoWChecker := mkChecker {
  difficulty : Z;
  nonces : gmap bytes Z;
}.

Definition NewPoWChecker (d : Z) : PoWChecker := mkChecker d ∅.

(** The count of the inner loop: clear bits [(b>>i)&1] from the top. *)
Fixpoint shifted_clear (b : Z) (shifts : list Z) : Z :=
  match shifts with
  | [] => 0
  | i :: shifts => if Z.land (Z.shiftr b i) 1 =? 0 then 1 + shifted_clear b shifts else 0
  end.

Fixpoint leading_zeros (hash : bytes) : Z :=
  match hash with
  | [] => 0
  | b :: rest => if u8 b =? 0 then 8 + leading_zeros rest
                 else shifted_clear (u8 b) [7; 6; 5; 4; 3; 2; 1; 0]
  end.

Definition nonce_ttl : Z := 5 * minute.

Section pow.
Context `{HH : Hash256}.

Definition solves (d : Z) (email nonce : bytes) : bool := d <=? leading_zeros (SHA3Hash (email ++ nonce)).

(** [now] is the reading [time.Since] takes, [now'] the one recorded. *)
Definition VerifyPoW (now now' : Z) (email nonce : bytes) (p : PoWChecker) : bool * PoWChecker :=
  let stale := match nonces p !! nonce with Some t => time_sub now t <? nonce_ttl | None => false end in
  if stale then (false, p) else
  let kept := delete nonce (nonces p) in
  if solves (difficulty p) email nonce then (true, mkChecker (difficulty p) (<[nonce := now']> kept))
  else (false, mkChecker (difficulty p) kept).

(** The search for a nonce, for the first [2^k] candidates: [seed] is the
    hexadecimal form of what [rand.Read] gave. *)
Definition candidate (seed : bytes) (i : Z) : bytes := seed ++ str "-" ++ str (pretty i).

Definition GeneratePoW (k : nat) (seed email : bytes) (p : PoWChecker) : option bytes :=
  candidate seed <$> first_nonce k (fun i => solves (difficulty p) email (candidate seed i)) 0.

End pow.

Definition Cleanup (now : Z) (p : PoWChecker) : PoWChecker :=
  mkChecker (difficulty p) (filter (fun kv => time_sub now kv.2 <= nonce_ttl) (nonces p)).

Definition SetDifficulty (d : Z) (p : PoWChecker) : PoWChecker := mkChecker d (nonces p).

(** ** Credentials *)

Record credentialEntry := mkCredential {
  salt : bytes;
  hashedPwd : bytes;
}.

Abbreviation CredentialStore := (gmap bytes credentialEntry).

Section credentials.
Context (pbkdf2Key : bytes -> bytes -> bytes).

(** [rnd] is the salt [rand.Read] gives. *)
Definition SetCredential (rnd user pass : bytes) (s : CredentialStore) : result unit * CredentialStore :=
  if decide (user = [] \/ pass = []) then (Err (ErrText "username and password must be non-empty"), s)
  else (Ok tt, <[user := mkCredential rnd (pbkdf2Key pass rnd)]> s).

Definition Verify (user pass : bytes) (s : CredentialStore) : bool :=
  match s !! user with
  | None => false
  | Some e => bool_decide (pbkdf2Key pass (salt e) = hashedPwd e)
  end.

(** Registered credentials verify, and nothing verifies for a user that was
    never registered. *)
Lemma Verify_SetCredential rnd user pass s :
  user <> [] -> pass <> [] ->
  let '(r, s') := SetCredential rnd user pass s in
  r = Ok tt /\ Verify user pass s' = true /\ (forall u p, u <> user -> Verify u p s' = Verify u p s).
Proof.
  intros Hu Hp. unfold SetCredential. rewrite decide_False by tauto. split_and!; [done| |].
  - unfold Verify. rewrite lookup_insert_eq. by apply bool_decide_eq_true_2.
  - intros u p Hne. unfold Verify. by rewrite lookup_insert_ne.
Qed.

End credentials.

(** * Lemmas *)

Lemma leading_zeros_lzb h : leading_zeros h = lzb h.
Proof.
  induction h as [|b h IH]; [done|]. cbn [leading_zeros lzb]. rewrite IH.
  destruct (Z.eqb_spec (u8 b) 0) as [E|E]; [by rewrite decide_True|]. rewrite decide_False by done.
  clear IH. revert E. destruct b; vm_compute; congruence.
Qed.

(** ** The rate limiter against its specification

    The specification never forgets: it keeps every time a sender was let
    through since the last reset, and lets a sender through when fewer than
    [limit] of them lie within the window. *)

Inductive rl_op := RAllow (now : Z) (sender : bytes) | RReset (sender : bytes).

Fixpoint run_limiter (ops : list rl_op) (r : RateLimiter) : list bool * RateLimiter :=
  match ops with
  | [] => ([], r)
  | RAllow now sender :: ops =>
      let '(b, r) := Allow now sender r in let '(bs, r) := run_limiter ops r in (b :: bs, r)
  | RReset sender :: ops => run_limiter ops (Reset sender r)
  end.

Abbreviation history := (gmap bytes (list Z)).

Definition passed (H : history) (sender : bytes) : list Z := default [] (H !! sender).

Definition within (lo hi : Z) (l : list Z) : list Z := filter (fun t => lo <= t <= hi) l.

Section limiter.
Context (limit window : Z) (Hlimit : 0 <= limit) (Hwindow : 0 <= window < int64_max).

Definition spec_allow (now : Z) (sender : bytes) (H : history) : bool * history :=
  if Z.of_nat (length (within (now - window) now (passed H sender))) <? limit
  then (true, <[sender := passed H sender ++ [now]]> H) else (false, H).

Fixpoint spec_run (ops : list rl_op) (H : history) : list bool * history :=
  match ops with
  | [] => ([], H)
  | RAllow now sender :: ops =>
      let '(b, H) := spec_allow now sender H in let '(bs, H) := spec_run ops H in (b :: bs, H)
  | RReset sender :: ops => spec_run ops (delete sender H)
  end.

(** The clock does not go back. *)
Fixpoint ordered (last : Z) (ops : list rl_op) : Prop :=
  match ops with
  | [] => True
  | RAllow now _ :: ops => last <= now /\ ordered now ops
  | RReset _ :: ops => ordered last ops
  end.

(** At any later time, the recent entries of the limiter are those of the
    history. *)
Record limiter_rel (last : Z) (r : RateLimiter) (H : history) : Prop := {
  lr_limit : rl_limit r = limit;
  lr_window : rl_window r = window;
  lr_past : forall s, Forall (fun t => t <= last) (passed H s);
  lr_recent : forall s now, last <= now ->
    recent window now (default [] (emails r !! s)) = within (now - window) now (passed H s);
  lr_bound : forall s a, Z.of_nat (length (within a (a + window) (passed H s))) <= limit;
}.

Lemma recent_within now l : Forall (fun t => t <= now) l -> recent window now l = within (now - window) now l.
Proof.
  intros Hl. apply filter_ext_Forall. eapply Forall_impl; [exact Hl|]. intros t Ht. simpl.
  unfold time_sub, int64_min, int64_max in *. lia.
Qed.

Lemma within_within now now' l :
  now <= now' -> Forall (fun t => t <= now) l ->
  within (now' - window) now' (within (now - window) now l) = within (now' - window) now' l.
Proof.
  intros Hn Hl. unfold within. rewrite list_filter_filter. apply filter_ext_Forall.
  eapply Forall_impl; [exact Hl|]. cbn beta. lia.
Qed.

Lemma Allow_rel last now sender r H :
  last <= now -> limiter_rel last r H ->
  (Allow now sender r).1 = (spec_allow now sender H).1 /\
  limiter_rel now (Allow now sender r).2 (spec_allow now sender H).2.
Proof.
  intros Hn [El Ew Hp Hr Hb]. unfold Allow, spec_allow. rewrite El, Ew, Hr by done.
  assert (forall s, Forall (fun t => t <= now) (passed H s)) as Hp'
    by (intros s; eapply Forall_impl; [apply Hp|]; simpl; lia).
  destruct (Z.leb_spec limit (Z.of_nat (length (within (now - window) now (passed H sender)))));
    [rewrite (proj2 (Z.ltb_ge _ _)) by lia|rewrite (proj2 (Z.ltb_lt _ _)) by lia]; simpl.
  { split; [done|]. split; try done. intros s now' Hn'. apply Hr. lia. }
  split; [done|]. split; simpl; try done; intros s.
  - unfold passed. destruct (decide (sender = s)) as [->|Hne].
    + rewrite lookup_insert_eq. simpl. apply Forall_app. split; [apply Hp'|by constructor].
    + rewrite lookup_insert_ne by done. apply Hp'.
  - intros now' Hn'. unfold passed. destruct (decide (sender = s)) as [->|Hne].
    + rewrite !lookup_insert_eq. simpl. rewrite recent_within.
      * unfold within at 1 3. rewrite !filter_app. f_equal. apply (within_within now now'); [done|apply Hp'].
      * apply Forall_app. split; [|by constructor; [lia|]].
        eapply sublist_Forall; [apply sublist_filter|]. eapply Forall_impl; [apply Hp'|]. simpl. lia.
    + rewrite !lookup_insert_ne by done. apply Hr. lia.
  - intros a. unfold passed. destruct (decide (sender = s)) as [->|Hne];
      [|rewrite lookup_insert_ne by done; apply Hb].
    rewrite lookup_insert_eq. simpl. fold (passed H s). unfold within. rewrite filter_app, length_app.
    destruct (decide (a <= now <= a + window)) as [Hin|Hout].
    + rewrite filter_cons_True, filter_nil by done. simpl.
      assert (length (filter (fun t => a <= t <= a + window)%Z (passed H s))
              <= length (within (now - window) now (passed H s)))%nat; [|lia].
      apply sublist_length. apply filter_sublist_Forall.
      eapply Forall_impl; [apply (Hp' s)|]. simpl. lia.
    + rewrite filter_cons_False, filter_nil by done. simpl. rewrite Nat.add_0_r. apply Hb.
Qed.

Lemma Reset_rel last sender r H :
  limiter_rel last r H -> limiter_rel last (Reset sender r) (delete sender H).
Proof.
  intros [El Ew Hp Hr Hb]. split; simpl; try done; intros s; unfold passed; destruct (decide (sender = s)) as [->|Hne].
  - by rewrite lookup_delete_eq.
  - rewrite lookup_delete_ne by done. apply Hp.
  - intros now Hn. by rewrite !lookup_delete_eq.
  - intros now Hn. rewrite !lookup_delete_ne by done. by apply Hr.
  - intros a. by rewrite lookup_delete_eq.
  - intros a. rewrite lookup_delete_ne by done. apply Hb.
Qed.

Lemma run_limiter_rel last ops r H :
  ordered last ops -> limiter_rel last r H ->
  (run_limiter ops r).1 = (spec_run ops H).1 /\
  exists last', limiter_rel last' (run_limiter ops r).2 (spec_run ops H).2.
Proof.
  revert last r H. induction ops as [|[now sender|sender] ops IH]; intros last r H Ho HR; simpl in *.
  - eauto.
  - destruct Ho as [Hn Ho]. destruct (Allow_rel last now sender r H Hn HR) as [E HR'].
    destruct (Allow now sender r) as [b r'], (spec_allow now sender H) as [b' H'].
    simpl in *. destruct (IH now r' H' Ho HR') as [E1 HR1].
    destruct (run_limiter ops r') as [bs r''], (spec_run ops H') as [bs' H'']. simpl in *. split; [congruence|done].
  - eapply IH; [done|by apply Reset_rel].
Qed.

Lemma new_limiter_rel last : limiter_rel last (NewRateLimiter limit window) ∅.
Proof. split; simpl; intros; try done. Qed.

End limiter.

(** C32: the rate limiter, which drops old entries as it goes, answers every
    call as the specification that keeps the whole history does: a sender is
    let through exactly when fewer than [limit] messages of it passed within
    the window that ends now.  And so no span of the length of the window
    ever holds more than [limit] messages of a sender since its last reset.
    The clock must not go back. *)
Theorem mail_rate_limit (limit window start : Z) (ops : list rl_op) :
  0 <= limit -> 0 <= window < int64_max -> ordered start ops ->
  (run_limiter ops (NewRateLimiter limit window)).1 = (spec_run limit window ops ∅).1 /\
  forall sender a,
    Z.of_nat (length (within a (a + window) (passed (spec_run limit window ops ∅).2 sender))) <= limit.
Proof.
  intros Hl Hw Ho.
  destruct (run_limiter_rel limit window Hl Hw start ops _ _ Ho (new_limiter_rel limit window Hl start)) as [E [last' HR]].
  split; [done|]. intros sender a. apply (lr_bound _ _ _ _ _ HR).
Qed.

Definition limiter_calls : list rl_op :=
  [RAllow 0 (str "a"); RAllow 4 (str "a"); RAllow 8 (str "a"); RAllow 8 (str "b"); RAllow 11 (str "a")].

Lemma mail_rate_limit_witness :
  (run_limiter limiter_calls (NewRateLimiter 2 10)).1 = [true; true; false; true; true] /\
  Z.of_nat (length (within 4 14 (passed (spec_run 2 10 limiter_calls ∅).2 (str "a")))) <= 2.
Proof.
  destruct (mail_rate_limit 2 10 0 limiter_calls) as [E Hb]; [lia|by vm_compute|simpl; lia|].
  split; [rewrite E; by vm_compute|apply (Hb (str "a") 4)].
Defined.

(** ** Replays of a proof of work *)

Section replay.
Context `{HH : Hash256}.

Inductive pow_op := PVerify (now now' : Z) (email nonce : bytes) | PCleanup (now : Z) | PDifficulty (d : Z).

Definition pow_step (o : pow_op) (p : PoWChecker) : bool * PoWChecker :=
  match o with
  | PVerify now now' email nonce => VerifyPoW now now' email nonce p
  | PCleanup now => (false, Cleanup now p)
  | PDifficulty d => (false, SetDifficulty d p)
  end.

Fixpoint pow_run (ops : list pow_op) (p : PoWChecker) : PoWChecker :=
  match ops with
  | [] => p
  | o :: ops => pow_run ops (pow_step o p).2
  end.

(** All clock readings of an operation lie before [t]. *)
Definition before (t : Z) (o : pow_op) : Prop :=
  match o with
  | PVerify now now' _ _ => now <= t /\ now' <= t
  | PCleanup now => now <= t
  | PDifficulty _ => True
  end.

Lemma time_sub_small a b : int64_min <= a - b < nonce_ttl -> time_sub a b = a - b.
Proof. unfold time_sub, nonce_ttl, minute, second, int64_min, int64_max. lia. Qed.

(** A nonce recorded at [t0] is still recorded within five minutes. *)
Lemma nonce_kept nonce t0 t ops p :
  nonces p !! nonce = Some t0 -> t < t0 + nonce_ttl -> Forall (before t) ops ->
  Forall (fun o => match o with PVerify now _ _ _ | PCleanup now => t0 <= now | _ => True end) ops ->
  nonces (pow_run ops p) !! nonce = Some t0.
Proof.
  intros Hp Ht Hb Hs. revert p Hp. induction ops as [|o ops IH]; intros p Hp; [done|].
  inversion Hb as [|? ? Ho Hb']; inversion Hs as [|? ? Hso Hs']; subst. simpl. apply IH; [done|done|].
  destruct o as [now now' email n|now|d]; simpl in *; [| |done].
  - unfold VerifyPoW. destruct (decide (n = nonce)) as [->|Hne].
    + rewrite Hp, time_sub_small, (proj2 (Z.ltb_lt _ _)); [done|lia|unfold nonce_ttl, int64_min in *; lia].
    + destruct (match nonces p !! n with Some _ => _ | None => _ end); [done|].
      destruct (solves _ _ _); simpl; [rewrite lookup_insert_ne by done|]; by rewrite lookup_delete_ne.
  - apply map_lookup_filter_Some. split; [done|]. simpl.
    rewrite time_sub_small by (unfold nonce_ttl, int64_min in *; lia). lia.
Qed.

(** A nonce that was accepted is not accepted again within five minutes,
    whatever the address, the difficulty set and the clean-ups in between. *)
Theorem mail_pow_no_replay (now now' : Z) (email nonce : bytes) (p : PoWChecker) (ops : list pow_op)
    (now2 now2' : Z) (email' : bytes) :
  (VerifyPoW now now' email nonce p).1 = true ->
  Forall (before now2) ops ->
  Forall (fun o => match o with PVerify n _ _ _ | PCleanup n => now' <= n | _ => True end) ops ->
  now' <= now2 < now' + nonce_ttl ->
  (VerifyPoW now2 now2' email' nonce (pow_run ops (VerifyPoW now now' email nonce p).2)).1 = false.
Proof.
  intros Hacc Hb Hs Hn.
  assert (nonces (VerifyPoW now now' email nonce p).2 !! nonce = Some now') as H0.
  { revert Hacc. unfold VerifyPoW. destruct (match nonces p !! nonce with Some _ => _ | None => _ end); [done|].
    destruct (solves _ _ _); [|done]. simpl. by rewrite lookup_insert_eq. }
  pose proof (nonce_kept nonce now' now2 ops _ H0 ltac:(lia) Hb Hs) as Hk.
  unfold VerifyPoW at 1. rewrite Hk, time_sub_small by (unfold nonce_ttl, int64_min in *; lia).
  by rewrite (proj2 (Z.ltb_lt _ _)) by lia.
Qed.

(** What [GeneratePoW] finds is accepted, unless it was used lately. *)
Lemma GeneratePoW_verifies k seed email p nonce now now' :
  GeneratePoW k seed email p = Some nonce -> nonces p !! nonce = None ->
  (VerifyPoW now now' email nonce p).1 = true.
Proof.
  unfold GeneratePoW. intros (i & Hi & ->)%fmap_Some Hn.
  pose proof (first_nonce_spec k (fun i => solves (difficulty p) email (candidate seed i)) 0) as Hs.
  rewrite Hi in Hs. destruct Hs as (_ & Hs & _). unfold VerifyPoW. by rewrite Hn, Hs.
Qed.

End replay.
