(* ===== verification/Mail.v ===== *)
(** * Mail: messages and mailboxes (pkg/services/email)

    Messages, their parser, the spam test, the mailboxes and the delivery queue
    of mailbox.go and types.go.  Of a message the blind copies, which nothing
    sets, and the names of its file are left out.  A mailbox is kept in memory and in files; the files are not
    modelled, whether an operation on them succeeds is an argument.  Two parts
    of the standard library are parameters: [parse_date] is
    [time.Parse(time.RFC1123Z, _)] and [score_above] says of a header value
    that [Sscanf] reads a number above 5 from it. *)

From S2P Require Import Prelude Bytes Text.
Local Open Scope Z_scope.

Definition FlagSeen : Z := 1.
Definition FlagDeleted : Z := 8.
Definition FlagRecent : Z := 32.

Record Message := mkMessage {
  m_ID : bytes;
  From : bytes;
  To : list bytes;
  CC : list bytes;
  Subject : bytes;
  Body : bytes;
  Headers : gmap bytes bytes;
  Received : Z;
  Size : Z;
  UID : Z;
  Flags : Z;
}.

#[global] Instance Message_eq_dec : EqDecision Message.
Proof. solve_decision. Defined.

Definition empty_message : Message := mkMessage [] [] [] [] [] [] ∅ 0 0 0 0.

(** ** Parsing *)

Definition colon : byte := Byte.x3a.
Definition comma : byte := Byte.x2c.

Definition parseAddresses (s : bytes) : list bytes :=
  filter (fun a => a <> []) (TrimSpace <$> Split comma s).

Section parsing.
Context (parse_date : bytes -> option Z) (score_above : bytes -> bool).

(** One header line. *)
Definition parse_header (msg : Message) (line : bytes) : Message :=
  match cut_at colon line with
  | (_, None) => msg
  | (k, Some v) =>
      let key := TrimSpace k in
      let val := TrimSpace v in
      let hs := <[key := val]> (Headers msg) in
      let name := ToLower key in
      let set f t c s r := mkMessage (m_ID msg) f t c s (Body msg) hs r (Size msg) (UID msg) (Flags msg) in
      let from := From msg in let to := To msg in let cc := CC msg in
      let subj := Subject msg in let rec := Received msg in
      if decide (name = str "from") then set val to cc subj rec
      else if decide (name = str "to") then set from (to ++ parseAddresses val) cc subj rec
      else if decide (name = str "cc") then set from to (cc ++ parseAddresses val) subj rec
      else if decide (name = str "subject") then set from to cc val rec
      else if decide (name = str "date")
      then set from to cc subj (match parse_date val with Some t => t | None => rec end)
      else set from to cc subj rec
  end.

(** The scanning loop: headers up to the first empty line, then the body. *)
Fixpoint parse_lines (headerMode : bool) (msg : Message) (body : bytes) (lines : list bytes) : Message * bytes :=
  match lines with
  | [] => (msg, body)
  | line :: lines =>
      if headerMode then
        if decide (line = []) then parse_lines false msg body lines
        else parse_lines true (parse_header msg line) body lines
      else parse_lines false msg (body ++ line ++ [Byte.x0a]) lines
  end.

Definition ParseMessage (now : Z) (data : bytes) : result Message :=
  match scan_lines data with
  | Err _ => Err (ErrText "scan message")
  | Ok lines =>
      let '(msg, body) := parse_lines true empty_message [] lines in
      Ok (mkMessage (m_ID msg) (From msg) (To msg) (CC msg) (Subject msg) body (Headers msg)
            (if time_is_zero (Received msg) then now else Received msg) (len data) (UID msg) (Flags msg))
  end.

(** [msg] is never nil where the servers call it. *)
Definition IsSpam (msg : Message) : bool :=
  let says_yes h := match Headers msg !! str h with
                    | Some v => Contains (ToLower v) (str "yes")
                    | None => false
                    end in
  says_yes "X-Spam-Flag" || says_yes "X-Spam-Status" ||
  match Headers msg !! str "X-Spam-Score" with
  | Some score => score_above score
  | None => false
  end.

End parsing.

(** ** Mailboxes *)

Record Mailbox := mkMailbox {
  mb_Name : bytes;
  UIDValidity : Z;
  UIDNext : Z;
  Messages : list Message;
}.

#[global] Instance Mailbox_eq_dec : EqDecision Mailbox.
Proof. solve_decision. Defined.

(** The users of a [MailboxStore]. *)
Abbreviation MailboxStore := (gmap bytes Mailbox).

Definition with_uid (msg : Message) (uid flags : Z) : Message :=
  mkMessage (m_ID msg) (From msg) (To msg) (CC msg) (Subject msg) (Body msg) (Headers msg) (Received msg) (Size msg)
    uid flags.

(** [written] says whether the file was created, written and renamed.  The
    UID is used up in any case. *)
Definition StoreMessage (written : bool) (msg : Message) (m : Mailbox) : result unit * Mailbox :=
  let msg' := with_uid msg (UIDNext m) (Flags msg) in
  let next := wrapU 32 (UIDNext m + 1) in
  if written then (Ok tt, mkMailbox (mb_Name m) (UIDValidity m) next (Messages m ++ [msg']))
  else (Err (ErrText "store message"), mkMailbox (mb_Name m) (UIDValidity m) next (Messages m)).

Definition GetByUID (uid : Z) (m : Mailbox) : option Message :=
  head (filter (fun msg => UID msg = uid) (Messages m)).

Definition MessageCount (m : Mailbox) : Z := Z.of_nat (length (Messages m)).

Definition RecentCount (m : Mailbox) : Z :=
  Z.of_nat (length (filter (fun msg => Z.land (Flags msg) FlagRecent <> 0) (Messages m))).

Definition UnseenCount (m : Mailbox) : Z :=
  Z.of_nat (length (filter (fun msg => Z.land (Flags msg) FlagSeen = 0) (Messages m))).

Definition Expunge (m : Mailbox) : list Message * Mailbox :=
  (filter (fun msg => Z.land (Flags msg) FlagDeleted <> 0) (Messages m),
   mkMailbox (mb_Name m) (UIDValidity m) (UIDNext m)
     (filter (fun msg => ~ Z.land (Flags msg) FlagDeleted <> 0) (Messages m))).

Definition CopyTo (written : bool) (msg : Message) (flags : Z) (dest : Mailbox) : result unit * Mailbox :=
  StoreMessage written (with_uid msg (UID msg) flags) dest.

Definition GetOrCreateMailbox (now : Z) (made : bool) (user : bytes) (s : MailboxStore)
    : result Mailbox * MailboxStore :=
  match s !! user with
  | Some m => (Ok m, s)
  | None =>
      if made then
        let m := mkMailbox user (wrapU 32 (time_unix now)) 1 [] in (Ok m, <[user := m]> s)
      else (Err (ErrText "create maildir"), s)
  end.

(** ** The queue of mail that waits for its peer *)

Record QueueEntry := mkEntry {
  q_ID : bytes;
  q_Message : Message;
  q_PeerID : bytes;
  Attempts : Z;
  MaxAttempts : Z;
  NextRetry : Z;
  Created : Z;
  LastError : option goerror;
}.

#[global] Instance QueueEntry_eq_dec : EqDecision QueueEntry.
Proof. solve_decision. Defined.

Definition Add (e : QueueEntry) (q : list QueueEntry) : list QueueEntry := q ++ [e].

(** The loop of [Next]: the first of the entries that may be tried again with
    the earliest time. *)
Fixpoint next_from (best : option QueueEntry) (q : list QueueEntry) : option QueueEntry :=
  match q with
  | [] => best
  | e :: q =>
      if MaxAttempts e <=? Attempts e then next_from best q else
      match best with
      | None => next_from (Some e) q
      | Some b => next_from (if time_before (NextRetry e) (NextRetry b) then Some e else best) q
      end
  end.

Definition Next (q : list QueueEntry) : option QueueEntry := next_from None q.

Fixpoint Remove (id : bytes) (q : list QueueEntry) : list QueueEntry :=
  match q with
  | [] => []
  | e :: q => if decide (q_ID e = id) then q else e :: Remove id q
  end.

Definition Count (q : list QueueEntry) : Z := Z.of_nat (length q).

(** * Lemmas *)

(** UIDs rise along a mailbox and stay below the next one. *)
Record mailbox_ok (m : Mailbox) : Prop := {
  mb_next : 0 < UIDNext m < 2 ^ 32;
  mb_below : Forall (fun msg => 0 < UID msg < UIDNext m) (Messages m);
  mb_rising : StronglySorted Z.lt (UID <$> Messages m);
}.

Lemma StoreMessage_ok written msg m :
  mailbox_ok m -> UIDNext m < 2 ^ 32 - 1 -> mailbox_ok (StoreMessage written msg m).2.
Proof.
  intros [Hn Hb Hr] Hl. unfold StoreMessage. rewrite wrapU_small by lia.
  assert (Forall (fun msg => 0 < UID msg < UIDNext m + 1) (Messages m)) as Hb'
    by (eapply Forall_impl; [exact Hb|]; simpl; lia).
  destruct written; split; simpl; try lia; try done.
  - apply Forall_app. split; [done|]. constructor; [simpl; lia|done].
  - rewrite fmap_app. apply StronglySorted_app. split_and!; [|done|by repeat constructor].
    intros x y (msg' & -> & Hin)%list_elem_of_fmap Hy. simpl in Hy. apply list_elem_of_singleton in Hy as ->.
    rewrite Forall_forall in Hb. by apply Hb.
Qed.

Lemma StronglySorted_filter_fmap {A} (f : A -> Z) (P : A -> Prop) `{forall x, Decision (P x)} l :
  StronglySorted Z.lt (f <$> l) -> StronglySorted Z.lt (f <$> filter P l).
Proof.
  induction l as [|x l IH]; [done|]. rewrite fmap_cons. intros H'. inversion H' as [|? ? Hs Hf]; subst.
  rewrite filter_cons. case_decide; [|auto]. rewrite fmap_cons. constructor; [auto|].
  rewrite Forall_fmap in Hf |- *. eapply sublist_Forall; [apply sublist_filter|done].
Qed.

Lemma Expunge_ok m : mailbox_ok m -> mailbox_ok (Expunge m).2.
Proof.
  intros [Hn Hb Hr]. split; simpl; [done| |].
  - eapply sublist_Forall; [apply sublist_filter|done].
  - by apply StronglySorted_filter_fmap.
Qed.

Lemma GetByUID_found m msg : mailbox_ok m -> msg ∈ Messages m -> GetByUID (UID msg) m = Some msg.
Proof.
  intros [_ _ Hr] Hin. unfold GetByUID. induction (Messages m) as [|x l IH]; [set_solver|].
  rewrite fmap_cons in Hr. inversion Hr as [|? ? Hs Hf]; subst. rewrite filter_cons.
  apply elem_of_cons in Hin as [->|Hin]; [by rewrite decide_True|].
  rewrite Forall_fmap, Forall_forall in Hf. specialize (Hf msg Hin). simpl in Hf.
  rewrite decide_False by lia. by apply IH.
Qed.

Definition open_entry (e : QueueEntry) : Prop := Attempts e < MaxAttempts e.

Lemma next_from_spec best q :
  (forall b, best = Some b -> open_entry b) ->
  match next_from best q with
  | None => best = None /\ Forall (fun e => ~ open_entry e) q
  | Some r => open_entry r /\ (r ∈ q \/ best = Some r) /\
      Forall (fun e => open_entry e -> NextRetry r <= NextRetry e) q /\
      (forall b, best = Some b -> NextRetry r <= NextRetry b)
  end.
Proof.
  unfold open_entry. revert best. induction q as [|e q IH]; intros best Hb; simpl.
  { destruct best as [b|]; [|done]. split_and!; [by apply Hb|by right|done|]. intros; simplify_eq. lia. }
  destruct (Z.leb_spec (MaxAttempts e) (Attempts e)).
  - specialize (IH best Hb). destruct (next_from best q) as [r|].
    + destruct IH as (? & Hin & ? & ?). split_and!; [done|set_solver|constructor; [lia|done]|done].
    + destruct IH. split; [done|]. constructor; [lia|done].
  - destruct best as [b|].
    + unfold time_before. pose proof (Hb b eq_refl). destruct (Z.ltb_spec (NextRetry e) (NextRetry b));
        [specialize (IH (Some e))|specialize (IH (Some b))].
      all: match type of IH with ?P -> _ => assert P as HP by (intros; simplify_eq; lia); specialize (IH HP) end.
      all: destruct (next_from _ q) as [r|]; [|destruct IH; done].
      all: destruct IH as (? & Hin & ? & Hr); specialize (Hr _ eq_refl).
      * split_and!; [done|destruct Hin; [set_solver|simplify_eq; set_solver]|constructor; [lia|done]|].
        intros; simplify_eq. lia.
      * split_and!; [done|destruct Hin; [set_solver|simplify_eq; set_solver]|constructor; [lia|done]|].
        intros; simplify_eq. lia.
    + specialize (IH (Some e)).
      match type of IH with ?P -> _ => assert P as HP by (intros; simplify_eq; lia); specialize (IH HP) end.
      destruct (next_from _ q) as [r|]; [|destruct IH; done].
      destruct IH as (? & Hin & ? & Hr). specialize (Hr _ eq_refl).
      split_and!; [done|destruct Hin; [set_solver|simplify_eq; set_solver]|constructor; [lia|done]|done].
Qed.

(** [Next] is an entry with attempts left that no other such entry precedes;
    there is none only when all have used up their attempts. *)
Theorem queue_next (q : list QueueEntry) :
  match Next q with
  | None => Forall (fun e => ~ open_entry e) q
  | Some r => r ∈ q /\ open_entry r /\ Forall (fun e => open_entry e -> NextRetry r <= NextRetry e) q
  end.
Proof.
  pose proof (next_from_spec None q) as H. unfold Next. destruct (next_from None q) as [r|].
  - destruct H as (? & [?|?] & ? & _); done.
  - by destruct H.
Qed.

(** ** Examples *)

(** [Next] gives an entry long before it is due. *)
Lemma next_ignores_the_clock :
  let e := mkEntry (str "q1") empty_message (zeroes 32) 1 5 (10 ^ 18) 0 None in Next [e] = Some e.
Proof. decide_vm. Qed.
