(* ===== verification/Smtp.v ===== *)
(** * The SMTP server (pkg/services/email/smtp.go)

    One connection: [handleConn] reads lines, [handleCommand] dispatches, and
    each command is a function on the connection: what is still to be read,
    what was written, the session, the mailboxes and the proof-of-work
    checker.  Base64, HMAC-MD5 and the TLS handshake are parameters; the
    clock, random bytes and the outcome of file operations come with a [tick]
    per command. *)

From S2P Require Import Prelude Bytes Hash Bits Text MailGuard Mail.
Local Open Scope Z_scope.

(** ** Data *)

Inductive SMTPState :=
  | SMTPStateGreeting | SMTPStateEHLO | SMTPStateMAIL | SMTPStateRCPT | SMTPStateDATA | SMTPStateAUTH
  | SMTPStateQuit.

#[global] Instance SMTPState_eq_dec : EqDecision SMTPState.
Proof. solve_decision. Defined.

Record SMTPSession := mkSession {
  s_state : SMTPState;
  s_from : bytes;
  s_recipients : list bytes;
  s_authUser : bytes;
}.

#[global] Instance SMTPSession_eq_dec : EqDecision SMTPSession.
Proof. solve_decision. Defined.

(** A [CredentialVerifier]: none, the store of the package, or another. *)
Inductive Credentials :=
  | NoCredentials
  | StoreCredentials (s : CredentialStore)
  | OtherCredentials (verify : bytes -> bytes -> bool).

Record SMTPConfig := mkSMTPConfig {
  Hostname : bytes;
  AuthRequired : bool;
  TLSEnabled : bool;
  HasTLSConfig : bool;
  Creds : Credentials;
}.

Record conn := mkConn {
  c_in : bytes;
  c_out : list bytes;
  c_session : SMTPSession;
  c_store : MailboxStore;
  c_pow : option PoWChecker;
}.

(** What the environment supplies for one command. *)
Record tick := mkTick {
  tk_now : Z;
  tk_now' : Z;
  tk_id : bytes;
  tk_challenge : bytes;
  tk_made : nat -> bool;
  tk_written : nat -> bool;
}.

Definition space : byte := Byte.x20.
Definition at_sign : byte := Byte.x40.

Definition say (s : string) (c : conn) : conn :=
  mkConn (c_in c) (c_out c ++ [str s]) (c_session c) (c_store c) (c_pow c).
Definition say_bytes (b : bytes) (c : conn) : conn :=
  mkConn (c_in c) (c_out c ++ [b]) (c_session c) (c_store c) (c_pow c).
Definition in_session (f : SMTPSession -> SMTPSession) (c : conn) : conn :=
  mkConn (c_in c) (c_out c) (f (c_session c)) (c_store c) (c_pow c).

(** [line, err := reader.ReadString('\n')], trimmed. *)
Definition read_line (c : conn) : bytes * bool * conn :=
  let '(line, found, rest) := ReadString (c_in c) in
  (chomp line, found, mkConn rest (c_out c) (c_session c) (c_store c) (c_pow c)).

Definition enter (st : SMTPState) (s : SMTPSession) : SMTPSession :=
  mkSession st (s_from s) (s_recipients s) (s_authUser s).

Section smtp.
Context `{HH : Hash256}.
Context (pbkdf2Key : bytes -> bytes -> bytes).
Context (hmac_md5_hex : bytes -> bytes -> bytes).
Context (b64_encode : bytes -> bytes).
(** The decoded bytes, up to the error if there is one, and whether there was none. *)
Context (b64_decode : bytes -> bytes * bool).
Context (parse_date : bytes -> option Z) (score_above : bytes -> bool).
(** The plaintext after the handshake, or its failure. *)
Context (handshake : bytes -> option bytes).
Context (cfg : SMTPConfig).

Definition verifyCredentials (user pass : bytes) : bool :=
  match Creds cfg with
  | NoCredentials => false
  | StoreCredentials s => Verify pbkdf2Key user pass s
  | OtherCredentials v => v user pass
  end.

Definition verifyCramMD5 (user challenge proof : bytes) : bool :=
  match Creds cfg with
  | StoreCredentials s =>
      match s !! user with
      | None => false
      | Some e => bool_decide (hmac_md5_hex (hashedPwd e) challenge = proof)
      end
  | _ => false
  end.

(** ** Commands *)

Definition cmdEHLO (arg : bytes) (c : conn) : conn :=
  if decide (arg = []) then say "501 Syntax: EHLO hostname" c else
  let c := in_session (enter SMTPStateEHLO) c in
  let mechanisms := match Creds cfg with NoCredentials => "PLAIN" | _ => "PLAIN LOGIN CRAM-MD5" end in
  let c := say_bytes (str "250-" ++ Hostname cfg ++ str " greets " ++ arg) c in
  let c := if TLSEnabled cfg then say "250-STARTTLS" c else c in
  say "250 OK" (say "250-8BITMIME" (say_bytes (str "250-AUTH " ++ str mechanisms) c)).

(** The end of every mechanism: refuse, or record the user. *)
Definition authenticate (user : bytes) (verified : bool) (c : conn) : conn :=
  if AuthRequired cfg && negb verified then say "535 Authentication failed" c else
  say "235 Authenticated"
    (in_session (fun s => mkSession SMTPStateAUTH (s_from s) (s_recipients s) user) c).

Definition auth_plain (param : bytes) (c : conn) : conn :=
  let '(data, ok) := b64_decode param in
  if negb ok then say "501 Invalid base64" c else
  match cut_at Byte.x00 data with
  | (_, None) => say "501 Invalid auth data" c
  | (_, Some rest) =>
      match cut_at Byte.x00 rest with
      | (_, None) => say "501 Invalid auth data" c
      | (user, Some pass) => authenticate user (verifyCredentials user pass) c
      end
  end.

(** The parameter is decoded, the lines that answer the prompts are not. *)
Definition auth_login (param : bytes) (c : conn) : conn :=
  let '(user, c) :=
    if decide (param = []) then
      let '(user, _, c) := read_line (say "334 VXNlcm5hbWU6" c) in (user, c)
    else ((b64_decode param).1, c) in
  let '(pass, _, c) := read_line (say "334 UGFzc3dvcmQ6" c) in
  authenticate user (verifyCredentials user pass) c.

Definition auth_cram (tk : tick) (c : conn) : conn :=
  let challenge := str "<" ++ tk_challenge tk ++ str "@" ++ Hostname cfg ++ str ">" in
  let '(response, _, c) := read_line (say_bytes (str "334 " ++ b64_encode challenge) c) in
  match cut_at space (b64_decode response).1 with
  | (_, None) => say "501 Invalid auth data" c
  | (user, Some proof) => authenticate user (verifyCramMD5 user challenge proof) c
  end.

Definition cmdAUTH (tk : tick) (arg : bytes) (c : conn) : conn :=
  let '(m, param) := cut_at space arg in
  let mechanism := ToUpper m in
  let param := default [] param in
  if decide (mechanism = str "PLAIN") then auth_plain param c
  else if decide (mechanism = str "LOGIN") then auth_login param c
  else if decide (mechanism = str "CRAM-MD5") then auth_cram tk c
  else say "504 Unsupported AUTH mechanism" c.

(** The address of [MAIL FROM:] and [RCPT TO:] after its prefix. *)
Definition address (arg : bytes) : bytes := Trim (TrimSpace arg) (str "<>").

Definition cmdMAIL (arg : bytes) (c : conn) : conn :=
  if decide (s_state (c_session c) ∉ [SMTPStateEHLO; SMTPStateAUTH; SMTPStateMAIL; SMTPStateRCPT])
  then say "503 Bad sequence of commands" c
  else if negb (HasPrefix (ToUpper arg) (str "FROM:")) then say "501 Syntax: MAIL FROM:<address>" c
  else say "250 OK"
         (in_session (fun s => mkSession SMTPStateMAIL (address (drop 5 arg)) (s_recipients s) (s_authUser s)) c).

Definition cmdRCPT (arg : bytes) (c : conn) : conn :=
  if decide (s_state (c_session c) ∉ [SMTPStateMAIL; SMTPStateRCPT])
  then say "503 Bad sequence of commands" c
  else if negb (HasPrefix (ToUpper arg) (str "TO:")) then say "501 Syntax: RCPT TO:<address>" c
  else say "250 OK"
         (in_session (fun s => mkSession SMTPStateRCPT (s_from s) (s_recipients s ++ [address (drop 3 arg)])
                                 (s_authUser s)) c).

(** The loop that reads the message, without the dots that were added; the
    fuel is one more than the bytes left, each line takes at least one. *)
Fixpoint read_data (fuel : nat) (input buf : bytes) : option bytes * bytes :=
  match fuel with
  | O => (None, input)
  | S fuel =>
      let '(line, found, rest) := ReadString input in
      if negb found then (None, rest) else
      let line := chomp line in
      if decide (line = str ".") then (Some buf, rest) else
      let line := if HasPrefix line (str "..") then drop 1 line else line in
      read_data fuel rest (buf ++ line ++ crlf)
  end.

(** Storing a copy for each recipient that has an at sign. *)
Fixpoint deliver (tk : tick) (msg : Message) (i : nat) (rcpts : list bytes) (s : MailboxStore) : MailboxStore :=
  match rcpts with
  | [] => s
  | rcpt :: rcpts =>
      deliver tk msg (S i) rcpts
        match cut_at at_sign rcpt with
        | (_, None) => s
        | (user, Some _) =>
            let '(r, s) := GetOrCreateMailbox (tk_now tk) (tk_made tk i) user s in
            match r with
            | Err _ => s
            | Ok mb => <[user := (StoreMessage (tk_written tk i) msg mb).2]> s
            end
        end
  end.

(** The envelope put on a parsed message. *)
Definition stamp (tk : tick) (s : SMTPSession) (msg : Message) : Message :=
  mkMessage (tk_id tk) (s_from s) (s_recipients s) (CC msg) (Subject msg) (Body msg)
    (<[str "Received" := str "from " ++ s_from s ++ str " by " ++ Hostname cfg ++ str " with ESMTP"]> (Headers msg))
    (tk_now tk) (Size msg) (UID msg) (Flags msg).

(** The proof-of-work header, when there is a checker and a header. *)
Definition check_pow (tk : tick) (msg : Message) (p : option PoWChecker) : bool * option PoWChecker :=
  match p, Headers msg !! str "X-PoW" with
  | Some p, Some h =>
      match cut_at colon h with
      | (_, Some nonce) =>
          let '(ok, p) := VerifyPoW (tk_now tk) (tk_now' tk) (From msg) (TrimSpace nonce) p in (ok, Some p)
      | _ => (true, Some p)
      end
  | p, _ => (true, p)
  end.

(** The boolean is false when the connection ends in the middle. *)
Definition cmdDATA (tk : tick) (c : conn) : bool * conn :=
  if decide (s_state (c_session c) <> SMTPStateRCPT) then (true, say "503 Bad sequence of commands" c) else
  let c := say "354 Start mail input; end with <CRLF>.<CRLF>" c in
  let '(data, rest) := read_data (S (length (c_in c))) (c_in c) [] in
  let c := mkConn rest (c_out c) (c_session c) (c_store c) (c_pow c) in
  match data with
  | None => (false, c)
  | Some data =>
      match ParseMessage parse_date (tk_now tk) data with
      | Err _ => (true, say "550 Failed to parse message" c)
      | Ok msg =>
          let msg := stamp tk (c_session c) msg in
          let '(ok, p) := check_pow tk msg (c_pow c) in
          let c := mkConn (c_in c) (c_out c) (c_session c) (c_store c) p in
          if negb ok then (true, say "550 PoW verification failed" c)
          else if IsSpam score_above msg then (true, say "550 Message rejected as spam" c)
          else
            let c := mkConn (c_in c) (c_out c) (c_session c)
                       (deliver tk msg 0 (s_recipients (c_session c)) (c_store c)) (c_pow c) in
            (true, say "250 Message accepted" (in_session (enter SMTPStateMAIL) c))
      end
  end.

Definition cmdRSET (c : conn) : conn :=
  say "250 OK" (in_session (fun s => mkSession SMTPStateEHLO [] [] (s_authUser s)) c).

Definition handleCommand (tk : tick) (line : bytes) (c : conn) : bool * conn :=
  let '(name, arg) := cut_at space line in
  let cmd := ToUpper name in
  let arg := default [] arg in
  if decide (cmd = str "EHLO" \/ cmd = str "HELO") then (true, cmdEHLO arg c)
  else if decide (cmd = str "AUTH") then (true, cmdAUTH tk arg c)
  else if decide (cmd = str "MAIL") then (true, cmdMAIL arg c)
  else if decide (cmd = str "RCPT") then (true, cmdRCPT arg c)
  else if decide (cmd = str "DATA") then cmdDATA tk c
  else if decide (cmd = str "RSET") then (true, cmdRSET c)
  else if decide (cmd = str "NOOP") then (true, say "250 OK" c)
  else if decide (cmd = str "QUIT") then (true, in_session (enter SMTPStateQuit) (say "221 Bye" c))
  else (true, say "500 Unknown command" c).

(** ** The connection *)

(** [None] when the fuel is used up. *)
Fixpoint serve (fuel : nat) (ticks : nat -> tick) (n : nat) (c : conn) : option conn :=
  match fuel with
  | O => None
  | S fuel =>
      let '(line, found, c) := read_line c in
      if negb found then Some c
      else if decide (line = []) then serve fuel ticks (S n) c
      else if decide (ToUpper (cut_at space line).1 = str "STARTTLS") then
        if TLSEnabled cfg && HasTLSConfig cfg then
          let c := say "220 Ready to start TLS" c in
          match handshake (c_in c) with
          | None => Some c
          | Some plain =>
              serve fuel ticks (S n)
                (mkConn plain (c_out c) (enter SMTPStateEHLO (c_session c)) (c_store c) (c_pow c))
          end
        else serve fuel ticks (S n) (say "454 TLS not available" c)
      else
        let '(ok, c) := handleCommand (ticks n) line c in
        if negb ok then Some c
        else if decide (s_state (c_session c) = SMTPStateQuit) then Some c
        else serve fuel ticks (S n) c
  end.

Definition handleConn (ticks : nat -> tick) (input : bytes) (store : MailboxStore) (p : option PoWChecker)
    : option conn :=
  serve (S (length input)) ticks 0
    (mkConn input [str "220 " ++ Hostname cfg ++ str " ESMTP LocalWEB"]
       (mkSession SMTPStateGreeting [] [] []) store p).

End smtp.

(** * The protocol machine

    What a session may do, without the lines it is made of: the phases of the
    protocol, the envelope that is being filled, and the mailboxes. *)

Inductive phase := Idle | Ready | Mailing | Addressed | Done.

Record machine := mkMachine {
  a_phase : phase;
  a_from : bytes;
  a_rcpts : list bytes;
  a_user : bytes;
  a_store : MailboxStore;
}.

Section spec.
Context (required : bool) (verified : bytes -> Prop).

Inductive smtp_step : machine -> machine -> Prop :=
  | step_hello ph f rs u st : smtp_step (mkMachine ph f rs u st) (mkMachine Ready f rs u st)
  | step_auth ph f rs u u' st :
      (required = true -> verified u') -> smtp_step (mkMachine ph f rs u st) (mkMachine Ready f rs u' st)
  | step_mail ph f f' rs u st :
      ph <> Idle -> smtp_step (mkMachine ph f rs u st) (mkMachine Mailing f' rs u st)
  | step_rcpt ph f rs r u st :
      ph = Mailing \/ ph = Addressed ->
      smtp_step (mkMachine ph f rs u st) (mkMachine Addressed f (rs ++ [r]) u st)
  | step_deliver f rs u st tk msg :
      From msg = f -> To msg = rs ->
      smtp_step (mkMachine Addressed f rs u st) (mkMachine Mailing f rs u (deliver tk msg 0 rs st))
  | step_reset ph f rs u st : smtp_step (mkMachine ph f rs u st) (mkMachine Ready [] [] u st)
  | step_quit ph f rs u st : smtp_step (mkMachine ph f rs u st) (mkMachine Done f rs u st).

Definition smtp_steps : machine -> machine -> Prop := rtc smtp_step.

End spec.

Definition phase_of (s : SMTPState) : phase :=
  match s with
  | SMTPStateGreeting => Idle
  | SMTPStateEHLO | SMTPStateAUTH | SMTPStateDATA => Ready
  | SMTPStateMAIL => Mailing
  | SMTPStateRCPT => Addressed
  | SMTPStateQuit => Done
  end.

Definition abs (c : conn) : machine :=
  mkMachine (phase_of (s_state (c_session c))) (s_from (c_session c)) (s_recipients (c_session c))
    (s_authUser (c_session c)) (c_store c).

(** A mailbox address of [user]. *)
Definition addressed_to (user rcpt : bytes) : Prop := exists domain, cut_at at_sign rcpt = (user, Some domain).

(** Messages filed by deliveries: in the mailbox of a recipient. *)
Definition filed (user : bytes) (msg : Message) : Prop := exists rcpt, rcpt ∈ To msg /\ addressed_to user rcpt.

Definition messages_of (st : MailboxStore) (user : bytes) : list Message := default [] (Messages <$> st !! user).

(** Every mailbox keeps its messages, and what is new was addressed to it. *)
Definition grows (st st' : MailboxStore) : Prop :=
  forall user, exists new, messages_of st' user = messages_of st user ++ new /\ Forall (filed user) new.

#[global] Instance grows_preorder : PreOrder grows.
Proof.
  split.
  - intros st user. exists []. by rewrite app_nil_r.
  - intros s1 s2 s3 H12 H23 user. destruct (H12 user) as (n1 & E1 & F1), (H23 user) as (n2 & E2 & F2).
    exists (n1 ++ n2). rewrite E2, E1, <- app_assoc. split; [done|]. by apply Forall_app.
Qed.

Lemma GetOrCreate_messages now made user st r st' u :
  GetOrCreateMailbox now made user st = (r, st') ->
  messages_of st' u = messages_of st u /\
  forall mb, r = Ok mb -> Messages mb = messages_of st user.
Proof.
  unfold GetOrCreateMailbox, messages_of. destruct (st !! user) as [m|] eqn:E.
  - intros [= <- <-]. split; [done|]. intros mb [= <-]. done.
  - destruct made; intros [= <- <-]; [|split; [done|intros; done]]. split; [|intros mb [= <-]; done].
    destruct (decide (user = u)) as [->|Hne]; [by rewrite lookup_insert_eq, E|by rewrite lookup_insert_ne].
Qed.

Lemma StoreMessage_messages written msg mb :
  exists new, Messages (StoreMessage written msg mb).2 = Messages mb ++ new /\
    Forall (fun m => To m = To msg) new.
Proof.
  unfold StoreMessage. destruct written; simpl; [eexists [_]; split; [done|by constructor]|].
  exists []. by rewrite app_nil_r.
Qed.

Lemma deliver_grows tk msg i rcpts st :
  Forall (fun r => r ∈ To msg) rcpts -> grows st (deliver tk msg i rcpts st).
Proof.
  intros H. revert i st. induction H as [|rcpt rcpts Hr _ IH]; intros i st; [done|]. simpl.
  etrans; [|apply IH]. destruct (cut_at at_sign rcpt) as [user [domain|]] eqn:Ec; [|done].
  destruct (GetOrCreateMailbox (tk_now tk) (tk_made tk i) user st) as [r st'] eqn:E.
  assert (grows st st') as Hst.
  { intros u. exists []. rewrite app_nil_r. split; [|done]. by eapply GetOrCreate_messages. }
  destruct r as [mb|]; [|done]. etrans; [exact Hst|]. intros u. unfold messages_of at 1.
  destruct (decide (user = u)) as [<-|Hne];
    [|rewrite lookup_insert_ne by done; exists []; by rewrite app_nil_r].
  rewrite lookup_insert_eq. simpl. destruct (StoreMessage_messages (tk_written tk i) msg mb) as (new & -> & Hn).
  destruct (GetOrCreate_messages _ _ _ _ _ _ user E) as [E1 E2]. rewrite (E2 mb eq_refl), E1.
  exists new. split; [done|]. eapply Forall_impl; [exact Hn|]. intros m Hm. exists rcpt. rewrite Hm.
  split; [done|by exists domain].
Qed.

(** ** What the machine guarantees, by induction on its steps *)

Section machine_safe.
Context (required : bool) (verified : bytes -> Prop).

Record machine_ok (st0 : MailboxStore) (m : machine) : Prop := {
  mo_store : grows st0 (a_store m);
  mo_user : required = true -> a_user m = [] \/ verified (a_user m);
  mo_rcpts : a_phase m = Addressed -> a_rcpts m <> [];
}.

Lemma smtp_step_ok st0 m m' : smtp_step required verified m m' -> machine_ok st0 m -> machine_ok st0 m'.
Proof.
  intros Hs [Hg Hu Hr]. destruct Hs; split; simpl in *; try done; auto.
  - intros _. by destruct rs.
  - etrans; [exact Hg|]. apply deliver_grows. subst. by apply Forall_forall.
Qed.

Lemma smtp_steps_ok st0 m m' : smtp_steps required verified m m' -> machine_ok st0 m -> machine_ok st0 m'.
Proof. induction 1; [done|]. intros. eauto using smtp_step_ok. Qed.

End machine_safe.

(** * The server refines the machine *)

Section refines.
Context `{HH : Hash256}.
Context (pbkdf2Key hmac_md5_hex : bytes -> bytes -> bytes).
Context (b64_encode : bytes -> bytes) (b64_decode : bytes -> bytes * bool).
Context (parse_date : bytes -> option Z) (score_above : bytes -> bool).
Context (handshake : bytes -> option bytes) (cfg : SMTPConfig).
(** The plaintext of a TLS stream is not longer than the stream. *)
Context (handshake_shrinks : forall s p, handshake s = Some p -> (length p <= length s)%nat).

(** A user for whom some password, or some answer to a challenge, passed. *)
Definition verified (user : bytes) : Prop :=
  (exists pass, verifyCredentials pbkdf2Key cfg user pass = true) \/
  (exists challenge proof, verifyCramMD5 hmac_md5_hex cfg user challenge proof = true).

Local Abbreviation step := (smtp_step (AuthRequired cfg) verified).

(** What a command may do: read on, and take at most one step. *)
Definition tame (c c' : conn) : Prop :=
  (length (c_in c') <= length (c_in c))%nat /\ (abs c' = abs c \/ step (abs c) (abs c')).

(** Only a reply was written. *)
Ltac quiet := split; [done|by left].

Lemma tame_read c line found c' : read_line c = (line, found, c') -> tame c c'.
Proof.
  unfold read_line. pose proof (ReadString_spec (c_in c)) as H. destruct (ReadString (c_in c)) as [[l f] r].
  intros [= _ _ <-]. split; [|by left]. simpl in *. rewrite <- H, length_app. lia.
Qed.

Lemma read_line_abs c line found c' : read_line c = (line, found, c') -> abs c' = abs c.
Proof. unfold read_line. destruct (ReadString (c_in c)) as [[l f] r]. by intros [= _ _ <-]. Qed.

Lemma authenticate_tame c c0 user ok :
  abs c = abs c0 -> (length (c_in c) <= length (c_in c0))%nat -> (ok = true -> verified user) ->
  tame c0 (authenticate cfg user ok c).
Proof.
  intros Ha Hl Hv. unfold authenticate. destruct (AuthRequired cfg) eqn:Er, ok; simpl.
  2: split; [done|by left].
  all: split; [done|right]; rewrite <- Ha; apply step_auth; auto.
  all: intros; congruence.
Qed.

Lemma auth_tame tk arg c :
  tame c (cmdAUTH pbkdf2Key hmac_md5_hex b64_encode b64_decode cfg tk arg c).
Proof.
  unfold cmdAUTH. destruct (cut_at space arg) as [m param]. repeat case_decide; try quiet.
  - unfold auth_plain. destruct (b64_decode _) as [data []]; simpl; [|quiet].
    destruct (cut_at Byte.x00 data) as [? [rest|]]; [|quiet].
    destruct (cut_at Byte.x00 rest) as [user [pass|]]; [|quiet].
    apply authenticate_tame; [done|lia|]. intros. left. by exists pass.
  - unfold auth_login. case_decide as Ep.
    + destruct (read_line _) as [[user ?] c1] eqn:E1.
      destruct (read_line (say "334 UGFzc3dvcmQ6" c1)) as [[pass ?] c2] eqn:E2.
      pose proof (read_line_abs _ _ _ _ E1) as A1. pose proof (read_line_abs _ _ _ _ E2) as A2.
      destruct (tame_read _ _ _ _ E1) as [L1 _], (tame_read _ _ _ _ E2) as [L2 _].
      apply authenticate_tame; [by rewrite A2; unfold abs in *; simpl in *|simpl in *; lia|].
      intros. left. by exists pass.
    + destruct (read_line _) as [[pass ?] c2] eqn:E2.
      pose proof (read_line_abs _ _ _ _ E2) as A2. destruct (tame_read _ _ _ _ E2) as [L2 _].
      apply authenticate_tame; [done|done|]. intros. left. by exists pass.
  - unfold auth_cram. destruct (read_line _) as [[response ?] c2] eqn:E2.
    pose proof (read_line_abs _ _ _ _ E2) as A2. destruct (tame_read _ _ _ _ E2) as [L2 _].
    destruct (cut_at space _) as [user [proof|]]; [|quiet].
    apply authenticate_tame; [done|done|]. intros. right. by do 2 eexists.
Qed.

Lemma read_data_shorter fuel input buf : (length (read_data fuel input buf).2 <= length input)%nat.
Proof.
  revert input buf. induction fuel as [|fuel IH]; intros input buf; [simpl; lia|]. simpl.
  pose proof (ReadString_spec input) as H. destruct (ReadString input) as [[line found] rest]. simpl in H.
  assert (length rest <= length input)%nat by (rewrite <- H, length_app; lia).
  destruct found; simpl; [|lia]. case_decide; simpl; [lia|]. etrans; [apply IH|lia].
Qed.

Lemma data_tame tk c : tame c (cmdDATA parse_date score_above cfg tk c).2.
Proof.
  unfold cmdDATA. case_decide as Es; [quiet|]. cbn [say c_in].
  pose proof (read_data_shorter (S (length (c_in c))) (c_in c) []) as Hl.
  destruct (read_data (S (length (c_in c))) (c_in c) []) as [[data|] rest]; [|quiet].
  destruct (ParseMessage _ _ _) as [msg|]; [|quiet].
  destruct (check_pow _ _ _) as [[] p]; [|quiet]. cbn [negb].
  destruct (IsSpam _ _); [quiet|]. split; [done|right].
  unfold abs. simpl. rewrite Es. by apply step_deliver.
Qed.

Lemma command_tame tk line c :
  tame c (handleCommand pbkdf2Key hmac_md5_hex b64_encode b64_decode parse_date score_above cfg tk line c).2.
Proof.
  unfold handleCommand. destruct (cut_at space line) as [name arg]. repeat case_decide; cbn [snd].
  - unfold cmdEHLO. case_decide; [quiet|]. destruct (TLSEnabled cfg); (split; [done|right; apply step_hello]).
  - apply auth_tame.
  - unfold cmdMAIL. repeat case_decide; try quiet. destruct (HasPrefix _ _); [|quiet].
    split; [done|right]. apply step_mail. destruct (s_state (c_session c)); set_solver.
  - unfold cmdRCPT. repeat case_decide; try quiet. destruct (HasPrefix _ _); [|quiet].
    split; [done|right]. apply step_rcpt. destruct (s_state (c_session c)); set_solver.
  - apply data_tame.
  - split; [done|right; apply step_reset].
  - quiet.
  - split; [done|right; apply step_quit].
  - quiet.
Qed.

Lemma tame_steps c c' : tame c c' -> smtp_steps (AuthRequired cfg) verified (abs c) (abs c').
Proof. intros [_ [->|H]]; [apply rtc_refl|by apply rtc_once]. Qed.

(** With enough fuel for the bytes to read, the loop ends, and its run is a
    run of the machine. *)
Lemma serve_refines fuel ticks n c :
  (length (c_in c) < fuel)%nat ->
  exists c', serve pbkdf2Key hmac_md5_hex b64_encode b64_decode parse_date score_above handshake cfg fuel ticks n c
             = Some c' /\ smtp_steps (AuthRequired cfg) verified (abs c) (abs c').
Proof.
  revert n c. induction fuel as [|fuel IH]; intros n c Hf; [lia|]. cbn [serve].
  destruct (read_line c) as [[line found] c1] eqn:E1.
  pose proof (read_line_abs _ _ _ _ E1) as A1.
  destruct found; cbn [negb]; [|exists c1; split; [done|rewrite A1; apply rtc_refl]].
  assert (length (c_in c1) < length (c_in c))%nat as L1.
  { unfold read_line in E1. pose proof (ReadString_shorter (c_in c)) as H.
    destruct (ReadString (c_in c)) as [[l f] r]. injection E1 as _ Hfound <-. by apply H. }
  rewrite <- A1. case_decide; [apply IH; lia|]. case_decide.
  - destruct (TLSEnabled cfg && HasTLSConfig cfg); [|apply (IH _ (say "454 TLS not available" c1)); simpl; lia].
    cbn [say c_in]. destruct (handshake (c_in c1)) as [plain|] eqn:Eh; [|eexists; split; [done|apply rtc_refl]].
    apply handshake_shrinks in Eh.
    match goal with |- exists c', serve _ _ _ _ _ _ _ _ _ _ _ ?c2 = _ /\ _ => destruct (IH (S n) c2) as (c' & E & Hs) end;
      [simpl; lia|].
    exists c'. split; [done|]. eapply rtc_l; [apply step_hello|exact Hs].
  - pose proof (command_tame (ticks n) line c1) as Ht. destruct (handleCommand _ _ _ _ _ _ _ _ _ _) as [ok c2].
    cbn [snd] in Ht. destruct ok; cbn [negb]; [|exists c2; split; [done|by apply tame_steps]].
    case_decide; [exists c2; split; [done|by apply tame_steps]|].
    destruct (IH (S n) c2) as (c' & E & Hs); [destruct Ht; lia|].
    exists c'. split; [done|]. etrans; [by apply tame_steps|done].
Qed.

End refines.

(** * Properties *)

Section theorems.
Context `{HH : Hash256}.
Context (pbkdf2Key hmac_md5_hex : bytes -> bytes -> bytes).
Context (b64_encode : bytes -> bytes) (b64_decode : bytes -> bytes * bool).
Context (parse_date : bytes -> option Z) (score_above : bytes -> bool).
Context (handshake : bytes -> option bytes) (cfg : SMTPConfig).

Definition opened (store : MailboxStore) : machine := mkMachine Idle [] [] [] store.


(** what a mail client can do to the mailboxes.  After any connection,
    every mailbox still has the messages it had, in order; each message added
    to it is addressed to its owner (a recipient on the message's own envelope
    has the owner as its local part); and where authentication is required, a
    user the session carries is one for whom credentials were verified. *)
Theorem smtp_mail_safe (ticks : nat -> tick) (input : bytes) (store : MailboxStore) (p : option PoWChecker) :
  (forall s pl, handshake s = Some pl -> (length pl <= length s)%nat) ->
  exists c, handleConn pbkdf2Key hmac_md5_hex b64_encode b64_decode parse_date score_above handshake cfg
              ticks input store p = Some c /\
    grows store (c_store c) /\
    (AuthRequired cfg = true ->
     s_authUser (c_session c) = [] \/ verified pbkdf2Key hmac_md5_hex cfg (s_authUser (c_session c))).
Proof.
  intros Hh. edestruct (serve_refines pbkdf2Key hmac_md5_hex b64_encode b64_decode parse_date score_above handshake
    cfg Hh (S (length input)) ticks 0) as (c & E & Hs); [|exists c; split; [exact E|]]; [simpl; lia|].
  assert (machine_ok (AuthRequired cfg) (verified pbkdf2Key hmac_md5_hex cfg) store (opened store)) as H0
    by (split; simpl; auto; done).
  destruct (smtp_steps_ok _ _ _ _ _ Hs H0) as [Hg Hu _]. by split.
Qed.

End theorems.

(** ** The message text *)

(** What a client sends for a text of some lines: a dot is put before a line
    that starts with one, and a lone dot ends it. *)
Definition stuff (line : bytes) : bytes := if HasPrefix line (str ".") then str "." ++ line else line.

Definition transmit (lines : list bytes) : bytes := concat ((fun l => stuff l ++ crlf) <$> lines) ++ str "." ++ crlf.

Definition plain_line (l : bytes) : Prop := Byte.x0a ∉ l /\ last l <> Some Byte.x0d.

Lemma ReadString_line l k : Byte.x0a ∉ l -> ReadString (l ++ Byte.x0a :: k) = (l ++ [Byte.x0a], true, k).
Proof.
  induction l as [|b l IH]; intros Hl; simpl; [done|]. rewrite decide_False by set_solver.
  rewrite IH by set_solver. done.
Qed.

Lemma chomp_line l : plain_line l -> chomp (l ++ crlf) = l.
Proof.
  intros [Hn Hr]. unfold chomp, TrimRight, drop_trailing. rewrite reverse_app. simpl.
  destruct l as [|b l] using rev_ind; [done|]. rewrite reverse_snoc. simpl.
  rewrite last_snoc in Hr. rewrite decide_False; [by rewrite <- reverse_snoc, reverse_involutive|].
  intros [->|[->|[]%elem_of_nil]%elem_of_cons]%elem_of_cons; [done|]. apply Hn. set_solver.
Qed.

Lemma plain_stuff l : plain_line l -> plain_line (stuff l).
Proof.
  unfold stuff. destruct (HasPrefix l (str ".")) eqn:E; [|done]. intros [Hn Hr]. split.
  - intros [|]%elem_of_cons; done.
  - destruct l; [done|]. exact Hr.
Qed.

(** The server takes off exactly the dot the client put on. *)
Lemma unstuff l :
  stuff l <> str "." /\ (if HasPrefix (stuff l) (str "..") then drop 1 (stuff l) else stuff l) = l.
Proof.
  unfold stuff. destruct (HasPrefix l (str ".")) eqn:E.
  - apply HasPrefix_true in E as [r ->]. done.
  - split; [intros ->; done|]. destruct (HasPrefix l (str "..")) eqn:E2; [|done].
    apply HasPrefix_true in E2 as [r ->]. done.
Qed.

Lemma read_transmit fuel lines k buf :
  Forall plain_line lines -> (length lines < fuel)%nat ->
  read_data fuel (transmit lines ++ k) buf = (Some (buf ++ concat ((fun l => l ++ crlf) <$> lines)), k).
Proof.
  intros H. revert fuel buf. induction H as [|l lines Hl _ IH]; intros [|fuel] buf Hf; [simpl in *; lia| |simpl in *; lia|].
  - simpl. by rewrite app_nil_r.
  - unfold transmit. rewrite !fmap_cons. cbn [concat read_data].
    pose proof (plain_stuff l Hl) as Hs. destruct (unstuff l) as [Hne Hu].
    replace (((stuff l ++ crlf) ++ concat ((fun l => stuff l ++ crlf) <$> lines)) ++ str "." ++ crlf)
      with ((stuff l ++ crlf) ++ transmit lines) by (unfold transmit; by rewrite <- !app_assoc).
    rewrite <- app_assoc. unfold crlf at 1. rewrite <- app_assoc. cbn [app].
    change (Byte.x0d :: Byte.x0a :: transmit lines ++ k) with ([Byte.x0d] ++ Byte.x0a :: transmit lines ++ k).
    rewrite app_assoc, ReadString_line by (apply not_elem_of_app; split; [apply Hs|set_solver]).
    cbn [negb]. rewrite <- app_assoc. change ([Byte.x0d] ++ [Byte.x0a]) with crlf.
    rewrite chomp_line by done. rewrite decide_False by done. rewrite Hu.
    rewrite IH by (simpl in Hf; lia). by rewrite <- !app_assoc.
Qed.

(** a message text arrives as it was written: when a client sends lines
    with the dots the protocol asks for, the loop of DATA gives the same lines
    back, and goes on reading right after the final dot. *)
Theorem smtp_data_roundtrip (lines : list bytes) (rest : bytes) :
  Forall plain_line lines ->
  read_data (S (length (transmit lines ++ rest))) (transmit lines ++ rest) []
  = (Some (concat ((fun l => l ++ crlf) <$> lines)), rest).
Proof.
  intros H. rewrite read_transmit; [done|done|]. unfold transmit. rewrite !length_app.
  assert (length lines <= length (concat ((fun l => stuff l ++ crlf) <$> lines)))%nat; [|lia].
  clear H. induction lines as [|l lines IH]; [done|]. rewrite fmap_cons. cbn [concat length].
  rewrite !length_app. simpl. lia.
Qed.

(** ** Examples *)

Definition plain_tick : tick := mkTick (10 ^ 18) (10 ^ 18) (str "id") (str "nonce") (fun _ => true) (fun _ => true).

(** A server that requires authentication, with one user. *)
Definition toy_kdf (pass salt : bytes) : bytes := pass ++ salt.
Definition sample_cfg : SMTPConfig :=
  mkSMTPConfig (str "localweb") true true true
    (StoreCredentials {[ str "ann" := mkCredential (str "salt") (toy_kdf (str "secret") (str "salt")) ]}).

#[local] Existing Instance sha3_256_hash.

Definition talk (input : bytes) : option conn :=
  handleConn toy_kdf (fun _ _ => []) id (fun b => (b, true)) (fun _ => None) (fun _ => false)
    (fun s => Some s) sample_cfg (fun _ => plain_tick) input ∅ None.

Definition line (s : string) : bytes := str s ++ crlf.

Definition inbox (user : string) (input : bytes) : option (list (bytes * list bytes * bytes)) :=
  (fun c => (fun m => (From m, To m, Body m)) <$> messages_of (c_store c) (str user)) <$> talk input.

Definition first_mail : bytes :=
  line "EHLO me" ++ line "MAIL FROM:<me@x>" ++ line "RCPT TO:<bob@y>" ++ line "DATA" ++
  line "Subject: hi" ++ line "" ++ line "..dots" ++ line ".".

Lemma id_handshake : forall s pl : bytes, Some s = Some pl -> (length pl <= length s)%nat.
Proof. intros s pl [= ->]. lia. Qed.


Lemma smtp_mail_safe_witness :
  exists c, talk first_mail = Some c /\ grows ∅ (c_store c) /\
    (AuthRequired sample_cfg = true -> s_authUser (c_session c) = [] \/
       verified toy_kdf (fun _ _ => []) sample_cfg (s_authUser (c_session c))).
Proof.
  unfold talk. exact (smtp_mail_safe toy_kdf (fun _ _ => []) id (fun b => (b, true)) (fun _ => None) (fun _ => false)
    (fun s => Some s) sample_cfg (fun _ => plain_tick) first_mail ∅ None id_handshake).
Defined.

Lemma smtp_data_roundtrip_witness :
  read_data (S (length (transmit [str ".hidden"; str "x"] ++ str "QUIT"))) (transmit [str ".hidden"; str "x"] ++ str "QUIT") []
  = (Some (line ".hidden" ++ line "x"), str "QUIT").
Proof.
  apply (smtp_data_roundtrip [str ".hidden"; str "x"] (str "QUIT")).
  repeat constructor; try done; apply (bool_decide_eq_true_1 _); reflexivity.
Defined.

(** Authentication is required, none took place, and the mail is delivered. *)
Lemma auth_not_enforced :
  AuthRequired sample_cfg = true /\
  inbox "bob" first_mail = Some [(str "me@x", [str "bob@y"], str ".dots" ++ [Byte.x0a])].
Proof. decide_vm. Qed.

(** The envelope is not cleared after a message: a second message for another
    recipient goes to the first one too. *)
Lemma recipients_carry_over :
  inbox "bob" (first_mail ++ line "MAIL FROM:<me@x>" ++ line "RCPT TO:<eve@y>" ++ line "DATA" ++ line "" ++
               line "for eve" ++ line ".")
  = Some [(str "me@x", [str "bob@y"], str ".dots" ++ [Byte.x0a]);
          (str "me@x", [str "bob@y"; str "eve@y"], str "for eve" ++ [Byte.x0a])].
Proof. decide_vm. Qed.

(** Recipients given before the connection was encrypted count after it. *)
Lemma starttls_keeps_envelope :
  inbox "bob" (line "EHLO me" ++ line "MAIL FROM:<me@x>" ++ line "RCPT TO:<bob@y>" ++ line "STARTTLS" ++
               line "MAIL FROM:<me@x>" ++ line "RCPT TO:<ann@y>" ++ line "DATA" ++ line "" ++ line "x" ++ line ".")
  = Some [(str "me@x", [str "bob@y"; str "ann@y"], str "x" ++ [Byte.x0a])].
Proof. decide_vm. Qed.
