(* ===== verification/Imap.v ===== *)
(** * The IMAP server (pkg/services/email/imap.go, mailbox.go)

    One connection: lines are read and each command is a function on the
    connection: what was written, the session, the mailboxes.  A session keeps
    a pointer to the mailbox it selected; mailboxes are never removed from the
    store, so the pointer is the user it belongs to.  The files of a user are
    what [disk] holds: no command writes them.  A slice expression that is out
    of range panics, which is [None].

    Go's tables of letters ([strings.ToUpper], [strings.ToLower]), the format of
    dates, the time in a file name and the order in which the map of headers is
    visited are parameters; reading the clock and creating directories come
    with a [tick] per command, and [after_idle] is what is left to read when an
    IDLE ends (its reads bypass the buffer of the connection and stop at a
    deadline or the end). *)

From S2P Require Import Prelude Bytes Decimal Text Mail.
Local Open Scope Z_scope.

Definition FlagAnswered : Z := 2.
Definition FlagFlagged : Z := 4.
Definition FlagDraft : Z := 16.

Inductive IMAPState := IMAPStateNotAuth | IMAPStateAuth | IMAPStateSelected.

#[global] Instance IMAPState_eq_dec : EqDecision IMAPState.
Proof. solve_decision. Defined.

Record IMAPSession := mkIMAPSession {
  i_state : IMAPState;
  i_selected : option bytes;
  i_user : bytes;
}.

Record IMAPConfig := mkIMAPConfig {
  Credentials : option (bytes -> bytes -> bool);
}.

(** ** Text *)

Definition space : byte := Byte.x20.

(** [strings.Fields]: the maximal runs of bytes that are not white space. *)
Fixpoint fields_from (fuel : nat) (cur s : bytes) : list bytes :=
  let flush := match cur with [] => [] | _ => [reverse cur] end in
  match fuel with
  | O => flush
  | S fuel =>
      match s with
      | [] => flush
      | b :: s' =>
          match strip_any space_runes s with
          | Some rest => flush ++ fields_from fuel [] rest
          | None => fields_from fuel (b :: cur) s'
          end
      end
  end.

Definition Fields (s : bytes) : list bytes := fields_from (S (length s)) [] s.

Fixpoint Join (sep : bytes) (l : list bytes) : bytes :=
  match l with
  | [] => []
  | [x] => x
  | x :: l => x ++ sep ++ Join sep l
  end.

(** [strings.Index]. *)
Fixpoint Index (s p : bytes) : option nat :=
  if HasPrefix s p then Some O
  else match s with [] => None | _ :: s => S <$> Index s p end.

(** [s[n:]] *)
Definition slice_from (n : nat) (s : bytes) : option bytes :=
  if decide (n <= length s)%nat then Some (drop n s) else None.

(** [fmt.Sscanf(s, "%d", &v)] with [v] a zero uint32: the leading digits, if
    there are any and their number fits. *)
Fixpoint leading_digits (s : bytes) : bytes :=
  match s with
  | c :: s => if (48 <=? u8 c) && (u8 c <=? 57) then c :: leading_digits s else []
  | [] => []
  end.

Definition scan_uint32 (s : bytes) : Z :=
  match leading_digits s with
  | [] => 0
  | ds => match atoi_digits 0 ds with
          | Some n => if n <? 2 ^ 32 then n else 0
          | None => 0
          end
  end.

(** ** Maildir *)

(** The entries of [new] and [cur] in the order of their names, each with its
    content unless it cannot be read; [None] for a directory that cannot. *)
Record Maildir := mkMaildir {
  new_files : option (list (bytes * option bytes));
  cur_files : option (list (bytes * option bytes));
}.

(** The lines a [bufio.Scanner] gives before it stops. *)
Fixpoint short_lines (l : list bytes) : list bytes :=
  match l with
  | x :: l => if MaxScanTokenSize <=? len x then [] else x :: short_lines l
  | [] => []
  end.

Definition file_lines (s : bytes) : list bytes :=
  let parts := Split Byte.x0a s in
  let lines := if decide (last parts = Some []) then removelast parts else parts in
  drop_cr <$> short_lines lines.

Fixpoint read_lines (headerMode : bool) (msg : Message) (body : list bytes) (lines : list bytes)
    : Message * list bytes :=
  match lines with
  | [] => (msg, body)
  | line :: lines =>
      if headerMode then
        if decide (line = []) then read_lines false msg body lines
        else read_lines true (parse_header (fun _ => None) msg line) body lines
      else read_lines false msg (body ++ [line]) lines
  end.

Section imap.
Context (to_upper to_lower : bytes -> bytes).
Context (format_date format_internal : Z -> bytes).
Context (name_time : bytes -> Z).
Context (header_order : gmap bytes bytes -> list (bytes * bytes)).
Context (after_idle : bytes -> bytes).
Context (disk : bytes -> Maildir).
Context (cfg : IMAPConfig).

Definition readMessageFile (name content : bytes) : Message :=
  let '(msg, body) := read_lines true empty_message [] (file_lines content) in
  mkMessage (m_ID msg) (From msg) (To msg) (CC msg) (Subject msg) (Join [Byte.x0a] body) (Headers msg)
    (name_time name) (len content) (UID msg) (Flags msg).

Fixpoint load_files (uid : Z) (files : list (bytes * option bytes)) : list Message * Z :=
  match files with
  | [] => ([], uid)
  | (name, None) :: files => load_files uid files
  | (name, Some content) :: files =>
      let '(msgs, next) := load_files (wrapU 32 (uid + 1)) files in
      (with_uid (readMessageFile name content) uid 0 :: msgs, next)
  end.

Definition LoadMessages (m : Mailbox) : result unit * Mailbox :=
  let d := disk (mb_Name m) in
  match new_files d with
  | None => (Err (ErrText "read new"), mkMailbox (mb_Name m) (UIDValidity m) (UIDNext m) [])
  | Some files =>
      let '(msgs, next) := load_files (UIDNext m) files in
      match cur_files d with
      | None => (Err (ErrText "read cur"), mkMailbox (mb_Name m) (UIDValidity m) next msgs)
      | Some files =>
          let '(msgs', next) := load_files next files in
          (Ok tt, mkMailbox (mb_Name m) (UIDValidity m) next (msgs ++ msgs'))
      end
  end.

(** [Message.String]: the text of a message in a file or an answer. *)
Definition header_line (k v : bytes) : bytes := k ++ str ": " ++ v ++ crlf.

Definition message_String (m : Message) : bytes :=
  let written k := bool_decide (k ∈ to_lower <$> (header_order (Headers m)).*1) in
  concat ((fun kv => header_line kv.1 kv.2) <$> header_order (Headers m))
  ++ (if negb (written (str "from")) && negb (bool_decide (From m = [])) then header_line (str "From") (From m) else [])
  ++ (if negb (written (str "to")) && negb (bool_decide (To m = []))
      then header_line (str "To") (Join (str ", ") (To m)) else [])
  ++ (if negb (written (str "subject")) && negb (bool_decide (Subject m = []))
      then header_line (str "Subject") (Subject m) else [])
  ++ (if negb (written (str "date")) && negb (time_is_zero (Received m))
      then header_line (str "Date") (format_date (Received m)) else [])
  ++ crlf ++ Body m.

(** ** The connection *)

Record iconn := mkIConn {
  i_out : list bytes;
  i_session : IMAPSession;
  i_store : MailboxStore;
}.

Record itick := mkITick {
  it_now : Z;
  it_made : bool;
}.

Definition isay (line : bytes) (c : iconn) : iconn :=
  mkIConn (i_out c ++ [line]) (i_session c) (i_store c).

Definition with_session (s : IMAPSession) (c : iconn) : iconn := mkIConn (i_out c) s (i_store c).
Definition with_store (st : MailboxStore) (c : iconn) : iconn := mkIConn (i_out c) (i_session c) st.

Definition reply (tag : bytes) (text : string) (c : iconn) : iconn := isay (tag ++ str " " ++ str text) c.

(** The selected mailbox, while there is one. *)
Definition selected (c : iconn) : option Mailbox :=
  match i_state (i_session c), i_selected (i_session c) with
  | IMAPStateSelected, Some u => i_store c !! u
  | _, _ => None
  end.

Definition set_selected (m : Mailbox) (c : iconn) : iconn :=
  match i_selected (i_session c) with
  | Some u => with_store (<[u := m]> (i_store c)) c
  | None => c
  end.

(** ** Sequence sets and flags *)

Definition parseUID (s : bytes) : Z :=
  let s := TrimSpace s in
  if decide (s = str "*") then 0 else scan_uint32 s.

Definition in_part (uid : Z) (part : bytes) : bool :=
  let part := TrimSpace part in
  match cut_at colon part with
  | (a, Some b) =>
      let start := parseUID a in
      let end_ := parseUID b in
      (start <=? uid) && ((end_ =? 0) || (uid <=? end_))
  | (_, None) => uid =? parseUID part
  end.

Definition matchesSequenceSet (uid : Z) (seqSet : bytes) : bool :=
  let seqSet := TrimSpace seqSet in
  if decide (seqSet = str "*") then true
  else existsb (in_part uid) (Split comma seqSet).

Definition parens : bytes := [Byte.x28; Byte.x29].

Definition parseFetchItems (s : bytes) : list bytes := to_upper <$> Fields (Trim s parens).

Definition flag_names : list bytes :=
  [str "\FLAGS"; str "\SEEN"; str "\ANSWERED"; str "\FLAGGED"; str "\DELETED"; str "\DRAFT"].

Definition parseStoreValue (s : bytes) : list bytes :=
  match Fields (Trim s (parens ++ [space])) with
  | f :: rest => if decide (f ∈ flag_names) then rest else f :: rest
  | [] => []
  end.

Definition flag_value (flag : bytes) : Z :=
  let f := to_upper flag in
  if decide (f = str "\SEEN") then FlagSeen
  else if decide (f = str "\ANSWERED") then FlagAnswered
  else if decide (f = str "\FLAGGED") then FlagFlagged
  else if decide (f = str "\DELETED") then FlagDeleted
  else if decide (f = str "\DRAFT") then FlagDraft
  else 0.

Definition add_flags (fs : list bytes) (flags : Z) : Z := foldl (fun n f => Z.lor n (flag_value f)) flags fs.
Definition remove_flags (fs : list bytes) (flags : Z) : Z := foldl (fun n f => Z.ldiff n (flag_value f)) flags fs.

Definition store_flags (item : bytes) (fs : list bytes) (flags : Z) : Z :=
  if decide (item = str "+FLAGS.SILENT" \/ item = str "+FLAGS") then add_flags fs flags
  else if decide (item = str "-FLAGS.SILENT" \/ item = str "-FLAGS") then remove_flags fs flags
  else if decide (item = str "FLAGS.SILENT" \/ item = str "FLAGS") then add_flags fs flags
  else flags.

(** ** Search *)

Definition flag_set (m : Message) (f : Z) : bool := negb (Z.land (Flags m) f =? 0).

Definition quote : bytes := [byte_of 34].

(** [None] is a panic. *)
Definition matchesSearchCriteria (m : Message) (criteria : bytes) : option bool :=
  let criteria := to_lower criteria in
  let has k := Contains criteria (str k) in
  if has "unseen" && negb (flag_set m FlagSeen) then Some true
  else if has "seen" && flag_set m FlagSeen then Some true
  else if has "flagged" && flag_set m FlagFlagged then Some true
  else if has "deleted" && flag_set m FlagDeleted then Some true
  else if has "draft" && flag_set m FlagDraft then Some true
  else if has "answered" && flag_set m FlagAnswered then Some true
  else
    match Index criteria (str "text") with
    | Some idx =>
        query ← slice_from (idx + 5) criteria;
        let query := Trim query quote in
        Some (Contains (to_lower (Subject m)) query || Contains (to_lower (Body m)) query)
    | None => Some false
    end.

Fixpoint search (l : list Message) (criteria : bytes) : option (list Z) :=
  match l with
  | [] => Some []
  | m :: l =>
      hit ← matchesSearchCriteria m criteria;
      uids ← search l criteria;
      Some (if hit : bool then UID m :: uids else uids)
  end.

Definition formatUIDList (uids : list Z) : bytes := Join [space] (dec <$> uids).

(** ** Fetch *)

Definition flag_list (m : Message) : list bytes :=
  (if flag_set m FlagSeen then [str "\Seen"] else []) ++
  (if flag_set m FlagAnswered then [str "\Answered"] else []) ++
  (if flag_set m FlagFlagged then [str "\Flagged"] else []) ++
  (if flag_set m FlagDeleted then [str "\Deleted"] else []) ++
  (if flag_set m FlagDraft then [str "\Draft"] else []) ++
  (if flag_set m FlagRecent then [str "\Recent"] else []).

Definition fetch_item (m : Message) (seqNum : Z) (item : bytes) : option bytes :=
  let item := to_upper item in
  let line body := Some (str "* " ++ dec seqNum ++ str " FETCH (" ++ body ++ str ")") in
  if decide (item = str "UID") then line (str "UID " ++ dec (UID m))
  else if decide (item = str "FLAGS") then line (str "FLAGS (" ++ Join [space] (flag_list m) ++ str ")")
  else if decide (item = str "BODY") then line (str "BODY " ++ quote ++ message_String m ++ quote)
  else if decide (item = str "RFC822") then line (str "RFC822 " ++ dec (Size m))
  else if decide (item = str "RFC822.SIZE") then line (str "RFC822.SIZE " ++ dec (Size m))
  else if decide (item = str "RFC822.HEADER") then
    line (str "RFC822.HEADER {" ++ dec (Size m) ++ crlf ++ message_String m ++ crlf)
  else if decide (item = str "INTERNALDATE") then
    line (str "INTERNALDATE " ++ quote ++ format_internal (Received m) ++ quote)
  else None.

Definition writeFetchResponse (m : Message) (items : list bytes) (seqNum : Z) (c : iconn) : iconn :=
  foldl (fun c l => isay l c) c (omap (fetch_item m seqNum) items).

(** ** Commands *)

Definition cmdCapability (tag : bytes) (c : iconn) : iconn :=
  reply tag "OK CAPABILITY completed"
    (isay (str "* CAPABILITY IMAP4rev2 AUTH=PLAIN AUTH=LOGIN STARTTLS IDLE") c).

Definition cmdLogin (tag arg : bytes) (c : iconn) : iconn :=
  match cut_at space arg with
  | (_, None) => reply tag "BAD Syntax: LOGIN user password" c
  | (user, Some password) =>
      if match Credentials cfg with Some verify => negb (verify user password) | None => false end
      then reply tag "NO Login failure" c
      else
        reply tag "OK LOGIN completed"
          (with_session (mkIMAPSession IMAPStateAuth (i_selected (i_session c)) user) c)
  end.

Definition cmdLogout (tag : bytes) (c : iconn) : iconn :=
  reply tag "OK LOGOUT completed" (isay (str "* BYE LocalWEB IMAP4rev2 server logging out") c).

Definition show_mailbox (m : Mailbox) (c : iconn) : iconn :=
  let c := isay (str "* " ++ dec (MessageCount m) ++ str " EXISTS") c in
  let c := isay (str "* " ++ dec (RecentCount m) ++ str " RECENT") c in
  let c := isay (str "* OK [UIDVALIDITY " ++ dec (UIDValidity m) ++ str "] UIDVALIDITY") c in
  let c := isay (str "* OK [UIDNEXT " ++ dec (UIDNext m) ++ str "] Predicted next UID") c in
  isay (str "* FLAGS (\Seen \Answered \Flagged \Deleted \Draft \Recent)") c.

(** SELECT and EXAMINE up to the lines they end with. *)
Definition open_mailbox (tk : itick) (tag : bytes) (finish : iconn -> iconn) (c : iconn) : iconn :=
  let user := i_user (i_session c) in
  if decide (i_state (i_session c) <> IMAPStateAuth /\ i_state (i_session c) <> IMAPStateSelected)
  then reply tag "NO Not authenticated" c
  else
    match GetOrCreateMailbox (it_now tk) (it_made tk) user (i_store c) with
    | (Err _, st) => reply tag "NO" (with_store st c)
    | (Ok m, st) =>
        let '(r, m) := LoadMessages m in
        let c := with_store (<[user := m]> st) c in
        match r with
        | Err _ => reply tag "NO" c
        | Ok _ => finish (show_mailbox m (with_session (mkIMAPSession IMAPStateSelected (Some user) user) c))
        end
    end.

Definition cmdSelect (tk : itick) (tag : bytes) (c : iconn) : iconn :=
  open_mailbox tk tag
    (fun c => reply tag "OK [READ-WRITE] SELECT completed"
      (isay (str "* OK [PERMANENTFLAGS (\Seen \Answered \Flagged \Deleted \Draft)] Limited") c)) c.

Definition cmdExamine (tk : itick) (tag : bytes) (c : iconn) : iconn :=
  open_mailbox tk tag (reply tag "OK [READ-ONLY] EXAMINE completed") c.

(** The messages of a mailbox with their identifiers: UIDs or positions. *)
Fixpoint numbered (useUID : bool) (seqNum : Z) (l : list Message) : list (Z * Message) :=
  match l with
  | [] => []
  | m :: l => (if useUID then UID m else wrapU 32 (seqNum + 1), m) :: numbered useUID (seqNum + 1) l
  end.

Definition cmdFetch (useUID : bool) (tag arg : bytes) (c : iconn) : iconn :=
  match selected c with
  | None => reply tag "BAD Not selected" c
  | Some mb =>
      match cut_at space arg with
      | (_, None) => reply tag "BAD FETCH syntax" c
      | (seqSet, Some msgSet) =>
          let items := parseFetchItems msgSet in
          reply tag "OK FETCH completed"
            (foldl (fun c x => writeFetchResponse x.2 items x.1 c) c
               (filter (fun x => matchesSequenceSet x.1 seqSet = true) (numbered useUID 0 (Messages mb))))
      end
  end.

Definition store_messages (seqSet item : bytes) (fs : list bytes) (m : Mailbox) : Mailbox :=
  mkMailbox (mb_Name m) (UIDValidity m) (UIDNext m)
    ((fun msg => if matchesSequenceSet (UID msg) seqSet
                 then with_uid msg (UID msg) (store_flags item fs (Flags msg)) else msg) <$> Messages m).

Definition cmdStore (tag arg : bytes) (c : iconn) : iconn :=
  match selected c with
  | None => reply tag "BAD Not selected" c
  | Some mb =>
      match cut_at space arg with
      | (_, None) => reply tag "BAD STORE syntax" c
      | (seqSet, Some rest) =>
          match cut_at space rest with
          | (_, None) => reply tag "BAD STORE syntax" c
          | (item, Some value) =>
              reply tag "OK STORE completed"
                (set_selected (store_messages seqSet (to_upper item) (parseStoreValue value) mb) c)
          end
      end
  end.

Definition cmdSearch (tag arg : bytes) (c : iconn) : option iconn :=
  match selected c with
  | None => Some (reply tag "BAD Not selected" c)
  | Some mb =>
      uids ← search (Messages mb) arg;
      Some (reply tag "OK SEARCH completed" (isay (str "* SEARCH " ++ formatUIDList uids) c))
  end.

Definition cmdUID (tag arg : bytes) (c : iconn) : option iconn :=
  match cut_at space arg with
  | (_, None) => Some (reply tag "BAD UID syntax" c)
  | (sub, Some rest) =>
      let cmd := to_upper sub in
      if decide (cmd = str "FETCH") then Some (cmdFetch true tag rest c)
      else if decide (cmd = str "STORE") then Some (cmdStore tag rest c)
      else if decide (cmd = str "SEARCH") then cmdSearch tag rest c
      else Some (reply tag "BAD UID command not supported" c)
  end.

(** IDLE: whether the server now waits. *)
Definition cmdIdle (tag : bytes) (c : iconn) : iconn * bool :=
  match selected c with
  | None => (reply tag "BAD Not selected" c, false)
  | Some _ => (isay (str "+ idling") (reply tag "OK IDLE started" c), true)
  end.

Definition cmdList (tag : bytes) (c : iconn) : iconn :=
  reply tag "OK LIST completed"
    (isay (str "* LIST (\NoInferiors \Unmarked) " ++ quote ++ str "." ++ quote ++ str " " ++ quote ++ str "INBOX" ++ quote) c).

Definition status_item (mb : Mailbox) (item : bytes) : option bytes :=
  let item := to_upper item in
  if decide (item = str "MESSAGES") then Some (str "MESSAGES " ++ dec (MessageCount mb))
  else if decide (item = str "RECENT") then Some (str "RECENT " ++ dec (RecentCount mb))
  else if decide (item = str "UNSEEN") then Some (str "UNSEEN " ++ dec (UnseenCount mb))
  else if decide (item = str "UIDNEXT") then Some (str "UIDNEXT " ++ dec (UIDNext mb))
  else if decide (item = str "UIDVALIDITY") then Some (str "UIDVALIDITY " ++ dec (UIDValidity mb))
  else None.

Definition cmdStatus (tk : itick) (tag arg : bytes) (c : iconn) : iconn :=
  match cut_at space arg with
  | (_, None) => reply tag "BAD STATUS syntax" c
  | (name, Some items) =>
      let mailbox := Trim name quote in
      match GetOrCreateMailbox (it_now tk) (it_made tk) (i_user (i_session c)) (i_store c) with
      | (Err _, st) => reply tag "NO" (with_store st c)
      | (Ok mb, st) =>
          reply tag "OK STATUS completed"
            (isay (str "* STATUS " ++ quote ++ mailbox ++ quote ++ str " ("
                   ++ Join [space] (omap (status_item mb) (Fields items)) ++ str ")") (with_store st c))
      end
  end.

Definition acknowledged : list bytes :=
  [str "CREATE"; str "DELETE"; str "RENAME"; str "SUBSCRIBE"; str "UNSUBSCRIBE"; str "LSUB"; str "X-IMAP4"].

(** The new connection and whether it idles; [None] is a panic. *)
Definition handleCommand (tk : itick) (tag cmd arg : bytes) (c : iconn) : option (iconn * bool) :=
  let ok c := Some (c, false) in
  if decide (cmd = str "CAPABILITY") then ok (cmdCapability tag c)
  else if decide (cmd = str "LOGIN") then ok (cmdLogin tag arg c)
  else if decide (cmd = str "LOGOUT") then ok (cmdLogout tag c)
  else if decide (cmd = str "SELECT") then ok (cmdSelect tk tag c)
  else if decide (cmd = str "EXAMINE") then ok (cmdExamine tk tag c)
  else if decide (cmd = str "FETCH") then ok (cmdFetch false tag arg c)
  else if decide (cmd = str "STORE") then ok (cmdStore tag arg c)
  else if decide (cmd = str "SEARCH") then (fun c => (c, false)) <$> cmdSearch tag arg c
  else if decide (cmd = str "UID") then (fun c => (c, false)) <$> cmdUID tag arg c
  else if decide (cmd = str "IDLE") then Some (cmdIdle tag c)
  else if decide (cmd = str "LIST") then ok (cmdList tag c)
  else if decide (cmd = str "STATUS") then ok (cmdStatus tk tag arg c)
  else if decide (cmd ∈ acknowledged) then ok (isay (tag ++ str " OK " ++ cmd ++ str " completed") c)
  else ok (isay (tag ++ str " BAD Unknown command " ++ cmd) c).

(** The tag, the command in capitals, and its argument. *)
Definition parseIMAPCommand (line : bytes) : bytes * bytes * bytes :=
  match cut_at space line with
  | (tag, None) => (tag, [], [])
  | (tag, Some rest) =>
      match cut_at space rest with
      | (cmd, None) => (tag, to_upper cmd, [])
      | (cmd, Some arg) => (tag, to_upper cmd, arg)
      end
  end.

Inductive ending := Closed | Crashed.

#[export] Instance ending_eq_dec : EqDecision ending.
Proof. solve_decision. Defined.

(** The loop of [handleConn]. *)
Fixpoint iserve (fuel : nat) (ticks : nat -> itick) (n : nat) (input : bytes) (c : iconn)
    : option (iconn * ending) :=
  match fuel with
  | O => None
  | S fuel =>
      let '(line, found, rest) := ReadString input in
      if negb found then Some (c, Closed)
      else
        let line := chomp line in
        if decide (line = []) then iserve fuel ticks (S n) rest c
        else
          let '(tag, cmd, arg) := parseIMAPCommand line in
          match handleCommand (ticks n) tag cmd arg c with
          | None => Some (c, Crashed)
          | Some (c, idle) => iserve fuel ticks (S n) (if idle then after_idle rest else rest) c
          end
  end.

Definition handleConn (ticks : nat -> itick) (input : bytes) (store : MailboxStore) : option (iconn * ending) :=
  iserve (S (length input)) ticks 0 input
    (mkIConn [str "* OK LocalWEB IMAP4rev2 server ready"] (mkIMAPSession IMAPStateNotAuth None []) store).

End imap.
