(* ===== verification/ImapProps.v ===== *)
(** * Properties of the IMAP server

    Isolation of users from each other, termination of a connection, the
    meaning of sequence sets, and behaviour of commands that departs from the
    protocol, on concrete connections. *)

From S2P Require Import Prelude Bytes Decimal Text Mail Imap.
Local Open Scope Z_scope.

(** ** Isolation *)

Section isolation.
Context (to_upper to_lower : bytes -> bytes).
Context (format_date format_internal : Z -> bytes).
Context (name_time : bytes -> Z).
Context (header_order : gmap bytes bytes -> list (bytes * bytes)).
Context (after_idle : bytes -> bytes).
Context (verify : bytes -> bytes -> bool) (v : bytes).
Context (v_never_verified : forall pw, verify v pw = false).
Context (disk1 disk2 : bytes -> Maildir).
Context (disks_agree : forall u, u <> v -> disk1 u = disk2 u).

Local Abbreviation cfg := (mkIMAPConfig (Some verify)).
Local Abbreviation run1 := (handleCommand to_upper to_lower format_date format_internal name_time header_order disk1 cfg).
Local Abbreviation run2 := (handleCommand to_upper to_lower format_date format_internal name_time header_order disk2 cfg).

Definition named (st : MailboxStore) : Prop := forall u m, st !! u = Some m -> mb_Name m = u.

Definition safe (s : IMAPSession) : Prop := i_user s <> v /\ i_selected s <> Some v.

(** Two connections that differ at most in the mailbox of [v], which is [m1]
    in one and [m2] in the other. *)
Record alike (m1 m2 : option Mailbox) (c1 c2 : iconn) : Prop := mkAlike {
  al_out : i_out c1 = i_out c2;
  al_session : i_session c1 = i_session c2;
  al_safe : safe (i_session c1);
  al_store : forall u, u <> v -> i_store c1 !! u = i_store c2 !! u;
  al_named1 : named (i_store c1);
  al_named2 : named (i_store c2);
  al_v1 : i_store c1 !! v = m1;
  al_v2 : i_store c2 !! v = m2;
}.

Context (m1 m2 : option Mailbox).
Local Abbreviation R := (alike m1 m2).

Lemma alike_isay line c1 c2 : R c1 c2 -> R (isay line c1) (isay line c2).
Proof. intros []. split; simpl; try done. congruence. Qed.

Lemma alike_reply tag text c1 c2 : R c1 c2 -> R (reply tag text c1) (reply tag text c2).
Proof. apply alike_isay. Qed.

Lemma alike_with_session s c1 c2 : safe s -> R c1 c2 -> R (with_session s c1) (with_session s c2).
Proof. intros Hs []. by split. Qed.

Lemma alike_insert u m c1 c2 :
  u <> v -> mb_Name m = u -> R c1 c2 ->
  R (with_store (<[u := m]> (i_store c1)) c1) (with_store (<[u := m]> (i_store c2)) c2).
Proof.
  intros Hu Hm [Ho Hs Hsafe Hst H1 H2 Hv1 Hv2].
  assert (forall st, named st -> named (<[u := m]> st)) as Hn.
  { intros st Hst' u' m'. destruct (decide (u' = u)) as [->|]; [rewrite lookup_insert_eq|rewrite lookup_insert_ne by done].
    - by intros [= <-].
    - apply Hst'. }
  split; simpl; try done; try (by apply Hn); try (by rewrite lookup_insert_ne).
  intros u' Hu'. destruct (decide (u' = u)) as [->|]; [by rewrite !lookup_insert_eq|].
  rewrite !lookup_insert_ne by done. by apply Hst.
Qed.

Lemma alike_selected c1 c2 :
  R c1 c2 ->
  selected c1 = selected c2 /\
  forall m, selected c1 = Some m -> exists u, i_selected (i_session c1) = Some u /\ u <> v /\ mb_Name m = u.
Proof.
  intros [Ho Hs [Hu Hsel] Hst H1 H2 _ _]. unfold selected. rewrite <- Hs.
  destruct (i_state (i_session c1)); try done. destruct (i_selected (i_session c1)) as [u|]; [|done].
  assert (u <> v) by congruence. rewrite <- Hst by done. split; [done|].
  intros m Hm. exists u. split_and!; [done..|]. by apply (H1 u).
Qed.

Lemma alike_set_selected m c1 c2 u :
  i_selected (i_session c1) = Some u -> u <> v -> mb_Name m = u ->
  R c1 c2 -> R (set_selected m c1) (set_selected m c2).
Proof.
  intros Hsel Hu Hm Hr. pose proof (al_session _ _ _ _ Hr) as Hs. unfold set_selected.
  rewrite <- Hs, Hsel. by apply alike_insert.
Qed.

Lemma alike_foldl {A} (f : iconn -> A -> iconn) (l : list A) c1 c2 :
  (forall a c1 c2, R c1 c2 -> R (f c1 a) (f c2 a)) -> R c1 c2 -> R (foldl f c1 l) (foldl f c2 l).
Proof. intros Hf. revert c1 c2. induction l as [|a l IH]; intros c1 c2 Hr; [done|]. by apply IH, Hf. Qed.

#[local] Hint Resolve alike_isay alike_reply alike_with_session : core.

Lemma alike_show_mailbox m c1 c2 : R c1 c2 -> R (show_mailbox m c1) (show_mailbox m c2).
Proof. unfold show_mailbox. auto 10. Qed.

Lemma alike_login tag arg c1 c2 : R c1 c2 -> R (cmdLogin cfg tag arg c1) (cmdLogin cfg tag arg c2).
Proof.
  intros Hr. pose proof (al_session _ _ _ _ Hr) as Hs. pose proof (al_safe _ _ _ _ Hr) as [Hu Hsel].
  unfold cmdLogin. destruct (cut_at space arg) as [user [pw|]]; [|auto]. cbn [Credentials].
  destruct (verify user pw) eqn:Ev; cbn [negb]; [|auto]. apply alike_reply. rewrite <- Hs.
  apply alike_with_session; [|done]. split; [|done]. cbn [i_user]. intros Heq.
  by rewrite Heq, v_never_verified in Ev.
Qed.

(** Opening the mailbox of the user of the session, on both sides. *)
Lemma alike_mailbox tk c1 c2 :
  R c1 c2 ->
  let u := i_user (i_session c1) in
  match GetOrCreateMailbox (it_now tk) (it_made tk) u (i_store c1),
        GetOrCreateMailbox (it_now tk) (it_made tk) u (i_store c2) with
  | (Err _, st1), (Err _, st2) => st1 = i_store c1 /\ st2 = i_store c2
  | (Ok m, st1), (Ok m', st2) => m = m' /\ mb_Name m = u /\ R (with_store st1 c1) (with_store st2 c2)
  | _, _ => False
  end.
Proof.
  intros Hr. pose proof Hr as [Ho Hs [Hu Hsel] Hst H1 H2 Hv1 Hv2]. cbv zeta. unfold GetOrCreateMailbox.
  rewrite <- Hst by done. destruct (i_store c1 !! i_user (i_session c1)) as [m|] eqn:E.
  - split_and!; [done|by apply H1|]. by destruct c1, c2.
  - destruct (it_made tk); [|done]. split_and!; [done..|]. by apply alike_insert.
Qed.

Lemma LoadMessages_agree m :
  mb_Name m <> v -> LoadMessages name_time disk1 m = LoadMessages name_time disk2 m.
Proof. intros Hm. unfold LoadMessages. by rewrite disks_agree. Qed.

Lemma LoadMessages_name disk m : mb_Name (LoadMessages name_time disk m).2 = mb_Name m.
Proof. unfold LoadMessages. by repeat case_match. Qed.

Lemma alike_open tk tag finish c1 c2 :
  (forall c1 c2, R c1 c2 -> R (finish c1) (finish c2)) -> R c1 c2 ->
  R (open_mailbox name_time disk1 tk tag finish c1) (open_mailbox name_time disk2 tk tag finish c2).
Proof.
  intros Hf Hr. pose proof (al_session _ _ _ _ Hr) as Hs. pose proof (al_safe _ _ _ _ Hr) as [Hu Hsel].
  unfold open_mailbox. rewrite <- Hs. case_decide; [auto|]. pose proof (alike_mailbox tk c1 c2 Hr) as Hm.
  cbv zeta in Hm.
  destruct (GetOrCreateMailbox _ _ _ (i_store c1)) as [[m|e] st1], (GetOrCreateMailbox _ _ _ (i_store c2)) as [[m'|e'] st2];
    try done.
  - destruct Hm as (<- & Hn & Hr'). rewrite <- LoadMessages_agree by congruence.
    pose proof (LoadMessages_name disk1 m) as Hn'. destruct (LoadMessages name_time disk1 m) as [r m3].
    simpl in Hn'. pose proof (alike_insert _ m3 _ _ Hu (eq_trans Hn' Hn) Hr') as Hr2.
    cbn [with_store i_store] in Hr2. destruct r as [[]|e].
    + apply Hf, alike_show_mailbox, alike_with_session; [|exact Hr2]. split; simpl; congruence.
    + apply alike_reply. exact Hr2.
  - destruct Hm as [-> ->]. apply alike_reply. by destruct c1, c2.
Qed.

Lemma alike_fetch useUID tag arg c1 c2 :
  R c1 c2 ->
  R (cmdFetch to_upper to_lower format_date format_internal header_order useUID tag arg c1)
    (cmdFetch to_upper to_lower format_date format_internal header_order useUID tag arg c2).
Proof.
  intros Hr. destruct (alike_selected _ _ Hr) as [Hsel _]. unfold cmdFetch. rewrite <- Hsel.
  destruct (selected c1); [|auto]. destruct (cut_at space arg) as [? [?|]]; [|auto].
  apply alike_reply, alike_foldl; [|done]. intros x d1 d2 Hd. unfold writeFetchResponse.
  apply alike_foldl; [auto|done].
Qed.

Lemma alike_store tag arg c1 c2 :
  R c1 c2 -> R (cmdStore to_upper tag arg c1) (cmdStore to_upper tag arg c2).
Proof.
  intros Hr. destruct (alike_selected _ _ Hr) as [Hsel Hname]. unfold cmdStore. rewrite <- Hsel.
  destruct (selected c1) as [mb|]; [|auto]. destruct (Hname mb eq_refl) as (u & Hu & Huv & Hn).
  destruct (cut_at space arg) as [? [rest|]]; [|auto]. destruct (cut_at space rest) as [? [?|]]; [|auto].
  by eapply alike_reply, alike_set_selected.
Qed.

Definition both (r1 r2 : option (iconn * bool)) : Prop :=
  match r1, r2 with
  | Some (c1, b1), Some (c2, b2) => b1 = b2 /\ R c1 c2
  | None, None => True
  | _, _ => False
  end.

Lemma both_Some b c1 c2 : R c1 c2 -> both (Some (c1, b)) (Some (c2, b)).
Proof. done. Qed.

Lemma alike_search tag arg c1 c2 :
  R c1 c2 ->
  both ((fun c => (c, false)) <$> cmdSearch to_lower tag arg c1) ((fun c => (c, false)) <$> cmdSearch to_lower tag arg c2).
Proof.
  intros Hr. destruct (alike_selected _ _ Hr) as [Hsel _]. unfold cmdSearch. rewrite <- Hsel.
  destruct (selected c1) as [mb|]; [|apply both_Some; auto].
  destruct (search to_lower (Messages mb) arg); [|done]. apply both_Some. auto.
Qed.

Lemma alike_uid tag arg c1 c2 :
  R c1 c2 ->
  both ((fun c => (c, false)) <$> cmdUID to_upper to_lower format_date format_internal header_order tag arg c1)
       ((fun c => (c, false)) <$> cmdUID to_upper to_lower format_date format_internal header_order tag arg c2).
Proof.
  intros Hr. unfold cmdUID. destruct (cut_at space arg) as [sub [rest|]]; [|apply both_Some; auto].
  repeat case_decide; [by apply both_Some, alike_fetch|by apply both_Some, alike_store|by apply alike_search|
    by apply both_Some, alike_reply].
Qed.

Lemma alike_status tk tag arg c1 c2 :
  R c1 c2 -> R (cmdStatus to_upper tk tag arg c1) (cmdStatus to_upper tk tag arg c2).
Proof.
  intros Hr. pose proof (al_session _ _ _ _ Hr) as Hs. unfold cmdStatus. rewrite <- Hs.
  destruct (cut_at space arg) as [name [items|]]; [|auto].
  pose proof (alike_mailbox tk c1 c2 Hr) as Hm. cbv zeta in Hm.
  destruct (GetOrCreateMailbox _ _ _ (i_store c1)) as [[m|e] st1], (GetOrCreateMailbox _ _ _ (i_store c2)) as [[m'|e'] st2];
    try done.
  - destruct Hm as (<- & _ & Hr'). auto.
  - destruct Hm as [-> ->]. apply alike_reply. by destruct c1, c2.
Qed.

Lemma alike_command tk tag cmd arg c1 c2 : R c1 c2 -> both (run1 tk tag cmd arg c1) (run2 tk tag cmd arg c2).
Proof.
  intros Hr. unfold handleCommand.
  case_decide; [apply both_Some; unfold cmdCapability; auto|].
  case_decide; [by apply both_Some, alike_login|].
  case_decide; [apply both_Some; unfold cmdLogout; auto|].
  case_decide; [apply both_Some, alike_open; auto|].
  case_decide; [apply both_Some, alike_open; auto|].
  case_decide; [by apply both_Some, alike_fetch|].
  case_decide; [by apply both_Some, alike_store|].
  case_decide; [by apply alike_search|].
  case_decide; [by apply alike_uid|].
  case_decide.
  { destruct (alike_selected _ _ Hr) as [Hsel _]. unfold cmdIdle. rewrite <- Hsel.
    destruct (selected c1); apply both_Some; auto. }
  case_decide; [apply both_Some; unfold cmdList; auto|].
  case_decide; [by apply both_Some, alike_status|].
  case_decide; apply both_Some; auto.
Qed.

Local Abbreviation serve1 := (iserve to_upper to_lower format_date format_internal name_time header_order after_idle disk1 cfg).
Local Abbreviation serve2 := (iserve to_upper to_lower format_date format_internal name_time header_order after_idle disk2 cfg).

Lemma alike_serve fuel ticks n input c1 c2 :
  R c1 c2 ->
  match serve1 fuel ticks n input c1, serve2 fuel ticks n input c2 with
  | Some (c1, e1), Some (c2, e2) => e1 = e2 /\ R c1 c2
  | None, None => True
  | _, _ => False
  end.
Proof.
  revert n input c1 c2. induction fuel as [|fuel IH]; intros n input c1 c2 Hr; [done|]. cbn [iserve].
  destruct (ReadString input) as [[line found] rest]. destruct found; cbn [negb]; [|done].
  case_decide; [by apply IH|]. destruct (parseIMAPCommand to_upper (chomp line)) as [[tag cmd] arg].
  pose proof (alike_command (ticks n) tag cmd arg c1 c2 Hr) as Hb.
  destruct (run1 (ticks n) tag cmd arg c1) as [[d1 b1]|], (run2 (ticks n) tag cmd arg c2) as [[d2 b2]|]; try done.
  destruct Hb as [<- Hb]. by apply IH.
Qed.
End isolation.

(** Every round of the loop takes at least a byte off the input. *)
Lemma iserve_ends to_upper to_lower format_date format_internal name_time header_order after_idle disk cfg
    fuel ticks n input c :
  (forall s, (length (after_idle s) <= length s)%nat) -> (length input < fuel)%nat ->
  is_Some (iserve to_upper to_lower format_date format_internal name_time header_order after_idle disk cfg
             fuel ticks n input c).
Proof.
  intros Hidle. revert n input c. induction fuel as [|fuel IH]; intros n input c Hf; [lia|]. cbn [iserve].
  pose proof (ReadString_shorter input) as Hs. destruct (ReadString input) as [[line found] rest]. simpl in Hs.
  destruct found; cbn [negb]; [|by eexists]. specialize (Hs eq_refl).
  case_decide; [apply IH; lia|]. destruct (parseIMAPCommand _ _) as [[tag cmd] arg].
  destruct (handleCommand _ _ _ _ _ _ _ _ _ _ _ _ _) as [[c' idle]|]; [|by eexists].
  apply IH. destruct idle; [specialize (Hidle rest)|]; lia.
Qed.


(** ** Sequence sets *)

Lemma leading_digits_app ds s :
  Forall (fun c => 48 <= u8 c <= 57) ds ->
  match s with c :: _ => ~ 48 <= u8 c <= 57 | [] => True end ->
  leading_digits (ds ++ s) = ds.
Proof.
  intros Hd Hs. induction Hd as [|c ds Hc Hd IH]; simpl.
  - destruct s as [|c s]; [done|]. simpl. destruct (Z.leb_spec 48 (u8 c)), (Z.leb_spec (u8 c) 57); simpl; (done || lia).
  - rewrite (proj2 (Z.leb_le _ _)), (proj2 (Z.leb_le _ _)) by lia. simpl. by rewrite IH.
Qed.

(** A printed UID is read back. *)
Lemma scan_uint32_dec n : 0 <= n < 2 ^ 32 -> scan_uint32 (dec n) = n.
Proof.
  intros Hn. destruct (dec_digits n) as (Ha & Hf & Hne).
  { assert (2 ^ 32 < 10 ^ 20) by done. lia. }
  unfold scan_uint32. rewrite <- (app_nil_r (dec n)), leading_digits_app by done.
  destruct (dec n); [done|]. rewrite Ha. by rewrite (proj2 (Z.ltb_lt _ _)) by lia.
Qed.

(** What STORE does to the messages of a mailbox. *)
Lemma store_messages_spec seqSet item fs to_upper m msg :
  msg ∈ Messages (store_messages to_upper seqSet item fs m) <->
  exists old, old ∈ Messages m /\
    msg = if matchesSequenceSet (UID old) seqSet
          then with_uid old (UID old) (store_flags to_upper item fs (Flags old)) else old.
Proof.
  unfold store_messages. cbn [Messages]. rewrite list_elem_of_fmap. naive_solver.
Qed.

(** Adding and removing flags, bit by bit. *)
Lemma add_flags_bit to_upper fs flags i :
  0 <= i -> Z.testbit (add_flags to_upper fs flags) i =
    Z.testbit flags i || existsb (fun f => Z.testbit (flag_value to_upper f) i) fs.
Proof.
  intros Hi. unfold add_flags. revert flags. induction fs as [|f fs IH]; intros flags; simpl; [by rewrite orb_false_r|].
  by rewrite IH, Z.lor_spec, orb_assoc.
Qed.

Lemma remove_flags_bit to_upper fs flags i :
  0 <= i -> Z.testbit (remove_flags to_upper fs flags) i =
    Z.testbit flags i && negb (existsb (fun f => Z.testbit (flag_value to_upper f) i) fs).
Proof.
  intros Hi. unfold remove_flags. revert flags. induction fs as [|f fs IH]; intros flags; simpl; [by rewrite andb_true_r|].
  by rewrite IH, Z.ldiff_spec, negb_orb, andb_assoc.
Qed.

(** A range that is not made of numbers covers every message. *)
Lemma malformed_range_matches_all uid : 0 <= uid -> matchesSequenceSet uid (str "x:y") = true.
Proof.
  intros Hu. unfold matchesSequenceSet. rewrite decide_False by (vm_compute; discriminate).
  change (Split comma (TrimSpace (str "x:y"))) with [str "x:y"]. cbn [existsb]. rewrite orb_false_r.
  change (in_part uid (str "x:y")) with ((0 <=? uid) && ((0 =? 0) || (uid <=? 0))).
  by rewrite (proj2 (Z.leb_le _ _)).
Qed.

(** A flag in capitals at the front of the list is dropped. *)
Lemma store_drops_first_flag :
  parseStoreValue (str "(\DELETED)") = [] /\ parseStoreValue (str "(\Deleted)") = [str "\Deleted"].
Proof. decide_vm. Qed.

(** ** Connections *)

Module ImapSample.
Definition mail : Maildir :=
  mkMaildir (Some [(str "a", Some (str "Subject: hi" ++ crlf ++ crlf ++ str "body"));
                   (str "b", Some (str "Subject: ho" ++ crlf ++ crlf ++ str "text"))]) (Some []).
Definition no_mail : Maildir := mkMaildir (Some []) (Some []).
Definition verify (u p : bytes) : bool := bool_decide (u = str "ann" /\ p = str "pw").
Definition date (t : Z) : bytes := dec t.
Definition ticks (n : nat) : itick := mkITick ((unix_epoch + 7) * second) true.
Definition talk (disk : bytes -> Maildir) (store : MailboxStore) (lines : list string) :=
  handleConn ToUpper ToLower date date (fun _ => 0) map_to_list id disk (mkIMAPConfig (Some verify)) ticks
    (concat ((fun l => str l ++ crlf) <$> lines)) store.
Definition answers (lines : list string) : option (list bytes * ending) :=
  (fun r => (i_out r.1, r.2)) <$> talk (fun _ => mail) ∅ lines.
Definition last_answer (lines : list string) : option bytes := r ← answers lines; last r.1.
Definition bob : Mailbox := mkMailbox (str "bob") 1 2 [with_uid empty_message 1 0].
End ImapSample.
Import ImapSample.

(** A SEARCH whose criteria end in [text] stops the process. *)
Lemma search_text_crashes :
  snd <$> answers ["1 LOGIN ann pw"; "2 SELECT INBOX"; "3 SEARCH TEXT"] = Some Crashed.
Proof. decide_vm. Qed.

(** Every SELECT gives all messages new UIDs under the same UIDVALIDITY, and
    forgets their flags. *)
Lemma select_renumbers :
  last_answer ["1 LOGIN ann pw"; "2 SELECT INBOX"; "3 FETCH 1 UID"] = Some (str "3 OK FETCH completed") /\
  (take 1 ∘ drop 9 ∘ fst <$> answers ["1 LOGIN ann pw"; "2 SELECT INBOX"; "3 FETCH 1 UID"])
    = Some [str "* 1 FETCH (UID 1)"] /\
  (take 1 ∘ drop 16 ∘ fst <$> answers ["1 LOGIN ann pw"; "2 SELECT INBOX"; "3 SELECT INBOX"; "4 FETCH 1 UID"])
    = Some [str "* 1 FETCH (UID 3)"] /\
  (take 1 ∘ drop 17 ∘ fst <$> answers ["1 LOGIN ann pw"; "2 SELECT INBOX"; "3 STORE 1 +FLAGS (\Seen)";
      "4 SELECT INBOX"; "5 UID FETCH 3 FLAGS"])
    = Some [str "* 3 FETCH (FLAGS ())"].
Proof. decide_vm. Qed.

(** LOGOUT ends neither the connection nor the login. *)
Lemma logout_keeps_session :
  last_answer ["1 LOGIN ann pw"; "2 LOGOUT"; "3 EXAMINE INBOX"] = Some (str "3 OK [READ-ONLY] EXAMINE completed").
Proof. decide_vm. Qed.

(** STORE takes positions for UIDs, and FLAGS adds where it should replace. *)
Lemma store_flags_adds :
  store_flags ToUpper (str "FLAGS") [str "\Deleted"] FlagSeen = Z.lor FlagSeen FlagDeleted.
Proof. decide_vm. Qed.

(** ** Witness *)

