(* ===== verification/Relay.v ===== *)
(** * Circuit relay (pkg/transport/relay.go)

    The table of circuits with its limit, the two goroutines that pump each
    circuit, and the message that asks for one.  A stream is a number, [None]
    a nil stream; closing one is recorded.  A [net] is the relay with the
    pumps that are running and the streams that were closed; its steps are
    the calls of the relay and what a pump does on its own, in any order.  The
    bytes a pump moves are not looked at, only counted. *)

From S2P Require Import Prelude Bytes Float.
Local Open Scope Z_scope.

Definition relayMaxStreams : Z := 100.
Definition MsgRelay : Z := 0x0A.

Abbreviation stream := (option nat).

Record Circuit := mkCircuit {
  ci_ID : bytes;
  Initiator : bytes;
  Target : bytes;
  CreatedAt : Z;
  BytesIn : Z;
  BytesOut : Z;
  InStream : stream;
  OutStream : stream;
}.

Record Relay := mkRelay {
  circuits : gmap bytes Circuit;
  load : float64;
  capacity : Z;
}.

#[global] Instance Circuit_eq_dec : EqDecision Circuit.
Proof. solve_decision. Defined.
#[global] Instance Relay_eq_dec : EqDecision Relay.
Proof. solve_decision. Defined.

Definition NewRelay : Relay := mkRelay ∅ (f64_of_Z 0) relayMaxStreams.

Definition count (cs : gmap bytes Circuit) : Z := Z.of_nat (size cs).

(** [r.load = float64(len(r.circuits)) / float64(r.capacity)] *)
Definition reload (cs : gmap bytes Circuit) (r : Relay) : Relay :=
  mkRelay cs (f64_div (f64_of_Z (count cs)) (f64_of_Z (capacity r))) (capacity r).

Record net := mkNet {
  n_relay : Relay;
  n_pumps : list (bytes * stream * stream);
  n_closed : list nat;
}.

Definition AcceptCircuit (now : Z) (id initiator target : bytes) (inS outS : stream) (n : net) : result unit * net :=
  let r := n_relay n in
  if capacity r <=? count (circuits r) then (Err (ErrText "relay at capacity"), n) else
  (Ok tt, mkNet (reload (<[id := mkCircuit id initiator target now 0 0 inS outS]> (circuits r)) r)
            (n_pumps n ++ [(id, inS, outS); (id, outS, inS)]) (n_closed n)).

Definition recordBytes (id : bytes) (k : Z) (n : net) : net :=
  let r := n_relay n in
  match circuits r !! id with
  | None => n
  | Some c => mkNet (mkRelay (<[id := mkCircuit (ci_ID c) (Initiator c) (Target c) (CreatedAt c)
                                        (wrapU 64 (BytesIn c + k)) (BytesOut c) (InStream c) (OutStream c)]>
                               (circuits r)) (load r) (capacity r)) (n_pumps n) (n_closed n)
  end.

Definition CloseCircuit (id : bytes) (n : net) : net :=
  let r := n_relay n in
  match circuits r !! id with
  | None => mkNet (reload (circuits r) r) (n_pumps n) (n_closed n)
  | Some c => mkNet (reload (delete id (circuits r)) r) (n_pumps n)
                (n_closed n ++ option_list (InStream c) ++ option_list (OutStream c))
  end.

(** A pump ends when a read or a write fails; the last thing it does is to
    close the circuit of its ID. *)
Definition pump_ends (i : nat) (n : net) : net :=
  match n_pumps n !! i with
  | None => n
  | Some (id, _, _) => CloseCircuit id (mkNet (n_relay n) (delete i (n_pumps n)) (n_closed n))
  end.

(** [Stop] takes the lock and calls [CloseCircuit], which takes it again: the
    mutex is not reentrant, so [None], a call that never returns, unless there
    is no circuit. *)
Definition locked_CloseCircuit (held : bool) (id : bytes) (n : net) : option net :=
  if held then None else Some (CloseCircuit id n).

Definition Stop (n : net) : option net :=
  foldl (fun o id => o ≫= locked_CloseCircuit true id) (Some n) (map_to_list (circuits (n_relay n))).*1.

(** [strict] steps never reuse the ID of a live circuit. *)
Inductive relay_step (strict : bool) (n : net) : net -> Prop :=
  | step_accept now id a b inS outS :
      (strict = true -> circuits (n_relay n) !! id = None) ->
      relay_step strict n (AcceptCircuit now id a b inS outS n).2
  | step_moved i id src dst k :
      n_pumps n !! i = Some (id, src, dst) -> relay_step strict n (recordBytes id k n)
  | step_ended i : relay_step strict n (pump_ends i n)
  | step_close id : relay_step strict n (CloseCircuit id n).

(** ** The request *)

Definition EncodeRelayExtend (circuitID target : bytes) : bytes :=
  byte_of MsgRelay :: be_put 4 (len circuitID) ++ circuitID ++ target.

Definition DecodeRelayExtend (data : bytes) : result (bytes * bytes) :=
  if len data <? 5 then Err (ErrText "relay extend too short") else
  if negb (u8 (nth 0 data Byte.x00) =? MsgRelay) then Err (ErrText "relay extend invalid") else
  let idLen := be_get (take 4 (drop 1 data)) in
  if len data <? 5 + idLen + 32 then Err (ErrText "relay extend invalid") else
  Ok (take (Z.to_nat idLen) (drop 5 data), take 32 (drop (Z.to_nat idLen) (drop 5 data))).

(** * Lemmas *)

Record relay_ok (n : net) : Prop := {
  ro_capacity : capacity (n_relay n) = relayMaxStreams;
  ro_count : count (circuits (n_relay n)) <= relayMaxStreams;
  ro_load : load (n_relay n) = f64_div (f64_of_Z (count (circuits (n_relay n)))) (f64_of_Z relayMaxStreams);
  ro_id : forall id c, circuits (n_relay n) !! id = Some c -> ci_ID c = id;
  ro_pumped : forall id c, circuits (n_relay n) !! id = Some c ->
    (id, InStream c, OutStream c) ∈ n_pumps n /\ (id, OutStream c, InStream c) ∈ n_pumps n;
}.

(** The two streams are those of the live circuit [id], or both are closed. *)
Definition held (id : bytes) (inS outS : stream) (n : net) : Prop :=
  (exists c, circuits (n_relay n) !! id = Some c /\ InStream c = inS /\ OutStream c = outS) \/
  (forall s, inS = Some s \/ outS = Some s -> s ∈ n_closed n).

Lemma count_insert_new id c cs : count (<[id := c]> cs) <= count cs + 1.
Proof. unfold count. rewrite map_size_insert. case_match; simpl; lia. Qed.

Lemma count_insert_old id c c' cs : cs !! id = Some c' -> count (<[id := c]> cs) = count cs.
Proof. intros H. unfold count. by rewrite map_size_insert, H. Qed.

Lemma count_delete id cs : count (delete id cs) <= count cs.
Proof. unfold count. rewrite map_size_delete. case_match; simpl; lia. Qed.

Lemma CloseCircuit_ok id n :
  (forall i c, i <> id -> circuits (n_relay n) !! i = Some c ->
     (i, InStream c, OutStream c) ∈ n_pumps n /\ (i, OutStream c, InStream c) ∈ n_pumps n) ->
  capacity (n_relay n) = relayMaxStreams -> count (circuits (n_relay n)) <= relayMaxStreams ->
  (forall i c, circuits (n_relay n) !! i = Some c -> ci_ID c = i) ->
  relay_ok (CloseCircuit id n).
Proof.
  intros Hp Hc Hn Hi. unfold CloseCircuit. pose proof (count_delete id (circuits (n_relay n))).
  destruct (circuits (n_relay n) !! id) as [c|] eqn:E; split; simpl; try done; try lia; try by rewrite Hc.
  - intros i c'. rewrite lookup_delete_Some. intros [_ H']. eauto.
  - intros i c'. rewrite lookup_delete_Some. intros [? H']. eauto.
  - intros i c' H'. apply Hp; [by intros ->; congruence|done].
Qed.

Lemma relay_step_ok strict n n' : relay_step strict n n' -> relay_ok n -> relay_ok n'.
Proof.
  intros Hs [Hc Hn Hl Hi Hp]. destruct Hs as [now id a b inS outS _|i id src dst k _|i|id].
  - unfold AcceptCircuit. rewrite Hc. destruct (Z.leb_spec relayMaxStreams (count (circuits (n_relay n)))); [by split|].
    pose proof (count_insert_new id (mkCircuit id a b now 0 0 inS outS) (circuits (n_relay n))).
    split; simpl; [done|lia|by rewrite Hc| |]; intros i c; rewrite lookup_insert_Some;
      intros [[<- <-]|[_ H']]; [done|eauto|set_solver|].
    destruct (Hp _ _ H'). split; apply elem_of_app; by left.
  - unfold recordBytes. destruct (circuits (n_relay n) !! id) as [c|] eqn:E; [|by split].
    split; simpl; [done| | | |]; try (rewrite (count_insert_old _ _ c) by done; done);
      intros j c'; rewrite lookup_insert_Some; intros [[<- <-]|[_ H']]; simpl; eauto.
  - unfold pump_ends. destruct (n_pumps n !! i) as [[[id src] dst]|] eqn:E; [|by split].
    apply CloseCircuit_ok; simpl; try done. intros j c Hne Hj. destruct (Hp j c Hj) as [H1 H2].
    assert (forall p, p ∈ n_pumps n -> p.1.1 = j -> p ∈ delete i (n_pumps n)) as Hd; [|split; by apply Hd].
    intros p Hin Hpj. apply list_elem_of_lookup in Hin as [k Hk].
    assert (k <> i) by (intros ->; rewrite E in Hk; simplify_eq; simpl in *; congruence). apply list_elem_of_lookup.
    destruct (decide (k < i)%nat); [exists k; by rewrite list_lookup_delete_lt|].
    exists (k - 1)%nat. rewrite list_lookup_delete_ge by lia. by replace (S (k - 1)) with k by lia.
  - apply CloseCircuit_ok; try done. intros; by apply Hp.
Qed.

Lemma CloseCircuit_held j id inS outS n : held id inS outS n -> held id inS outS (CloseCircuit j n).
Proof.
  unfold CloseCircuit. destruct (circuits (n_relay n) !! j) as [c|] eqn:E; [|done].
  intros [(c' & Hc' & H1 & H2)|H]; [|right; intros s Hs; simpl; apply elem_of_app; left; by apply H].
  destruct (decide (j = id)) as [->|Hne]; [|left; exists c'; simpl; by rewrite lookup_delete_ne].
  right. intros s Hs. simplify_eq. simpl. rewrite !elem_of_app. right.
  destruct Hs as [->| ->]; [left|right]; simpl; set_solver.
Qed.

Lemma relay_step_held id inS outS n n' : relay_step true n n' -> held id inS outS n -> held id inS outS n'.
Proof.
  intros Hs H. destruct Hs as [now j a b inS' outS' Hf|i j src dst k _|i|j].
  - specialize (Hf eq_refl). unfold AcceptCircuit. destruct (_ <=? _); [done|].
    destruct H as [(c & Hc & ?)|H]; [left; exists c|by right]. simpl. by rewrite lookup_insert_ne by congruence.
  - unfold recordBytes. destruct (circuits (n_relay n) !! j) as [c|] eqn:E; [|done].
    destruct H as [(c' & Hc' & ?)|H]; [left|by right]. simpl. destruct (decide (j = id)) as [->|Hne].
    + rewrite lookup_insert_eq. simplify_eq. by eexists.
    + rewrite lookup_insert_ne by done. by exists c'.
  - unfold pump_ends. destruct (n_pumps n !! i) as [[[j src] dst]|] eqn:E; [|done]. by apply CloseCircuit_held.
  - by apply CloseCircuit_held.
Qed.

Definition fresh_net : net := mkNet NewRelay [] [].

Lemma fresh_ok : relay_ok fresh_net.
Proof. split; simpl; try (by vm_compute); try (intros; simplify_map_eq). Qed.

Lemma relay_steps_ok strict n : rtc (relay_step strict) fresh_net n -> relay_ok n.
Proof.
  intros H. pose proof fresh_ok as H0. revert H0. induction H as [|n1 n2 n3 Hs _ IH]; [done|].
  intros H0. apply IH. by eapply relay_step_ok.
Qed.

Lemma relay_steps_held id inS outS n n' :
  rtc (relay_step true) n n' -> held id inS outS n -> held id inS outS n'.
Proof. induction 1 as [|n1 n2 n3 Hs _ IH]; [done|]. intros H. apply IH. by eapply relay_step_held. Qed.

(** * Properties *)


(** A request for a circuit is read back. *)
Lemma relay_extend_roundtrip circuitID target :
  len circuitID < 2 ^ 32 -> length target = 32%nat ->
  DecodeRelayExtend (EncodeRelayExtend circuitID target) = Ok (circuitID, target).
Proof.
  intros Hi Ht. unfold EncodeRelayExtend. set (data := _ :: _). unfold DecodeRelayExtend.
  assert (len data = 5 + len circuitID + 32) as Hl.
  { unfold data, len. cbn [length]. rewrite !length_app, length_be_put, Ht. lia. }
  assert (drop 1 data = be_put 4 (len circuitID) ++ circuitID ++ target) as E1 by done.
  assert (drop 5 data = circuitID ++ target) as E5
    by (change 5%nat with (1 + 4)%nat; rewrite <- drop_drop, E1; by apply drop_app_exact, length_be_put).
  unfold len in *. rewrite (proj2 (Z.ltb_ge _ _)) by lia.
  assert (u8 (nth 0 data Byte.x00) =? MsgRelay = true) as -> by (unfold data; by vm_compute). cbn [negb].
  rewrite E1, E5, take_app_exact, be_get_put_small by first [apply length_be_put|simpl; lia].
  rewrite (proj2 (Z.ltb_ge _ _)) by lia. rewrite Nat2Z.id, take_app_length, drop_app_length.
  by rewrite <- Ht, firstn_all.
Qed.

(** ** Examples *)

Definition accept1 (id : string) (a b : nat) (n : net) : net :=
  (AcceptCircuit 5 (str id) (zeroes 32) (zeroes 32) (Some a) (Some b) n).2.


(** [Stop] never returns when there is a circuit. *)
Lemma stop_deadlocks : is_Some (Stop fresh_net) /\ Stop (accept1 "c1" 1 2 fresh_net) = None.
Proof. split; [by eexists|by vm_compute]. Qed.

(** A second request under the ID of a live circuit takes its place: the first
    circuit's streams stay open, and when its pumps end they close the second. *)
Lemma reused_id_leaks :
  let n := accept1 "c1" 3 4 (accept1 "c1" 1 2 fresh_net) in
  count (circuits (n_relay n)) = 1 /\ length (n_pumps n) = 4%nat /\
  let n' := pump_ends 0 n in
  count (circuits (n_relay n')) = 0 /\ n_closed n' = [3%nat; 4%nat].
Proof. by vm_compute. Qed.
