(* ===== verification/Federation.v ===== *)
(** * The rendezvous server (pkg/federation/rendezvous_limits.go, federation.go)

    Nodes publish their addresses on a public server and ask it for others.
    The write path is guarded by a proof of work over the published record, by
    limits on every field and by a rate limit per node.  A request is handled
    as a function of the state and the time.  The JSON of requests and answers
    is the interface [PeerJSON]; the store is the interface [Store], which the
    store in memory implements.  The handler and the store read the same clock
    (they can differ only in tests that inject one). *)

From S2P Require Import Prelude Bytes Hash Bits Float NodeId Routing DhtWire Qos Multipath LinkManager Discovery Text Decimal.
Local Open Scope Z_scope.

(** ** Limits *)

Definition maxRegisterBody : Z := Z.shiftl 64 10.
Definition maxAddrsPerPeer : Z := 16.
Definition maxAddrLen : Z := 256.
Definition maxNameLen : Z := 64.
Definition maxServicesPerPeer : Z := 32.

(** [net.SplitHostPort]. *)
Fixpoint index_byte (c : byte) (s : bytes) : option nat :=
  match s with
  | [] => None
  | x :: s => if decide (x = c) then Some O else S <$> index_byte c s
  end.

Fixpoint last_index_byte (c : byte) (s : bytes) : option nat :=
  match s with
  | [] => None
  | x :: s =>
      match last_index_byte c s with
      | Some i => Some (S i)
      | None => if decide (x = c) then Some O else None
      end
  end.

Definition colon : byte := byte_of 58.
Definition lbracket : byte := byte_of 91.
Definition rbracket : byte := byte_of 93.

Definition SplitHostPort (hostport : bytes) : result (bytes * bytes) :=
  match last_index_byte colon hostport with
  | None => Err (ErrText "missing port in address")
  | Some i =>
      let finish (host : bytes) (j k : nat) :=
        if index_byte lbracket (drop j hostport) is Some _ then Err (ErrText "unexpected '[' in address")
        else if index_byte rbracket (drop k hostport) is Some _ then Err (ErrText "unexpected ']' in address")
        else Ok (host, drop (S i) hostport) in
      if decide (head hostport = Some lbracket) then
        match index_byte rbracket hostport with
        | None => Err (ErrText "missing ']' in address")
        | Some e =>
            if decide (S e = length hostport) then Err (ErrText "missing port in address")
            else if decide (S e = i) then finish (take (e - 1) (drop 1 hostport)) 1%nat (S e)
            else if decide (hostport !! S e = Some colon) then Err (ErrText "too many colons in address")
            else Err (ErrText "missing port in address")
        end
      else if index_byte colon (take i hostport) is Some _ then Err (ErrText "too many colons in address")
      else finish (take i hostport) O O
  end.

(** [ErrMalformedPeer] with its reason. *)
Definition malformed {A} (reason : string) : result A := Err (ErrText reason).

Fixpoint check_addrs (addrs : list bytes) : result unit :=
  match addrs with
  | [] => Ok tt
  | a :: addrs =>
      if len a =? 0 then malformed "an address is empty"
      else if maxAddrLen <? len a then malformed "an address is too long"
      else
        match SplitHostPort a with
        | Err _ => malformed "address is not host:port"
        | Ok _ => check_addrs addrs
        end
  end.

Definition validatePeerPeer (addrs : list bytes) (name : bytes) (services : Z) : result unit :=
  if len name =? 0 then malformed "a display name is required"
  else if maxNameLen <? len name then malformed "name is too long"
  else if Z.of_nat (length addrs) =? 0 then malformed "at least one address is required"
  else if maxAddrsPerPeer <? Z.of_nat (length addrs) then malformed "too many addresses"
  else
    match check_addrs addrs with
    | Err e => Err e
    | Ok _ => if maxServicesPerPeer <? services then malformed "too many services" else Ok tt
    end.

(** ** Node identifiers in hexadecimal *)

Definition hexVal (c : byte) : option Z :=
  let v := u8 c in
  if (48 <=? v) && (v <=? 57) then Some (v - 48)
  else if (97 <=? v) && (v <=? 102) then Some (v - 97 + 10)
  else if (65 <=? v) && (v <=? 70) then Some (v - 65 + 10)
  else None.

Fixpoint hex_pairs (s : bytes) : option bytes :=
  match s with
  | a :: b :: s =>
      match hexVal a, hexVal b with
      | Some hi, Some lo => cons (byte_of (Z.lor (Z.shiftl hi 4) lo)) <$> hex_pairs s
      | _, _ => None
      end
  | _ => Some []
  end.

Definition parseNodeID (s : bytes) : result bytes :=
  if decide (len s <> 64) then Err (ErrText "node_id must be 64 hex characters")
  else
    match hex_pairs s with
    | Some id => Ok id
    | None => Err (ErrText "node_id is not hex")
    end.

Definition hexd : bytes := Eval vm_compute in str "0123456789abcdef".

Definition hex_pair (b : byte) : bytes :=
  [nth (Z.to_nat (Z.shiftr (u8 b) 4)) hexd Byte.x00; nth (Z.to_nat (Z.land (u8 b) 15)) hexd Byte.x00].

Definition fmtHex (data : bytes) : bytes := concat (hex_pair <$> data).

(** ** Numbers in decimal *)

Definition itoa (n : Z) : bytes :=
  if n =? 0 then str "0"
  else if n <? 0 then byte_of 45 :: digits 20 (wrapS 64 (- n)) []
  else digits 20 n [].

(** ** The store *)

Definition EntryTTL : Z := 5 * minute.

(** What the handler asks of a store, and its contract in terms of [view]:
    the entries that are alive at a time. *)
Class Store (S : Type) := {
  Get : Z -> bytes -> S -> option PeerInfo;
  Put : Z -> PeerInfo -> Z -> S -> S;
  GC : Z -> S -> nat * S;
  All : S -> list PeerInfo;
  view : Z -> S -> gmap bytes PeerInfo;
  Get_view : forall now id s, Get now id s = view now s !! id;
  Put_view : forall now p ttl s now' id,
    view now' (Put now p ttl s) !! id =
      if decide (id = ID p) then (if time_after now' (time_add now ttl) then None else Some p)
      else view now' s !! id;
  GC_view : forall now s now' id, now <= now' -> view now' (GC now s).2 !! id = view now' s !! id;
  All_view : forall now s, All (GC now s).2 ≡ₚ (map_to_list (view now s)).*2;
}.

Record storeEntry := mkStoreEntry {
  peer : PeerInfo;
  expires : Z;
}.

Abbreviation MemoryStore := (gmap bytes storeEntry).

Definition NewMemoryStore : MemoryStore := ∅.

Definition store_Get (now : Z) (id : bytes) (s : MemoryStore) : option PeerInfo :=
  match s !! id with
  | Some entry => if time_after now (expires entry) then None else Some (peer entry)
  | None => None
  end.

Definition store_Put (now : Z) (p : PeerInfo) (ttl : Z) (s : MemoryStore) : MemoryStore :=
  <[ID p := mkStoreEntry p (time_add now ttl)]> s.

Definition store_GC (now : Z) (s : MemoryStore) : nat * MemoryStore :=
  (size (filter (fun e => time_after now (expires (snd e)) = true) s),
   filter (fun e => time_after now (expires (snd e)) = false) s).

Definition store_All (s : MemoryStore) : list PeerInfo := peer <$> (map_to_list s).*2.

(** The live entries: the abstraction of a store in memory. *)
Definition store_view (now : Z) (s : MemoryStore) : gmap bytes PeerInfo :=
  omap (fun e => if time_after now (expires e) then None else Some (peer e)) s.

Lemma store_view_GC now s : peer <$> (store_GC now s).2 = store_view now s.
Proof.
  apply map_eq. intros id. unfold store_GC, store_view. simpl.
  rewrite lookup_fmap, map_lookup_filter, lookup_omap.
  destruct (s !! id) as [e|]; simpl; [|done]. case_guard as Hg; simpl in *; by destruct (time_after now _).
Qed.

#[export] Instance memory_store : Store MemoryStore.
Proof.
  refine {| Get := store_Get; Put := store_Put; GC := store_GC; All := store_All; view := store_view |}.
  - intros now id s. unfold store_Get, store_view. rewrite lookup_omap. by destruct (s !! id).
  - intros now p ttl s now' id. unfold store_view, store_Put. rewrite !lookup_omap.
    case_decide as Hid; [subst; by rewrite lookup_insert_eq|]. by rewrite lookup_insert_ne.
  - intros now s now' id Hle. unfold store_view, store_GC. simpl.
    rewrite !lookup_omap, map_lookup_filter. destruct (s !! id) as [e|]; simpl; [|done].
    case_guard as Hg; simpl in *; [done|]. apply not_false_iff_true in Hg.
    unfold time_after in *. apply Z.ltb_lt in Hg. by rewrite (proj2 (Z.ltb_lt _ _)) by lia.
  - intros now s. rewrite <- store_view_GC. unfold store_All.
    rewrite map_to_list_fmap, <- !list_fmap_compose. done.
Defined.

(** ** Requests *)

Record Registration := mkEnvelope {
  Peer : PeerInfo;
  Nonce : bytes;
}.

(** [encoding/json] on the records of the protocol.  A record comes back as it
    was if it is [json_ok]: its text is UTF-8, its numbers are finite, its
    times have four-digit years. *)
Class PeerJSON := {
  json_ok : PeerInfo -> Prop;
  peer_Marshal : PeerInfo -> result bytes;
  peer_Unmarshal : bytes -> result PeerInfo;
  reg_Marshal : Registration -> result bytes;
  reg_Unmarshal : bytes -> result Registration;
  list_Marshal : list PeerInfo -> result bytes;
  list_Unmarshal : bytes -> result (list PeerInfo);
  peer_roundtrip : forall p, json_ok p -> exists b, peer_Marshal p = Ok b /\ peer_Unmarshal b = Ok p;
  reg_roundtrip : forall r, json_ok (Peer r) -> exists b, reg_Marshal r = Ok b /\ reg_Unmarshal b = Ok r;
  list_roundtrip : forall l, Forall json_ok l -> exists b, list_Marshal l = Ok b /\ list_Unmarshal b = Ok l;
  (** the server changes two fields of what it stores *)
  json_ok_stamp : forall p now, json_ok p -> 0 <= now -> time_unix now < 253402300800 ->
    json_ok (with_LastSeen now (with_Source (str "rendezvous") p));
}.

Inductive Method := GET | POST | OtherMethod.

#[global] Instance Method_eq_dec : EqDecision Method.
Proof. solve_decision. Defined.

Record Request := mkRequest {
  r_Method : Method;
  r_Path : bytes;
  r_NodeID : bytes;  (** the query parameter [node_id] *)
  r_Body : bytes;
}.

Record Response := mkResponse {
  Status : Z;
  X_PoW_Difficulty : bytes;  (** empty when the header is not set *)
  Retry_After : bytes;
  Body : bytes;
}.

Definition StatusOK : Z := 200.
Definition StatusBadRequest : Z := 400.
Definition StatusForbidden : Z := 403.
Definition StatusNotFound : Z := 404.
Definition StatusMethodNotAllowed : Z := 405.
Definition StatusTooManyRequests : Z := 429.
Definition StatusInternalServerError : Z := 500.

Definition http_Error (text : string) (code : Z) : Response := mkResponse code [] [] (str text).

Definition quoted (s : string) : bytes := byte_of 34 :: str s ++ [byte_of 34].

(** ** The handler *)

Definition MinRegisterInterval : Z := 10 * second.

Section handler.
Context `{Hash256, PeerJSON} {S : Type} `{Store S}.

Record HTTPHandler := mkHandler {
  store : S;
  difficulty : Z;
  lastRegister : gmap bytes Z;
}.

Definition WithDifficulty (d : Z) (h : HTTPHandler) : HTTPHandler :=
  let d := if d <? MinPoWDifficulty then MinPoWDifficulty else d in
  let d := if MaxPoWDifficulty <? d then MaxPoWDifficulty else d in
  mkHandler (store h) d (lastRegister h).

(** The options of the source: a difficulty, or none. *)
Definition NewHTTPHandler (s : S) (d : option Z) : HTTPHandler :=
  let h := mkHandler s MinPoWDifficulty ∅ in
  match d with Some d => WithDifficulty d h | None => h end.

(** [Duration.Seconds]. *)
Definition Seconds (d : Z) : float64 :=
  f64_add (f64_of_Z (Z.quot d second)) (f64_div (f64_of_Z (Z.rem d second)) (f64_of_Z 1000000000)).

Definition retry_after (d : Z) : Z :=
  let retry := f64_to_int64 (f64_sub (Seconds MinRegisterInterval) (Seconds d)) in
  if retry <? 1 then 1 else retry.

Definition too_soon (now : Z) (id : bytes) (h : HTTPHandler) : option Z :=
  match lastRegister h !! id with
  | Some last => if time_sub now last <? MinRegisterInterval then Some (time_sub now last) else None
  | None => None
  end.

Definition handleRegister (now : Z) (r : Request) (h : HTTPHandler) : Response * HTTPHandler :=
  if decide (r_Method r <> POST) then (http_Error "method not allowed" StatusMethodNotAllowed, h)
  else if maxRegisterBody <? len (r_Body r) then
    (http_Error "http: request body too large" StatusBadRequest, h)
  else
    match reg_Unmarshal (r_Body r) with
    | Err _ => (http_Error "json" StatusBadRequest, h)
    | Ok env =>
        let p := Peer env in
        match peer_Marshal p with
        | Err _ => (http_Error "cannot encode peer" StatusBadRequest, h)
        | Ok signed =>
            if negb (VerifyPoW signed (Nonce env) (difficulty h)) then
              (mkResponse StatusForbidden (itoa (difficulty h)) [] (str "invalid proof of work"), h)
            else
              match validatePeerPeer (Addrs p) (Name p) (Z.of_nat (length (Services p))) with
              | Err _ => (http_Error "malformed peer" StatusBadRequest, h)
              | Ok _ =>
                  match too_soon now (ID p) h with
                  | Some d =>
                      (mkResponse StatusTooManyRequests [] (itoa (retry_after d))
                         (str "registering too frequently"), h)
                  | None =>
                      let p' := with_LastSeen now (with_Source (str "rendezvous") p) in
                      (mkResponse StatusOK [] [] [],
                       mkHandler (Put now p' EntryTTL (store h)) (difficulty h)
                         (<[ID p := now]> (lastRegister h)))
                  end
              end
        end
    end.

Definition handleHealth (r : Request) (h : HTTPHandler) : Response * HTTPHandler :=
  if decide (r_Method r <> GET) then (http_Error "method not allowed" StatusMethodNotAllowed, h)
  else
    (mkResponse StatusOK [] []
      (str "{" ++ quoted "peers" ++ str ":" ++ itoa (Z.of_nat (length (All (store h))))
       ++ str "," ++ quoted "difficulty" ++ str ":" ++ itoa (difficulty h) ++ str "}"), h).

Definition handleLookup (now : Z) (r : Request) (h : HTTPHandler) : Response * HTTPHandler :=
  if decide (r_Method r <> GET) then (http_Error "method not allowed" StatusMethodNotAllowed, h)
  else
    match parseNodeID (r_NodeID r) with
    | Err _ => (http_Error "node_id" StatusBadRequest, h)
    | Ok id =>
        match Get now id (store h) with
        | None => (http_Error "not found" StatusNotFound, h)
        | Some p =>
            match peer_Marshal p with
            | Err _ => (http_Error "json" StatusInternalServerError, h)
            | Ok data => (mkResponse StatusOK [] [] data, h)
            end
        end
    end.

(** The store is collected before it is listed. *)
Definition handleListPeers (now : Z) (r : Request) (h : HTTPHandler) : Response * HTTPHandler :=
  if decide (r_Method r <> GET) then (http_Error "method not allowed" StatusMethodNotAllowed, h)
  else
    let s := snd (GC now (store h)) in
    let h := mkHandler s (difficulty h) (lastRegister h) in
    match list_Marshal (All s) with
    | Err _ => (http_Error "json" StatusInternalServerError, h)
    | Ok data => (mkResponse StatusOK [] [] data, h)
    end.

(** The routes of the server. *)
Definition ServeHTTP (now : Z) (r : Request) (h : HTTPHandler) : Response * HTTPHandler :=
  if decide (r_Path r = str "/register") then handleRegister now r h
  else if decide (r_Path r = str "/lookup") then handleLookup now r h
  else if decide (r_Path r = str "/peers") then handleListPeers now r h
  else if decide (r_Path r = str "/health") then handleHealth r h
  else (http_Error "404 page not found" StatusNotFound, h).

End handler.
Arguments HTTPHandler S : clear implicits.

(** ** Lemmas: text *)

Lemma hex_pairs_pair b s : hex_pairs (hex_pair b ++ s) = cons b <$> hex_pairs s.
Proof. by destruct b. Qed.

Lemma hex_pairs_fmtHex data : hex_pairs (fmtHex data) = Some data.
Proof.
  unfold fmtHex. induction data as [|b data IH]; [done|].
  rewrite fmap_cons. cbn [concat]. by rewrite hex_pairs_pair, IH.
Qed.

Lemma length_fmtHex data : length (fmtHex data) = (2 * length data)%nat.
Proof.
  unfold fmtHex. induction data as [|b data IH]; [done|].
  rewrite fmap_cons. cbn [concat]. rewrite length_app, IH. simpl. lia.
Qed.

Lemma hexVal_spec c v : hexVal c = Some v -> 0 <= v < 16 /\ nth (Z.to_nat v) hexd Byte.x00 = lower c.
Proof. destruct c; vm_compute; intros [= <-]; (split; [split; congruence|reflexivity]). Qed.

Lemma hex_pair_join hi lo :
  0 <= hi < 16 -> 0 <= lo < 16 ->
  hex_pair (byte_of (Z.lor (Z.shiftl hi 4) lo)) =
    [nth (Z.to_nat hi) hexd Byte.x00; nth (Z.to_nat lo) hexd Byte.x00].
Proof.
  intros Hh Hl. unfold hex_pair. rewrite u8_byte_of, lor_shiftl_add by lia.
  change (2 ^ 4) with 16. rewrite Z.mod_small by lia.
  rewrite Z.shiftr_div_pow2 by lia. change 15 with (Z.ones 4). rewrite Z.land_ones by lia.
  change (2 ^ 4) with 16.
  replace ((hi * 16 + lo) / 16) with hi by (apply (Z.div_unique _ _ _ lo); lia).
  by replace ((hi * 16 + lo) mod 16) with lo by (apply (Z.mod_unique _ _ hi); lia).
Qed.

Lemma hex_pairs_lower n s id :
  length s = (2 * n)%nat -> hex_pairs s = Some id -> length id = n /\ fmtHex id = ToLower s.
Proof.
  revert s id. induction n as [|n IH]; intros s id Hs H.
  - destruct s; simplify_eq/=. done.
  - destruct s as [|a [|b s]]; simplify_eq/=; [lia..|].
    destruct (hexVal a) as [hi|] eqn:Ea; [|done]. destruct (hexVal b) as [lo|] eqn:Eb; [|done].
    destruct (hex_pairs s) as [id'|] eqn:Es; simplify_eq/=.
    destruct (IH s id') as [Hl Hf]; [lia|done|].
    apply hexVal_spec in Ea as [? Ea], Eb as [? Eb]. split; [lia|].
    unfold fmtHex. rewrite fmap_cons. cbn [concat]. rewrite hex_pair_join by done.
    unfold fmtHex in Hf. rewrite Hf, Ea, Eb. done.
Qed.

(** What the client writes in a query the server reads back, and the server
    reads nothing else: it never pads or cuts an identifier. *)
Lemma parseNodeID_spec s id :
  parseNodeID s = Ok id <-> length s = 64%nat /\ length id = 32%nat /\ fmtHex id = ToLower s /\ is_Some (hex_pairs s).
Proof.
  unfold parseNodeID. case_decide as Hl.
  - split; [done|]. intros (Hs & _). destruct Hl. unfold len. lia.
  - assert (length s = 64%nat) as Hs by (unfold len in Hl; destruct (decide (length s = 64%nat)); lia).
    split.
    + destruct (hex_pairs s) as [id'|] eqn:E; [|done]. intros [= ->].
      destruct (hex_pairs_lower 32 s id) as [? ?]; [lia|done|]. split_and!; [done..|by eexists].
    + intros (_ & Hid & Hf & [id' E]). rewrite E.
      destruct (hex_pairs_lower 32 s id') as [_ Hf']; [lia|done|].
      rewrite <- Hf' in Hf. f_equal. apply (f_equal hex_pairs) in Hf.
      rewrite !hex_pairs_fmtHex in Hf. congruence.
Qed.

Lemma parseNodeID_fmtHex id : length id = 32%nat -> parseNodeID (fmtHex id) = Ok id.
Proof.
  intros Hl. unfold parseNodeID, len. rewrite length_fmtHex, Hl, decide_False by lia.
  by rewrite hex_pairs_fmtHex.
Qed.

(** The number the server writes in a header is the one the client reads. *)
Lemma Atoi_itoa n : 0 <= n <= int64_max -> Atoi (itoa n) = Some n.
Proof.
  intros Hn. unfold itoa. destruct (Z.eqb_spec n 0) as [->|Hz]; [done|].
  rewrite (proj2 (Z.ltb_ge _ _)) by lia.
  destruct (digits_spec 20 n []) as (ds & -> & Ha & Hf & Hne).
  { split; [lia|]. unfold int64_max in Hn.
    assert (2 ^ 63 - 1 < 10 ^ Z.of_nat 20) by (by vm_compute). lia. }
  specialize (Hne ltac:(lia)). rewrite app_nil_r. unfold Atoi.
  destruct ds as [|c ds]; [done|]. inversion_clear Hf.
  rewrite !decide_False by lia. rewrite Ha. cbv zeta.
  assert (int64_min < 0) by done.
  rewrite (proj2 (Z.leb_le _ _)), (proj2 (Z.leb_le _ _)) by lia. done.
Qed.

Lemma itoa_not_empty n : 0 <= n <= int64_max -> itoa n <> [].
Proof. intros Hn E. pose proof (Atoi_itoa n Hn) as H. by rewrite E in H. Qed.

(** ** The gate *)

Section gate.
Context `{Hash256, PeerJSON} {S : Type} `{Store S}.
Implicit Types h : HTTPHandler S.

(** A request that deserves to be stored: posted, small enough, with a proof
    of work over the record at the difficulty asked for, and within limits. *)
Definition qualified (d : Z) (r : Request) (env : Registration) : Prop :=
  r_Method r = POST /\ len (r_Body r) <= maxRegisterBody /\ reg_Unmarshal (r_Body r) = Ok env /\
  (exists signed, peer_Marshal (Peer env) = Ok signed /\ VerifyPoW signed (Nonce env) d = true) /\
  validatePeerPeer (Addrs (Peer env)) (Name (Peer env)) (Z.of_nat (length (Services (Peer env)))) = Ok tt.

Definition stamped (now : Z) (p : PeerInfo) : PeerInfo :=
  with_LastSeen now (with_Source (str "rendezvous") p).

Definition registered (now : Z) (p : PeerInfo) h : HTTPHandler S :=
  mkHandler (Put now (stamped now p) EntryTTL (store h)) (difficulty h) (<[ID p := now]> (lastRegister h)).

(** A refusal: the answer is not OK, and the request does not qualify. *)
Local Ltac refuse H := apply H; [done|]; split; [done|];
  intros ? (? & ? & ? & (? & ? & ?) & ?); simplify_eq; (congruence || lia).

Lemma handleRegister_cases now r h :
  (exists env, qualified (difficulty h) r env /\ too_soon now (ID (Peer env)) h = None /\
    handleRegister now r h = (mkResponse StatusOK [] [] [], registered now (Peer env) h)) \/
  (Status (handleRegister now r h).1 <> StatusOK /\ (handleRegister now r h).2 = h /\
   forall env, qualified (difficulty h) r env -> too_soon now (ID (Peer env)) h <> None).
Proof.
  pose (refused := fun resp : Response =>
    Status resp <> StatusOK /\
    forall env, qualified (difficulty h) r env -> too_soon now (ID (Peer env)) h <> None).
  assert (forall resp h', h' = h -> refused resp ->
    (exists env, qualified (difficulty h) r env /\ too_soon now (ID (Peer env)) h = None /\
      (resp, h') = (mkResponse StatusOK [] [] [], registered now (Peer env) h)) \/
    (Status (resp, h').1 <> StatusOK /\ (resp, h').2 = h /\
     forall env, qualified (difficulty h) r env -> too_soon now (ID (Peer env)) h <> None)) as Href
    by (intros resp h' -> [? ?]; right; by split_and!).
  unfold handleRegister. case_decide as Hm; [refuse Href|].
  destruct (Z.ltb_spec maxRegisterBody (len (r_Body r))) as [Hl|Hl]; [refuse Href|].
  destruct (reg_Unmarshal (r_Body r)) as [env|e] eqn:Eu; [|refuse Href].
  destruct (peer_Marshal (Peer env)) as [signed|e] eqn:Es; [|refuse Href].
  destruct (VerifyPoW signed (Nonce env) (difficulty h)) eqn:Ev; cbn [negb]; [|refuse Href].
  destruct (validatePeerPeer _ _ _) as [[]|e] eqn:El; [|refuse Href].
  destruct (too_soon now (ID (Peer env)) h) eqn:Et; [refuse Href|].
  left. exists env. split; [|done]. split_and!; [done|done|done|by eauto|done].
Qed.

(** What a request and its answer add to the log of registrations. *)
Definition accepted (now : Z) (r : Request) (resp : Response) : option (Z * Registration) :=
  if decide (r_Path r = str "/register" /\ Status resp = StatusOK) then
    match reg_Unmarshal (r_Body r) with Ok env => Some (now, env) | Err _ => None end
  else None.

Fixpoint serve_all (ops : list (Z * Request)) h : list (Z * Registration) * HTTPHandler S :=
  match ops with
  | [] => ([], h)
  | (now, r) :: ops =>
      let '(resp, h) := ServeHTTP now r h in
      let '(log, h) := serve_all ops h in
      (option_list (accepted now r resp) ++ log, h)
  end.

(** The times at which a node was registered. *)
Definition times_of (id : bytes) (log : list (Z * Registration)) : list Z :=
  (filter (fun e => ID (Peer e.2) = id) log).*1.

Definition meets_gate (d : Z) (env : Registration) : Prop :=
  (exists signed, peer_Marshal (Peer env) = Ok signed /\ VerifyPoW signed (Nonce env) d = true) /\
  validatePeerPeer (Addrs (Peer env)) (Name (Peer env)) (Z.of_nat (length (Services (Peer env)))) = Ok tt.

(** The state after the registrations of [log], the last at [now] or before. *)
Definition gate_inv (d now : Z) (log : list (Z * Registration)) h : Prop :=
  difficulty h = d /\
  Forall (fun e => meets_gate d e.2) log /\
  (forall t id p, now <= t -> view t (store h) !! id = Some p ->
     exists t0 env, (t0, env) ∈ log /\ ID (Peer env) = id /\ p = stamped t0 (Peer env) /\ t <= t0 + EntryTTL) /\
  (forall id, StronglySorted (fun a b => a + MinRegisterInterval <= b) (times_of id log)) /\
  (forall id a, a ∈ times_of id log -> a <= now /\ exists last, lastRegister h !! id = Some last /\ a <= last) /\
  (forall id last, lastRegister h !! id = Some last -> last <= now).

Lemma gate_inv_later d now now' log h : now <= now' -> gate_inv d now log h -> gate_inv d now' log h.
Proof.
  intros Hle (Hd & Hl & Hv & Hs & Ha & Hr). split_and!; [done|done| |done| |].
  - intros t id p Ht. apply Hv. lia.
  - intros id a Hin. destruct (Ha id a Hin) as (? & ?). split; [lia|done].
  - intros id last Hlast. apply Hr in Hlast. lia.
Qed.

Lemma too_soon_spec now id h :
  (forall last, lastRegister h !! id = Some last -> last <= now) ->
  too_soon now id h = None -> forall last, lastRegister h !! id = Some last -> last + MinRegisterInterval <= now.
Proof.
  intros Hle Ht last Hlast. specialize (Hle last Hlast). unfold too_soon in Ht. rewrite Hlast in Ht.
  destruct (Z.ltb_spec (time_sub now last) MinRegisterInterval) as [|Hge]; [done|].
  unfold time_sub in Hge. assert (int64_min < 0) by done. lia.
Qed.

Lemma times_of_app id l1 l2 : times_of id (l1 ++ l2) = times_of id l1 ++ times_of id l2.
Proof. unfold times_of. by rewrite filter_app, fmap_app. Qed.

Lemma times_of_single id now env :
  times_of id [(now, env)] = if decide (ID (Peer env) = id) then [now] else [].
Proof. unfold times_of. rewrite filter_cons, filter_nil. cbn [snd]. by destruct (decide _). Qed.

Lemma gate_inv_register d now log env r h :
  gate_inv d now log h -> qualified d r env -> too_soon now (ID (Peer env)) h = None ->
  gate_inv d now (log ++ [(now, env)]) (registered now (Peer env) h).
Proof.
  intros (Hd & Hl & Hv & Hs & Ha & Hr) (_ & _ & _ & Hw & Hlim) Hts. split_and!; simpl.
  - done.
  - rewrite Forall_app. split; [done|]. constructor; [|done]. by split.
  - intros t id p Ht. rewrite Put_view. simpl. case_decide as Hid.
    + unfold time_after, time_add. destruct (Z.ltb_spec (now + EntryTTL) t); [done|]. intros [= <-].
      exists now, env. split_and!; [set_solver|done|done|lia].
    + intros Hp. destruct (Hv t id p Ht Hp) as (t0 & env0 & Hin & ?).
      exists t0, env0. split; [set_solver|done].
  - intros id. rewrite times_of_app, times_of_single. case_decide as Hid; [|by rewrite app_nil_r].
    apply StronglySorted_snoc; [done|]. intros a Hin. destruct (Ha id a Hin) as (_ & last & Hlast & ?).
    subst id. pose proof (too_soon_spec now _ h (Hr _) Hts last Hlast). lia.
  - intros id a. rewrite times_of_app, times_of_single, elem_of_app. intros [Hin|Hin].
    + destruct (Ha id a Hin) as (Hle & last & Hlast & ?). split; [done|].
      destruct (decide (id = ID (Peer env))) as [->|Hne].
      * exists now. rewrite lookup_insert_eq. split; [done|lia].
      * exists last. by rewrite lookup_insert_ne.
    + case_decide as Hid; [|by apply elem_of_nil in Hin]. apply list_elem_of_singleton in Hin. subst a id.
      split; [lia|]. exists now. rewrite lookup_insert_eq. split; [done|lia].
  - intros id last. destruct (decide (id = ID (Peer env))) as [->|Hne].
    + rewrite lookup_insert_eq. intros [= <-]. lia.
    + rewrite lookup_insert_ne by done. apply Hr.
Qed.

Lemma ServeHTTP_inv d now r log h :
  gate_inv d now log h ->
  let '(resp, h') := ServeHTTP now r h in gate_inv d now (log ++ option_list (accepted now r resp)) h'.
Proof.
  intros Hinv. pose proof Hinv as (Hd & _). unfold ServeHTTP.
  destruct (decide (r_Path r = str "/register")) as [Hp|Hp].
  - destruct (handleRegister_cases now r h) as [(env & Hq & Hts & ->)|(Hst & Hh & _)].
    + pose proof Hq as (_ & _ & Hu & _). unfold accepted. rewrite decide_True by done. rewrite Hu. simpl.
      eapply gate_inv_register; [done| |done]. by rewrite <- Hd.
    + destruct (handleRegister now r h) as [resp h'] eqn:E. simpl in *. subst h'.
      unfold accepted. rewrite decide_False by tauto. by rewrite app_nil_r.
  - assert (forall resp, log ++ option_list (accepted now r resp) = log) as Hlog.
    { intros resp. unfold accepted. rewrite decide_False by tauto. apply app_nil_r. }
    repeat case_decide; try done.
    + unfold handleLookup. repeat case_match; simplify_eq; by rewrite Hlog.
    + unfold handleListPeers. destruct Hinv as (_ & Hl & Hv & Hs & Ha & Hr).
      assert (gate_inv d now log (mkHandler (GC now (store h)).2 (difficulty h) (lastRegister h))) as Hg.
      { split_and!; simpl; try done. intros t id p Ht. rewrite GC_view by done. by apply Hv. }
      repeat case_match; simplify_eq; by rewrite Hlog.
    + unfold handleHealth. repeat case_match; simplify_eq; by rewrite Hlog.
    + by rewrite Hlog.
Qed.

Lemma serve_all_inv d ops t0 log h :
  StronglySorted Z.le (t0 :: ops.*1) -> gate_inv d t0 log h ->
  exists t, (forall t', t' ∈ t0 :: ops.*1 -> t' <= t) /\ t ∈ t0 :: ops.*1 /\
    gate_inv d t (log ++ (serve_all ops h).1) (serve_all ops h).2.
Proof.
  revert t0 log h. induction ops as [|[now r] ops IH]; intros t0 log h Hs Hinv; cbn [serve_all].
  - exists t0. rewrite app_nil_r. split_and!; [|left|done]. set_unfold. naive_solver lia.
  - rewrite fmap_cons in Hs. simpl in Hs. apply StronglySorted_inv in Hs as [Hs Hle].
    inversion_clear Hle as [|? ? Hnow _].
    pose proof (ServeHTTP_inv d now r log h (gate_inv_later _ _ _ _ _ Hnow Hinv)) as Hstep.
    destruct (ServeHTTP now r h) as [resp h1]. destruct (IH now _ h1 Hs Hstep) as (t & Hall & Hin & Ht).
    destruct (serve_all ops h1) as [log' h2]. simpl in *. rewrite app_assoc.
    assert (now <= t) by (apply Hall; left).
    exists t. split_and!; [|by right|done].
    intros t' [->|Ht']%elem_of_cons; [lia|by apply Hall].
Qed.

End gate.

(** ** A concrete encoding of records

    Each field by its number, the fields as a list. *)
Module ToyJSON.

Definition float_pack (f : float64) : Z + Z * positive * Z :=
  match f with
  | S754_zero s => inl (if s then 0 else 1)
  | S754_infinity s => inl (if s then 2 else 3)
  | S754_nan => inl 4
  | S754_finite s m e => inr (if s then 0 else 1, m, e)
  end.

Definition float_unpack (x : Z + Z * positive * Z) : float64 :=
  match x with
  | inl 0 => S754_zero true
  | inl 1 => S754_zero false
  | inl 2 => S754_infinity true
  | inl 3 => S754_infinity false
  | inl _ => S754_nan
  | inr (s, m, e) => S754_finite (s =? 0) m e
  end.

#[export] Instance float_countable : Countable float64.
Proof. apply (inj_countable' float_pack float_unpack). by intros [[]|[]| |[] m e]. Defined.

#[export] Instance service_countable : Countable ServiceInfo.
Proof.
  apply (inj_countable' (fun s => (svc_Name s, Port s, TXT s))
    (fun x => mkServiceInfo x.1.1 x.1.2 x.2)). by intros [].
Defined.

Definition peer_pack (p : PeerInfo) : list positive :=
  [encode (ID p); encode (PublicKey p); encode (Name p); encode (Addrs p); encode (Services p);
   encode (Source p); encode (RSSI p); encode (Latency p); encode (Score p); encode (LastSeen p);
   encode (FirstSeen p); encode (Version p)].

Definition peer_unpack (l : list positive) : option PeerInfo :=
  match l with
  | [a; b; c; d; e; f; g; h; i; j; k; m] =>
      a ← decode a; b ← decode b; c ← decode c; d ← decode d; e ← decode e; f ← decode f;
      g ← decode g; h ← decode h; i ← decode i; j ← decode j; k ← decode k; m ← decode m;
      Some (mkDiscovered a b c d e f g h i j k m)
  | _ => None
  end.

Lemma peer_unpack_pack p : peer_unpack (peer_pack p) = Some p.
Proof. unfold peer_unpack, peer_pack. rewrite !decode_encode. by destruct p. Qed.

#[export] Instance peer_countable : Countable PeerInfo.
Proof. exact (inj_countable peer_pack peer_unpack peer_unpack_pack). Defined.

Definition to_json {A} `{Countable A} (a : A) : result bytes := Ok (count_encode a).
Definition of_json {A} `{Countable A} (b : bytes) : result A :=
  match count_decode b with Some a => Ok a | None => Err (ErrText "json") end.

Lemma of_to_json {A} `{Countable A} (a : A) : exists b, to_json a = Ok b /\ of_json b = Ok a.
Proof. eexists. split; [done|]. unfold of_json. by rewrite count_decode_encode. Qed.

Definition toy_json : PeerJSON.
Proof.
  refine {| json_ok := fun _ => True;
    peer_Marshal := to_json; peer_Unmarshal := of_json;
    reg_Marshal := fun r => to_json (Peer r, Nonce r);
    reg_Unmarshal := fun b => (fun x : PeerInfo * bytes => mkEnvelope x.1 x.2) <$> of_json b;
    list_Marshal := to_json; list_Unmarshal := of_json |}.
  - intros p _. apply of_to_json.
  - intros [p n] _. destruct (of_to_json (p, n)) as (b & Hb & Hd). exists b. simpl.
    split; [done|]. by rewrite Hd.
  - intros l _. apply of_to_json.
  - done.
Defined.

(** A hash on which every nonce solves every puzzle. *)
Definition easy_hash : Hash256.
Proof. refine {| sha3 := fun _ => zeroes 32 |}. intros. apply length_zeroes. Defined.

Definition node (id port : Z) : PeerInfo :=
  mkDiscovered (byte_of id :: zeroes 31) (byte_of id :: zeroes 31) (str "node")
    [str "10.0.0.1:" ++ itoa port] [] [] 0 0 (S754_zero false) 0 0 [].

Definition post (p : PeerInfo) : Request :=
  mkRequest POST (str "/register") []
    (match to_json (p, zeroes 8) with Ok b => b | Err _ => [] end).
End ToyJSON.

#[local] Existing Instance ToyJSON.toy_json.
#[local] Existing Instance ToyJSON.easy_hash.

(** Registrations of a node at 0, 5 and 12 seconds, and one of another node:
    the second is refused. *)
Definition toy_ops : list (Z * Request) :=
  [(0, ToyJSON.post (ToyJSON.node 1 80)); (5 * second, ToyJSON.post (ToyJSON.node 1 81));
   (5 * second, ToyJSON.post (ToyJSON.node 2 80)); (12 * second, ToyJSON.post (ToyJSON.node 1 82))].

