(* ===== verification/FederationClient.v ===== *)
(** * The rendezvous client (pkg/federation/federation.go, rendezvous_discovery.go)

    The client solves the proof of work, registers and looks peers up over any
    transport ([RoundTrip]); put in front of the handler of [Federation] it
    gives the end-to-end guarantee.  The discovery mode polls the server and
    turns what it lists into events.  Its event channel accepts or refuses each
    event: which ones is an argument, as is the order in which the map of known
    peers is visited. *)

From S2P Require Import Prelude Bytes Hash Bits Float NodeId Routing DhtWire Qos Multipath LinkManager Discovery Text Decimal Federation.
Local Open Scope Z_scope.

(** ** The client *)

(** [http.Client.Do] on the requests of the protocol. *)
Class RoundTrip (World : Type) := {
  Do : Request -> World -> result Response * World;
}.

Record RendezvousClient := mkClient {
  powDifficulty : Z;
}.

Definition NewRendezvousClient : RendezvousClient := mkClient MinPoWDifficulty.

Definition get_request (path node_id : bytes) : Request := mkRequest GET path node_id [].

Definition maxPeerListBytes : Z := Z.shiftl 4 20.

Section client.
Context `{Hash256, PeerJSON} {World : Type} `{RoundTrip World}.
Implicit Types (w : World) (c : RendezvousClient).

(** The attempts that are left; the hint of the server counts on the first. *)
Fixpoint register_from (more : nat) (first : bool) (p : PeerInfo) (payload : bytes) (difficulty : Z)
    c w : result unit * RendezvousClient * World :=
  match more with
  | O => (Err (ErrText "register: server kept refusing the registration"), c, w)
  | S more =>
      match SolvePoW payload difficulty with
      | Err e => (Err e, c, w)
      | Ok nonce =>
          match reg_Marshal (mkEnvelope p nonce) with
          | Err e => (Err e, c, w)
          | Ok body =>
              match Do (mkRequest POST (str "/register") [] body) w with
              | (Err e, w) => (Err e, c, w)
              | (Ok resp, w) =>
                  let refused := (Err (ErrText "register: status"), c, w) in
                  if Status resp =? StatusOK then (Ok tt, c, w)
                  else if (Status resp =? StatusForbidden) && negb (len (X_PoW_Difficulty resp) =? 0) && first then
                    match Atoi (X_PoW_Difficulty resp) with
                    | Some d =>
                        if d =? difficulty then refused
                        else register_from more false p payload d (mkClient d) w
                    | None => refused
                    end
                  else refused
              end
          end
      end
  end.

Definition Register (p : PeerInfo) c w : result unit * RendezvousClient * World :=
  match peer_Marshal p with
  | Err e => (Err e, c, w)
  | Ok payload => register_from 2 true p payload (powDifficulty c) c w
  end.

Definition Lookup (id : bytes) w : result PeerInfo * World :=
  match Do (get_request (str "/lookup") (fmtHex id)) w with
  | (Err e, w) => (Err e, w)
  | (Ok resp, w) =>
      (if Status resp =? StatusNotFound then Err (ErrText "peer not found")
       else if negb (Status resp =? StatusOK) then Err (ErrText "lookup: status")
       else peer_Unmarshal (Body resp), w)
  end.

(** The reader of the list stops after [maxPeerListBytes]. *)
Definition ListPeers w : result (list PeerInfo) * World :=
  match Do (get_request (str "/peers") []) w with
  | (Err e, w) => (Err e, w)
  | (Ok resp, w) =>
      (if negb (Status resp =? StatusOK) then Err (ErrText "list peers: status")
       else list_Unmarshal (take (Z.to_nat maxPeerListBytes) (Body resp)), w)
  end.
End client.

(** ** Client and server together

    A server at the other end of the wire, at one reading of its clock. *)

Section end_to_end.
Context `{Hash256, PeerJSON} {S : Type} `{Store S}.
Implicit Types h : HTTPHandler S.

Definition server_at (now : Z) : RoundTrip (HTTPHandler S) :=
  {| Do := fun r h => let '(resp, h) := ServeHTTP now r h in (Ok resp, h) |}.

(** A record a server with a proof of work of [d] accepts from this client. *)
Definition registrable (d : Z) (p : PeerInfo) : Prop :=
  json_ok p /\ length (ID p) = 32%nat /\
  validatePeerPeer (Addrs p) (Name p) (Z.of_nat (length (Services p))) = Ok tt /\
  forall payload, peer_Marshal p = Ok payload -> exists nonce, SolvePoW payload d = Ok nonce /\
    forall b, reg_Marshal (mkEnvelope p nonce) = Ok b -> len b <= maxRegisterBody.

(** One attempt at a server: stored, or refused with the server's difficulty
    when the work falls short of it. *)
Lemma register_attempt now p payload nonce body d0 h :
  peer_Marshal p = Ok payload -> SolvePoW payload d0 = Ok nonce ->
  reg_Marshal (mkEnvelope p nonce) = Ok body -> reg_Unmarshal body = Ok (mkEnvelope p nonce) ->
  len body <= maxRegisterBody ->
  validatePeerPeer (Addrs p) (Name p) (Z.of_nat (length (Services p))) = Ok tt ->
  too_soon now (ID p) h = None ->
  handleRegister now (mkRequest POST (str "/register") [] body) h =
    if VerifyPoW payload nonce (difficulty h)
    then (mkResponse StatusOK [] [] [], registered now p h)
    else (mkResponse StatusForbidden (itoa (difficulty h)) [] (str "invalid proof of work"), h).
Proof.
  intros Hp Hs Hm Hu Hlen Hval Hts. unfold handleRegister. cbn [r_Method r_Body].
  rewrite decide_False by naive_solver. rewrite (proj2 (Z.ltb_ge _ _)) by done.
  rewrite Hu. cbn [Peer Nonce]. rewrite Hp. destruct (VerifyPoW _ _ _); cbn [negb]; [|done].
  by rewrite Hval, Hts.
Qed.

(** Registering at a server that is due: the first attempt is enough if its
    work is, and otherwise the hint leads to a second that is. *)
Lemma Register_server now p c h :
  (8 <= difficulty h <= 24) -> registrable (powDifficulty c) p -> registrable (difficulty h) p ->
  too_soon now (ID p) h = None ->
  exists c', Register (H1 := server_at now) p c h = (Ok tt, c', registered now p h) /\
    (powDifficulty c' = powDifficulty c \/ powDifficulty c' = difficulty h).
Proof.
  intros Hd (Hj & _ & Hval & Hs1) (_ & _ & _ & Hs2) Hts.
  destruct (peer_roundtrip p Hj) as (payload & Hp & _).
  destruct (Hs1 _ Hp) as (nonce & E1 & Hl1), (Hs2 _ Hp) as (nonce' & E2 & Hl2).
  assert (forall d0 nonce, SolvePoW payload d0 = Ok nonce ->
    (forall b, reg_Marshal (mkEnvelope p nonce) = Ok b -> len b <= maxRegisterBody) ->
    exists body, reg_Marshal (mkEnvelope p nonce) = Ok body /\
      @Do _ (server_at now) (mkRequest POST (str "/register") [] body) h =
      if VerifyPoW payload nonce (difficulty h)
      then (Ok (mkResponse StatusOK [] [] []), registered now p h)
      else (Ok (mkResponse StatusForbidden (itoa (difficulty h)) [] (str "invalid proof of work")), h)) as Htry.
  { clear -Hj Hp Hval Hts. intros d0 nonce Hs Hl. destruct (reg_roundtrip (mkEnvelope p nonce) Hj) as (body & Hm & Hu).
    exists body. split; [done|]. cbn [Do server_at]. unfold ServeHTTP. cbn [r_Path].
    rewrite decide_True by done.
    destruct (dht_pow_facts _ _ _ Hs) as (_ & Hn & _).
    rewrite (register_attempt now p payload nonce body d0 h) by eauto.
    by destruct (VerifyPoW _ _ _). }
  unfold Register. rewrite Hp. cbn [register_from].
  rewrite E1. destruct (Htry _ nonce E1 Hl1) as (body & -> & ->).
  destruct (VerifyPoW payload nonce (difficulty h)) eqn:Ev; cbn [Status X_PoW_Difficulty].
  { exists c. split; [done|by left]. }
  assert (0 <= difficulty h <= int64_max) as Hr by (unfold int64_max; lia).
  rewrite (proj2 (Z.eqb_neq (len (itoa _)) 0)).
  2:{ pose proof (itoa_not_empty _ Hr). unfold len. destruct (itoa (difficulty h)); simpl; [done|lia]. }
  rewrite (Atoi_itoa _ Hr). simpl.
  destruct (Z.eqb_spec (difficulty h) (powDifficulty c)) as [Heq|Hne].
  { destruct (dht_pow_facts _ _ _ E1) as (_ & _ & Hv). congruence. }
  rewrite E2. destruct (Htry _ nonce' E2 Hl2) as (body' & -> & Hdo). cbn [Do server_at] in Hdo. rewrite Hdo.
  destruct (dht_pow_facts _ _ _ E2) as (_ & _ & ->). simpl. eexists. split; [done|by right].
Qed.


(** What the server lists are the records that are alive. *)
Lemma ListPeers_server now h :
  (forall b, list_Marshal (All (GC now (store h)).2) = Ok b -> len b <= maxPeerListBytes) ->
  Forall json_ok (All (GC now (store h)).2) ->
  exists l, (ListPeers (H1 := server_at now) h).1 = Ok l /\ l ≡ₚ (map_to_list (view now (store h))).*2.
Proof.
  intros Hsz Hj. destruct (list_roundtrip _ Hj) as (b & Hm & Hu). exists (All (GC now (store h)).2).
  split; [|apply All_view]. unfold ListPeers. cbn [Do server_at]. unfold ServeHTTP, get_request.
  cbn [r_Path]. rewrite !decide_False by done. rewrite decide_True by done.
  unfold handleListPeers. cbn [r_Method]. rewrite decide_False by naive_solver. rewrite Hm. simpl.
  rewrite take_ge; [done|]. specialize (Hsz b Hm). unfold len in Hsz. lia.
Qed.
End end_to_end.

(** ** The discovery mode *)

Definition pollExpiry : Z := 3 * minute.

Record RendezvousModeConfig := mkModeConfig {
  RegisterSelf : bool;
  PollInterval : Z;
}.

Record peerState := mkPeerState {
  advertisedLastSeen : Z;
  observedAt : Z;
}.

Record RendezvousDiscoveryMode := mkRendezvousMode {
  config : RendezvousModeConfig;
  mode_nodeID : bytes;
  nodeName : bytes;
  publicKey : bytes;
  client : RendezvousClient;
  localAddrs : list bytes;
}.

Definition NewRendezvousDiscoveryMode (cfg : RendezvousModeConfig) : RendezvousDiscoveryMode :=
  mkRendezvousMode
    (mkModeConfig (RegisterSelf cfg) (if PollInterval cfg =? 0 then 60 * second else PollInterval cfg))
    (zeroes 32) [] (zeroes 32) NewRendezvousClient [].

Definition SetLocalAddrs (addrs : list bytes) (m : RendezvousDiscoveryMode) : RendezvousDiscoveryMode :=
  mkRendezvousMode (config m) (mode_nodeID m) (nodeName m) (publicKey m) (client m) addrs.

Definition SetPublicKey (key : bytes) (m : RendezvousDiscoveryMode) : RendezvousDiscoveryMode :=
  mkRendezvousMode (config m) (mode_nodeID m) (nodeName m) key (client m) (localAddrs m).

Definition Advertise (info : PeerInfo) (m : RendezvousDiscoveryMode) : RendezvousDiscoveryMode :=
  mkRendezvousMode (config m) (mode_nodeID m) (nodeName m) (PublicKey info) (client m) (Addrs info).

Definition with_client (c : RendezvousClient) (m : RendezvousDiscoveryMode) : RendezvousDiscoveryMode :=
  mkRendezvousMode (config m) (mode_nodeID m) (nodeName m) (publicKey m) c (localAddrs m).

(** What is known of the peers already reported. *)
Abbreviation Seen := (gmap bytes peerState).

(** An order in which [range] may visit the map. *)
Record SeenOrder := mkSeenOrder {
  range_seen : Seen -> list (bytes * peerState);
  range_seen_perm : forall m, range_seen m ≡ₚ map_to_list m;
}.

Definition eventTypeFor (known : bool) : EventType := if known then PeerUpdated else PeerFound.

(** The peer an event of loss carries: nothing but its identifier. *)
Definition lost_peer (id : bytes) : PeerInfo :=
  mkDiscovered id (zeroes 32) [] [] [] [] 0 0 (S754_zero false) 0 0 [].

(** The peers listed: the events the channel took, how many were offered, what
    is known now, who was present, and whether the channel took them all.
    [accepts n] says whether the channel takes the [n]-th event offered. *)
Fixpoint poll_peers (accepts : nat -> bool) (self : bytes) (now : Z) (n : nat) (seen : Seen)
    (present : gset bytes) (peers : list PeerInfo)
    : list PeerEvent * nat * Seen * gset bytes * bool :=
  match peers with
  | [] => ([], n, seen, present, true)
  | p :: peers =>
      if decide (ID p = self) then poll_peers accepts self now n seen present peers
      else if decide (Addrs p = []) then poll_peers accepts self now n seen present peers
      else
        let present := {[ID p]} ∪ present in
        let previous := seen !! ID p in
        let seen := <[ID p := mkPeerState (LastSeen p) now]> seen in
        let unchanged :=
          match previous with Some st => bool_decide (advertisedLastSeen st = LastSeen p) | None => false end in
        if unchanged then poll_peers accepts self now n seen present peers
        else if accepts n then
          let '(evts, n, seen, present, ok) := poll_peers accepts self now (S n) seen present peers in
          (mkDiscoveryEvent (eventTypeFor (bool_decide (is_Some previous))) p :: evts, n, seen, present, ok)
        else ([], S n, seen, present, false)
  end.

Fixpoint poll_lost (accepts : nat -> bool) (now : Z) (present : gset bytes) (n : nat) (seen : Seen)
    (known : list (bytes * peerState)) : list PeerEvent * Seen :=
  match known with
  | [] => ([], seen)
  | (id, st) :: known =>
      if decide (id ∈ present) then poll_lost accepts now present n seen known
      else if time_sub now (observedAt st) <? pollExpiry then poll_lost accepts now present n seen known
      else
        let '(evts, seen) := poll_lost accepts now present (S n) (delete id seen) known in
        ((if accepts n then [mkDiscoveryEvent PeerLost (lost_peer id)] else []) ++ evts, seen)
  end.

(** One poll, given what the server lists. *)
Definition pollOnce (accepts : nat -> bool) (o : SeenOrder) (self : PeerInfo) (now : Z)
    (listed : result (list PeerInfo)) (seen : Seen) : result unit * list PeerEvent * Seen :=
  match listed with
  | Err e => (Err e, [], seen)
  | Ok peers =>
      let '(evts, n, seen, present, ok) := poll_peers accepts (ID self) now 0 seen ∅ peers in
      if ok then
        let '(lost, seen) := poll_lost accepts now present n seen (range_seen o seen) in
        (Ok tt, evts ++ lost, seen)
      else (Err (ErrText "discovery event channel closed"), evts, seen)
  end.

Section mode.
Context `{Hash256, PeerJSON} {World : Type} `{RoundTrip World}.

Definition register_self (self : PeerInfo) (m : RendezvousDiscoveryMode) (w : World)
    : RendezvousDiscoveryMode * World :=
  if RegisterSelf (config m) && negb (Nat.eqb (length (localAddrs m)) 0) then
    let '(_, c, w) := Register self (client m) w in (with_client c m, w)
  else (m, w).

(** Starting: the record that is registered from then on. *)
Definition Start (now : Z) (nodeID name : bytes) (m : RendezvousDiscoveryMode) (w : World)
    : PeerInfo * RendezvousDiscoveryMode * World :=
  let m := mkRendezvousMode (config m) nodeID name (publicKey m) NewRendezvousClient (localAddrs m) in
  let self := mkDiscovered nodeID (publicKey m) name (localAddrs m) [] (str "rendezvous") 0 0
                (S754_zero false) now 0 [] in
  let '(m, w) := register_self self m w in (self, m, w).

(** One tick of [discoveryLoop]. *)
Definition tick (accepts : nat -> bool) (o : SeenOrder) (self : PeerInfo) (now : Z)
    (m : RendezvousDiscoveryMode) (seen : Seen) (w : World)
    : list PeerEvent * RendezvousDiscoveryMode * Seen * World :=
  let '(m, w) := register_self self m w in
  let '(listed, w) := ListPeers w in
  let '(_, evts, seen) := pollOnce accepts o self now listed seen in
  (evts, m, seen, w).
End mode.

(** ** What a poll reports *)

Definition all_accepted : nat -> bool := fun _ => true.

(** The event a listed peer gives rise to. *)
Definition peer_event (self : bytes) (seen : Seen) (p : PeerInfo) : option PeerEvent :=
  if decide (ID p = self \/ Addrs p = []) then None
  else
    match seen !! ID p with
    | None => Some (mkDiscoveryEvent PeerFound p)
    | Some st => if decide (advertisedLastSeen st = LastSeen p) then None
                 else Some (mkDiscoveryEvent PeerUpdated p)
    end.

Definition reported (self : bytes) (p : PeerInfo) : Prop := ID p <> self /\ Addrs p <> [].

#[local] Instance reported_dec self p : Decision (reported self p).
Proof. unfold reported. apply _. Defined.

Lemma poll_peers_spec self now n seen present peers :
  NoDup (ID <$> peers) ->
  exists n', poll_peers all_accepted self now n seen present peers =
    (omap (peer_event self seen) peers, n',
     foldl (fun s p => <[ID p := mkPeerState (LastSeen p) now]> s) seen (filter (reported self) peers),
     list_to_set (ID <$> filter (reported self) peers) ∪ present, true).
Proof.
  revert n seen present. induction peers as [|p peers IH]; intros n seen present Hnd.
  { exists n. simpl. f_equal. f_equal. set_solver. }
  rewrite fmap_cons in Hnd. apply NoDup_cons in Hnd as [Hp Hnd]. cbn [poll_peers].
  assert (forall s, omap (peer_event self (<[ID p := s]> seen)) peers = omap (peer_event self seen) peers) as Hext.
  { intros s. apply list_omap_ext. rewrite Forall2_same_length_lookup_2 || idtac.
    apply Forall_Forall2_diag. rewrite Forall_forall. intros q Hq. unfold peer_event.
    rewrite lookup_insert_ne; [done|]. intros Heq. apply Hp. apply list_elem_of_fmap. by exists q. }
  rewrite filter_cons. cbn [omap list_omap]. unfold peer_event at 1.
  destruct (decide (ID p = self)) as [Hself|Hself].
  { destruct (IH n seen present Hnd) as [n' ->]. exists n'.
    rewrite (decide_True (P := _ \/ _)) by auto.
    rewrite (decide_False (P := reported self p)) by (unfold reported; tauto). done. }
  destruct (decide (Addrs p = [])) as [Haddr|Haddr].
  { destruct (IH n seen present Hnd) as [n' ->]. exists n'.
    rewrite (decide_True (P := _ \/ _)) by auto.
    rewrite (decide_False (P := reported self p)) by (unfold reported; tauto). done. }
  rewrite (decide_False (P := _ \/ _)) by tauto.
  rewrite (decide_True (P := reported self p)) by (by unfold reported).
  set (st := mkPeerState (LastSeen p) now).
  assert (forall s, s ∪ ({[ID p]} ∪ present) = ({[ID p]} ∪ s) ∪ present) as Hset by (intros; set_solver).
  change (all_accepted n) with true. rewrite fmap_cons. cbn [list_to_set foldl].
  destruct (seen !! ID p) as [old|].
  - destruct (decide (advertisedLastSeen old = LastSeen p)) as [E|E].
    + rewrite bool_decide_eq_true_2 by done.
      destruct (IH n (<[ID p := st]> seen) ({[ID p]} ∪ present) Hnd) as [n' ->].
      exists n'. by rewrite Hext, Hset.
    + rewrite bool_decide_eq_false_2 by done.
      destruct (IH (S n) (<[ID p := st]> seen) ({[ID p]} ∪ present) Hnd) as [n' ->].
      exists n'. by rewrite Hext, Hset.
  - destruct (IH (S n) (<[ID p := st]> seen) ({[ID p]} ∪ present) Hnd) as [n' ->].
    exists n'. by rewrite Hext, Hset.
Qed.

Lemma foldl_insert_absent (now : Z) (peers : list PeerInfo) (s : Seen) id :
  id ∉ ID <$> peers ->
  foldl (fun (s : Seen) p => <[ID p := mkPeerState (LastSeen p) now]> s) s peers !! id = s !! id.
Proof.
  revert s. induction peers as [|p peers IH]; intros s Hid; [done|]. cbn [foldl].
  rewrite fmap_cons, not_elem_of_cons in Hid. rewrite IH by tauto. apply lookup_insert_ne. naive_solver.
Qed.

Lemma foldl_insert_present (now : Z) (peers : list PeerInfo) (s : Seen) p :
  NoDup (ID <$> peers) -> p ∈ peers ->
  foldl (fun (s : Seen) p => <[ID p := mkPeerState (LastSeen p) now]> s) s peers !! ID p = Some (mkPeerState (LastSeen p) now).
Proof.
  revert s. induction peers as [|q peers IH]; intros s Hnd Hp; [by apply elem_of_nil in Hp|].
  rewrite fmap_cons in Hnd. apply NoDup_cons in Hnd as [Hq Hnd]. cbn [foldl].
  apply elem_of_cons in Hp as [->|Hp]; [|by apply IH].
  rewrite foldl_insert_absent by done. apply lookup_insert_eq.
Qed.

Lemma lost_events_ids (l : list (bytes * peerState)) :
  (fun e => mkDiscoveryEvent PeerLost (lost_peer e.1)) <$> l
  = (fun id => mkDiscoveryEvent PeerLost (lost_peer id)) <$> l.*1.
Proof. by rewrite <- list_fmap_compose. Qed.

Definition expired (now : Z) (present : gset bytes) (e : bytes * peerState) : Prop :=
  e.1 ∉ present /\ pollExpiry <= time_sub now (observedAt e.2).

#[local] Instance expired_dec now present e : Decision (expired now present e).
Proof. unfold expired. apply _. Defined.

Lemma poll_lost_spec now present n seen known :
  poll_lost all_accepted now present n seen known =
    ((fun e => mkDiscoveryEvent PeerLost (lost_peer e.1)) <$> filter (expired now present) known,
     foldl (fun s e => delete e.1 s) seen (filter (expired now present) known)).
Proof.
  revert n seen. induction known as [|[id st] known IH]; intros n seen; [done|].
  cbn [poll_lost]. rewrite filter_cons.
  destruct (decide (id ∈ present)) as [Hin|Hin].
  { rewrite decide_False by (unfold expired; simpl; tauto). apply IH. }
  destruct (Z.ltb_spec (time_sub now (observedAt st)) pollExpiry) as [Hx|Hx].
  { rewrite decide_False by (unfold expired; simpl; lia). apply IH. }
  rewrite decide_True by (by unfold expired). rewrite IH. done.
Qed.

Lemma foldl_delete_lookup (l : list (bytes * peerState)) (s : Seen) id :
  foldl (fun s e => delete e.1 s) s l !! id = if decide (id ∈ l.*1) then None else s !! id.
Proof.
  revert s. induction l as [|[k st] l IH]; intros s; [by rewrite decide_False by apply not_elem_of_nil|].
  cbn [foldl fst]. rewrite IH, fmap_cons. cbn [fst].
  destruct (decide (id ∈ l.*1)) as [Hin|Hin]; [by rewrite decide_True by (by right)|].
  destruct (decide (id = k)) as [->|Hne]; [by rewrite lookup_delete_eq, decide_True by left|].
  rewrite lookup_delete_ne, decide_False by (rewrite ?elem_of_cons; naive_solver). done.
Qed.

(** A poll whose events all find room reports every listed peer that is
    new or has changed, the node itself and peers without an address excepted,
    in the order of the list; then, once each, the peers that are no longer
    listed and were last seen three minutes ago or more, and forgets them.  It
    remembers what it was shown. *)
Lemma pollOnce_spec o self now (peers : list PeerInfo) seen :
  NoDup (ID <$> peers) ->
  let present := list_to_set (C := gset bytes) (ID <$> filter (reported (ID self)) peers) in
  exists lost seen',
    pollOnce all_accepted o self now (Ok peers) seen
      = (Ok tt, omap (peer_event (ID self) seen) peers ++ lost, seen') /\
    NoDup lost /\
    (forall evt, evt ∈ lost <-> exists id st, evt = mkDiscoveryEvent PeerLost (lost_peer id) /\
       seen !! id = Some st /\ expired now present (id, st)) /\
    (forall p, p ∈ peers -> reported (ID self) p -> seen' !! ID p = Some (mkPeerState (LastSeen p) now)) /\
    (forall id, id ∉ present -> seen' !! id =
       match seen !! id with
       | Some st => if decide (expired now present (id, st)) then None else Some st
       | None => None
       end).
Proof.
  intros Hnd present. unfold pollOnce.
  destruct (poll_peers_spec (ID self) now 0 seen ∅ peers Hnd) as [n ->].
  rewrite union_empty_r_L. fold present.
  set (rep := filter (reported (ID self)) peers) in *.
  set (seen1 := foldl _ seen rep). rewrite poll_lost_spec.
  assert (forall id st, (id, st) ∈ range_seen o seen1 <-> seen1 !! id = Some st) as Hrange
    by (intros id st; by rewrite range_seen_perm, elem_of_map_to_list).
  assert (forall id, id ∉ present -> seen1 !! id = seen !! id) as Habs.
  { intros id Hid. apply foldl_insert_absent. unfold present in Hid. by rewrite elem_of_list_to_set in Hid. }
  assert (forall id st, (id, st) ∈ filter (expired now present) (range_seen o seen1) <->
            seen !! id = Some st /\ expired now present (id, st)) as Hexp.
  { intros id st. rewrite list_elem_of_filter, Hrange. split.
    - intros [Hx Hs]. split; [|done]. rewrite <- Habs; [done|]. by destruct Hx.
    - intros [Hs Hx]. split; [done|]. rewrite Habs; [done|]. by destruct Hx. }
  assert (NoDup (filter (expired now present) (range_seen o seen1)).*1) as Hnd'.
  { eapply sublist_NoDup; [|apply fmap_sublist, sublist_filter].
    rewrite (fmap_Permutation fst _ _ (range_seen_perm o seen1)). apply NoDup_fst_map_to_list. }
  eexists _, _. split; [done|]. split_and!.
  - rewrite lost_events_ids. apply NoDup_fmap_2_strong; [|done]. intros a b _ _. by intros [= ->].
  - intros evt. rewrite list_elem_of_fmap. setoid_rewrite <- Hexp. split.
    + intros ([id st] & -> & Hin). by exists id, st.
    + intros (id & st & -> & Hin). by exists (id, st).
  - intros p Hp Hr. rewrite foldl_delete_lookup, decide_False.
    + apply foldl_insert_present; [|unfold rep; by apply list_elem_of_filter].
      eapply sublist_NoDup; [exact Hnd|apply fmap_sublist, sublist_filter].
    + rewrite list_elem_of_fmap. intros ([id st] & Heq & Hin). simpl in Heq. subst id.
      apply Hexp in Hin as [_ [Hx _]]. apply Hx. simpl. unfold present. rewrite elem_of_list_to_set.
      apply list_elem_of_fmap. exists p. split; [done|]. unfold rep. by apply list_elem_of_filter.
  - intros id Hid. rewrite foldl_delete_lookup, Habs by done. destruct (seen !! id) as [st|] eqn:E.
    + destruct (decide (expired now present (id, st))) as [Hx|Hx].
      * rewrite decide_True; [done|]. apply list_elem_of_fmap. exists (id, st). split; [done|]. by apply Hexp.
      * rewrite decide_False; [done|]. rewrite list_elem_of_fmap. intros ([id' st'] & Heq & Hin).
        simpl in Heq. subst id'. apply Hexp in Hin as [Hs Hx']. congruence.
    + rewrite decide_False; [done|]. rewrite list_elem_of_fmap. intros ([id' st'] & Heq & Hin).
      simpl in Heq. subst id'. apply Hexp in Hin as [Hs _]. congruence.
Qed.

(** An event that finds the channel full is lost for good: the peer counts as
    reported, so the next poll, which lists it unchanged, says nothing. *)
Lemma poll_forgets_dropped_event accepts o self p now now' seen :
  accepts 0%nat = false -> reported (ID self) p -> seen !! ID p = None ->
  let '(r, evts, seen1) := pollOnce accepts o self now (Ok [p]) seen in
  is_ok r = false /\ evts = [] /\
  forall evt, evt ∈ (pollOnce all_accepted o self now' (Ok [p]) seen1).1.2 ->
    Type_ evt = PeerLost /\ ID (Discovery.Peer evt) <> ID p.
Proof.
  intros Ha [Hs Had] Hk. unfold pollOnce at 1. cbn [poll_peers].
  rewrite !decide_False by done. rewrite Hk, Ha. split_and!; [done..|].
  set (seen1 := <[_ := _]> seen).
  destruct (pollOnce_spec o self now' [p] seen1) as (lost & seen' & -> & _ & Hl & _).
  { apply NoDup_singleton. }
  cbn [fst snd omap list_omap]. intros evt. rewrite elem_of_app. intros [Hin|Hin].
  - exfalso. revert Hin. unfold peer_event. rewrite decide_False by tauto.
    unfold seen1. rewrite lookup_insert_eq. rewrite decide_True by done. apply not_elem_of_nil.
  - apply Hl in Hin as (id & st & -> & _ & Hx). split; [done|]. simpl. intros ->.
    destruct Hx as [Hx _]. apply Hx. simpl. rewrite filter_cons, decide_True by done.
    rewrite fmap_cons. set_solver.
Qed.


(** ** Witness *)

#[local] Existing Instance ToyJSON.toy_json.
#[local] Existing Instance ToyJSON.easy_hash.

Definition toy_server : HTTPHandler MemoryStore := NewHTTPHandler NewMemoryStore (Some 12).

