(* ===== verification/Quic.v ===== *)
(** * The QUIC transport server (pkg/transport/quic.go, types.go)

    The table of connections, the loop that dispatches the streams of a
    connection to the handlers, dialling, and framed messages.  A connection
    is a cell of a heap, because the table, the dispatch loop and the callers
    of [Connect] share it.  QUIC and the handshake are not part of the source
    here: whether a dial succeeds, which identity the handshake proved, and
    what a stream delivers are arguments of the operations. *)

From S2P Require Import Prelude Bytes Federation.
Local Open Scope Z_scope.

(** ** Services and frames *)

Abbreviation ServiceID := Z.

Definition ServiceControl : ServiceID := 67.
Definition ServiceDNS : ServiceID := 68.
Definition ServiceHTTP : ServiceID := 72.
Definition ServiceMsg : ServiceID := 77.
Definition ServiceFS : ServiceID := 70.
Definition ServiceRelay : ServiceID := 82.
Definition ServiceVoice : ServiceID := 86.
Definition ServiceVPN : ServiceID := 87.
Definition ServiceDocs : ServiceID := 79.
Definition ServiceReg : ServiceID := 71.

(** [%c] of a byte: the rune of that number in UTF-8. *)
Definition rune_of_byte (b : Z) : bytes :=
  if b <? 128 then [byte_of b] else [byte_of (192 + b / 64); byte_of (128 + b mod 64)].

Definition serviceName (svc : ServiceID) : bytes :=
  if svc =? ServiceControl then str "control"
  else if svc =? ServiceDNS then str "dns"
  else if svc =? ServiceHTTP then str "http"
  else if svc =? ServiceMsg then str "messaging"
  else if svc =? ServiceFS then str "files"
  else if svc =? ServiceRelay then str "relay"
  else if svc =? ServiceVoice then str "voice"
  else if svc =? ServiceVPN then str "vpn"
  else if svc =? ServiceDocs then str "docs"
  else if svc =? ServiceReg then str "registry"
  else str "svc-" ++ rune_of_byte svc.

Definition MaxFrameSize : Z := Z.shiftl 1 20.

Record Frame := mkFrame { f_Type : Z; f_Length : Z; f_Payload : bytes }.

Definition EncodeFrameBare (t : Z) (payload : bytes) : bytes := byte_of t :: be_put 4 (len payload) ++ payload.

Definition DecodeFrameBare (data : bytes) : result Frame :=
  if len data <? 5 then Err (ErrText "frame too short") else
  let t := u8 (nth 0 data Byte.x00) in
  let length := be_get (take 4 (drop 1 data)) in
  if MaxFrameSize <? length then Err (ErrText "frame too large") else
  if len data <? 5 + length then Err (ErrText "frame incomplete") else
  Ok (mkFrame t length (take (Z.to_nat length) (drop 5 data))).

(** ** State *)

Inductive ConnectionState :=
  StateConnecting | StateConnected | StateHandshaking | StateReady | StateDraining | StateClosed.

#[global] Instance ConnectionState_eq_dec : EqDecision ConnectionState.
Proof. solve_decision. Defined.

Record Connection := mkConnection {
  c_peerID : bytes;
  c_addr : bytes;
  c_state : ConnectionState;
  c_services : gset ServiceID;
  c_lastSeen : Z;
  c_allowedServices : gmap ServiceID bool;
}.

Record ServerStats := mkServerStats { TotalConns : Z; ActiveConns : Z; TotalStreams : Z }.

(** [sv_heap] holds every connection ever made, [sv_loops] those whose
    dispatch loop is running. *)
Record Server := mkServer {
  sv_conns : gmap bytes nat;
  sv_handlers : gmap ServiceID Z;
  sv_allowedSvcs : gmap ServiceID bool;
  sv_stats : ServerStats;
  sv_heap : list Connection;
  sv_loops : gset nat;
}.

Record TransportPeer := mkTransportPeer { tp_ID : bytes; tp_Addr : bytes; tp_State : ConnectionState; tp_LastPong : Z }.

Definition NewServer (allowed : gmap ServiceID bool) : Server :=
  mkServer ∅ ∅ allowed (mkServerStats 0 0 0) [] ∅.

Definition with_stats (f : ServerStats -> ServerStats) (s : Server) : Server :=
  mkServer (sv_conns s) (sv_handlers s) (sv_allowedSvcs s) (f (sv_stats s)) (sv_heap s) (sv_loops s).

Definition add_uint64 (d n : Z) : Z := wrapU 64 (n + d).

Definition count_conn (t : ServerStats) := mkServerStats (add_uint64 1 (TotalConns t)) (ActiveConns t) (TotalStreams t).
Definition count_active (d : Z) (t : ServerStats) :=
  mkServerStats (TotalConns t) (add_uint64 d (ActiveConns t)) (TotalStreams t).
Definition count_stream (t : ServerStats) := mkServerStats (TotalConns t) (ActiveConns t) (add_uint64 1 (TotalStreams t)).

Definition RegisterHandler (svc : ServiceID) (handler : Z) (s : Server) : Server :=
  mkServer (sv_conns s) (<[svc := handler]> (sv_handlers s)) (sv_allowedSvcs s) (sv_stats s) (sv_heap s) (sv_loops s).

(** A new connection, entered into the table in place of any other of the
    same peer, with its loop running. *)
Definition enter (c : Connection) (s : Server) : nat * Server :=
  let r := length (sv_heap s) in
  (r, mkServer (<[c_peerID c := r]> (sv_conns s)) (sv_handlers s) (sv_allowedSvcs s) (sv_stats s)
        (sv_heap s ++ [c]) ({[r]} ∪ sv_loops s)).

(** ** Connections *)

(** One round of [acceptLoop]. *)
Definition accepted_conn (s : Server) : Server := with_stats count_conn s.

(** [handleConn] up to its loop; [hs] is the identity the handshake proved. *)
Definition handleConn (now : Z) (remote : bytes) (hs : result bytes) (s : Server) : option nat * Server :=
  match hs with
  | Err _ => (None, s)
  | Ok id =>
      let '(r, s) := enter (mkConnection id remote StateReady ∅ now (sv_allowedSvcs s)) s in
      (Some r, with_stats (count_active 1) s)
  end.

Inductive dispatch := StreamClosed | Handled (handler : Z).

Definition acl_allows (allowed : gmap ServiceID bool) (svc : ServiceID) : bool :=
  bool_decide (allowed = ∅) || default false (allowed !! svc).

(** One stream of [serveStreams]; [first] is its first byte, [None] when
    reading it failed. *)
Definition serve_stream (conn : Connection) (first : option byte) (s : Server) : dispatch * Server :=
  match first with
  | None => (StreamClosed, s)
  | Some b =>
      match sv_handlers s !! u8 b with
      | None => (StreamClosed, s)
      | Some handler =>
          if negb (acl_allows (c_allowedServices conn) (u8 b)) then (StreamClosed, s)
          else (Handled handler, with_stats count_stream s)
      end
  end.

(** The end of [serveStreams], when no further stream can be accepted. *)
Definition serve_end (r : nat) (conn : Connection) (s : Server) : Server :=
  let s := with_stats (count_active (-1)) s in
  mkServer (delete (c_peerID conn) (sv_conns s)) (sv_handlers s) (sv_allowedSvcs s) (sv_stats s) (sv_heap s)
    (sv_loops s ∖ {[r]}).

(** [Connect]: the test for an existing connection, and what follows the dial;
    the lock is released in between. *)
Definition existing_conn (peerID : bytes) (s : Server) : option nat :=
  r ← sv_conns s !! peerID;
  c ← sv_heap s !! r;
  if decide (c_state c = StateClosed) then None else Some r.

Definition dialled (now : Z) (addr peerID : bytes) (hs : result bytes) (s : Server) : result nat * Server :=
  match hs with
  | Err e => (Err e, s)
  | Ok id =>
      if decide (id <> peerID) then (Err (ErrText "peer identity mismatch"), s) else
      let '(r, s) := enter (mkConnection peerID addr StateReady ∅ now ∅) s in
      (Ok r, with_stats (fun t => count_active 1 (count_conn t)) s)
  end.

Definition Connect (now : Z) (addr peerID : bytes) (hs : result bytes) (s : Server) : result nat * Server :=
  match existing_conn peerID s with
  | Some r => (Ok r, s)
  | None => dialled now addr peerID hs s
  end.

Definition Close (r : nat) (s : Server) : Server :=
  mkServer (sv_conns s) (sv_handlers s) (sv_allowedSvcs s) (sv_stats s)
    (alter (fun c => mkConnection (c_peerID c) (c_addr c) StateClosed (c_services c) (c_lastSeen c)
                       (c_allowedServices c)) r (sv_heap s)) (sv_loops s).

(** ** Sending *)

(** What QUIC answers when a stream is opened and its first byte written. *)
Record stream_outcome := mkOutcome { so_open : option goerror; so_service : option goerror; so_write : option goerror }.

Definition Connection_OpenStream (r : nat) (svc : ServiceID) (q : stream_outcome) (s : Server) : result bytes * Server :=
  match sv_heap s !! r with
  | None => (Err (ErrText "nil connection"), s)
  | Some c =>
      if decide (c_state c <> StateReady) then (Err (ErrText "connection not ready"), s) else
      match so_open q, so_service q with
      | Some e, _ => (Err e, s)
      | None, Some e => (Err e, s)
      | None, None =>
          let c := mkConnection (c_peerID c) (c_addr c) (c_state c) ({[svc]} ∪ c_services c) (c_lastSeen c)
                     (c_allowedServices c) in
          (Ok [byte_of svc],
           with_stats count_stream
             (mkServer (sv_conns s) (sv_handlers s) (sv_allowedSvcs s) (sv_stats s) (<[r := c]> (sv_heap s)) (sv_loops s)))
      end
  end.

(** The bytes written to the new stream so far, its service byte. *)
Definition OpenStream (peerID : bytes) (svc : ServiceID) (q : stream_outcome) (s : Server) : result bytes * Server :=
  match sv_conns s !! peerID with
  | None => (Err (ErrText "no connection to peer"), s)
  | Some r => Connection_OpenStream r svc q s
  end.

(** The shaper may delay or refuse; the result is all the stream carries. *)
Definition SendTo (shaper : option (bytes -> bytes -> bytes -> option goerror)) (peerID : bytes) (svc : ServiceID)
    (msgType : Z) (payload : bytes) (q : stream_outcome) (s : Server) : result bytes * Server :=
  let frame := EncodeFrameBare msgType payload in
  match shaper ≫= fun send => send (serviceName svc) (fmtHex (take 8 peerID)) frame with
  | Some _ => (Err (ErrText "qos"), s)
  | None =>
      match OpenStream peerID svc q s with
      | (Err e, s) => (Err e, s)
      | (Ok written, s) =>
          match so_write q with
          | Some e => (Err e, s)
          | None => (Ok (written ++ frame), s)
          end
      end
  end.

(** [Peers] ranges over the table, in any order. *)
Definition Peers (s : Server) : list TransportPeer :=
  omap (fun r => (fun c => mkTransportPeer (c_peerID c) (c_addr c) (c_state c) (c_lastSeen c)) <$> sv_heap s !! r)
    (map_to_list (sv_conns s)).*2.

(** ** Runs

    What may happen to a server in any order, with a log of what matters: the
    identity a handshake proved for a connection, whether the connection was
    accepted, and the streams handed to handlers. *)

Inductive quic_event :=
| EvHandshake (accepted : bool) (r : nat) (id : bytes)
| EvRegister (svc : ServiceID) (handler : Z)
| EvDispatch (r : nat) (svc : ServiceID) (handler : Z).

Inductive quic_run (allowed : gmap ServiceID bool) : list quic_event -> Server -> Prop :=
| run_new : quic_run allowed [] (NewServer allowed)
| run_register svc h log s :
    quic_run allowed log s -> quic_run allowed (EvRegister svc h :: log) (RegisterHandler svc h s)
| run_accept log s : quic_run allowed log s -> quic_run allowed log (accepted_conn s)
| run_handle now remote id log s r s' :
    quic_run allowed log s -> handleConn now remote (Ok id) s = (Some r, s') ->
    quic_run allowed (EvHandshake true r id :: log) s'
| run_dial now addr peerID id log s r s' :
    quic_run allowed log s -> dialled now addr peerID (Ok id) s = (Ok r, s') ->
    quic_run allowed (EvHandshake false r id :: log) s'
| run_stream_closed r conn first log s s' :
    quic_run allowed log s -> r ∈ sv_loops s -> sv_heap s !! r = Some conn ->
    serve_stream conn first s = (StreamClosed, s') -> quic_run allowed log s'
| run_stream r conn b h log s s' :
    quic_run allowed log s -> r ∈ sv_loops s -> sv_heap s !! r = Some conn ->
    serve_stream conn (Some b) s = (Handled h, s') -> quic_run allowed (EvDispatch r (u8 b) h :: log) s'
| run_serve_end r conn log s :
    quic_run allowed log s -> r ∈ sv_loops s -> sv_heap s !! r = Some conn ->
    quic_run allowed log (serve_end r conn s)
| run_open peerID svc q log s :
    quic_run allowed log s -> quic_run allowed log (OpenStream peerID svc q s).2
| run_close r log s : quic_run allowed log s -> quic_run allowed log (Close r s).

(** ** Lemmas *)

(** What identifies a connection does not change once it is made. *)
Definition ident (c : Connection) : bytes * gmap ServiceID bool := (c_peerID c, c_allowedServices c).

Record quic_ok (allowed : gmap ServiceID bool) (log : list quic_event) (s : Server) : Prop := {
  qo_allowed : sv_allowedSvcs s = allowed;
  qo_loops : forall r, r ∈ sv_loops s -> is_Some (sv_heap s !! r);
  qo_table : forall id r, sv_conns s !! id = Some r -> r ∈ sv_loops s /\ c_peerID <$> sv_heap s !! r = Some id;
  qo_proved : forall r c, sv_heap s !! r = Some c ->
    exists a, EvHandshake a r (c_peerID c) ∈ log /\ c_allowedServices c = if a then allowed else ∅;
  qo_once : forall a r id, EvHandshake a r id ∈ log -> ident <$> sv_heap s !! r = Some (id, if a then allowed else ∅);
  qo_active : ActiveConns (sv_stats s) = wrapU 64 (Z.of_nat (size (sv_loops s)));
  qo_handlers : forall svc h, sv_handlers s !! svc = Some h -> EvRegister svc h ∈ log;
  qo_dispatched : forall r svc h, EvDispatch r svc h ∈ log ->
    EvRegister svc h ∈ log /\
    exists a id, EvHandshake a r id ∈ log /\ (a = true -> acl_allows allowed svc = true);
}.

Lemma add_uint64_wrap d n : add_uint64 d (wrapU 64 n) = wrapU 64 (n + d).
Proof. unfold add_uint64, wrapU. by rewrite Zplus_mod_idemp_l. Qed.

(** Operations that keep the table, the loops, the number of live connections
    and what identifies each connection. *)
Lemma quic_ok_same allowed log s s' :
  quic_ok allowed log s ->
  sv_conns s' = sv_conns s -> sv_handlers s' = sv_handlers s -> sv_allowedSvcs s' = sv_allowedSvcs s ->
  sv_loops s' = sv_loops s -> ActiveConns (sv_stats s') = ActiveConns (sv_stats s) ->
  (forall r, ident <$> sv_heap s' !! r = ident <$> sv_heap s !! r) ->
  quic_ok allowed log s'.
Proof.
  intros [Ha Hl Ht Hp Ho Hc Hh Hd] E1 E2 E3 E4 E5 E6.
  assert (forall r c', sv_heap s' !! r = Some c' -> exists c, sv_heap s !! r = Some c /\ ident c = ident c') as Hback.
  { intros r c' E. specialize (E6 r). rewrite E in E6. destruct (sv_heap s !! r) as [c|]; [|done].
    exists c. split; [done|]. unfold ident in *. simpl in E6. congruence. }
  split; try congruence.
  - intros r Hr. rewrite E4 in Hr. apply Hl in Hr. apply fmap_is_Some with (f := ident). rewrite E6.
    by apply fmap_is_Some.
  - intros id r Hr. rewrite E1 in Hr. rewrite E4. destruct (Ht _ _ Hr) as [? Hid]. split; [done|].
    specialize (E6 r). destruct (sv_heap s !! r), (sv_heap s' !! r); simplify_eq/=; by f_equal.
  - intros r c' E. destruct (Hback _ _ E) as (c & Hc' & Hi). injection Hi as <- <-. by apply (Hp r c).
  - intros a r id Hr. rewrite E6. by apply Ho.
  - intros svc h. rewrite E2. apply Hh.
  - exact Hd.
Qed.

Lemma quic_ok_log allowed log s svc h :
  quic_ok allowed log s -> quic_ok allowed (EvRegister svc h :: log) (RegisterHandler svc h s).
Proof.
  intros [Ha Hl Ht Hp Ho Hc Hh Hd]. split; simpl; try done.
  - intros r c E. destruct (Hp _ _ E) as (a & ? & ?). exists a. split; [by right|done].
  - intros a r id [?|?]%elem_of_cons; [done|by apply Ho].
  - intros svc' h' [[-> ->]|[_ ?]]%lookup_insert_Some; [left|right; by apply Hh].
  - intros r svc' h' [?|Hin]%elem_of_cons; [done|]. destruct (Hd _ _ _ Hin) as (? & a & id & ? & ?).
    split; [by right|]. exists a, id. split; [by right|done].
Qed.

(** A connection whose identity was proved enters the table. *)
Lemma quic_ok_enter allowed log s (a : bool) addr now id r s' f :
  quic_ok allowed log s ->
  enter (mkConnection id addr StateReady ∅ now (if a then allowed else ∅)) s = (r, s') ->
  (forall t, ActiveConns (f t) = add_uint64 1 (ActiveConns t)) ->
  quic_ok allowed (EvHandshake a r id :: log) (with_stats f s').
Proof.
  intros [Ha Hl Ht Hp Ho Hc Hh Hd] [= <- <-] Hf. set (c := mkConnection _ _ _ _ _ _).
  assert (forall r x, sv_heap s !! r = Some x -> (sv_heap s ++ [c]) !! r = Some x) as Hold
    by (intros r x E; by apply lookup_app_l_Some).
  assert ((sv_heap s ++ [c]) !! length (sv_heap s) = Some c) as Hnew by by apply list_lookup_middle.
  assert (length (sv_heap s) ∉ sv_loops s) as Hfresh.
  { intros Hin. destruct (Hl _ Hin) as [x Hx]. apply lookup_lt_Some in Hx. lia. }
  assert (forall r x, (sv_heap s ++ [c]) !! r = Some x -> sv_heap s !! r = Some x \/ (r = length (sv_heap s) /\ x = c))
    as Hcase.
  { intros r x. rewrite lookup_app_Some. intros [?|[Hge E]]; [by left|right].
    apply list_lookup_singleton_Some in E as [E <-]. split; [lia|done]. }
  split; simpl.
  - done.
  - intros r [->%elem_of_singleton|Hr]%elem_of_union; [by eexists|].
    destruct (Hl _ Hr) as [x Hx]. exists x. by apply Hold.
  - intros i r [[<- <-]|[_ Hr]]%lookup_insert_Some; [rewrite Hnew; split; [set_solver|done]|].
    destruct (Ht _ _ Hr) as [? Hid]. split; [set_solver|].
    destruct (sv_heap s !! r) eqn:E; [|done]. by erewrite Hold.
  - intros r x E. destruct (Hcase _ _ E) as [E'|[-> ->]].
    + destruct (Hp _ _ E') as (b & ? & ?). exists b. split; [by right|done].
    + exists a. split; [left|done].
  - intros b r i [[= -> -> ->]|Hin]%elem_of_cons; [by rewrite Hnew|].
    specialize (Ho _ _ _ Hin). destruct (sv_heap s !! r) eqn:E; [|done]. by erewrite Hold.
  - rewrite Hf, Hc, add_uint64_wrap. f_equal. rewrite size_union by set_solver. rewrite size_singleton. lia.
  - intros svc h E. right. by apply Hh.
  - intros r svc h [?|Hin]%elem_of_cons; [done|]. destruct (Hd _ _ _ Hin) as (? & b & i & ? & ?).
    split; [by right|]. exists b, i. split; [by right|done].
Qed.

Lemma quic_ok_end allowed log s r conn :
  quic_ok allowed log s -> r ∈ sv_loops s -> sv_heap s !! r = Some conn ->
  quic_ok allowed log (serve_end r conn s).
Proof.
  intros [Ha Hl Ht Hp Ho Hc Hh Hd] Hr E. split; simpl; try done.
  - intros i Hi. apply Hl. set_solver.
  - intros id i [Hne Hi]%lookup_delete_Some. destruct (Ht _ _ Hi) as [Hin Hid]. split; [|done].
    apply elem_of_difference. split; [done|]. intros ->%elem_of_singleton. rewrite E in Hid. simplify_eq/=.
  - rewrite Hc, add_uint64_wrap. f_equal. rewrite size_difference by set_solver. rewrite size_singleton.
    assert (size (sv_loops s) <> 0%nat); [|lia]. intros Hz%size_empty_inv. set_solver.
Qed.

Lemma serve_stream_closed conn first s s' : serve_stream conn first s = (StreamClosed, s') -> s' = s.
Proof. unfold serve_stream. intros. repeat case_match; by simplify_eq. Qed.

Lemma serve_stream_handled conn b h s s' :
  serve_stream conn (Some b) s = (Handled h, s') ->
  s' = with_stats count_stream s /\ sv_handlers s !! u8 b = Some h /\
  acl_allows (c_allowedServices conn) (u8 b) = true.
Proof.
  unfold serve_stream. intros H. destruct (sv_handlers s !! u8 b) as [h'|]; [|done].
  destruct (acl_allows _ _); simpl in H; by simplify_eq.
Qed.

Lemma quic_ok_dispatch allowed log s s' r conn b h :
  quic_ok allowed log s -> sv_heap s !! r = Some conn ->
  serve_stream conn (Some b) s = (Handled h, s') -> quic_ok allowed (EvDispatch r (u8 b) h :: log) s'.
Proof.
  intros H E (-> & Hsvc & Hacl)%serve_stream_handled.
  apply (quic_ok_same _ _ _ (with_stats count_stream s)) in H; try done.
  destruct H as [Ha Hl Ht Hp Ho Hc Hh Hd]. destruct (Hp r conn E) as (a & Hin & Hal). split; try done.
  - intros i x Hx. destruct (Hp _ _ Hx) as (b' & ? & ?). exists b'. split; [by right|done].
  - intros b' i id [?|?]%elem_of_cons; [done|by apply Ho].
  - intros svc h' Hs. right. by apply Hh.
  - intros i svc h' [[= -> -> ->]|Hd']%elem_of_cons.
    + split; [right; by apply Hh|]. exists a, (c_peerID conn). split; [by right|]. intros ->. by rewrite <- Hal.
    + destruct (Hd _ _ _ Hd') as (? & b' & id & ? & ?). split; [by right|]. exists b', id. split; [by right|done].
Qed.

Lemma OpenStream_keeps allowed log s peerID svc q :
  quic_ok allowed log s -> quic_ok allowed log (OpenStream peerID svc q s).2.
Proof.
  intros H. unfold OpenStream, Connection_OpenStream. destruct (sv_conns s !! peerID) as [r|]; [|done].
  destruct (sv_heap s !! r) as [c|] eqn:E; [|done]. case_decide; [done|].
  destruct (so_open q); [done|]. destruct (so_service q); [done|].
  apply (quic_ok_same _ _ s); try done. intros i. simpl.
  destruct (decide (i = r)) as [->|]; [|by rewrite list_lookup_insert_ne].
  rewrite list_lookup_insert_eq by (by eapply lookup_lt_Some). by rewrite E.
Qed.

Lemma quic_run_ok allowed log s : quic_run allowed log s -> quic_ok allowed log s.
Proof.
  induction 1 as [|svc h log s _ IH|log s _ IH|now remote id log s r s' _ IH E|now addr peerID id log s r s' _ IH E
    |r conn first log s s' _ IH _ _ E|r conn b h log s s' _ IH _ Hc E|r conn log s _ IH Hr Hc|peerID svc q log s _ IH
    |r log s _ IH].
  - split; simpl; try done; set_solver.
  - by apply quic_ok_log.
  - by apply (quic_ok_same _ _ s).
  - unfold handleConn in E. rewrite (qo_allowed _ _ _ IH) in E. cbv zeta in E.
    destruct (enter _ s) as [r' s1] eqn:E1. injection E as -> <-.
    by apply (quic_ok_enter _ _ s true remote now id r s1).
  - unfold dialled in E. case_decide as Hid; [done|]. destruct (enter _ s) as [r' s1] eqn:E1. injection E as -> <-.
    assert (id = peerID) as -> by (by destruct (decide (id = peerID))).
    by apply (quic_ok_enter _ _ s false addr now peerID r s1).
  - by rewrite (serve_stream_closed _ _ _ _ E).
  - by eapply quic_ok_dispatch.
  - by apply quic_ok_end.
  - by apply OpenStream_keeps.
  - apply (quic_ok_same _ _ s); try done. intros i. simpl. rewrite list_lookup_alter.
    destruct (decide (r = i)) as [->|]; [|done]. by destruct (sv_heap s !! i).
Qed.

Lemma decode_encode_frame t payload :
  0 <= t < 256 -> len payload <= MaxFrameSize ->
  DecodeFrameBare (EncodeFrameBare t payload) = Ok (mkFrame t (len payload) payload).
Proof.
  intros Ht Hl. assert (0 <= len payload) by (unfold len; lia). change MaxFrameSize with 1048576 in *.
  assert (be_get (take 4 (drop 1 (EncodeFrameBare t payload))) = len payload) as E.
  { change (drop 1 _) with (be_put 4 (len payload) ++ payload). rewrite take_app_exact by apply length_be_put.
    apply be_get_put_small. change (2 ^ _) with 4294967296. lia. }
  assert (len (EncodeFrameBare t payload) = 5 + len payload) as E'
    by (unfold EncodeFrameBare, len; cbn [length]; rewrite length_app, length_be_put; lia).
  unfold DecodeFrameBare. cbv zeta. rewrite E, E', !(proj2 (Z.ltb_ge _ _)) by (change MaxFrameSize with 1048576; lia).
  unfold EncodeFrameBare at 1. cbn [nth]. rewrite u8_byte_of, Z.mod_small by lia. repeat f_equal.
  change 5%nat with (1 + 4)%nat. rewrite <- drop_drop.
  change (drop 1 _) with (be_put 4 (len payload) ++ payload).
  rewrite drop_app_length' by (symmetry; apply length_be_put). unfold len. by rewrite Nat2Z.id, firstn_all.
Qed.

(** Closing removes a connection from use: no stream opens on it, and the next
    [Connect] dials again. *)
Lemma closed_connection_unused r s q svc c :
  sv_heap s !! r = Some c ->
  is_ok (Connection_OpenStream r svc q (Close r s)).1 = false /\
  (sv_conns s !! c_peerID c = Some r -> existing_conn (c_peerID c) (Close r s) = None).
Proof.
  intros E. unfold Connection_OpenStream, existing_conn, Close. cbn [sv_heap sv_conns].
  rewrite list_lookup_alter_eq, E. split; [done|]. intros ->. simpl. by rewrite list_lookup_alter_eq, E.
Qed.

(** * Property *)

(** C4: In whatever order connections are accepted, dialled, used, closed and
    ended: every stream handed to a handler came over a connection whose peer
    a handshake had identified, to a handler that was registered for its
    first byte, and, if the connection was accepted, for a service the server
    allows; every entry of the table is a connection with that proved
    identity that is being served; and the count of live connections is
    exact. *)
Theorem quic_streams_authorised allowed log s :
  quic_run allowed log s ->
  (forall r svc h, EvDispatch r svc h ∈ log ->
     EvRegister svc h ∈ log /\
     exists accepted id, EvHandshake accepted r id ∈ log /\ (accepted = true -> acl_allows allowed svc = true)) /\
  (forall id r, sv_conns s !! id = Some r -> r ∈ sv_loops s /\ exists accepted, EvHandshake accepted r id ∈ log) /\
  ActiveConns (sv_stats s) = wrapU 64 (Z.of_nat (size (sv_loops s))).
Proof.
  intros [Ha Hl Ht Hp Ho Hc Hh Hd]%quic_run_ok. split_and!; [done| |done].
  intros id r Hr. destruct (Ht _ _ Hr) as [Hin Hid]. split; [done|].
  destruct (sv_heap s !! r) as [c|] eqn:E; [|done]. simplify_eq/=. destruct (Hp _ _ E) as (a & ? & _). by exists a.
Qed.

(** ** Witness and examples *)

Module QuicSample.
Definition peer : bytes := [byte_of 7].
Definition allowed : gmap ServiceID bool := {[ServiceControl := true]}.
Definition fresh : Server := RegisterHandler ServiceDocs 5 (RegisterHandler ServiceControl 4 (NewServer allowed)).
Definition in1 : Server := (handleConn 10 (str "a") (Ok peer) fresh).2.
Definition conn1 : Connection := mkConnection peer (str "a") StateReady ∅ 10 allowed.
Definition in2 : Server := (serve_stream conn1 (Some (byte_of ServiceControl)) in1).2.
Definition out1 : Server := (dialled 10 (str "b") peer (Ok peer) fresh).2.
Definition conn2 : Connection := mkConnection peer (str "b") StateReady ∅ 10 ∅.
Definition outcome : stream_outcome := mkOutcome None None None.
End QuicSample.
Import QuicSample.

(** A peer that was dialled is not held to the list of allowed services. *)
Lemma dialled_peer_escapes_acl :
  (serve_stream conn1 (Some (byte_of ServiceDocs)) in1).1 = StreamClosed /\
  sv_heap out1 !! 0%nat = Some conn2 /\ 0%nat ∈ sv_loops out1 /\
  (serve_stream conn2 (Some (byte_of ServiceDocs)) out1).1 = Handled 5.
Proof. split_and!; reflexivity. Qed.

(** When a peer reconnects and then its first connection ends, the second one,
    which is still served, drops out of the table: nothing can be sent. *)
Lemma reconnect_drops_live_connection :
  let s := serve_end 0 conn1 (handleConn 11 (str "c") (Ok peer) in1).2 in
  1%nat ∈ sv_loops s /\ sv_conns s = ∅ /\ ActiveConns (sv_stats s) = 1 /\
  (OpenStream peer ServiceControl outcome s).1 = Err (ErrText "no connection to peer").
Proof. cbv zeta. split_and!; [decide_vm|decide_vm|reflexivity..]. Qed.

Lemma quic_streams_authorised_witness :
  acl_allows allowed ServiceControl = true /\ sv_conns in2 !! peer = Some 0%nat /\
  exists accepted, EvHandshake accepted 0 peer ∈
    [EvDispatch 0 ServiceControl 4; EvHandshake true 0 peer; EvRegister ServiceDocs 5; EvRegister ServiceControl 4].
Proof.
  assert (quic_run allowed
    [EvDispatch 0 (u8 (byte_of ServiceControl)) 4; EvHandshake true 0 peer; EvRegister ServiceDocs 5; EvRegister ServiceControl 4] in2) as Hr.
  { apply (run_stream _ 0%nat conn1 (byte_of ServiceControl) 4 _ in1); [|decide_vm|reflexivity|reflexivity].
    apply (run_handle _ 10 (str "a") peer _ fresh 0); [|reflexivity].
    apply run_register, run_register, run_new. }
  destruct (quic_streams_authorised _ _ _ Hr) as (Hd & Ht & _).
  split_and!; [reflexivity|vm_compute; reflexivity|].
  destruct (Ht peer 0%nat) as [_ Hp]; [vm_compute; reflexivity|exact Hp].
Defined.
