(* ===== verification/Presence.v ===== *)
(** * Cursors and selections (pkg/services/docs/presence.go)

    Who is in a document, and where.  Entries are read through copies, so the
    table is a map of values; expiry compares with the clock when the table is
    asked.  Ranges over the table take their order as an argument. *)

From S2P Require Import Prelude Bytes Docs DocsCodec Discovery.
Local Open Scope Z_scope.

Record Cursor := mkCursor { cu_PeerID : bytes; cu_PeerName : bytes; cu_DocID : bytes; cu_Line : Z; cu_Column : Z }.

Definition no_cursor : Cursor := mkCursor (zeroes 32) [] [] 0 0.

Record Selection := mkSelection {
  sel_PeerID : bytes;
  sel_PeerName : bytes;
  sel_DocID : bytes;
  StartLine : Z;
  StartCol : Z;
  EndLine : Z;
  EndCol : Z;
}.

Record PeerPresence := mkPresence {
  pp_PeerID : bytes;
  pp_PeerName : bytes;
  pp_Cursor : Cursor;
  pp_Selection : option Selection;
  pp_LastSeen : Z;
  pp_Connected : bool;
}.

#[global] Instance Cursor_eq_dec : EqDecision Cursor.
Proof. solve_decision. Defined.
#[global] Instance Selection_eq_dec : EqDecision Selection.
Proof. solve_decision. Defined.
#[global] Instance PeerPresence_eq_dec : EqDecision PeerPresence.
Proof. solve_decision. Defined.

Record PresenceService := mkPresenceService {
  ps_docID : bytes;
  ps_presence : gmap bytes PeerPresence;
  ps_timeout : Z;
}.

#[global] Instance PresenceService_eq_dec : EqDecision PresenceService.
Proof. solve_decision. Defined.

Definition NewPresenceService (docID : bytes) (timeout : Z) : PresenceService :=
  mkPresenceService docID ∅ (if timeout =? 0 then 5 * second else timeout).

Definition with_table (t : gmap bytes PeerPresence) (p : PresenceService) : PresenceService :=
  mkPresenceService (ps_docID p) t (ps_timeout p).

(** A peer that is seen for the first time. *)
Definition newcomer (connected : bool) (id name : bytes) : PeerPresence :=
  mkPresence id name no_cursor None 0 connected.

Definition known_or (new : PeerPresence) (id : bytes) (p : PresenceService) : PeerPresence :=
  default new (ps_presence p !! id).

Definition seen_now (now : Z) (pp : PeerPresence) : PeerPresence :=
  mkPresence (pp_PeerID pp) (pp_PeerName pp) (pp_Cursor pp) (pp_Selection pp) now (pp_Connected pp).
Definition with_cursor (c : Cursor) (pp : PeerPresence) : PeerPresence :=
  mkPresence (pp_PeerID pp) (pp_PeerName pp) c (pp_Selection pp) (pp_LastSeen pp) (pp_Connected pp).
Definition with_selection (s : Selection) (pp : PeerPresence) : PeerPresence :=
  mkPresence (pp_PeerID pp) (pp_PeerName pp) (pp_Cursor pp) (Some s) (pp_LastSeen pp) (pp_Connected pp).
Definition with_connected (b : bool) (pp : PeerPresence) : PeerPresence :=
  mkPresence (pp_PeerID pp) (pp_PeerName pp) (pp_Cursor pp) (pp_Selection pp) (pp_LastSeen pp) b.

Definition put (id : bytes) (pp : PeerPresence) (p : PresenceService) : PresenceService :=
  with_table (<[id := pp]> (ps_presence p)) p.

(** ** Operations *)

Definition UpdateCursor (now : Z) (id name : bytes) (line column : Z) (p : PresenceService) : PresenceService :=
  put id (seen_now now (with_cursor (mkCursor id name (ps_docID p) line column)
                          (known_or (newcomer true id name) id p))) p.

Definition UpdateSelection (now : Z) (id name : bytes) (startLine startCol endLine endCol : Z) (p : PresenceService)
    : PresenceService :=
  put id (seen_now now (with_selection (mkSelection id name (ps_docID p) startLine startCol endLine endCol)
                          (known_or (newcomer true id name) id p))) p.

Definition RemovePeer (id : bytes) (p : PresenceService) : PresenceService :=
  with_table (delete id (ps_presence p)) p.

Definition GetPeer (id : bytes) (p : PresenceService) : option PeerPresence := ps_presence p !! id.

Definition stale (now : Z) (p : PresenceService) (pp : PeerPresence) : Prop :=
  ps_timeout p < time_sub now (pp_LastSeen pp).
#[global] Instance stale_dec now p pp : Decision (stale now p pp).
Proof. unfold stale. apply _. Defined.

Definition fresh_table (now : Z) (p : PresenceService) : gmap bytes PeerPresence :=
  filter (fun e => ~ stale now p (snd e)) (ps_presence p).

(** The entries that are left, in the order of the range, and the table
    without the others. *)
Definition GetAll (now : Z) (p : PresenceService) : list PeerPresence * PresenceService :=
  ((map_to_list (fresh_table now p)).*2, with_table (fresh_table now p) p).

Definition Count (now : Z) (p : PresenceService) : nat := size (fresh_table now p).

Definition Touch (now : Z) (id : bytes) (p : PresenceService) : PresenceService :=
  with_table (alter (seen_now now) id (ps_presence p)) p.

Definition MarkConnected (now : Z) (id name : bytes) (p : PresenceService) : PresenceService :=
  put id (seen_now now (with_connected true (known_or (newcomer false id name) id p))) p.

Definition MarkDisconnected (id : bytes) (p : PresenceService) : PresenceService :=
  with_table (alter (with_connected false) id (ps_presence p)) p.

Definition FromDiscovery (now : Z) (peers : list PeerInfo) (p : PresenceService) : PresenceService :=
  foldl (fun p i => put (ID i) (seen_now now (known_or (newcomer true (ID i) (Name i)) (ID i) p)) p) p peers.

(** ** The snapshot: identifiers and cursors, 40 bytes each *)

(** The clock is read as nanoseconds since 1970, in 64 bits. *)
Definition expired_ns (now : Z) (p : PresenceService) (pp : PeerPresence) : Prop :=
  ps_timeout p < wrapS 64 (time_unix_nano now - time_unix_nano (pp_LastSeen pp)).
#[global] Instance expired_ns_dec now p pp : Decision (expired_ns now p pp).
Proof. unfold expired_ns. apply _. Defined.

Definition marshal_entry (pp : PeerPresence) : bytes :=
  pp_PeerID pp ++ encodeUint32 (cu_Line (pp_Cursor pp)) ++ encodeUint32 (cu_Column (pp_Cursor pp)).

Definition Marshal (now : Z) (order : list PeerPresence) (p : PresenceService) : bytes :=
  concat (marshal_entry <$> filter (fun pp => ~ expired_ns now p pp) order).

Definition entrySize : Z := 40.

Definition load_entry (now : Z) (data : bytes) (p : PresenceService) : PresenceService :=
  let id := take 32 data in
  let line := decodeUint32 (take 4 (drop 32 data)) in
  let col := decodeUint32 (take 4 (drop 36 data)) in
  let pp := known_or (newcomer true id []) id p in
  put id (seen_now now (with_cursor (mkCursor id (pp_PeerName pp) (ps_docID p) line col) pp)) p.

Fixpoint load_entries (now : Z) (n : nat) (data : bytes) (p : PresenceService) : PresenceService :=
  match n with
  | O => p
  | S n => load_entries now n (drop 40 data) (load_entry now data p)
  end.

Definition Unmarshal (now : Z) (data : bytes) (p : PresenceService) : PresenceService :=
  if negb (len data mod entrySize =? 0) then p
  else load_entries now (Z.to_nat (len data / entrySize)) data p.

(** * Lemmas *)

(** Entries are kept under their own 32-byte identifier. *)
Definition presence_ok (p : PresenceService) : Prop :=
  map_Forall (fun id pp => pp_PeerID pp = id /\ length id = 32%nat) (ps_presence p).

Lemma put_ok id pp p : presence_ok p -> pp_PeerID pp = id -> length id = 32%nat -> presence_ok (put id pp p).
Proof. intros Hp Hid Hl. apply map_Forall_insert_2; [by split|done]. Qed.

Lemma known_or_id id p new : presence_ok p -> pp_PeerID new = id -> pp_PeerID (known_or new id p) = id.
Proof.
  intros Hp Hn. unfold known_or. destruct (ps_presence p !! id) as [pp|] eqn:E; [|done]. by apply (Hp _ _ E).
Qed.

Lemma alter_ok f id p :
  presence_ok p -> (forall pp, pp_PeerID (f pp) = pp_PeerID pp) -> presence_ok (with_table (alter f id (ps_presence p)) p).
Proof.
  intros Hp Hf i pp E. simpl in E. apply lookup_alter_Some in E as [(-> & y & Hy & ->)|[_ Hy]]; [rewrite Hf|]; by apply Hp.
Qed.

Lemma filter_ok (P : bytes * PeerPresence -> Prop) `{!forall x, Decision (P x)} p :
  presence_ok p -> presence_ok (with_table (filter P (ps_presence p)) p).
Proof. intros Hp i pp E. simpl in E. apply map_lookup_filter_Some in E as [E _]. by apply Hp. Qed.

Lemma decode_encodeUint32 v : decodeUint32 (encodeUint32 v) = v mod 2 ^ 32.
Proof. apply (be_get_put 4). Qed.

Lemma length_marshal_entry pp : length (pp_PeerID pp) = 32%nat -> length (marshal_entry pp) = 40%nat.
Proof. intros H. unfold marshal_entry, encodeUint32. rewrite !length_app, !length_be_put, H. done. Qed.

(** What loading the entry of [pp] does. *)
Definition loaded (now : Z) (pp : PeerPresence) (q : PresenceService) : PeerPresence :=
  let id := pp_PeerID pp in
  let old := known_or (newcomer true id []) id q in
  seen_now now (with_cursor (mkCursor id (pp_PeerName old) (ps_docID q)
    (cu_Line (pp_Cursor pp) mod 2 ^ 32) (cu_Column (pp_Cursor pp) mod 2 ^ 32)) old).

Lemma load_entry_marshal now pp k q :
  length (pp_PeerID pp) = 32%nat -> load_entry now (marshal_entry pp ++ k) q = put (pp_PeerID pp) (loaded now pp q) q.
Proof.
  intros H. unfold load_entry, marshal_entry. rewrite <- !app_assoc.
  change 36%nat with (32 + 4)%nat. rewrite <- drop_drop. rewrite (drop_app_length' (pp_PeerID pp)) by done.
  rewrite (drop_app_length' (encodeUint32 _)) by (symmetry; apply length_be_put).
  rewrite !take_app_exact by first [done|apply length_be_put]. by rewrite !decode_encodeUint32.
Qed.

Lemma load_entries_marshal now l q :
  Forall (fun pp => length (pp_PeerID pp) = 32%nat) l ->
  load_entries now (length l) (concat (marshal_entry <$> l)) q
  = foldl (fun q pp => put (pp_PeerID pp) (loaded now pp q) q) q l.
Proof.
  intros Hl. revert q. induction Hl as [|pp l Hp _ IH]; intros q; [done|].
  rewrite fmap_cons. cbn [concat length load_entries foldl]. rewrite load_entry_marshal by done.
  rewrite drop_app_length' by (symmetry; by apply length_marshal_entry). apply IH.
Qed.

Lemma length_marshal_entries l :
  Forall (fun pp => length (pp_PeerID pp) = 32%nat) l -> length (concat (marshal_entry <$> l)) = (40 * length l)%nat.
Proof.
  induction 1 as [|pp l Hp _ IH]; [done|]. rewrite fmap_cons. cbn [concat length].
  rewrite length_app, length_marshal_entry, IH by done. lia.
Qed.

Lemma loaded_ext now pp q q' :
  ps_docID q = ps_docID q' -> ps_presence q !! pp_PeerID pp = ps_presence q' !! pp_PeerID pp ->
  loaded now pp q = loaded now pp q'.
Proof. intros H1 H2. unfold loaded, known_or. by rewrite H1, H2. Qed.

Lemma foldl_load_lookup now l q id :
  NoDup (pp_PeerID <$> l) ->
  ps_presence (foldl (fun q pp => put (pp_PeerID pp) (loaded now pp q) q) q l) !! id
  = match list_find (fun pp => pp_PeerID pp = id) l with
    | Some (_, pp) => Some (loaded now pp q)
    | None => ps_presence q !! id
    end.
Proof.
  revert q. induction l as [|pp l IH]; intros q Hnd; [done|]. rewrite fmap_cons in Hnd.
  apply NoDup_cons in Hnd as [Hni Hnd]. cbn [foldl list_find]. rewrite IH by done. case_decide as Hid.
  - destruct (list_find _ l) as [[i pp']|] eqn:E.
    + apply list_find_Some in E as (Hi & Hid' & _). destruct Hni. rewrite Hid, <- Hid'.
      apply list_elem_of_fmap. exists pp'. split; [done|]. by eapply list_elem_of_lookup_2.
    + simpl. subst id. by rewrite lookup_insert_eq.
  - destruct (list_find _ l) as [[i pp']|] eqn:E; simpl.
    + apply list_find_Some in E as (_ & Hid' & _). f_equal. apply loaded_ext; [done|]. simpl.
      by rewrite lookup_insert_ne by congruence.
    + by rewrite lookup_insert_ne.
Qed.

(** * Properties *)

(** A snapshot read by another node moves exactly the peers that were live
    when it was taken: each is put at the position it had (as an unsigned
    32-bit number), seen now, under the name the reader knows, or none; every
    other peer stays as it was. *)
Lemma presence_snapshot now now' order p q id :
  presence_ok p -> order ≡ₚ (map_to_list (ps_presence p)).*2 ->
  GetPeer id (Unmarshal now' (Marshal now order p) q)
  = match GetPeer id p with
    | Some pp => if decide (expired_ns now p pp) then GetPeer id q else Some (loaded now' pp q)
    | None => GetPeer id q
    end.
Proof.
  intros Hp Ho. unfold Marshal, GetPeer. set (l := filter _ order).
  assert (forall pp, pp ∈ order <-> ps_presence p !! pp_PeerID pp = Some pp) as Hin.
  { intros pp. rewrite Ho, list_elem_of_fmap. split.
    - intros ([i x] & -> & Hx%elem_of_map_to_list). simpl in *. by destruct (Hp _ _ Hx) as [-> _].
    - intros E. exists (pp_PeerID pp, pp). split; [done|]. by apply elem_of_map_to_list. }
  assert (Forall (fun pp => length (pp_PeerID pp) = 32%nat) l) as Hl.
  { apply Forall_forall. intros pp [_ E%Hin]%list_elem_of_filter. by destruct (Hp _ _ E). }
  assert (NoDup (pp_PeerID <$> l)) as Hnd.
  { apply (sublist_NoDup _ (pp_PeerID <$> order)); [|apply fmap_sublist, sublist_filter].
    rewrite Ho, <- list_fmap_compose. erewrite list_fmap_ext; [apply NoDup_fst_map_to_list|].
    intros i [k x] E%list_elem_of_lookup_2%elem_of_map_to_list. simpl. by destruct (Hp _ _ E). }
  unfold Unmarshal, entrySize, len. rewrite length_marshal_entries by done.
  replace (Z.of_nat (40 * length l) mod 40) with 0 by (rewrite Nat2Z.inj_mul, Z.mul_comm; by rewrite Z_mod_mult).
  replace (Z.to_nat (Z.of_nat (40 * length l) / 40)) with (length l)
    by (rewrite Nat2Z.inj_mul, Z.mul_comm, Z_div_mult by lia; by rewrite Nat2Z.id).
  cbn [negb Z.eqb]. rewrite load_entries_marshal, foldl_load_lookup by done.
  destruct (list_find (fun pp => pp_PeerID pp = id) l) as [[i pp]|] eqn:E.
  - apply list_find_Some in E as (Hi & <- & _). apply list_elem_of_lookup_2, list_elem_of_filter in Hi as [He Hi%Hin].
    rewrite Hi. by rewrite decide_False.
  - destruct (ps_presence p !! id) as [pp|] eqn:Epp; [|done]. case_decide as He; [done|]. exfalso.
    apply list_find_None in E. rewrite Forall_forall in E. destruct (Hp _ _ Epp) as [Hid _].
    apply (E pp); [|done]. apply list_elem_of_filter. split; [done|]. apply Hin. by rewrite Hid.
Qed.

(** [GetAll] and [Count] agree, and asking drops exactly the entries not seen
    within the timeout. *)
Lemma GetAll_spec now p :
  length (fst (GetAll now p)) = Count now p /\
  forall id, GetPeer id (snd (GetAll now p))
    = pp ← GetPeer id p; if decide (stale now p pp) then None else Some pp.
Proof.
  split; [unfold GetAll, Count; simpl; by rewrite length_fmap, length_map_to_list|].
  intros id. unfold GetPeer, GetAll, fresh_table. simpl. destruct (ps_presence p !! id) as [pp|] eqn:E; simpl.
  - case_decide as Hs.
    + apply map_lookup_filter_None. right. intros x Hx. rewrite E in Hx. simplify_eq/=. tauto.
    + by apply map_lookup_filter_Some.
  - by apply map_lookup_filter_None; left.
Qed.

(** A cursor update of a known peer keeps the name it was first seen under,
    and a peer marked as disconnected stays so however often it moves. *)
Lemma UpdateCursor_keeps_name now id name line col pp p :
  GetPeer id p = Some pp ->
  exists pp', GetPeer id (UpdateCursor now id name line col p) = Some pp' /\
    pp_PeerName pp' = pp_PeerName pp /\ pp_Connected pp' = pp_Connected pp /\
    cu_PeerName (pp_Cursor pp') = name /\ pp_LastSeen pp' = now.
Proof.
  intros E. unfold GetPeer, UpdateCursor, put, known_or in *. simpl. rewrite lookup_insert_eq, E. simpl. by eexists.
Qed.
