(* ===== verification/DocsServer.v ===== *)
(** * The documents service (pkg/services/docs/server.go, broadcast of types.go)

    The documents a node serves with who is in them, the messages it answers,
    and what it broadcasts.  A call that can panic is an [option].  A call
    returns what it broadcasts beside the new state; the notifier's answer is
    ignored by the code.  The events of the documents arrive through bounded
    channels that drop: [handleEvent] is a step of its own.  The counters grow
    by one per call and are left unbounded. *)

From S2P Require Import Prelude Bytes Docs DocsCodec Discovery Presence Quic.
Local Open Scope Z_scope.

Definition DocMsgPresence : Z := 2.
Definition DocMsgSyncReq : Z := 3.
Definition DocMsgSyncResp : Z := 4.
Definition DocMsgFullState : Z := 5.
Definition MsgDocsOp : Z := 0x30.

Record ServiceStats := mkStats {
  TotalDocs : Z;
  ActiveDocs : Z;
  TotalOps : Z;
  TotalBroadcasts : Z;
  ActivePeers : Z;
}.

(** [sv_notifier] is [None] for a nil notifier. *)
Record Service := mkService {
  sv_docs : gmap bytes Document;
  sv_presence : gmap bytes PresenceService;
  sv_notifier : option Z;
  sv_nodeID : bytes;
  sv_stats : ServiceStats;
}.

#[global] Instance ServiceStats_eq_dec : EqDecision ServiceStats.
Proof. solve_decision. Defined.
#[global] Instance Service_eq_dec : EqDecision Service.
Proof. solve_decision. Defined.
#[global] Instance DocMessage_eq_dec : EqDecision DocMessage.
Proof. solve_decision. Defined.

(** What is given to the notifier: document, peer to leave out, message. *)
Record Broadcast := mkBroadcast { b_docID : bytes; b_exclude : bytes; b_msg : DocMessage }.

Definition noopBroadcaster : Z := 0.

Definition NewService (nodeID : bytes) (notifier : option Z) : Service :=
  mkService ∅ ∅ (Some (default noopBroadcaster notifier)) nodeID (mkStats 0 0 0 0 0).

Definition with_docs (d : gmap bytes Document) (s : Service) : Service :=
  mkService d (sv_presence s) (sv_notifier s) (sv_nodeID s) (sv_stats s).
Definition with_presence (p : gmap bytes PresenceService) (s : Service) : Service :=
  mkService (sv_docs s) p (sv_notifier s) (sv_nodeID s) (sv_stats s).
Definition with_stats (f : ServiceStats -> ServiceStats) (s : Service) : Service :=
  mkService (sv_docs s) (sv_presence s) (sv_notifier s) (sv_nodeID s) (f (sv_stats s)).

Definition count_docs (total active : Z) (t : ServiceStats) : ServiceStats :=
  mkStats (TotalDocs t + total) (ActiveDocs t + active) (TotalOps t) (TotalBroadcasts t) (ActivePeers t).
Definition count_ops (ops broadcasts : Z) (t : ServiceStats) : ServiceStats :=
  mkStats (TotalDocs t) (ActiveDocs t) (TotalOps t + ops) (TotalBroadcasts t + broadcasts) (ActivePeers t).

Definition handleEvent (s : Service) : Service := with_stats (count_ops 1 0) s.

Definition SetNotifier (n : option Z) (s : Service) : Service :=
  mkService (sv_docs s) (sv_presence s) n (sv_nodeID s) (sv_stats s).

Definition broadcast (docID exclude : bytes) (msg : DocMessage) (s : Service) : list Broadcast :=
  match sv_notifier s with Some _ => [mkBroadcast docID exclude msg] | None => [] end.

(** ** Documents *)

Definition GetDocument (docID : bytes) (s : Service) : option Document := sv_docs s !! docID.
Definition GetPresence (docID : bytes) (s : Service) : option PresenceService := sv_presence s !! docID.

(** A document enters with a presence table of its own. *)
Definition enter_doc (docID : bytes) (d : Document) (timeout : Z) (s : Service) : Service :=
  with_stats (count_docs 1 1)
    (mkService (<[docID := d]> (sv_docs s)) (<[docID := NewPresenceService docID timeout]> (sv_presence s))
       (sv_notifier s) (sv_nodeID s) (sv_stats s)).

Definition CreateDocument (docID title : bytes) (s : Service) : Document * Service :=
  match sv_docs s !! docID with
  | Some d => (d, s)
  | None => let d := NewDocument docID title (sv_nodeID s) in (d, enter_doc docID d (5 * second) s)
  end.

Definition GetOrCreateDocument (docID title : bytes) (s : Service) : Document * Service :=
  match GetDocument docID s with
  | Some d => (d, s)
  | None => CreateDocument docID title s
  end.

Definition DeleteDocument (docID : bytes) (s : Service) : result unit * Service :=
  match sv_docs s !! docID with
  | None => (Err (ErrText "document not found"), s)
  | Some _ =>
      (Ok tt, with_stats (count_docs 0 (-1))
                (mkService (delete docID (sv_docs s)) (delete docID (sv_presence s)) (sv_notifier s) (sv_nodeID s)
                   (sv_stats s)))
  end.

Definition ApplyLocalOp (now : Z) (docID : bytes) (op : Op) (s : Service)
    : option (result OpResult * Service * list Broadcast) :=
  match GetDocument docID s with
  | None => Some (Err (ErrText "document not found"), s, [])
  | Some d =>
      '(r, d) ← ApplyOp now op d;
      let s := with_docs (<[docID := d]> (sv_docs s)) s in
      if Applied r then
        let s := with_stats (count_ops 1 1) s in
        let msg := mkDocMessage DocMsgOperation docID (o_AuthorID op) (marshalOp op) (o_Timestamp op) in
        Some (Ok r, s, broadcast docID (o_AuthorID op) msg s)
      else Some (match Error r with Some e => Err e | None => Ok r end, s, [])
  end.

Definition InsertText (now : Z) (docID authorID : bytes) (position : Z) (text : bytes) (s : Service) :=
  ApplyLocalOp now docID (NewInsertOp docID authorID position text (time_unix_nano now)) s.
Definition DeleteLine (now : Z) (docID authorID : bytes) (position : Z) (s : Service) :=
  ApplyLocalOp now docID (NewDeleteOp docID authorID position (time_unix_nano now)) s.
Definition FormatBlock_ (now : Z) (docID authorID : bytes) (position : Z) (bt : BlockType) (s : Service) :=
  ApplyLocalOp now docID (NewFormatBlockOp docID authorID position bt (time_unix_nano now)) s.

(** ** Saving *)

(** [Marshal] ranges over the documents in any order. *)
Definition MarshalAll (order : list Document) : list bytes := DocsCodec.Marshal <$> order.

Fixpoint UnmarshalAll (data : list bytes) (s : Service) : Service :=
  match data with
  | [] => s
  | b :: data =>
      match DocsCodec.Unmarshal b (NewDocument [] [] (sv_nodeID s)) with
      | (_, Err _) => UnmarshalAll data s
      | (d, Ok _) => UnmarshalAll data (enter_doc (d_id d) d 0 s)
      end
  end.

(** ** The state message *)

Record DocumentState := mkState {
  st_DocID : bytes;
  st_Title : bytes;
  st_Content : list bytes;
  st_BlockTypes : list BlockType;
  st_Length : Z;
  st_Version : Z;
  st_UpdatedAt : Z;
}.

Definition State (d : Document) : DocumentState :=
  mkState (d_id d) (d_title d) (d_lines d) (d_blockTypes d) (Rga.Length (d_rga d)) (d_version d) (d_updatedAt d).

Fixpoint joined (parts : list bytes) : bytes :=
  match parts with [] => [] | p :: parts => newline ++ p ++ joined parts end.

Definition stringsJoin (parts : list bytes) : bytes :=
  match parts with [] => [] | p :: parts => p ++ joined parts end.

(** [s[a:b]] *)
Definition substring (a b : nat) (s : bytes) : option bytes :=
  if decide (a <= b <= length s)%nat then Some (take (b - a) (drop a s)) else None.

(** The loop, with [n] indices from [i] on left to look at.  It does not jump
    over a separator it has found: with one that overlaps itself a slice
    would be out of range. *)
Fixpoint split_loop (sep s : bytes) (n i start : nat) : option (list bytes) :=
  match n with
  | O => last ← substring start (length s) s; Some [last]
  | S n =>
      if decide (substring i (i + length sep) s = Some sep) then
        part ← substring start i s;
        rest ← split_loop sep s n (S i) (i + length sep)%nat;
        Some (part :: rest)
      else split_loop sep s n (S i) start
  end.

Definition stringsSplitGeneric (s sep : bytes) : option (list bytes) :=
  if decide (sep = []) then Some [s] else split_loop sep s (length s) 0 0.

Definition stringsSplit (s sep : bytes) : option (list bytes) :=
  if decide (s = []) then Some [] else
  parts ← stringsSplitGeneric s sep;
  Some (match parts with [] => [[]] | _ => parts end).

Definition marshalDocumentState (st : DocumentState) : bytes :=
  put32 (st_DocID st) ++ put32 (st_Title st) ++ put32 (stringsJoin (st_Content st)) ++ encodeInt64 (st_Version st).

(** [None] is a panic; the outer length test asks for four bytes only. *)
Definition unmarshalDocumentState (data : bytes) : option (result DocumentState) :=
  let fail e := Some (Err (ErrText e)) in
  match cut 4 data with None => fail "state data too short" | Some (n, data) =>
  match cut (decodeUint32 n) data with None => fail "id truncated" | Some (id, data) =>
  match cut 4 data with None => fail "title length truncated" | Some (n, data) =>
  match cut (decodeUint32 n) data with None => fail "title truncated" | Some (title, data) =>
  match cut 4 data with None => fail "content length truncated" | Some (n, data) =>
  match cut (decodeUint32 n) data with None => fail "content truncated" | Some (content, data) =>
    lines ← stringsSplit content newline;
    let version := match cut 8 data with None => 0 | Some (v, _) => decodeInt64 v end in
    Some (Ok (mkState id title lines [] 0 version 0))
  end end end end end end.

(** ** Presence messages *)

Definition marshalPresenceUpdate (docID peerID peerName : bytes) (line column : Z) : bytes :=
  put32 docID ++ peerID ++ encodeUint32 line ++ encodeUint32 column ++ put32 peerName.

Record PresenceUpdate := mkUpdate { u_docID : bytes; u_peerID : bytes; u_peerName : bytes; u_line : Z; u_column : Z }.

Definition unmarshalPresenceUpdate (data : bytes) : result PresenceUpdate :=
  if len data <? 4 + 32 + 4 + 4 then Err (ErrText "presence data too short") else
  let nameLen := decodeUint32 (take 4 data) in
  if len data <? 4 + nameLen + 32 + 4 + 4 then Err (ErrText "presence truncated") else
  let docID := take (Z.to_nat nameLen) (drop 4 data) in
  let rest := drop (Z.to_nat nameLen) (drop 4 data) in
  let line := decodeUint32 (take 4 (drop 32 rest)) in
  let column := decodeUint32 (take 4 (drop 36 rest)) in
  let peerName := match cut 4 (drop 40 rest) with
                  | None => []
                  | Some (n, rest) => match cut (decodeUint32 n) rest with
                                      | None => []
                                      | Some (name, _) => name
                                      end
                  end in
  Ok (mkUpdate docID (take 32 rest) peerName line column).

Definition put_presence (docID : bytes) (p : PresenceService) (s : Service) : Service :=
  with_presence (<[docID := p]> (sv_presence s)) s.

Definition UpdatePresence (now : Z) (docID peerName peerID : bytes) (line column : Z) (s : Service)
    : Service * list Broadcast :=
  match GetPresence docID s with
  | None => (s, [])
  | Some p =>
      let s := put_presence docID (UpdateCursor now peerID peerName line column p) s in
      let payload := marshalPresenceUpdate docID peerID peerName line column in
      (s, broadcast docID peerID (mkDocMessage DocMsgPresence docID (zeroes 32) payload 0) s)
  end.

Definition UpdateSelection_ (now : Z) (docID peerName peerID : bytes) (startLine startCol endLine endCol : Z)
    (s : Service) : Service :=
  match GetPresence docID s with
  | None => s
  | Some p => put_presence docID (UpdateSelection now peerID peerName startLine startCol endLine endCol p) s
  end.

Definition GetDocPresence (now : Z) (docID : bytes) (s : Service) : list PeerPresence * Service :=
  match GetPresence docID s with
  | None => ([], s)
  | Some p => let '(l, p) := GetAll now p in (l, put_presence docID p s)
  end.

(** ** Messages from peers *)

Definition handleOperation (now : Z) (msg : DocMessage) (s : Service) : option Service :=
  match decodeOpPayload (dm_Payload msg) with
  | Err _ => Some s
  | Ok (op, docID) =>
      match GetDocument docID s with
      | None => Some s
      | Some d =>
          '(r, d) ← ApplyOp now op d;
          let s := with_docs (<[docID := d]> (sv_docs s)) s in
          Some (if Applied r then with_stats (count_ops 1 1) s else s)
      end
  end.

(** The answer is built and dropped. *)
Definition handleSyncRequest (msg : DocMessage) (s : Service) : Service := s.

Definition sync_answer (msg : DocMessage) (s : Service) : option bytes :=
  d ← GetDocument (dm_DocID msg) s;
  Some (encodeDocMessage (mkDocMessage DocMsgSyncResp (dm_DocID msg) (zeroes 32) (marshalDocumentState (State d)) 0)).

(** The content of the snapshot is dropped. *)
Definition handleFullState (msg : DocMessage) (s : Service) : option Service :=
  r ← unmarshalDocumentState (dm_Payload msg);
  Some (match r with
        | Err _ => s
        | Ok st => snd (GetOrCreateDocument (dm_DocID msg) (st_Title st) s)
        end).

Definition handlePresence (now : Z) (msg : DocMessage) (s : Service) : Service :=
  match unmarshalPresenceUpdate (dm_Payload msg) with
  | Err _ => s
  | Ok u =>
      match GetPresence (u_docID u) s with
      | None => s
      | Some p => put_presence (u_docID u) (UpdateCursor now (u_peerID u) (u_peerName u) (u_line u) (u_column u) p) s
      end
  end.

Definition handleMessage (now : Z) (msg : DocMessage) (s : Service) : option Service :=
  if dm_Type msg =? DocMsgOperation then handleOperation now msg s
  else if dm_Type msg =? DocMsgSyncReq then Some (handleSyncRequest msg s)
  else if dm_Type msg =? DocMsgFullState then handleFullState msg s
  else if dm_Type msg =? DocMsgPresence then Some (handlePresence now msg s)
  else Some s.

(** [handleStream] takes what each [Read] into its buffer of 4096 bytes
    returns for a message; it ends at the first error. *)
Fixpoint handleStream (reads : list (Z * bytes)) (s : Service) : option Service :=
  match reads with
  | [] => Some s
  | (now, data) :: reads =>
      if len data =? 0 then handleStream reads s else
      match decodeDocMessage data with
      | Err _ => handleStream reads s
      | Ok msg => handleMessage now msg s ≫= handleStream reads
      end
  end.

(** ** Sending *)

(** [quicBroadcast.Broadcast]: what goes onto the streams of the peers after
    their service byte. *)
Definition quic_Broadcast (peers : list TransportPeer) (exclude : bytes) (msg : DocMessage) : list (bytes * bytes) :=
  (fun p => (tp_ID p, EncodeFrameBare MsgDocsOp (encodeDocMessage msg))) <$>
    filter (fun p => tp_ID p <> exclude) peers.

Definition WriteOperation (op : Op) (docID : bytes) : bytes := EncodeFrameBare MsgDocsOp (encodeOpPayload op docID).

Definition ReadOperation (data : bytes) : result (Op * bytes) :=
  match DecodeFrameBare data with
  | Err e => Err e
  | Ok frame => decodeOpPayload (f_Payload frame)
  end.

Definition PeerInfoFromTransport (p : TransportPeer) (peerName : bytes) : PeerPresence :=
  mkPresence (tp_ID p) peerName no_cursor None (tp_LastPong p) (bool_decide (tp_State p = StateReady)).

(** * Lemmas *)

(** ** Strings *)

Lemma substring_app pre cur rest :
  substring (length pre) (length pre + length cur) (pre ++ cur ++ rest) = Some cur.
Proof.
  unfold substring. rewrite decide_True by (rewrite !length_app; lia).
  rewrite drop_app_length. f_equal. apply take_app_exact. lia.
Qed.

(** For the newline the loop is [splitLines]; it never goes out of range. *)
Lemma split_loop_newline pre cur rest :
  split_loop newline (pre ++ cur ++ rest) (length rest) (length pre + length cur) (length pre)
  = Some (split_lines cur rest).
Proof.
  revert pre cur. induction rest as [|b rest IH]; intros pre cur; cbn [length split_loop split_lines].
  - rewrite app_nil_r, length_app. rewrite <- (app_nil_r (pre ++ cur)), <- app_assoc.
    by rewrite substring_app.
  - assert (substring (length pre + length cur) (length pre + length cur + length newline) (pre ++ cur ++ b :: rest)
            = Some [b]) as ->.
    { pose proof (substring_app (pre ++ cur) [b] rest) as E. rewrite length_app in E. cbn [length] in E |- *.
      by rewrite <- app_assoc in E. }
    destruct (decide (b = Byte.x0a)) as [->|Hb].
    + rewrite decide_True by done. rewrite substring_app. cbn [mbind option_bind option_fmap fmap].
      specialize (IH (pre ++ cur ++ [Byte.x0a]) []). cbn [length] in IH. rewrite <- !app_assoc, !length_app in IH.
      cbn [app length] in IH. replace (length pre + (length cur + 1) + 0)%nat with (S (length pre + length cur))%nat in IH by lia.
      change (length newline) with 1%nat. replace (length pre + length cur + 1)%nat with (length pre + (length cur + 1))%nat by lia.
      by rewrite IH.
    + rewrite decide_False by (unfold newline; congruence).
      specialize (IH pre (cur ++ [b])). rewrite <- !app_assoc, !length_app in IH. cbn [app length] in IH.
      replace (S (length pre + length cur)) with (length pre + (length cur + 1))%nat by lia. exact IH.
Qed.

Lemma stringsSplit_newline s : stringsSplit s newline = Some (splitLines s).
Proof.
  unfold stringsSplit, splitLines, stringsSplitGeneric. case_decide; [done|].
  rewrite decide_False by done. pose proof (split_loop_newline [] [] s) as E. cbn [length app Nat.add] in E.
  assert (forall cur s, split_lines cur s <> []) as Hne.
  { intros cur s'. revert cur. induction s' as [|c s' IH]; intros cur; simpl; [done|]. by destruct (decide _). }
  rewrite E. cbn [mbind option_bind]. specialize (Hne [] s). by destruct (split_lines [] s).
Qed.

Lemma split_lines_line cur l rest :
  Byte.x0a ∉ l -> split_lines cur (l ++ rest) = split_lines (cur ++ l) rest.
Proof.
  revert cur. induction l as [|b l IH]; intros cur Hl; [by rewrite app_nil_r|]. apply not_elem_of_cons in Hl as [Hb Hl].
  cbn [app split_lines]. rewrite decide_False by congruence. rewrite IH by done. by rewrite <- app_assoc.
Qed.

Lemma split_lines_joined cur lines :
  Forall (fun l => Byte.x0a ∉ l) lines -> split_lines cur (joined lines) = cur :: lines.
Proof.
  intros Hl. revert cur. induction Hl as [|l lines Hl _ IH]; intros cur; [done|]. cbn [joined app newline split_lines].
  rewrite decide_True by done. rewrite split_lines_line by done. by rewrite IH.
Qed.

Lemma split_join lines :
  Forall (fun l => Byte.x0a ∉ l) lines -> lines <> [[]] -> splitLines (stringsJoin lines) = lines.
Proof.
  intros Hl Hne. unfold splitLines. destruct Hl as [|l lines Hl Hls]; [done|]. cbn [stringsJoin].
  rewrite decide_False.
  - rewrite split_lines_line by done. by rewrite split_lines_joined.
  - intros [-> E]%app_eq_nil. by destruct lines.
Qed.

(** ** Messages *)

(** The state message carries the lines as one text: it gives them back when
    no line holds a newline and the document is not one empty line. *)
Lemma state_roundtrip st :
  fits32 (st_DocID st) -> fits32 (st_Title st) -> fits32 (stringsJoin (st_Content st)) ->
  int64_min <= st_Version st <= int64_max -> Forall (fun l => Byte.x0a ∉ l) (st_Content st) -> st_Content st <> [[]] ->
  unmarshalDocumentState (marshalDocumentState st)
  = Some (Ok (mkState (st_DocID st) (st_Title st) (st_Content st) [] 0 (st_Version st) 0)).
Proof.
  intros Hi Ht Hc Hv Hl Hne. unfold unmarshalDocumentState, marshalDocumentState.
  do 3 (rewrite cut_len, cut_body by done). rewrite stringsSplit_newline, split_join by done. cbn [mbind option_bind].
  rewrite <- (app_nil_r (encodeInt64 _)), cut_app by apply len_encodeInt64. by rewrite decode_encode64.
Qed.

Lemma unmarshalDocumentState_total data : exists r, unmarshalDocumentState data = Some r.
Proof.
  unfold unmarshalDocumentState. do 6 (destruct (cut _ _) as [[? ?]|]; [|by eexists]).
  rewrite stringsSplit_newline. by eexists.
Qed.

(** Positions travel as unsigned 32-bit numbers. *)
Lemma presence_update_roundtrip docID peerID peerName line column :
  fits32 docID -> fits32 peerName -> length peerID = 32%nat ->
  unmarshalPresenceUpdate (marshalPresenceUpdate docID peerID peerName line column)
  = Ok (mkUpdate docID peerID peerName (line mod 2 ^ 32) (column mod 2 ^ 32)).
Proof.
  intros Hd Hn Hp. unfold marshalPresenceUpdate, put32 at 1. rewrite <- app_assoc.
  set (tl := encodeUint32 line ++ encodeUint32 column ++ put32 peerName).
  set (data := _ ++ _ ++ _ ++ _). unfold unmarshalPresenceUpdate.
  assert (take 4 data = encodeUint32 (len docID)) as E4 by (by apply take_app_exact, length_be_put).
  assert (drop 4 data = docID ++ peerID ++ tl) as E4' by (by apply drop_fields, length_be_put).
  assert (len data = 4 + len docID + 32 + 4 + 4 + 4 + len peerName) as Hl.
  { unfold data, tl, put32, len, encodeUint32. rewrite !length_app, !length_be_put, Hp. lia. }
  rewrite E4, E4'. unfold fits32 in *. unfold len in Hd, Hn, Hl |- *. rewrite decode_encode32 by lia.
  rewrite !(proj2 (Z.ltb_ge _ _)) by lia. rewrite Nat2Z.id, take_app_length, drop_app_length.
  rewrite take_app_exact by done.
  change (drop 40 ?x) with (drop (32 + 4 + 4) x). change (drop 36 ?x) with (drop (32 + 4) x).
  rewrite <- !drop_drop.
  rewrite !(drop_fields 32) by done. unfold tl. rewrite !(drop_fields 4) by apply length_be_put.
  rewrite !take_app_exact by apply length_be_put. rewrite !decode_encodeUint32.
  rewrite <- (app_nil_r (put32 peerName)), cut_len, cut_body by done. done.
Qed.

Lemma unmarshalPresenceUpdate_id data u : unmarshalPresenceUpdate data = Ok u -> length (u_peerID u) = 32%nat.
Proof.
  unfold unmarshalPresenceUpdate. destruct (Z.ltb_spec (len data) (4 + 32 + 4 + 4)); [done|]. cbv zeta.
  set (n := decodeUint32 _). destruct (Z.ltb_spec (len data) (4 + n + 32 + 4 + 4)); [done|]. intros [= <-].
  assert (0 <= n) by apply be_get_range. cbn [u_peerID]. rewrite length_take, !length_drop. unfold len in *. lia.
Qed.

(** ** The calls of a document keep its identifier *)

Lemma ApplyOp_id now op d r d' : ApplyOp now op d = Some (r, d') -> d_id d' = d_id d.
Proof.
  unfold ApplyOp. destruct (o_Type op); [|unfold applyDelete| | |]; intros H.
  - unfold applyInsert in H. repeat case_match; by simplify_eq/=.
  - destruct (_ || _); [by simplify_eq|]. apply bind_Some in H as (? & _ & H). apply bind_Some in H as (? & _ & H).
    by simplify_eq/=.
  - unfold applyFormatBlock in H. destruct (_ || _); by simplify_eq/=.
  - unfold applyTitleChange in H. by simplify_eq/=.
  - by simplify_eq/=.
Qed.

Lemma run_call_id now c d d' : run_call now c d = Some d' -> d_id d' = d_id d.
Proof.
  destruct c as [op|ops| |]; simpl.
  - destruct (ApplyOp now op d) as [[r d1]|] eqn:E; [|done]. intros [= <-]. by eapply ApplyOp_id.
  - unfold Merge. destruct (merge_ops now ops d) as [d1|] eqn:E; [|done]. intros [= <-]. simpl.
    revert d E. induction ops as [|op ops IH]; intros d; simpl; [by intros [= ->]|]. unfold merge_one at 1.
    destruct (ApplyOp now op d) as [[r d2]|] eqn:E; [|done]. simpl. intros H. rewrite (IH _ H). by eapply ApplyOp_id.
  - unfold Undo. intros H. apply fmap_Some in H as ([r d1] & H & ->).
    destruct (d_historyIdx d); simplify_eq/=; [done|]. apply bind_Some in H as (op & _ & H).
    apply bind_Some in H as ([[? ?] ?] & _ & H). by simplify_eq/=.
  - unfold Redo. intros H. apply fmap_Some in H as ([r d1] & H & ->). case_decide; simplify_eq/=; [done|].
    apply bind_Some in H as (op & _ & H). apply bind_Some in H as ([[? ?] ?] & _ & H). by simplify_eq/=.
Qed.

(** ** The state of the service *)

Record service_ok (s : Service) : Prop := {
  so_keys : dom (sv_docs s) = dom (sv_presence s);
  so_docs : map_Forall (fun id d => d_id d = id /\ doc_ok d) (sv_docs s);
  so_presence : map_Forall (fun id p => ps_docID p = id /\ 0 < ps_timeout p /\ presence_ok p) (sv_presence s);
  so_active : Z.of_nat (size (sv_docs s)) <= ActiveDocs (sv_stats s);
}.

Lemma service_ok_stats f s :
  service_ok s -> (forall t, ActiveDocs (f t) = ActiveDocs t) -> service_ok (with_stats f s).
Proof. intros [] Hf. split; try done. simpl. by rewrite Hf. Qed.

Lemma service_ok_put_doc docID d d' s :
  service_ok s -> sv_docs s !! docID = Some d -> d_id d' = d_id d -> doc_ok d' ->
  service_ok (with_docs (<[docID := d']> (sv_docs s)) s).
Proof.
  intros [Hk Hd Hp Ha] E Hid Hok. split; simpl; [| |done|].
  - rewrite dom_insert_L, <- Hk. apply subseteq_union_1_L. intros x ->%elem_of_singleton. by apply elem_of_dom_2 in E.
  - apply map_Forall_insert_2; [|done]. split; [|done]. rewrite Hid. by apply (Hd _ _ E).
  - by rewrite map_size_insert_Some.
Qed.

Lemma service_ok_put_presence docID p p' s :
  service_ok s -> sv_presence s !! docID = Some p -> ps_docID p' = ps_docID p -> ps_timeout p' = ps_timeout p ->
  presence_ok p' -> service_ok (put_presence docID p' s).
Proof.
  intros [Hk Hd Hp Ha] E Hid Ht Hok. destruct (Hp _ _ E) as (? & ? & _). split; simpl; [|done| |done].
  - rewrite dom_insert_L, Hk. symmetry. apply subseteq_union_1_L. intros x ->%elem_of_singleton.
    by apply elem_of_dom_2 in E.
  - apply map_Forall_insert_2; [|done]. rewrite Hid, Ht. done.
Qed.

Lemma service_ok_enter docID d timeout s :
  service_ok s -> d_id d = docID -> doc_ok d -> 0 <= timeout -> service_ok (enter_doc docID d timeout s).
Proof.
  intros [Hk Hd Hp Ha] Hid Hok Ht. split; simpl.
  - by rewrite !dom_insert_L, Hk.
  - by apply map_Forall_insert_2.
  - apply map_Forall_insert_2; [|done]. split_and!; [done| |apply map_Forall_empty]. simpl.
    destruct (Z.eqb_spec timeout 0); [by vm_compute|lia].
  - rewrite map_size_insert. case_match; simpl; lia.
Qed.

Lemma CreateDocument_ok docID title s : service_ok s -> service_ok (CreateDocument docID title s).2.
Proof.
  intros H. unfold CreateDocument. case_match; [done|]. by apply service_ok_enter; [| |apply NewDocument_ok|].
Qed.

Lemma GetOrCreateDocument_ok docID title s : service_ok s -> service_ok (GetOrCreateDocument docID title s).2.
Proof. intros H. unfold GetOrCreateDocument. case_match; [done|]. by apply CreateDocument_ok. Qed.

Lemma DeleteDocument_ok docID s : service_ok s -> service_ok (DeleteDocument docID s).2.
Proof.
  intros [Hk Hd Hp Ha]. unfold DeleteDocument. destruct (sv_docs s !! docID) eqn:E; [|done]. split; simpl.
  - by rewrite !dom_delete_L, Hk.
  - by apply map_Forall_delete.
  - by apply map_Forall_delete.
  - rewrite map_size_delete, E. simpl.
    assert (size (sv_docs s) <> 0%nat); [|lia]. intros Hz%map_size_empty_inv. by rewrite Hz, lookup_empty in E.
Qed.

Lemma apply_op_ok now docID d op s :
  service_ok s -> sv_docs s !! docID = Some d ->
  exists r d', ApplyOp now op d = Some (r, d') /\ service_ok (with_docs (<[docID := d']> (sv_docs s)) s).
Proof.
  intros H E. destruct (so_docs _ H _ _ E) as [Hid Hok]. destruct (ApplyOp_total now op d Hok) as (r & d' & Ha & Hok').
  exists r, d'. split; [done|]. eapply service_ok_put_doc; try done. by eapply ApplyOp_id.
Qed.

Lemma ApplyLocalOp_ok now docID op s :
  service_ok s -> exists r s' b, ApplyLocalOp now docID op s = Some (r, s', b) /\ service_ok s'.
Proof.
  intros H. unfold ApplyLocalOp, GetDocument. destruct (sv_docs s !! docID) as [d|] eqn:E; [|by do 3 eexists].
  destruct (apply_op_ok now docID d op s H E) as (r & d' & -> & H'). simpl.
  destruct (Applied r); do 3 eexists; (split; [done|]); [by apply service_ok_stats|done].
Qed.

Lemma UpdateCursor_ok now docID p id name line col s :
  service_ok s -> sv_presence s !! docID = Some p -> length id = 32%nat ->
  service_ok (put_presence docID (UpdateCursor now id name line col p) s).
Proof.
  intros H E Hl. destruct (so_presence _ H _ _ E) as (_ & _ & Hp). eapply service_ok_put_presence; try done.
  apply put_ok; try done. by apply (known_or_id _ _ (newcomer true id name)).
Qed.

Lemma UpdateSelection_ok now docID p id name a b c d s :
  service_ok s -> sv_presence s !! docID = Some p -> length id = 32%nat ->
  service_ok (put_presence docID (UpdateSelection now id name a b c d p) s).
Proof.
  intros H E Hl. destruct (so_presence _ H _ _ E) as (_ & _ & Hp). eapply service_ok_put_presence; try done.
  apply put_ok; try done. by apply (known_or_id _ _ (newcomer true id name)).
Qed.

Lemma GetDocPresence_ok now docID s : service_ok s -> service_ok (GetDocPresence now docID s).2.
Proof.
  intros H. unfold GetDocPresence, GetPresence. destruct (sv_presence s !! docID) as [p|] eqn:E; [|done].
  eapply service_ok_put_presence; try done. apply filter_ok. by apply (so_presence _ H _ _ E).
Qed.

Lemma handleMessage_ok now msg s : service_ok s -> exists s', handleMessage now msg s = Some s' /\ service_ok s'.
Proof.
  intros H. unfold handleMessage. repeat case_match; try by eexists.
  - unfold handleOperation. destruct (decodeOpPayload _) as [[op docID]|]; [|by eexists]. unfold GetDocument.
    destruct (sv_docs s !! docID) as [d|] eqn:E; [|by eexists].
    destruct (apply_op_ok now docID d op s H E) as (r & d' & -> & H'). simpl.
    destruct (Applied r); eexists; (split; [done|]); [by apply service_ok_stats|done].
  - unfold handleFullState. destruct (unmarshalDocumentState_total (dm_Payload msg)) as [[st|e] ->]; simpl; [|by eexists].
    eexists. split; [done|]. by apply GetOrCreateDocument_ok.
  - eexists. split; [done|]. unfold handlePresence. destruct (unmarshalPresenceUpdate _) as [u|] eqn:Eu; [|done].
    unfold GetPresence. destruct (sv_presence s !! _) as [p|] eqn:E; [|done]. apply UpdateCursor_ok; try done.
    by eapply unmarshalPresenceUpdate_id.
Qed.

Lemma handleStream_ok reads s : service_ok s -> exists s', handleStream reads s = Some s' /\ service_ok s'.
Proof.
  revert s. induction reads as [|[now data] reads IH]; intros s H; cbn [handleStream]; [by eexists|].
  case_match; [by apply IH|]. destruct (decodeDocMessage data) as [msg|]; [|by apply IH].
  destruct (handleMessage_ok now msg s H) as (s' & -> & H'). by apply IH.
Qed.

(** A saved document that is read back is well formed. *)
Lemma UnmarshalAll_ok docs s :
  Forall doc_fits docs -> service_ok s -> service_ok (UnmarshalAll (MarshalAll docs) s).
Proof.
  intros Hf. revert s. induction Hf as [|d docs Hd _ IH]; intros s H; [done|]. unfold MarshalAll. rewrite fmap_cons.
  cbn [UnmarshalAll]. rewrite docs_marshal_roundtrip by done. apply IH, service_ok_enter; try done.
  destruct (df_ok _ Hd) as [Ht _ _]. split; simpl; [done|lia|done].
Qed.

(** ** Runs *)

(** [CallEdit] is an edit through a kept reference to a document; [CallRestore]
    takes the documents that were saved. *)
Inductive service_call :=
| CallCreate (docID title : bytes)
| CallDelete (docID : bytes)
| CallLocal (docID : bytes) (op : Op)
| CallStream (reads : list (Z * bytes))
| CallCursor (docID name peer : bytes) (line col : Z)
| CallSelection (docID name peer : bytes) (startLine startCol endLine endCol : Z)
| CallWho (docID : bytes)
| CallEdit (docID : bytes) (c : doc_call)
| CallEvent
| CallNotifier (n : option Z)
| CallRestore (docs : list Document).

Definition run_service_call (now : Z) (c : service_call) (s : Service) : option Service :=
  match c with
  | CallCreate docID title => Some (snd (GetOrCreateDocument docID title s))
  | CallDelete docID => Some (snd (DeleteDocument docID s))
  | CallLocal docID op => (fun r => snd (fst r)) <$> ApplyLocalOp now docID op s
  | CallStream reads => handleStream reads s
  | CallCursor docID name peer line col => Some (fst (UpdatePresence now docID name peer line col s))
  | CallSelection docID name peer a b c d => Some (UpdateSelection_ now docID name peer a b c d s)
  | CallWho docID => Some (snd (GetDocPresence now docID s))
  | CallEdit docID c =>
      match GetDocument docID s with
      | None => Some s
      | Some d => d ← run_call now c d; Some (with_docs (<[docID := d]> (sv_docs s)) s)
      end
  | CallEvent => Some (handleEvent s)
  | CallNotifier n => Some (SetNotifier n s)
  | CallRestore docs => Some (UnmarshalAll (MarshalAll docs) s)
  end.

Fixpoint run_service (cs : list (Z * service_call)) (s : Service) : option Service :=
  match cs with
  | [] => Some s
  | (now, c) :: cs => run_service_call now c s ≫= run_service cs
  end.

Definition call_ok (c : service_call) : Prop :=
  match c with
  | CallCursor _ _ peer _ _ | CallSelection _ _ peer _ _ _ _ => length peer = 32%nat
  | CallRestore docs => Forall doc_fits docs
  | _ => True
  end.

Lemma run_service_call_ok now c s :
  call_ok c -> service_ok s -> exists s', run_service_call now c s = Some s' /\ service_ok s'.
Proof.
  intros Hc H. destruct c; cbn [run_service_call call_ok] in *; try (eexists; split; [reflexivity|]).
  - by apply GetOrCreateDocument_ok.
  - by apply DeleteDocument_ok.
  - destruct (ApplyLocalOp_ok now docID op s H) as (r & s' & b & -> & H'). by exists s'.
  - by apply handleStream_ok.
  - unfold UpdatePresence, GetPresence. destruct (sv_presence s !! docID) eqn:E; [|done]. by apply UpdateCursor_ok.
  - unfold UpdateSelection_, GetPresence. destruct (sv_presence s !! docID) eqn:E; [|done]. by apply UpdateSelection_ok.
  - by apply GetDocPresence_ok.
  - unfold GetDocument. destruct (sv_docs s !! docID) as [d|] eqn:E; [|by eexists].
    destruct (so_docs _ H _ _ E) as [_ Hok]. destruct (run_call_total now c d Hok) as (d' & Hr & Hok').
    rewrite Hr. simpl. eexists. split; [done|]. eapply service_ok_put_doc; try done. by eapply run_call_id.
  - by apply service_ok_stats.
  - by destruct H.
  - by apply UnmarshalAll_ok.
Qed.

Lemma NewService_ok nodeID n : service_ok (NewService nodeID n).
Proof. split; simpl; [by rewrite !dom_empty_L|apply map_Forall_empty|apply map_Forall_empty|by rewrite map_size_empty]. Qed.

(** * Properties *)


(** A remote operation in the form the service understands is applied to
    the document it names exactly as a local one would be, whatever the
    envelope says, and to nothing else: the documents of other names, the
    presence tables and the identity of the service stay as they were, and
    the operation is counted when it was applied. *)
Theorem docs_operation_applied now op docID d outer author ts s :
  op_fits op -> fits32 docID -> fits32 outer -> length author = 32%nat -> int64_min <= ts <= int64_max ->
  GetDocument docID s = Some d -> doc_ok d ->
  let data := encodeDocMessage (mkDocMessage DocMsgOperation outer author (encodeOpPayload op docID) ts) in
  let received := mkOp (o_Type op) [] (o_AuthorID op) (o_Position op) (o_Value op) (o_BlockType op) (o_Title op)
                    (o_Timestamp op) in
  exists r d', ApplyOp now received d = Some (r, d') /\
    handleStream [(now, data)] s
    = Some (mkService (<[docID := d']> (sv_docs s)) (sv_presence s) (sv_notifier s) (sv_nodeID s)
              (if Applied r then count_ops 1 1 (sv_stats s) else sv_stats s)).
Proof.
  intros Hop Hd Ho Hau Hts Hdoc Hok. cbv zeta. destruct (ApplyOp_total now
    (mkOp (o_Type op) [] (o_AuthorID op) (o_Position op) (o_Value op) (o_BlockType op) (o_Title op) (o_Timestamp op))
    d Hok) as (r & d' & Ha & _).
  exists r, d'. split; [done|]. cbn [handleStream]. set (m := mkDocMessage _ _ _ _ _).
  assert (len (encodeDocMessage m) <> 0) by (unfold encodeDocMessage, len; cbn [length]; lia).
  rewrite (proj2 (Z.eqb_neq _ _)) by done. rewrite decode_encodeDocMessage by done.
  unfold handleMessage. cbn [dm_Type m]. unfold DocMsgOperation at 1. cbn [Z.eqb]. unfold handleOperation.
  cbn [dm_Payload m]. unfold decodeOpPayload, encodeOpPayload.
  rewrite decode_encodeDocMessage by (cbn [dm_Type dm_DocID dm_AuthorID dm_Timestamp]; first [done|by vm_compute]).
  cbn [dm_Payload dm_DocID]. rewrite unmarshal_marshalOp, Hdoc by done. cbn [mbind option_bind]. rewrite Ha.
  cbn [mbind option_bind]. by destruct (Applied r).
Qed.

(** ** Examples *)

(** What a broadcast puts on a stream begins with the frame type, which the
    receiving service takes for the type of the message, one it does not know:
    no broadcast changes anything at any peer. *)
Lemma broadcast_is_ignored now peers exclude msg id data s :
  (id, data) ∈ quic_Broadcast peers exclude msg -> handleStream [(now, data)] s = Some s.
Proof.
  unfold quic_Broadcast. intros (p & [= -> ->] & _)%list_elem_of_fmap. cbn [handleStream].
  case_match; [done|]. destruct (decodeDocMessage _) as [m|] eqn:E; [|done].
  assert (dm_Type m = MsgDocsOp) as Ht; [|unfold handleMessage; by rewrite Ht].
  unfold decodeDocMessage in E. case_match; [done|]. cbv zeta in E. case_match; [done|]. by simplify_eq/=.
Qed.

(** Even without the frame an operation broadcast by [ApplyLocalOp] is
    dropped: its payload is the bare operation, whose first author bytes are
    read as the length of a document ID. *)
Lemma broadcast_payload_is_dropped op :
  length (o_AuthorID op) = 32%nat -> len (marshalOp op) < be_get (take 4 (o_AuthorID op)) ->
  is_ok (decodeOpPayload (marshalOp op)) = false.
Proof.
  intros Ha Hl. unfold decodeOpPayload, decodeDocMessage. destruct (_ <? 1 + 4 + 32 + 8); [done|].
  assert (take 4 (drop 1 (marshalOp op)) = take 4 (o_AuthorID op)) as ->.
  { change (drop 1 (marshalOp op)) with (tail (marshalOp op)). unfold marshalOp. cbn [tail].
    by rewrite take_app_le by lia. }
  unfold decodeUint32. cbv zeta. rewrite (proj2 (Z.ltb_lt _ _)) by lia. done.
Qed.

Module DocsServerSample.
Definition alice : bytes := replicate 32 (byte_of 200).
Definition base : Service := snd (CreateDocument (str "d1") (str "Notes") (NewService (str "n") None)).
Definition op1 : Op := NewInsertOp (str "d1") alice 0 (str "hello") 5.
Definition delivered : option Service :=
  handleStream [(7, encodeDocMessage (mkDocMessage DocMsgOperation [] alice (encodeOpPayload op1 (str "d1")) 0))] base.
End DocsServerSample.
Import DocsServerSample.

(** Restoring a document that is already there counts it again. *)
Lemma restore_counts_twice :
  let s := UnmarshalAll (MarshalAll [saved_doc; saved_doc]) base in
  size (sv_docs s) = 1%nat /\ ActiveDocs (sv_stats s) = 3.
Proof. cbv zeta. split; vm_compute; reflexivity. Qed.

(** The state pushed to a peer that lacks the document makes an empty one. *)
Lemma full_state_drops_content :
  let msg := mkDocMessage DocMsgFullState (str "d1") alice (marshalDocumentState (State saved_doc)) 0 in
  (s ← handleStream [(7, encodeDocMessage msg)] (NewService (str "n") None);
   d ← GetDocument (str "d1") s; Some (d_lines d)) = Some [].
Proof. decide_vm. Qed.

(** An event of a local edit counts the operation a second time. *)
Lemma local_operation_counted_twice :
  (r ← ApplyLocalOp 7 (str "d1") op1 base; Some (TotalOps (sv_stats (handleEvent (snd (fst r)))))) = Some 2.
Proof. decide_vm. Qed.

Lemma docs_operation_applied_witness :
  exists r d', ApplyOp 7 (mkOp OpInsert [] alice 0 (str "hello") 0 [] 5) (NewDocument (str "d1") (str "Notes") (str "n"))
                 = Some (r, d') /\
    Applied r = true /\ d_lines d' = [str "hello"] /\ (GetDocument (str "d1") <$> delivered) = Some (Some d').
Proof.
  destruct (docs_operation_applied 7 op1 (str "d1") (NewDocument (str "d1") (str "Notes") (str "n")) [] alice 0 base)
    as (r & d' & Ha & Hs).
  - split; [by intros|reflexivity|by vm_compute..].
  - by vm_compute.
  - by vm_compute.
  - reflexivity.
  - by vm_compute.
  - reflexivity.
  - apply NewDocument_ok.
  - exists r, d'. split; [exact Ha|]. vm_compute in Ha. injection Ha as <- <-. split_and!; reflexivity.
Defined.

