(* ===== verification/Registry.v ===== *)
(** * Packages and their registry (pkg/services/registry)

    manifest.go, package.go, registry.go and server.go: the manifest and its
    validation, the package file, the registry in memory, the HTTP handlers.
    Archives (gzip and tar), YAML, JSON and SHA-256 are interfaces; case
    mapping is an argument.  A handler that panics has no response: the HTTP
    server recovers and closes the connection. *)

From S2P Require Import Prelude Bytes Ed25519 Decimal Text Federation.
Local Open Scope Z_scope.

Record Manifest := mkManifest {
  m_Name : bytes;
  m_Version : bytes;
  m_Description : bytes;
  m_Author : bytes;
  m_Homepage : bytes;
  m_License : bytes;
  m_Entry : bytes;
  m_Platform : option (list bytes);
  m_Dependencies : option (list bytes);
  m_Checksums : option (gmap bytes bytes);
  m_Size : Z;
  m_Created : Z;
}.

Record PackageMeta := mkMeta {
  pm_ID : bytes;
  pm_Name : bytes;
  pm_Version : bytes;
  pm_Description : bytes;
  pm_Author : bytes;
  pm_Platform : list bytes;
  pm_Entry : bytes;
  pm_Published : Z;
  pm_Updated : Z;
  pm_Downloads : Z;
  pm_Verified : bool;
  pm_PublisherID : bytes;
}.

Record LWPKG := mkPackage {
  p_Manifest : option Manifest;
  p_Files : gmap bytes bytes;
  p_Signature : bytes;
}.

#[global] Instance Manifest_eq_dec : EqDecision Manifest.
Proof. solve_decision. Defined.
#[global] Instance PackageMeta_eq_dec : EqDecision PackageMeta.
Proof. solve_decision. Defined.
#[global] Instance LWPKG_eq_dec : EqDecision LWPKG.
Proof. solve_decision. Defined.

(** The libraries a package file is made with.  An archive is written entry
    by entry and read back as such, for the names it can hold; an entry read
    is a directory or a file. *)
Class PackageLib := {
  sha256 : bytes -> bytes;
  archive_write : list (bytes * bytes) -> bytes;
  archive_read : bytes -> result (list (bool * bytes * bytes));
  name_ok : bytes -> Prop;
  archive_roundtrip : forall files, Forall (fun f => name_ok f.1) files ->
    archive_read (archive_write files) = Ok ((fun f => (false, f.1, f.2)) <$> files);
  marshalManifest : Manifest -> result bytes;
  unmarshalManifest : bytes -> result Manifest;
  manifest_ok : Manifest -> Prop;
  manifest_roundtrip : forall m, manifest_ok m ->
    exists b, marshalManifest m = Ok b /\ unmarshalManifest b = Ok m;
}.

(** ** Manifests (manifest.go) *)

Record ValidationError := mkInvalid { Field : string; Message : string }.

#[global] Instance ValidationError_eq_dec : EqDecision ValidationError.
Proof. solve_decision. Defined.

Definition blank (s : bytes) : bool := bool_decide (TrimSpace s = []).

Definition Validate (m : option Manifest) : option ValidationError :=
  match m with
  | None => Some (mkInvalid "" "manifest is nil")
  | Some m =>
      if blank (m_Name m) then Some (mkInvalid "name" "must not be empty")
      else if blank (m_Version m) then Some (mkInvalid "version" "must not be empty")
      else if blank (m_Entry m) then Some (mkInvalid "entry" "must not be empty")
      else if blank (m_Author m) then Some (mkInvalid "author" "must not be empty")
      else if m_Size m <? 0 then Some (mkInvalid "size" "must be non-negative")
      else match m_Checksums m with None => Some (mkInvalid "checksums" "must not be nil") | Some _ => None end
  end.

Definition IsValid (m : option Manifest) : bool := bool_decide (Validate m = None).

Definition ValidateDetailed (m : option Manifest) : list ValidationError :=
  match m with
  | None => [mkInvalid "" "manifest is nil"]
  | Some m =>
      (if blank (m_Name m) then [mkInvalid "name" "must not be empty"] else [])
      ++ (if blank (m_Version m) then [mkInvalid "version" "must not be empty"] else [])
      ++ (if blank (m_Entry m) then [mkInvalid "entry" "must not be empty"] else [])
      ++ (if blank (m_Author m) then [mkInvalid "author" "must not be empty"] else [])
      ++ (if m_Size m <? 0 then [mkInvalid "size" "must be non-negative"] else [])
      ++ match m_Checksums m with None => [mkInvalid "checksums" "must not be nil"] | Some _ => [] end
  end.

Definition SetDefaults (now : Z) (m : Manifest) : Manifest :=
  mkManifest (m_Name m) (m_Version m) (m_Description m) (m_Author m) (m_Homepage m)
    (if decide (m_License m = []) then str "MIT" else m_License m) (m_Entry m)
    (Some (default [] (m_Platform m))) (Some (default [] (m_Dependencies m)))
    (Some (default ∅ (m_Checksums m))) (m_Size m)
    (if time_is_zero (m_Created m) then now else m_Created m).

Definition IsValidPlatform (platforms : list bytes) (target : bytes) : bool :=
  bool_decide (target = []) || existsb (fun p => bool_decide (p = target \/ p = str "any" \/ p = str "*")) platforms.

Section package.
Context `{PackageLib}.

Definition PackageID (name version author : bytes) : bytes :=
  fmtHex (take 16 (sha256 (name ++ str "|" ++ version ++ str "|" ++ author))).

(** ** Package files (package.go) *)

Definition ManifestPath : bytes := str "manifest.yaml".
Definition FilesDir : bytes := str "files/".
Definition Ed25519SignatureSize : Z := 64.

(** [order] is the order in which the files are ranged over. *)
Definition EncodeLWPKG (order : list (bytes * bytes)) (pkg : LWPKG) : result bytes :=
  match p_Manifest pkg with
  | None => Err (ErrText "manifest is required")
  | Some m =>
      match marshalManifest m with
      | Err _ => Err (ErrText "marshal manifest")
      | Ok data =>
          Ok (archive_write ((ManifestPath, data) :: ((fun f => (FilesDir ++ f.1, f.2)) <$> order)) ++ p_Signature pkg)
      end
  end.

(** One entry of the archive. *)
Definition take_entry (pkg : LWPKG) (entry : bool * bytes * bytes) : result LWPKG :=
  let '(dir, name, data) := entry in
  if (dir : bool) then Ok pkg
  else if decide (name = ManifestPath) then
    match unmarshalManifest data with
    | Err _ => Err (ErrText "manifest parse")
    | Ok m => Ok (mkPackage (Some m) (p_Files pkg) (p_Signature pkg))
    end
  else match strip_prefix FilesDir name with
       | Some fname =>
           if decide (fname = [] \/ fname = str "/") then Ok pkg
           else Ok (mkPackage (p_Manifest pkg) (<[fname := data]> (p_Files pkg)) (p_Signature pkg))
       | None => Ok pkg
       end.

Fixpoint take_entries (entries : list (bool * bytes * bytes)) (pkg : LWPKG) : result LWPKG :=
  match entries with
  | [] => Ok pkg
  | e :: entries => match take_entry pkg e with
                    | Err e => Err e
                    | Ok pkg => take_entries entries pkg
                    end
  end.

Definition split_signature (data : bytes) : bytes * bytes :=
  let n := Z.to_nat (len data - Ed25519SignatureSize) in (take n data, drop n data).

Definition DecodeLWPKG (data : bytes) : result (LWPKG * bytes) :=
  if len data <? Ed25519SignatureSize then Err (ErrText "data too short for .lwpkg format") else
  let '(archive, signature) := split_signature data in
  match archive_read archive with
  | Err _ => Err (ErrText "archive")
  | Ok entries =>
      match take_entries entries (mkPackage None ∅ signature) with
      | Err e => Err e
      | Ok pkg =>
          match p_Manifest pkg with
          | None => Err (ErrText "manifest.yaml missing from archive")
          | Some _ => Ok (pkg, signature)
          end
      end
  end.

Definition ComputeArchiveHash (data : bytes) : result bytes :=
  if len data <? Ed25519SignatureSize then Err (ErrText "data too short")
  else Ok (sha256 (split_signature data).1).

Fixpoint check_sums (files : gmap bytes bytes) (sums : list (bytes * bytes)) : result unit :=
  match sums with
  | [] => Ok tt
  | (name, expected) :: sums =>
      match files !! name with
      | None => Err (ErrText "missing file for checksum")
      | Some data =>
          if decide (fmtHex (sha256 data) <> expected) then Err (ErrText "checksum mismatch") else check_sums files sums
      end
  end.

Definition VerifyIntegrity (pkg : LWPKG) : result unit :=
  match p_Manifest pkg with
  | None => Err (ErrText "no manifest")
  | Some m =>
      match m_Checksums m with
      | None => Err (ErrText "no checksums in manifest")
      | Some sums => check_sums (p_Files pkg) (map_to_list sums)
      end
  end.

(** ** The registry in memory (registry.go) *)

(** [mr_distributor]: whether metadata is given to the DHT. *)
Record MemoryRegistry := mkRegistry {
  mr_packages : gmap bytes PackageMeta;
  mr_store : gmap bytes LWPKG;
  mr_distributor : bool;
}.

Definition NewMemoryRegistry : MemoryRegistry := mkRegistry ∅ ∅ false.

Inductive registry_error := ErrManifestInvalid | ErrPackageExists | ErrPackageNotFound.

Definition meta_of (now : Z) (id author : bytes) (m : Manifest) (pkg : LWPKG) : PackageMeta :=
  mkMeta id (m_Name m) (m_Version m) (m_Description m) (m_Author m) (default [] (m_Platform m)) (m_Entry m) now now 0
    (negb (len (p_Signature pkg) =? 0)) author.

(** The third component is what the distributor is asked to publish. *)
Definition Publish (now : Z) (pkg : option LWPKG) (author : bytes) (r : MemoryRegistry)
    : (registry_error + bytes) * MemoryRegistry * list PackageMeta :=
  match pkg ≫= fun p => (fun m => (p, m)) <$> p_Manifest p with
  | None => (inl ErrManifestInvalid, r, [])
  | Some (p, m) =>
      match Validate (Some m) with
      | Some _ => (inl ErrManifestInvalid, r, [])
      | None =>
          let id := PackageID (m_Name m) (m_Version m) (m_Author m) in
          match mr_packages r !! id with
          | Some _ => (inl ErrPackageExists, r, [])
          | None =>
              let meta := meta_of now id author m p in
              (inr id, mkRegistry (<[id := meta]> (mr_packages r)) (<[id := p]> (mr_store r)) (mr_distributor r),
               if mr_distributor r then [meta] else [])
          end
      end
  end.

Definition Install (id : bytes) (r : MemoryRegistry) : option LWPKG := mr_store r !! id.
Definition List_ (r : MemoryRegistry) : list PackageMeta := (map_to_list (mr_packages r)).*2.
Definition Get_ (id : bytes) (r : MemoryRegistry) : option PackageMeta := mr_packages r !! id.

Definition Delete (id : bytes) (r : MemoryRegistry) : option registry_error * MemoryRegistry :=
  match mr_packages r !! id with
  | None => (Some ErrPackageNotFound, r)
  | Some _ => (None, mkRegistry (delete id (mr_packages r)) (delete id (mr_store r)) (mr_distributor r))
  end.

Definition RegisterDistributor (d : bool) (r : MemoryRegistry) : MemoryRegistry :=
  mkRegistry (mr_packages r) (mr_store r) d.

Record SearchQuery := mkQuery {
  q_Query : bytes;
  q_Platform : bytes;
  q_Author : bytes;
  q_Verified : bool;
  q_Limit : Z;
  q_Offset : Z;
}.

Record SearchResult := mkSearchResult { sr_Packages : list PackageMeta; sr_Total : Z; sr_Limit : Z; sr_Offset : Z }.

Definition DefaultSearchLimit : Z := 50.
Definition MaxSearchLimit : Z := 200.

Section search.
Variable to_lower : bytes -> bytes.
Variable equal_fold : bytes -> bytes -> bool.

Definition containsFold (s substr : bytes) : bool := Contains (to_lower s) substr.

Definition isValidPlatform (platforms : list bytes) (target : bytes) : bool :=
  existsb (fun p => equal_fold p target || bool_decide (p = str "any" \/ p = str "*")) platforms.

Definition matchesQueryFilter (m : PackageMeta) (q : SearchQuery) : bool :=
  let s := to_lower (q_Query q) in
  (bool_decide (q_Query q = []) || containsFold (pm_Name m) s || containsFold (pm_Description m) s
     || containsFold (pm_Author m) s)
  && (bool_decide (q_Platform q = []) || isValidPlatform (pm_Platform m) (q_Platform q))
  && (bool_decide (q_Author q = []) || equal_fold (pm_Author m) (q_Author q))
  && (negb (q_Verified q) || pm_Verified m).

(** [order] is the range over the packages; [None] is a slice out of range. *)
Definition Search (order : list PackageMeta) (q : SearchQuery) : option SearchResult :=
  let filtered := filter (fun m => matchesQueryFilter m q = true) order in
  let total := Z.of_nat (length filtered) in
  let limit := if q_Limit q <=? 0 then DefaultSearchLimit else q_Limit q in
  let limit := if MaxSearchLimit <? limit then MaxSearchLimit else limit in
  let start := if total <? q_Offset q then total else q_Offset q in
  let end_ := if total <? start + limit then total else start + limit in
  if start <? 0 then None
  else Some (mkSearchResult (take (Z.to_nat (end_ - start)) (drop (Z.to_nat start) filtered)) total limit start).

(** ** The HTTP server (server.go) *)

Context `{Ed25519}.

Inductive RMethod := RGet | RPost | RDelete | ROther.

Record RRequest := mkRRequest {
  rq_Method : RMethod;
  rq_Path : bytes;
  rq_q : bytes;
  rq_author : bytes;
  rq_limit : bytes;
  rq_offset : bytes;
  rq_Body : bytes;
}.

Inductive RBody :=
| TextBody (text : string)
| HealthBody
| ListBody (l : list PackageMeta)
| MetaBody (m : PackageMeta)
| SearchBody (r : SearchResult)
| IDBody (id : bytes)
| NoBody.

Record RResponse := mkRResponse { rs_Status : Z; rs_Body : RBody }.

Record PublishRequest := mkPublish { PackageData : option bytes; Signature : bytes; PublisherPubKey : bytes }.

Variable decode_publish : bytes -> result PublishRequest.

Definition rs_error (text : string) (status : Z) : RResponse := mkRResponse status (TextBody text).

(** [fmt.Sscanf] with the verb [%d] into an int. *)
Definition scan_int (s : bytes) : option Z :=
  let s := strip_all (length s) (filter (fun r => r <> [Byte.x0a]) space_runes) s in
  let fix digits_of (s : bytes) : bytes :=
    match s with
    | c :: s => if (48 <=? u8 c) && (u8 c <=? 57) then c :: digits_of s else []
    | [] => []
    end in
  match s with
  | c :: rest => if decide (u8 c = 45 \/ u8 c = 43) then Atoi (c :: digits_of rest) else Atoi (digits_of s)
  | [] => None
  end.

Definition atoiDefault (s : bytes) (def : Z) : Z := default def (scan_int s).

Definition handleHealth (r : RRequest) : RResponse :=
  match rq_Method r with
  | RGet => mkRResponse 200 HealthBody
  | _ => rs_error "method not allowed" 405
  end.

Definition handleSearch (order : list PackageMeta) (r : RRequest) : option RResponse :=
  match rq_Method r with
  | RGet =>
      let limit := atoiDefault (rq_limit r) DefaultSearchLimit in
      let limit := if (limit <=? 0) || (MaxSearchLimit <? limit) then DefaultSearchLimit else limit in
      res ← Search order (mkQuery (rq_q r) [] (rq_author r) false limit (atoiDefault (rq_offset r) 0));
      Some (mkRResponse 200 (SearchBody res))
  | _ => Some (rs_error "method not allowed" 405)
  end.

Definition publishPackage (now : Z) (r : RRequest) (reg : MemoryRegistry)
    : RResponse * MemoryRegistry * list PackageMeta :=
  match decode_publish (rq_Body r) with
  | Err _ => (rs_error "bad request" 400, reg, [])
  | Ok req =>
      match PackageData req with
      | None => (rs_error "package data and signature required" 400, reg, [])
      | Some data =>
          if len (Signature req) =? 0 then (rs_error "package data and signature required" 400, reg, []) else
          let combined := data ++ Signature req in
          match DecodeLWPKG combined with
          | Err _ => (rs_error "invalid package" 400, reg, [])
          | Ok (pkg, _) =>
              match VerifyIntegrity pkg with
              | Err _ => (rs_error "integrity check failed" 400, reg, [])
              | Ok _ =>
                  if negb (ed_verify (PublisherPubKey req) (split_signature combined).1 (Signature req))
                  then (rs_error "signature verification failed" 401, reg, []) else
                  match Publish now (Some pkg) (PublisherPubKey req) reg with
                  | (inl ErrPackageExists, reg, out) => (rs_error "package already exists" 409, reg, out)
                  | (inl _, reg, out) => (rs_error "publish failed" 500, reg, out)
                  | (inr id, reg, out) => (mkRResponse 201 (IDBody id), reg, out)
                  end
              end
          end
      end
  end.

Definition getPackage (id : bytes) (reg : MemoryRegistry) : RResponse :=
  match Get_ id reg with
  | None => rs_error "not found" 404
  | Some m => mkRResponse 200 (MetaBody m)
  end.

Definition deletePackage (id : bytes) (reg : MemoryRegistry) : RResponse * MemoryRegistry :=
  match Delete id reg with
  | (Some _, reg) => (rs_error "not found" 404, reg)
  | (None, reg) => (mkRResponse 204 NoBody, reg)
  end.

Definition handlePackages (now : Z) (order : list PackageMeta) (r : RRequest) (reg : MemoryRegistry)
    : RResponse * MemoryRegistry * list PackageMeta :=
  match rq_Method r with
  | RGet => (mkRResponse 200 (ListBody order), reg, [])
  | RPost => publishPackage now r reg
  | _ => (rs_error "method not allowed" 405, reg, [])
  end.

Definition packages_prefix : bytes := str "/api/v1/packages/".

Definition handlePackageByID (r : RRequest) (reg : MemoryRegistry) : RResponse * MemoryRegistry :=
  let id := default (rq_Path r) (strip_prefix packages_prefix (rq_Path r)) in
  if decide (id = []) then (rs_error "missing package ID" 400, reg) else
  match rq_Method r with
  | RGet => (getPackage id reg, reg)
  | RDelete => deletePackage id reg
  | _ => (rs_error "method not allowed" 405, reg)
  end.

(** The routes of [NewHTTPServer], for a clean path; [None] when the handler
    panics, which leaves the registry as it was. *)
Definition ServeRegistry (now : Z) (order : list PackageMeta) (r : RRequest) (reg : MemoryRegistry)
    : option RResponse * MemoryRegistry * list PackageMeta :=
  if decide (rq_Path r = str "/health") then (Some (handleHealth r), reg, [])
  else if decide (rq_Path r = str "/api/v1/packages") then
    let '(resp, reg, out) := handlePackages now order r reg in (Some resp, reg, out)
  else if decide (rq_Path r = str "/api/v1/search") then (handleSearch order r, reg, [])
  else match strip_prefix packages_prefix (rq_Path r) with
       | Some _ => let '(resp, reg) := handlePackageByID r reg in (Some resp, reg, [])
       | None => (Some (rs_error "404 page not found" 404), reg, [])
       end.
End search.
End package.

(** * Lemmas *)

(** The detailed check finds the same error first. *)
Lemma Validate_head m : Validate m = head (ValidateDetailed m).
Proof.
  destruct m as [m|]; [|done]. unfold Validate, ValidateDetailed.
  destruct (blank (m_Name m)); [done|]. destruct (blank (m_Version m)); [done|].
  destruct (blank (m_Entry m)); [done|]. destruct (blank (m_Author m)); [done|].
  destruct (m_Size m <? 0); [done|]. by destruct (m_Checksums m).
Qed.

Section lemmas.
Context `{PackageLib}.

Definition sums_match (files sums : gmap bytes bytes) : Prop :=
  map_Forall (fun name hex => exists data, files !! name = Some data /\ fmtHex (sha256 data) = hex) sums.

Lemma check_sums_spec files l :
  check_sums files l = Ok tt <->
  Forall (fun s => exists data, files !! s.1 = Some data /\ fmtHex (sha256 data) = s.2) l.
Proof.
  induction l as [|[name hex] l IH]; simpl; [by split|]. rewrite Forall_cons. simpl.
  destruct (files !! name) as [data|]; [|split; [done|by intros [(? & ? & _) _]]].
  case_decide as Hd; [split; [done|]|]; [intros [(? & [= <-] & ?) _]; done|]. rewrite IH.
  split; [intros ?; split; [|done]|by intros [_ ?]]. exists data. split; [done|].
  by destruct (decide (fmtHex (sha256 data) = hex)).
Qed.

(** The integrity check: the manifest lists checksums, and each is that of the
    file it names. *)
Lemma VerifyIntegrity_spec pkg :
  VerifyIntegrity pkg = Ok tt <->
  exists m sums, p_Manifest pkg = Some m /\ m_Checksums m = Some sums /\ sums_match (p_Files pkg) sums.
Proof.
  unfold VerifyIntegrity. destruct (p_Manifest pkg) as [m|]; [|by split; [|intros (? & ? & ? & _)]].
  destruct (m_Checksums m) as [sums|] eqn:E; [|split; [done|intros (? & ? & [= <-] & ? & _); congruence]].
  assert (check_sums (p_Files pkg) (map_to_list sums) = Ok tt <-> sums_match (p_Files pkg) sums) as ->.
  { rewrite check_sums_spec. unfold sums_match. rewrite map_Forall_to_list. apply Forall_iff. by intros []. }
  split; [intros Hs; by exists m, sums|]. intros (? & ? & [= <-] & ? & Hs). by simplify_eq.
Qed.

Lemma split_signature_app a s : len s = Ed25519SignatureSize -> split_signature (a ++ s) = (a, s).
Proof.
  intros Hs. unfold split_signature. rewrite len_app, Hs. replace (len a + _ - _) with (len a) by lia.
  unfold len. rewrite Nat2Z.id. by rewrite take_app_length, drop_app_length.
Qed.

Lemma take_entries_files files pkg m :
  p_Manifest pkg = Some m -> Forall (fun f => f.1 <> [] /\ f.1 <> str "/") files ->
  take_entries ((fun f => (false, FilesDir ++ f.1, f.2)) <$> files) pkg
  = Ok (mkPackage (Some m) (foldl (fun fs f => <[f.1 := f.2]> fs) (p_Files pkg) files) (p_Signature pkg)).
Proof.
  intros Hm Hf. revert pkg Hm. induction Hf as [|[name data] files [Hn1 Hn2] _ IH]; intros pkg Hm.
  - simpl. destruct pkg; simpl in *. by subst.
  - rewrite fmap_cons. cbn [take_entries foldl fst snd]. unfold take_entry.
    rewrite decide_False by done. change (strip_prefix FilesDir (FilesDir ++ name)) with (Some name).
    cbn [fst snd] in *. rewrite decide_False by naive_solver. by rewrite IH.
Qed.

(** A package file is read back, whatever the order its files were written in:
    names must fit the archive and not be empty or a slash. *)
Lemma package_roundtrip order pkg m :
  p_Manifest pkg = Some m -> manifest_ok m -> len (p_Signature pkg) = Ed25519SignatureSize ->
  order ≡ₚ map_to_list (p_Files pkg) -> name_ok ManifestPath ->
  map_Forall (fun name _ => name_ok (FilesDir ++ name) /\ name <> [] /\ name <> str "/") (p_Files pkg) ->
  exists b, EncodeLWPKG order pkg = Ok b /\ DecodeLWPKG b = Ok (pkg, p_Signature pkg).
Proof.
  intros Hm Hok Hs Ho Hmp Hn. unfold EncodeLWPKG. rewrite Hm.
  destruct (manifest_roundtrip m Hok) as (data & -> & Hu). eexists. split; [done|].
  unfold DecodeLWPKG. rewrite split_signature_app by done.
  rewrite (proj2 (Z.ltb_ge _ _)) by (rewrite len_app, Hs; unfold len; lia).
  assert (Forall (fun f => name_ok (FilesDir ++ f.1) /\ f.1 <> [] /\ f.1 <> str "/") order) as Hall.
  { rewrite Ho. apply map_Forall_to_list in Hn. eapply Forall_impl; [exact Hn|]. by intros []. }
  rewrite archive_roundtrip.
  2:{ constructor; [done|]. apply Forall_fmap. eapply Forall_impl; [exact Hall|]. by intros ? [? _]. }
  rewrite fmap_cons, <- list_fmap_compose. cbn [take_entries fst snd]. unfold take_entry at 1.
  rewrite decide_True by done. rewrite Hu. cbn [p_Files p_Signature].
  change (_ ∘ _) with (fun f : bytes * bytes => (false, FilesDir ++ f.1, f.2)).
  rewrite (take_entries_files order _ m); [|done|eapply Forall_impl; [exact Hall|]; by intros ? [_ ?]].
  cbn [p_Manifest p_Files p_Signature]. repeat f_equal. destruct pkg as [pm files sig]. simpl in *. subst. f_equal.
  apply map_eq. intros name.
  assert (NoDup order.*1) as Hnd by (rewrite Ho; apply NoDup_fst_map_to_list).
  assert (forall fs : gmap bytes bytes, foldl (fun (fs : gmap bytes bytes) f => <[f.1 := f.2]> fs) fs order
            = list_to_map order ∪ fs) as Hfold.
  { clear -Hnd. induction order as [|[k v] l IH]; intros fs; cbn [foldl fst snd].
    - cbn. by rewrite (left_id_L ∅ _).
    - rewrite fmap_cons in Hnd. apply NoDup_cons in Hnd as [Hk Hnd]. rewrite IH by done.
      rewrite <- insert_union_r by by apply not_elem_of_list_to_map_1. by rewrite insert_union_l. }
  rewrite Hfold, (right_id_L ∅ _), (list_to_map_proper _ (map_to_list files)) by done.
  by rewrite list_to_map_to_list.
Qed.

(** Publishing enters one new package; a taken ID is refused. *)
Lemma Publish_cases now pkg author r :
  let '(res, r', out) := Publish now pkg author r in
  match res with
  | inl _ => r' = r /\ out = []
  | inr id =>
      exists p m, pkg = Some p /\ p_Manifest p = Some m /\ Validate (Some m) = None /\
        id = PackageID (m_Name m) (m_Version m) (m_Author m) /\ mr_packages r !! id = None /\
        r' = mkRegistry (<[id := meta_of now id author m p]> (mr_packages r)) (<[id := p]> (mr_store r))
               (mr_distributor r)
  end.
Proof.
  unfold Publish. destruct pkg as [p|]; cbn [mbind option_bind]; [|by split].
  destruct (p_Manifest p) as [m|] eqn:Em; cbn [fmap option_fmap option_map]; [|by split].
  destruct (Validate (Some m)) eqn:Ev; [by split|].
  destruct (mr_packages r !! _) eqn:E; [by split|]. exists p, m. by split_and!.
Qed.

Context `{Ed25519}.
Variables (to_lower : bytes -> bytes) (equal_fold : bytes -> bytes -> bool)
  (decode_publish : bytes -> result PublishRequest).

(** Searching with an offset that is not negative gives the page that begins
    there, of at most the limit. *)
Lemma Search_page order q :
  0 <= q_Offset q ->
  exists res, Search to_lower equal_fold order q = Some res /\
    sr_Packages res = take (Z.to_nat (sr_Limit res)) (drop (Z.to_nat (q_Offset q))
                        (filter (fun m => matchesQueryFilter to_lower equal_fold m q = true) order)) /\
    0 < sr_Limit res <= MaxSearchLimit.
Proof.
  intros Ho. unfold Search. set (l := filter _ order). cbv zeta.
  set (limit0 := if q_Limit q <=? 0 then _ else _). set (limit := if MaxSearchLimit <? limit0 then _ else _).
  assert (0 < limit <= MaxSearchLimit) as Hlim.
  { unfold limit, limit0, DefaultSearchLimit, MaxSearchLimit. destruct (Z.leb_spec (q_Limit q) 0); simpl; [lia|].
    destruct (Z.ltb_spec 200 (q_Limit q)); lia. }
  destruct (Z.ltb_spec (Z.of_nat (length l)) (q_Offset q)) as [Hs|Hs].
  - rewrite (proj2 (Z.ltb_ge _ _)) by lia. eexists. split; [done|]. cbn [sr_Packages sr_Limit]. split; [|done].
    rewrite !drop_ge by lia. by rewrite !take_nil.
  - rewrite (proj2 (Z.ltb_ge _ _)) by lia. eexists. split; [done|]. cbn [sr_Packages sr_Limit]. split; [|done].
    destruct (Z.ltb_spec (Z.of_nat (length l)) (q_Offset q + limit)).
    + rewrite !take_ge; [done|rewrite length_drop; lia..].
    + f_equal. lia.
Qed.

(** ** Runs of the server *)

(** A request that published the package [p] as [m]: what it contained and
    what was checked. *)
Definition published (now : Z) (r : RRequest) (id : bytes) (meta : PackageMeta) (p : LWPKG) : Prop :=
  exists req data m sums,
    rq_Method r = RPost /\ decode_publish (rq_Body r) = Ok req /\ PackageData req = Some data /\
    DecodeLWPKG (data ++ Signature req) = Ok (p, p_Signature p) /\
    ed_verify (PublisherPubKey req) (split_signature (data ++ Signature req)).1 (Signature req) = true /\
    p_Manifest p = Some m /\ Validate (Some m) = None /\
    m_Checksums m = Some sums /\ sums_match (p_Files p) sums /\
    id = PackageID (m_Name m) (m_Version m) (m_Author m) /\ meta = meta_of now id (PublisherPubKey req) m p.

Definition registry_ok (log : list (Z * RRequest)) (reg : MemoryRegistry) : Prop :=
  dom (mr_packages reg) = dom (mr_store reg) /\
  forall id meta, mr_packages reg !! id = Some meta ->
    exists now r p, (now, r) ∈ log /\ mr_store reg !! id = Some p /\ published now r id meta p.

Lemma DecodeLWPKG_signature b p s : DecodeLWPKG b = Ok (p, s) -> s = p_Signature p.
Proof.
  unfold DecodeLWPKG. case_match; [done|]. destruct (split_signature b) as [a sig].
  destruct (archive_read a) as [entries|]; [|done].
  assert (forall pkg p', take_entries entries pkg = Ok p' -> p_Signature p' = p_Signature pkg) as Hsig.
  { clear. induction entries as [|[[dir name] data] es IH]; intros pkg p'; [by intros [= ->]|].
    cbn [take_entries]. destruct (take_entry pkg (dir, name, data)) as [q|] eqn:E; [|done].
    intros Hq. rewrite (IH _ _ Hq). unfold take_entry in E.
    destruct dir; [by simplify_eq|]. case_decide; [by destruct (unmarshalManifest data); simplify_eq/=|].
    destruct (strip_prefix FilesDir name); [|by simplify_eq]. case_decide; by simplify_eq/=. }
  destruct (take_entries entries _) as [q|] eqn:E; [|done]. destruct (p_Manifest q) eqn:Em; [|done].
  intros [= -> ->]. by rewrite (Hsig _ _ E).
Qed.

Lemma registry_ok_more log reg x : registry_ok log reg -> registry_ok (log ++ [x]) reg.
Proof.
  intros [Hd Hp]. split; [done|]. intros id meta E. destruct (Hp _ _ E) as (now & r & p & ? & ? & ?).
  exists now, r, p. split_and!; [|done..]. apply elem_of_app. by left.
Qed.

Lemma publish_ok now r log reg :
  rq_Method r = RPost -> registry_ok log reg ->
  registry_ok (log ++ [(now, r)]) (publishPackage decode_publish now r reg).1.2.
Proof.
  intros Hr Hok. pose proof (registry_ok_more _ _ (now, r) Hok) as Hmore. unfold publishPackage.
  destruct (decode_publish (rq_Body r)) as [req|] eqn:Edec; [|done].
  destruct (PackageData req) as [data|] eqn:Edat; [|done]. case_match; [done|].
  destruct (DecodeLWPKG (data ++ Signature req)) as [[p s]|] eqn:Epk; [|done].
  destruct (VerifyIntegrity p) as [[]|] eqn:Ev; [|done].
  destruct (ed_verify _ _ _) eqn:Esig; cbn [negb]; [|done].
  pose proof (Publish_cases now (Some p) (PublisherPubKey req) reg) as Hc.
  destruct (Publish now (Some p) (PublisherPubKey req) reg) as [[[e|id] reg'] out].
  - destruct Hc as [-> ->]. by destruct e.
  - destruct Hc as (p' & m & [= <-] & Em & Hv & Hid & Hfresh & ->). cbn [fst snd].
    apply VerifyIntegrity_spec in Ev as (m' & sums & Em' & Hsums & Hmatch).
    assert (m' = m) as -> by congruence. destruct Hmore as [Hd Hp]. split; cbn [mr_packages mr_store].
    + by rewrite !dom_insert_L, Hd.
    + intros i meta [[<- <-]|[Hne E]]%lookup_insert_Some.
      * exists now, r, p. split_and!; [apply elem_of_app; right; left|by rewrite lookup_insert_eq|].
        exists req, data, m, sums. split_and!; try done. by rewrite Epk, (DecodeLWPKG_signature _ _ _ Epk).
      * destruct (Hp _ _ E) as (now' & r' & q & ? & ? & ?). exists now', r', q.
        by rewrite lookup_insert_ne.
Qed.

Lemma delete_ok id log reg : registry_ok log reg -> registry_ok log (deletePackage id reg).2.
Proof.
  intros [Hd Hp]. unfold deletePackage, Delete. destruct (mr_packages reg !! id); [|done]. split; simpl.
  - by rewrite !dom_delete_L, Hd.
  - intros i meta [Hne E]%lookup_delete_Some. destruct (Hp _ _ E) as (now0 & r0 & q & ? & ? & ?).
    exists now0, r0, q. by rewrite lookup_delete_ne.
Qed.

Lemma ServeRegistry_ok now order r log reg :
  registry_ok log reg ->
  registry_ok (log ++ [(now, r)]) (ServeRegistry to_lower equal_fold decode_publish now order r reg).1.2.
Proof.
  intros Hok. pose proof (registry_ok_more _ _ (now, r) Hok) as Hmore. unfold ServeRegistry.
  case_decide; [done|]. case_decide.
  { unfold handlePackages. destruct (rq_Method r) eqn:Er; try done.
    pose proof (publish_ok now r log reg Er Hok) as Hp. by destruct (publishPackage _ _ _ _) as [[? ?] ?]. }
  case_decide; [done|]. destruct (strip_prefix _ _); [|done]. unfold handlePackageByID. case_decide; [done|].
  destruct (rq_Method r); try done. pose proof (delete_ok (default (rq_Path r) (strip_prefix packages_prefix (rq_Path r)))
    _ _ Hmore) as Hp. by destruct (deletePackage _ _).
Qed.

(** The registry after the requests, each at its time; [order] is how the
    packages are ranged over at each request. *)
Fixpoint serve_registry (order : MemoryRegistry -> list PackageMeta) (reqs : list (Z * RRequest)) (reg : MemoryRegistry)
    : MemoryRegistry :=
  match reqs with
  | [] => reg
  | (now, r) :: reqs =>
      serve_registry order reqs (ServeRegistry to_lower equal_fold decode_publish now (order reg) r reg).1.2
  end.

Lemma serve_registry_ok order reqs log reg :
  registry_ok log reg -> registry_ok (log ++ reqs) (serve_registry order reqs reg).
Proof.
  revert log reg. induction reqs as [|[now r] reqs IH]; intros log reg Hok; [by rewrite app_nil_r|].
  cbn [serve_registry]. change ((now, r) :: reqs) with ([(now, r)] ++ reqs). rewrite (assoc_L (++)). by apply IH, ServeRegistry_ok.
Qed.

(** * Property *)

(** C8: Whatever HTTP requests the package registry is sent: every package it
    lists can be installed and came in one of the requests, with a signature
    over the archive that verifies under the recorded publisher's key, a
    valid manifest, and files that match the manifest's checksums; it is
    listed under the ID of its name, version and author, with the metadata of
    that manifest. *)
Theorem registry_serves_verified order reqs id meta :
  let reg := serve_registry order reqs NewMemoryRegistry in
  Get_ id reg = Some meta ->
  exists now r p, (now, r) ∈ reqs /\ Install id reg = Some p /\ published now r id meta p.
Proof.
  intros reg Hget. assert (registry_ok [] NewMemoryRegistry) as Hnew.
  { split; [done|]. intros i m. cbn [mr_packages NewMemoryRegistry]. by rewrite lookup_empty. }
  destruct (serve_registry_ok order reqs [] _ Hnew) as [_ Hp]. by apply Hp.
Qed.
End lemmas.

(** ** Witness and examples *)

Module RegistrySample.
Definition manifest_pack (m : Manifest) : list positive :=
  [encode (m_Name m); encode (m_Version m); encode (m_Description m); encode (m_Author m); encode (m_Homepage m);
   encode (m_License m); encode (m_Entry m); encode (m_Platform m); encode (m_Dependencies m);
   encode (m_Checksums m); encode (m_Size m); encode (m_Created m)].
Definition manifest_unpack (l : list positive) : option Manifest :=
  match l with
  | [a; b; c; d; e; f; g; h; i; j; k; m] =>
      a ← decode a; b ← decode b; c ← decode c; d ← decode d; e ← decode e; f ← decode f;
      g ← decode g; h ← decode h; i ← decode i; j ← decode j; k ← decode k; m ← decode m;
      Some (mkManifest a b c d e f g h i j k m)
  | _ => None
  end.
Lemma manifest_unpack_pack m : manifest_unpack (manifest_pack m) = Some m.
Proof. unfold manifest_unpack, manifest_pack. rewrite !decode_encode. by destruct m. Qed.
#[export] Instance manifest_countable : Countable Manifest.
Proof. exact (inj_countable manifest_pack manifest_unpack manifest_unpack_pack). Defined.

Definition toy_package : PackageLib.
Proof.
  refine {| sha256 := fun b => take 32 (b ++ zeroes 32);
    archive_write := fun l => count_encode l;
    archive_read := fun b =>
      (fun l : list (bytes * bytes) => (fun f => (false, f.1, f.2)) <$> l) <$> ToyJSON.of_json b;
    name_ok := fun _ => True;
    marshalManifest := ToyJSON.to_json; unmarshalManifest := ToyJSON.of_json;
    manifest_ok := fun _ => True |}.
  - intros files _. destruct (ToyJSON.of_to_json files) as (b & [= <-] & Hd). by rewrite Hd.
  - intros m _. apply ToyJSON.of_to_json.
Defined.
#[local] Existing Instance toy_package.
#[local] Existing Instance toy_ed25519.

Definition key : bytes := replicate 32 (byte_of 9).
Definition file : bytes := str "hi".
Definition manifest : Manifest :=
  mkManifest (str "app") (str "1") [] (str "ann") [] [] (str "main") None None
    (Some {[str "a" := fmtHex (sha256 file)]}) 2 0.
Definition archive : bytes :=
  archive_write [(ManifestPath, match marshalManifest manifest with Ok b => b | Err _ => [] end);
                 (FilesDir ++ str "a", file)].
Definition package : LWPKG := mkPackage (Some manifest) {[str "a" := file]} (ed_sign key archive).
Definition id : bytes := PackageID (str "app") (str "1") (str "ann").
Definition decode_body (b : bytes) : result PublishRequest :=
  if decide (b = str "good") then Ok (mkPublish (Some archive) (ed_sign key archive) key)
  else if decide (b = str "forged") then Ok (mkPublish (Some archive) (ed_sign (zeroes 32) archive) key)
  else Err (ErrText "json").
Definition post (body : string) : RRequest := mkRRequest RPost (str "/api/v1/packages") [] [] [] [] (str body).
Definition order (r : MemoryRegistry) : list PackageMeta := List_ r.
Definition fold (a b : bytes) : bool := bool_decide (ToLower a = ToLower b).
Definition served (reqs : list (Z * RRequest)) : MemoryRegistry :=
  serve_registry ToLower fold decode_body order reqs NewMemoryRegistry.
Definition answer (r : RRequest) (reg : MemoryRegistry) : option Z :=
  rs_Status <$> (ServeRegistry ToLower fold decode_body 9 (order reg) r reg).1.1.
End RegistrySample.
Import RegistrySample.
#[local] Existing Instance toy_package.
#[local] Existing Instance toy_ed25519.

(** A forged package is refused, a genuine one entered once. *)
Lemma registry_answers :
  answer (post "forged") NewMemoryRegistry = Some 401 /\ answer (post "good") NewMemoryRegistry = Some 201 /\
  answer (post "good") (served [(5, post "good")]) = Some 409.
Proof. split_and!; vm_compute; reflexivity. Qed.

(** Anyone may delete a package: the request carries no signature. *)
Lemma delete_needs_no_signature :
  let r := mkRRequest RDelete (packages_prefix ++ id) [] [] [] [] [] in
  answer r (served [(5, post "good")]) = Some 204 /\
  Get_ id (served [(5, post "good"); (6, r)]) = None.
Proof. cbv zeta. split; vm_compute; reflexivity. Qed.

(** A negative offset makes the search handler panic. *)
Lemma search_negative_offset_panics :
  answer (mkRRequest RGet (str "/api/v1/search") [] [] [] (str "-1") []) (served [(5, post "good")]) = None.
Proof. vm_compute. reflexivity. Qed.

Lemma registry_serves_verified_witness :
  exists now r p, (now, r) ∈ [(4, post "forged"); (5, post "good")] /\
    Install id (served [(4, post "forged"); (5, post "good")]) = Some p /\
    published decode_body now r id
      (mkMeta id (str "app") (str "1") [] (str "ann") [] (str "main") 5 5 0 true key) p.
Proof.
  unfold served. pose proof (registry_serves_verified ToLower fold decode_body order
    [(4, post "forged"); (5, post "good")] id
    (mkMeta id (str "app") (str "1") [] (str "ann") [] (str "main") 5 5 0 true key)) as Hp.
  cbv zeta in Hp. apply Hp. vm_compute. reflexivity.
Defined.
