(* ===== verification/Messaging.v ===== *)
(** * Messaging (pkg/services/messaging/messaging.go)

    Channels with their members, and the history of each channel in the store
    in memory.  The store is an interface in the code; here it is the one the
    package has.  The clock is an argument, times on the wire are nanoseconds
    in 64 bits. *)

From S2P Require Import Prelude Bytes Hash Ed25519.
Local Open Scope Z_scope.

Abbreviation ChannelID := bytes.

Record Message := mkMsg {
  msg_ID : bytes;
  msg_ChannelID : ChannelID;
  msg_Sender : bytes;
  msg_Timestamp : Z;
  msg_Content : bytes;
  msg_Signature : bytes;
  msg_ParentID : bytes;
  msg_Type : Z;
}.

#[global] Instance ChatMessage_eq_dec : EqDecision Message.
Proof. solve_decision. Defined.

(** ** The store *)

Abbreviation memoryStore := (gmap ChannelID (list Message)).

Definition NewMemoryStore : memoryStore := ∅.

Definition history_of (channel : ChannelID) (s : memoryStore) : list Message := default [] (s !! channel).

Definition Append (channel : ChannelID) (msg : Message) (s : memoryStore) : memoryStore :=
  <[channel := history_of channel s ++ [msg]]> s.

(** The index behind the first message with this ID, 0 without one. *)
Definition start_after (after : bytes) (all : list Message) : nat :=
  match list_find (fun m => msg_ID m = after) all with Some (i, _) => S i | None => 0 end.

Definition History (channel : ChannelID) (after : bytes) (limit : Z) (s : memoryStore) : list Message :=
  let all := history_of channel s in
  let start := start_after after all in
  if decide (length all <= start)%nat then []
  else
    let rest := Z.of_nat (length all - start) in
    let limit := if (limit <=? 0) || (rest <? limit) then rest else limit in
    take (Z.to_nat limit) (drop start all).

(** ** The service *)

Record Channel := mkChannel {
  ch_ID : ChannelID;
  ch_Members : gset bytes;
  ch_Created : Z;
  ch_LastSeen : Z;
}.

Record Service := mkMessaging {
  ms_channels : gmap ChannelID Channel;
  ms_store : memoryStore;
  ms_privKey : bytes;
}.

Section service.
Context `{Hash256, Ed25519}.

Definition NewService (privKey : bytes) : Service := mkMessaging ∅ NewMemoryStore privKey.

Definition CreateChannel (now : Z) (members : list bytes) (s : Service) : ChannelID * Service :=
  let id := sha3 (concat members) in
  (id, mkMessaging (<[id := mkChannel id (list_to_set members) now 0]> (ms_channels s)) (ms_store s) (ms_privKey s)).

Definition nextID (sender content : bytes) : bytes := take 16 (sha3 (sender ++ content)).

Definition Publish (now : Z) (channelID sender content parentID : bytes) (s : Service) : result Message * Service :=
  match ms_channels s !! channelID with
  | None => (Err (ErrText "channel not found"), s)
  | Some ch =>
      if decide (sender ∉ ch_Members ch) then (Err (ErrText "not a channel member"), s) else
      let id := nextID sender content in
      let msg := mkMsg id channelID sender (time_unix_nano now) content (ed_sign (ms_privKey s) (id ++ content))
                   parentID 0 in
      (Ok msg,
       mkMessaging (<[channelID := mkChannel (ch_ID ch) (ch_Members ch) (ch_Created ch) now]> (ms_channels s))
         (Append channelID msg (ms_store s)) (ms_privKey s))
  end.

Definition History_ (channelID after : bytes) (limit : Z) (s : Service) : list Message :=
  History channelID after limit (ms_store s).

Definition MarshalChannel (channelID : ChannelID) (s : Service) : result bytes :=
  match ms_channels s !! channelID with
  | None => Err (ErrText "channel not found")
  | Some ch => Ok (le_put 8 (wrapU 64 (time_unix_nano (ch_Created ch)))
                   ++ le_put 8 (wrapU 64 (time_unix_nano (ch_LastSeen ch))) ++ zeroes 4)
  end.

Definition UnmarshalChannel (data : bytes) : result ChannelID :=
  if len data <? 16 then Err (ErrText "data too short") else Ok (zeroes 32).
End service.

(** A reader that asks for the next page after the last message it has, and
    stops at an empty one. *)
Fixpoint read_pages (fuel : nat) (channel : ChannelID) (limit : Z) (s : memoryStore) (got : list Message) : list Message :=
  match fuel with
  | O => got
  | S fuel =>
      let after := match last got with Some m => msg_ID m | None => [] end in
      match History channel after limit s with
      | [] => got
      | page => read_pages fuel channel limit s (got ++ page)
      end
  end.

(** * Lemmas *)

Lemma start_after_last l1 l2 m :
  last l1 = Some m -> NoDup (msg_ID <$> l1 ++ l2) -> start_after (msg_ID m) (l1 ++ l2) = length l1.
Proof.
  intros Hl Hnd. apply last_Some in Hl as [l1' ->]. unfold start_after.
  assert (list_find (fun x => msg_ID x = msg_ID m) ((l1' ++ [m]) ++ l2) = Some (length l1', m)) as ->.
  { apply list_find_Some. split_and!; [|done|].
    - rewrite <- app_assoc. by apply list_lookup_middle.
    - intros j y Hj Hlt Heq. rewrite <- app_assoc in Hj. rewrite lookup_app_l in Hj by done.
      rewrite <- app_assoc, !fmap_app in Hnd. apply NoDup_app in Hnd as (_ & Hn & _).
      apply (Hn (msg_ID m)); [|by left]. rewrite <- Heq. apply list_elem_of_fmap.
      exists y. split; [done|]. by eapply list_elem_of_lookup_2. }
  rewrite length_app. simpl. lia.
Qed.

(** A page is the next messages in order, as many as asked for. *)
Lemma History_page channel limit s got rest :
  history_of channel s = got ++ rest -> NoDup (msg_ID <$> got ++ rest) -> Forall (fun m => msg_ID m <> []) (got ++ rest) ->
  let after := match last got with Some m => msg_ID m | None => [] end in
  History channel after limit s = if limit <=? 0 then rest else take (Z.to_nat limit) rest.
Proof.
  intros Hh Hnd Hne after. unfold History. rewrite Hh.
  assert (start_after after (got ++ rest) = length got) as ->.
  { unfold after. destruct (last got) as [m|] eqn:E; [by apply start_after_last|].
    apply last_None in E as ->. unfold start_after.
    destruct (list_find _ _) as [[i m]|] eqn:E; [|done]. apply list_find_Some in E as (Hi & Hid & _).
    rewrite Forall_forall in Hne. exfalso. by apply (Hne m); [eapply list_elem_of_lookup_2|]. }
  rewrite drop_app_length, length_app. case_decide as Hlen.
  - assert (rest = []) as -> by (apply length_zero_iff_nil; lia). destruct (limit <=? 0); by rewrite ?take_nil.
  - replace (length got + length rest - length got)%nat with (length rest) by lia.
    destruct (Z.leb_spec limit 0) as [Hl|Hl]; simpl; [by rewrite Nat2Z.id, firstn_all|].
    destruct (Z.ltb_spec (Z.of_nat (length rest)) limit); [|done].
    rewrite Nat2Z.id, firstn_all. symmetry. apply take_ge. lia.
Qed.

Lemma read_pages_all channel limit s got rest fuel :
  history_of channel s = got ++ rest -> NoDup (msg_ID <$> got ++ rest) -> Forall (fun m => msg_ID m <> []) (got ++ rest) ->
  (length rest <= fuel)%nat -> read_pages fuel channel limit s got = got ++ rest.
Proof.
  revert got rest. induction fuel as [|fuel IH]; intros got rest Hh Hnd Hne Hf; cbn [read_pages].
  - assert (rest = []) as -> by (apply length_zero_iff_nil; lia). by rewrite app_nil_r.
  - rewrite (History_page _ _ _ got rest) by done. destruct rest as [|m rest].
    { rewrite app_nil_r. destruct (limit <=? 0); by rewrite ?take_nil. }
    assert (exists p q, (if limit <=? 0 then m :: rest else take (Z.to_nat limit) (m :: rest)) = m :: p /\ rest = p ++ q)
      as (p & q & -> & ->).
    { destruct (Z.leb_spec limit 0); [exists rest, []; by rewrite app_nil_r|].
      destruct (Z.to_nat limit) as [|n] eqn:En; [lia|]. exists (take n rest), (drop n rest).
      by rewrite take_drop. }
    rewrite (IH (got ++ m :: p) q); [by rewrite <- app_assoc|..].
    + by rewrite <- app_assoc.
    + by rewrite <- app_assoc.
    + by rewrite <- app_assoc.
    + simpl in Hf. rewrite length_app in Hf. lia.
Qed.

Section props.
Context `{Hash256, Ed25519}.

(** A publication that succeeds adds one message at the end of the channel's
    history, from a member, signed with the key of the service. *)
Lemma Publish_spec now ch sender content parent s :
  let '(r, s') := Publish now ch sender content parent s in
  match r with
  | Err _ => s' = s
  | Ok m =>
      (exists c, ms_channels s !! ch = Some c /\ sender ∈ ch_Members c) /\
      history_of ch (ms_store s') = history_of ch (ms_store s) ++ [m] /\
      (forall other, other <> ch -> history_of other (ms_store s') = history_of other (ms_store s)) /\
      msg_Sender m = sender /\ msg_Content m = content /\
      ed_verify (ed_public (ms_privKey s)) (msg_ID m ++ content) (msg_Signature m) = true
  end.
Proof.
  unfold Publish. destruct (ms_channels s !! ch) as [c|] eqn:E; [|done]. case_decide as Hm; [done|].
  split_and!; [exists c; split; [done|]; by destruct (decide (sender ∈ ch_Members c))| | |done|done|].
  - unfold history_of at 1, Append. simpl. by rewrite lookup_insert_eq.
  - intros other Hne. unfold history_of at 1, Append. simpl. by rewrite lookup_insert_ne.
  - apply ed_verify_sign.
Qed.

(** The messages a channel has seen, read page by page from the beginning,
    are all of them, once each and in order, if no two of them have the same
    sender and content. *)
Lemma channel_read_back ch limit s :
  let h := history_of ch (ms_store s) in
  NoDup (msg_ID <$> h) -> Forall (fun m => msg_ID m <> []) h ->
  read_pages (length h) ch limit (ms_store s) [] = h.
Proof. intros h Hnd Hne. by apply (read_pages_all ch limit _ [] h). Qed.
End props.

(** ** Examples *)

Module MessagingSample.
#[local] Existing Instance toy_ed25519.
Definition wide_hash : Hash256.
Proof. refine {| sha3 := fun b => take 32 (b ++ zeroes 32) |}. intros b. rewrite length_take, length_app, length_zeroes. lia. Defined.
#[local] Existing Instance wide_hash.
Definition ann : bytes := [byte_of 65].
Definition room : Service := (CreateChannel 0 [ann] (NewService (zeroes 32))).2.
Definition room_id : bytes := (CreateChannel 0 [ann] (NewService (zeroes 32))).1.
Definition say_ (text : string) (s : Service) : Service := (Publish 1 room_id ann (str text) [] s).2.
Definition talk : Service := say_ "hi" (say_ "yes" (say_ "hi" room)).
Definition content (l : list Message) : list bytes := msg_Content <$> l.
End MessagingSample.
Import MessagingSample.

(** The ID of a message is a hash of sender and content: a member who repeats
    a line gives two messages one ID, and a reader who has the second is sent
    what followed the first, again and again. *)
Lemma repeated_line_loops :
  content (History room_id (match last (history_of room_id (ms_store talk)) with Some m => msg_ID m | None => [] end) 0
    (ms_store talk)) = [str "yes"; str "hi"].
Proof. vm_compute. reflexivity. Qed.
