(* ===== verification/DocsExport.v ===== *)
(** * Export of documents (pkg/services/docs/export.go)

    Markdown and HTML, the plain text of a Markdown string, line differences.
    A difference looks its lines up in sets of strings. *)

From S2P Require Import Prelude Bytes Decimal Text Docs DocsServer Imap.
Local Open Scope Z_scope.

Definition BlockHeading1 : BlockType := 1.
Definition BlockHeading2 : BlockType := 2.
Definition BlockHeading3 : BlockType := 3.
Definition BlockBulletList : BlockType := 4.
Definition BlockNumberedList : BlockType := 5.
Definition BlockCodeBlock : BlockType := 6.
Definition BlockQuote : BlockType := 7.

Definition ExportMarkdown : Z := 0.
Definition ExportHTML : Z := 1.

Definition nl : bytes := [Byte.x0a].
Definition quote : bytes := [Byte.x22].

(** ** Markdown *)

Definition formatMarkdownLine (line : bytes) (bt : BlockType) (index : Z) : bytes :=
  if bt =? BlockHeading1 then str "# " ++ line
  else if bt =? BlockHeading2 then str "## " ++ line
  else if bt =? BlockHeading3 then str "### " ++ line
  else if bt =? BlockBulletList then str "- " ++ line
  else if bt =? BlockNumberedList then dec (index + 1) ++ str ". " ++ line
  else if bt =? BlockCodeBlock then str "```" ++ nl ++ line ++ nl ++ str "```"
  else if bt =? BlockQuote then str "> " ++ line
  else line.

Definition markdown_line (bts : list BlockType) (i : nat) (line : bytes) : bytes :=
  match bts !! i with
  | Some bt => formatMarkdownLine line bt (Z.of_nat i)
  | None => line
  end ++ nl.

Definition ToMarkdown (d : Document) : bytes :=
  (if decide (d_title d = []) then [] else str "# " ++ d_title d ++ nl ++ nl)
  ++ concat (imap (markdown_line (d_blockTypes d)) (d_lines d)).

(** ** HTML *)

(** [html.EscapeString] *)
Definition escape_byte (b : byte) : bytes :=
  if u8 b =? 38 then str "&amp;"
  else if u8 b =? 39 then str "&#39;"
  else if u8 b =? 60 then str "&lt;"
  else if u8 b =? 62 then str "&gt;"
  else if u8 b =? 34 then str "&#34;"
  else [b].

Definition EscapeString (s : bytes) : bytes := concat (escape_byte <$> s).

Definition formatHTMLLine (line : bytes) (bt : BlockType) : bytes :=
  let escaped := EscapeString line in
  if bt =? BlockHeading1 then str "<h1>" ++ escaped ++ str "</h1>"
  else if bt =? BlockHeading2 then str "<h2>" ++ escaped ++ str "</h2>"
  else if bt =? BlockHeading3 then str "<h3>" ++ escaped ++ str "</h3>"
  else if bt =? BlockBulletList then str "<ul><li>" ++ escaped ++ str "</li></ul>"
  else if bt =? BlockNumberedList then str "<ol><li>" ++ escaped ++ str "</li></ol>"
  else if bt =? BlockCodeBlock then str "<pre><code>" ++ escaped ++ str "</code></pre>"
  else if bt =? BlockQuote then str "<blockquote>" ++ escaped ++ str "</blockquote>"
  else str "<p>" ++ escaped ++ str "</p>".

Definition html_head : bytes := Eval vm_compute in
  str "<!DOCTYPE html>" ++ nl ++ str "<html lang=" ++ quote ++ str "en" ++ quote ++ str ">" ++ nl ++ str "<head>" ++ nl
  ++ str "  <meta charset=" ++ quote ++ str "UTF-8" ++ quote ++ str ">" ++ nl
  ++ str "  <meta name=" ++ quote ++ str "viewport" ++ quote ++ str " content=" ++ quote
  ++ str "width=device-width, initial-scale=1.0" ++ quote ++ str ">" ++ nl.

Definition html_style : bytes := Eval vm_compute in
  str "  <style>" ++ nl
  ++ str "    body { font-family: -apple-system, BlinkMacSystemFont, 'Segoe UI', Roboto, sans-serif; max-width: 800px; margin: 0 auto; padding: 2rem; line-height: 1.6; }" ++ nl
  ++ str "    h1 { border-bottom: 1px solid #eaecef; padding-bottom: 0.3em; }" ++ nl
  ++ str "    h2 { border-bottom: 1px solid #eaecef; padding-bottom: 0.3em; }" ++ nl
  ++ str "    pre { background: #f6f8fa; padding: 1rem; border-radius: 6px; overflow-x: auto; }" ++ nl
  ++ str "    blockquote { border-left: 4px solid #dfe2e5; padding-left: 1rem; color: #6a737d; }" ++ nl
  ++ str "  </style>" ++ nl ++ str "</head>" ++ nl ++ str "<body>" ++ nl.

Definition html_line (bts : list BlockType) (i : nat) (line : bytes) : bytes :=
  formatHTMLLine line (default BlockParagraph (bts !! i)) ++ nl.

Definition html_title (d : Document) (open close : string) : bytes :=
  if decide (d_title d = []) then [] else str open ++ EscapeString (d_title d) ++ str close ++ nl.

Definition ToHTML (d : Document) : bytes :=
  html_head ++ html_title d "  <title>" "</title>" ++ html_style ++ html_title d "<h1>" "</h1>"
  ++ concat (imap (html_line (d_blockTypes d)) (d_lines d)) ++ str "</body>" ++ nl ++ str "</html>" ++ nl.

Definition ToFormat (format : Z) (d : Document) : bytes :=
  if format =? ExportHTML then ToHTML d else ToMarkdown d.

Definition ExportToBytes (d : Document) (format : Z) : bytes := ToFormat format d.

(** ** Text *)

Definition PlainText (d : Document) : bytes := Text d.

Definition WordCount (d : Document) : nat :=
  let text := Text d in if decide (text = []) then 0 else length (Fields text).

Definition CharCount (d : Document) : Z := Rga.Length (d_rga d).
Definition LineCount (d : Document) : nat := length (d_lines d).

Definition Diff (old new : DocumentState) : list bytes :=
  ((fun l => str "+ " ++ l) <$> filter (fun l => l ∉ (list_to_set (st_Content old) : gset bytes)) (st_Content new))
  ++ ((fun l => str "- " ++ l) <$> filter (fun l => l ∉ (list_to_set (st_Content new) : gset bytes)) (st_Content old)).

(** One line of [MarkdownToPlainText], trimmed and not empty. *)
Definition plain_line (line : bytes) : bytes :=
  let line := if HasPrefix line (str "#") then TrimSpace (drop_leading (str "# ") line) else line in
  let line := if HasPrefix line (str ">") then TrimSpace (drop_leading (str "> ") line) else line in
  let line := TrimRight line (str "*") in
  let line := if HasPrefix line (str "- ") || HasPrefix line (str "* ") then drop 2 line else line in
  let line := match Index line (str ". ") with
              | Some i => if decide (i < 4)%nat then drop (i + 2) line else line
              | None => line
              end in
  TrimSpace (Trim line (str "`")).

Definition MarkdownToPlainText (md : bytes) : bytes :=
  Join nl (filter (fun l => l <> [])
    (plain_line <$> filter (fun l => l <> []) (TrimSpace <$> Split Byte.x0a md))).

Definition MergeMarkdown (a b : DocumentState) : bytes :=
  str "# " ++ st_Title a ++ str " (merged)" ++ nl ++ nl ++ str "## From Document A" ++ nl ++ nl
  ++ concat ((fun l => l ++ nl) <$> st_Content a)
  ++ nl ++ str "## From Document B" ++ nl ++ nl ++ concat ((fun l => l ++ nl) <$> st_Content b).

(** * Lemmas *)

(** ** Tags

    The markup of a text: what stands between an opening and the next closing
    angle bracket.  The state of the scan is the tag being read, if any, and
    the tags found. *)

Definition tag_step (st : option bytes * list bytes) (b : byte) : option bytes * list bytes :=
  match st with
  | (None, found) => if u8 b =? 60 then (Some [], found) else (None, found)
  | (Some tag, found) => if u8 b =? 62 then (None, found ++ [tag]) else (Some (tag ++ [b]), found)
  end.

Definition scan_tags (st : option bytes * list bytes) (s : bytes) : option bytes * list bytes := foldl tag_step st s.

Definition tags (s : bytes) : list bytes := (scan_tags (None, []) s).2.

Lemma scan_tags_app st a b : scan_tags st (a ++ b) = scan_tags (scan_tags st a) b.
Proof. apply foldl_app. Qed.

(** Escaped text has no markup. *)
Lemma scan_tags_escaped found s : scan_tags (None, found) (EscapeString s) = (None, found).
Proof.
  induction s as [|b s IH]; [done|]. unfold EscapeString. rewrite fmap_cons. cbn [concat]. rewrite scan_tags_app.
  enough (scan_tags (None, found) (escape_byte b) = (None, found)) as -> by apply IH.
  unfold escape_byte. repeat case_match; try done. simpl.
  rewrite (proj2 (Z.eqb_neq (u8 b) 60)); [done|]. by apply Z.eqb_neq.
Qed.

(** The same text in two tags, escaped, leaves what the tags leave. *)
Lemma scan_tags_wrapped found (a b s : bytes) :
  (scan_tags (None, found) a).1 = None ->
  scan_tags (None, found) (a ++ EscapeString s ++ b) = scan_tags (None, found) (a ++ b).
Proof.
  intros Ha. rewrite !scan_tags_app. destruct (scan_tags (None, found) a) as [o f]. simpl in Ha. subst o.
  by rewrite scan_tags_escaped.
Qed.

Lemma scan_html_line found bts i line :
  scan_tags (None, found) (html_line bts i line) = scan_tags (None, found) (html_line bts i []) /\
  (scan_tags (None, found) (html_line bts i [])).1 = None.
Proof.
  unfold html_line, formatHTMLLine. cbv zeta. change (EscapeString []) with (@nil byte). set (bt := default _ _).
  repeat case_match; (split; [rewrite <- !(assoc_L (++)); by rewrite scan_tags_wrapped|done]).
Qed.

Lemma scan_html_lines found bts k lines :
  scan_tags (None, found) (concat (imap (fun i => html_line bts (k + i)) lines))
  = scan_tags (None, found) (concat (imap (fun i _ => html_line bts (k + i) []) lines)) /\
  (scan_tags (None, found) (concat (imap (fun i _ => html_line bts (k + i) []) lines))).1 = None.
Proof.
  revert found k. induction lines as [|l lines IH]; intros found k; [done|]. rewrite !imap_cons. cbn [concat].
  rewrite !scan_tags_app. destruct (scan_html_line found bts (k + 0) l) as [-> Hn].
  destruct (scan_tags (None, found) _) as [o f]. simpl in Hn. subst o.
  assert (forall g : nat -> bytes -> bytes, imap ((fun i => g (k + i)%nat) ∘ S) lines = imap (fun i => g (S k + i)%nat) lines) as Hs.
  { intros g. apply imap_ext. intros i x _. simpl. by rewrite Nat.add_succ_r. }
  rewrite (Hs (html_line bts)), (Hs (fun i _ => html_line bts i [])). apply IH.
Qed.

Lemma scan_html_title found d open close :
  (scan_tags (None, found) (str open)).1 = None ->
  scan_tags (None, found) (html_title d open close)
  = scan_tags (None, found) (if decide (d_title d = []) then [] else str open ++ str close ++ nl).
Proof. intros Ho. unfold html_title. case_decide; [done|]. by apply scan_tags_wrapped. Qed.

(** The document with its lines blanked out and its title shortened. *)
Definition skeleton (d : Document) : bytes :=
  html_head ++ (if decide (d_title d = []) then [] else str "  <title>" ++ str "</title>" ++ nl)
  ++ html_style ++ (if decide (d_title d = []) then [] else str "<h1>" ++ str "</h1>" ++ nl)
  ++ concat (imap (fun i _ => html_line (d_blockTypes d) i []) (d_lines d)) ++ str "</body>" ++ nl ++ str "</html>" ++ nl.

Lemma tags_skeleton d : tags (ToHTML d) = tags (skeleton d).
Proof.
  unfold tags, ToHTML, skeleton. f_equal. rewrite !scan_tags_app.
  assert (exists f, scan_tags (None, []) html_head = (None, f)) as [f1 ->] by (eexists; vm_compute; reflexivity).
  rewrite scan_html_title by done.
  assert (exists f, scan_tags (None, f1) (if decide (d_title d = []) then [] else str "  <title>" ++ str "</title>" ++ nl)
            = (None, f)) as [f2 ->] by (case_decide; by eexists).
  assert (exists f, scan_tags (None, f2) html_style = (None, f)) as [f3 ->] by (by eexists).
  rewrite scan_html_title by done.
  assert (exists f, scan_tags (None, f3) (if decide (d_title d = []) then [] else str "<h1>" ++ str "</h1>" ++ nl)
            = (None, f)) as [f4 ->] by (case_decide; by eexists).
  assert (scan_tags (None, f4) (concat (imap (html_line (d_blockTypes d)) (d_lines d)))
          = scan_tags (None, f4) (concat (imap (fun i _ => html_line (d_blockTypes d) i []) (d_lines d)))) as ->; [|done].
  exact (proj1 (scan_html_lines f4 (d_blockTypes d) 0 (d_lines d))).
Qed.

(** * Properties *)

(** C29: Text cannot become markup: the tags of an exported HTML document are
    those of the document with every line blanked out, so they depend only on
    the block types, the number of lines, and whether there is a title.  Two
    documents that agree on these have the same tags whatever they say. *)
Theorem docs_html_no_injection d d' :
  d_blockTypes d = d_blockTypes d' -> length (d_lines d) = length (d_lines d') ->
  (d_title d = [] <-> d_title d' = []) ->
  tags (ToHTML d) = tags (ToHTML d').
Proof.
  intros Hb Hl Ht. rewrite !tags_skeleton. f_equal. unfold skeleton.
  assert (forall A (x y : A), (if decide (d_title d = []) then x else y) = (if decide (d_title d' = []) then x else y)) as Hd.
  { intros A x y. repeat case_decide; tauto. }
  assert (imap (fun i _ => html_line (d_blockTypes d') i []) (d_lines d)
          = imap (fun i _ => html_line (d_blockTypes d') i []) (d_lines d')) as Hi.
  { apply list_eq. intros i. rewrite !list_lookup_imap.
    destruct (d_lines d !! i) eqn:E, (d_lines d' !! i) eqn:E'; try done.
    - apply lookup_lt_Some in E. apply lookup_ge_None in E'. lia.
    - apply lookup_lt_Some in E'. apply lookup_ge_None in E. lia. }
  by rewrite !Hd, Hb, Hi.
Qed.

(** A line of the new state is reported as added exactly if the old state has
    no such line, and the other way around. *)
Lemma Diff_spec old new x :
  x ∈ Diff old new <->
  (exists l, x = str "+ " ++ l /\ l ∈ st_Content new /\ l ∉ st_Content old) \/
  (exists l, x = str "- " ++ l /\ l ∈ st_Content old /\ l ∉ st_Content new).
Proof.
  unfold Diff. rewrite elem_of_app, !list_elem_of_fmap.
  setoid_rewrite list_elem_of_filter. setoid_rewrite elem_of_list_to_set.
  split; (intros [(l & ? & ? & ?)|(l & ? & ? & ?)]; [left|right]; by exists l).
Qed.

(** ** Examples *)

(** Any dot early in a line is taken for the number of a list. *)
Lemma plain_text_drops_words :
  MarkdownToPlainText (str "No. 5 is alive") = str "5 is alive".
Proof. vm_compute. reflexivity. Qed.

(** Markdown is not escaped: a paragraph that looks like a heading is one. *)
Lemma markdown_paragraph_becomes_heading :
  let doc line bt := mkDoc [] [] (Rga.NewRGA []) [bt] [str line] [] 0 0 0 [] in
  ToMarkdown (doc "# x" BlockParagraph) = ToMarkdown (doc "x" BlockHeading1).
Proof. vm_compute. reflexivity. Qed.

Lemma docs_html_no_injection_witness :
  let doc title line := mkDoc [] (str title) (Rga.NewRGA []) [BlockQuote] [str line] [] 0 0 0 [] in
  tags (ToHTML (doc "t" "<script>alert(1)</script>")) = tags (ToHTML (doc "<b>" "harmless")).
Proof. cbv zeta. apply docs_html_no_injection; [reflexivity|reflexivity|split; discriminate]. Defined.
