(* ===== verification/Noise.v ===== *)
(** * The Noise XX handshake (pkg/crypto/noise.go)

    A session is a record, a handshake message a function on it that can fail
    after it has changed the session: the code writes fields as it goes, and
    a caller may try again.  X25519, HKDF and secretbox are the interface
    [NoiseCrypto], with the laws their documentation gives.  The ephemeral
    secret is an argument. *)

From S2P Require Import Prelude Bytes Hash.
Local Open Scope Z_scope.

(** The primitives.  [x25519] fails on points of low order.  [hkdf secret salt
    info] is the output of the expander, of which the code reads at most 64
    bytes. *)
Class NoiseCrypto := {
  x25519 : bytes -> bytes -> option bytes;
  x25519_base : bytes -> bytes;
  x25519_base_length : forall a, length a = 32%nat -> length (x25519_base a) = 32%nat;
  x25519_agree : forall a b, length a = 32%nat -> length b = 32%nat ->
    exists s, x25519 a (x25519_base b) = Some s /\ x25519 b (x25519_base a) = Some s;
  hkdf : bytes -> bytes -> bytes -> bytes;
  hkdf_length : forall secret salt info, (64 <= length (hkdf secret salt info))%nat;
  seal : bytes -> bytes -> bytes -> bytes;
  open : bytes -> bytes -> bytes -> option bytes;
  seal_length : forall m n k, length (seal m n k) = (length m + 16)%nat;
  open_seal : forall m n k, open (seal m n k) n k = Some m;
}.

Definition protocolName : bytes := str "Noise_XX_25519_XSalsa20Poly1305_SHA3-256".
Definition MaxNonce : Z := 2 ^ 64 - 1.
Definition Overhead : Z := 16.

Record NoiseSession := mkNoise {
  isInitiator : bool;
  staticPublic : bytes;
  staticPrivate : bytes;
  ephemeralPublic : bytes;
  ephemeralPrivate : bytes;
  remotePublic : bytes;
  remoteEphemeral : bytes;
  ns_h : bytes;
  ns_ck : bytes;
  ns_ok : bool;
  sendKey : bytes;
  recvKey : bytes;
  sendCount : Z;
  recvCount : Z;
  ns_step : Z;
  ns_complete : bool;
}.

#[global] Instance NoiseSession_eq_dec : EqDecision NoiseSession.
Proof. solve_decision. Defined.

(** Assignments to the fields. *)
Definition set_remotePublic (k : bytes) (s : NoiseSession) : NoiseSession :=
  mkNoise (isInitiator s) (staticPublic s) (staticPrivate s) (ephemeralPublic s) (ephemeralPrivate s) k
    (remoteEphemeral s) (ns_h s) (ns_ck s) (ns_ok s) (sendKey s) (recvKey s) (sendCount s) (recvCount s)
    (ns_step s) (ns_complete s).
Definition set_remoteEphemeral (k : bytes) (s : NoiseSession) : NoiseSession :=
  mkNoise (isInitiator s) (staticPublic s) (staticPrivate s) (ephemeralPublic s) (ephemeralPrivate s) (remotePublic s)
    k (ns_h s) (ns_ck s) (ns_ok s) (sendKey s) (recvKey s) (sendCount s) (recvCount s) (ns_step s) (ns_complete s).
Definition set_symmetric (h ck : bytes) (ok : bool) (s : NoiseSession) : NoiseSession :=
  mkNoise (isInitiator s) (staticPublic s) (staticPrivate s) (ephemeralPublic s) (ephemeralPrivate s) (remotePublic s)
    (remoteEphemeral s) h ck ok (sendKey s) (recvKey s) (sendCount s) (recvCount s) (ns_step s) (ns_complete s).
Definition set_keys (send recv : bytes) (s : NoiseSession) : NoiseSession :=
  mkNoise (isInitiator s) (staticPublic s) (staticPrivate s) (ephemeralPublic s) (ephemeralPrivate s) (remotePublic s)
    (remoteEphemeral s) (ns_h s) (ns_ck s) (ns_ok s) send recv (sendCount s) (recvCount s) (ns_step s) (ns_complete s).
Definition set_counts (send recv : Z) (s : NoiseSession) : NoiseSession :=
  mkNoise (isInitiator s) (staticPublic s) (staticPrivate s) (ephemeralPublic s) (ephemeralPrivate s) (remotePublic s)
    (remoteEphemeral s) (ns_h s) (ns_ck s) (ns_ok s) (sendKey s) (recvKey s) send recv (ns_step s) (ns_complete s).
Definition set_step (step : Z) (complete : bool) (s : NoiseSession) : NoiseSession :=
  mkNoise (isInitiator s) (staticPublic s) (staticPrivate s) (ephemeralPublic s) (ephemeralPrivate s) (remotePublic s)
    (remoteEphemeral s) (ns_h s) (ns_ck s) (ns_ok s) (sendKey s) (recvKey s) (sendCount s) (recvCount s) step complete.

(** Computations that change a session and may fail part of the way. *)
Definition noiseM (A : Type) : Type := NoiseSession -> result A * NoiseSession.
Definition nret {A} (a : A) : noiseM A := fun s => (Ok a, s).
Definition nfail {A} (e : goerror) : noiseM A := fun s => (Err e, s).
Definition nbind {A B} (m : noiseM A) (f : A -> noiseM B) : noiseM B :=
  fun s => match m s with (Ok a, s') => f a s' | (Err e, s') => (Err e, s') end.
Definition ndo (f : NoiseSession -> NoiseSession) : noiseM unit := fun s => (Ok tt, f s).
Definition nwrap {A} (msg : string) (m : noiseM A) : noiseM A :=
  fun s => match m s with (Ok a, s') => (Ok a, s') | (Err _, s') => (Err (ErrText msg), s') end.
Definition nget {A} (f : NoiseSession -> A) : noiseM A := fun s => (Ok (f s), s).

Notation "x <~ m ; k" := (nbind m (fun x => k))
  (at level 100, m at next level, right associativity) : go_scope.
Notation "m ;~ k" := (nbind m (fun _ => k)) (at level 100, right associativity) : go_scope.
Local Open Scope go_scope.

Lemma nbind_do {A} f (k : unit -> noiseM A) s : nbind (ndo f) k s = k tt (f s).
Proof. reflexivity. Qed.
Lemma nbind_get {A B} (f : NoiseSession -> B) (k : B -> noiseM A) s : nbind (nget f) k s = k (f s) s.
Proof. reflexivity. Qed.
Lemma nbind_ok {A B} (m : noiseM B) (k : B -> noiseM A) s a s' : m s = (Ok a, s') -> nbind m k s = k a s'.
Proof. intros E. unfold nbind. by rewrite E. Qed.
Lemma nbind_err {A B} (m : noiseM B) (k : B -> noiseM A) s e s' : m s = (Err e, s') -> nbind m k s = (Err e, s').
Proof. intros E. unfold nbind. by rewrite E. Qed.

Section noise.
Context `{Hash256, NoiseCrypto}.

Definition zero32 : bytes := zeroes 32.

(** [priv[0] &= 248; priv[31] &= 127; priv[31] |= 64]. *)
Definition clamp (k : bytes) : bytes :=
  alter (fun b => byte_of (Z.lor (Z.land (u8 b) 127) 64)) 31%nat (alter (fun b => byte_of (Z.land (u8 b) 248)) 0%nat k).

Definition generateX25519Key (random : bytes) : bytes * bytes :=
  let priv := clamp random in (x25519_base priv, priv).

Definition new_session (initiator : bool) (random staticPub staticPriv : bytes) : NoiseSession :=
  let h := sha3 protocolName in
  let e := generateX25519Key random in
  mkNoise initiator staticPub staticPriv e.1 e.2 zero32 zero32 h h false zero32 zero32 0 0 0 false.

Definition NewNoiseInitiator (random staticPub staticPriv : bytes) : NoiseSession :=
  new_session true random staticPub staticPriv.
Definition NewNoiseResponder (random staticPub staticPriv : bytes) : NoiseSession :=
  new_session false random staticPub staticPriv.

(** ** Symmetric state *)

Definition mixHash (data : bytes) (s : NoiseSession) : NoiseSession :=
  set_symmetric (sha3 (ns_h s ++ data)) (ns_ck s) (ns_ok s) s.

Definition mixKey (dh : bytes) (s : NoiseSession) : NoiseSession :=
  set_symmetric (ns_h s) (take 32 (hkdf dh (ns_ck s) [Byte.x01])) true s.

Definition split (s : NoiseSession) : NoiseSession :=
  let out := hkdf [] (ns_ck s) [Byte.x01] in
  let k1 := take 32 out in
  let k2 := take 32 (drop 32 out) in
  if isInitiator s then set_keys k1 k2 s else set_keys k2 k1 s.

Definition zero_nonce : bytes := zeroes 24.

Definition encryptAndHash (plaintext : bytes) : noiseM bytes := fun s =>
  let out := if ns_ok s then seal plaintext zero_nonce (ns_ck s) else plaintext in
  (Ok out, mixHash out s).

Definition decryptAndHash (ciphertext : bytes) : noiseM bytes := fun s =>
  let out := if ns_ok s then open ciphertext zero_nonce (ns_ck s) else Some ciphertext in
  match out with
  | None => (Err (ErrText "AEAD decrypt failed"), s)
  | Some out => (Ok out, mixHash ciphertext s)
  end.

(** [curve25519.X25519] inside the handshake. *)
Definition dh (scalar point : bytes) : noiseM bytes :=
  match x25519 scalar point with
  | Some out => nret out
  | None => nfail (ErrText "bad input point: low order point")
  end.

(** ** Handshake messages

    The message to send and whether the handshake is complete; the payload
    the code returns between them is always nil.  A nil message to the
    initiator is the empty one. *)

Definition initiatorWrite (peerMsg : bytes) : noiseM (bytes * bool) :=
  step <~ nget ns_step;
  if step =? 0 then
    ndo (fun s => set_step 1 (ns_complete s) (mixHash (ephemeralPublic s) s)) ;~
    e <~ nget ephemeralPublic;
    nret (e, false)
  else if step =? 1 then
    if len peerMsg <? 32 then nfail (ErrText "short XX msg2") else
    ndo (fun s => set_remoteEphemeral (take 32 peerMsg) (mixHash (take 32 peerMsg) s)) ;~
    priv <~ nget ephemeralPrivate;
    re <~ nget remoteEphemeral;
    ee <~ dh priv re;
    ndo (mixKey ee) ;~
    rs <~ nwrap "decrypt responder static" (decryptAndHash (drop 32 peerMsg));
    if negb (len rs =? 32) then nfail (ErrText "bad responder static length") else
    ndo (set_remotePublic rs) ;~
    es <~ dh priv rs;
    ndo (mixKey es) ;~
    static <~ nget staticPublic;
    encStatic <~ encryptAndHash static;
    sp <~ nget staticPrivate;
    se <~ dh sp re;
    ndo (mixKey se) ;~
    ndo split ;~
    ndo (set_step 3 true) ;~
    nret (encStatic, true)
  else nfail (ErrText "invalid initiator step").

Definition responderWrite (peerMsg : bytes) : noiseM (bytes * bool) :=
  step <~ nget ns_step;
  if step =? 0 then
    if negb (len peerMsg =? 32) then nfail (ErrText "short XX msg1") else
    ndo (fun s => set_step 1 (ns_complete s) (set_remoteEphemeral peerMsg (mixHash peerMsg s))) ;~
    priv <~ nget ephemeralPrivate;
    re <~ nget remoteEphemeral;
    ee <~ dh priv re;
    ndo (mixKey ee) ;~
    static <~ nget staticPublic;
    encStatic <~ encryptAndHash static;
    sp <~ nget staticPrivate;
    es <~ dh sp re;
    ndo (mixKey es) ;~
    ndo (fun s => set_step 2 (ns_complete s) s) ;~
    e <~ nget ephemeralPublic;
    nret (e ++ encStatic, false)
  else if step =? 2 then
    initStatic <~ nwrap "decrypt initiator static" (decryptAndHash peerMsg);
    if negb (len initStatic =? 32) then nfail (ErrText "bad initiator static length") else
    ndo (set_remotePublic initStatic) ;~
    priv <~ nget ephemeralPrivate;
    se <~ dh priv initStatic;
    ndo (mixKey se) ;~
    ndo split ;~
    ndo (fun s => set_step (ns_step s) true s) ;~
    nret ([], true)
  else nfail (ErrText "invalid responder step").

Definition WriteHandshake (peerMsg : bytes) : noiseM (bytes * bool) :=
  complete <~ nget ns_complete;
  if complete : bool then nret ([], true) else
  initiator <~ nget isInitiator;
  if initiator : bool then initiatorWrite peerMsg else responderWrite peerMsg.

(** The same step with what it does to the session in view. *)
Lemma dh_ok scalar point out s : x25519 scalar point = Some out -> dh scalar point s = (Ok out, s).
Proof. intros E. unfold dh. by rewrite E. Qed.

Lemma decrypt_ok msg c out s :
  ns_ok s = true -> open c zero_nonce (ns_ck s) = Some out ->
  nwrap msg (decryptAndHash c) s = (Ok out, mixHash c s).
Proof. intros Hok Ho. unfold nwrap, decryptAndHash. by rewrite Hok, Ho. Qed.

Lemma encrypt_ok plain s :
  ns_ok s = true ->
  encryptAndHash plain s = (Ok (seal plain zero_nonce (ns_ck s)), mixHash (seal plain zero_nonce (ns_ck s)) s).
Proof. intros Hok. unfold encryptAndHash. by rewrite Hok. Qed.

(** ** The session *)

Definition counter_nonce (n : Z) : bytes := zeroes 16 ++ be_put 8 n.

Definition Encrypt (plaintext : bytes) : noiseM bytes := fun s =>
  if negb (ns_complete s) then (Err (ErrText "handshake not complete"), s)
  else if MaxNonce <? sendCount s then (Err (ErrText "send nonce overflow"), s)
  else (Ok (seal plaintext (counter_nonce (sendCount s)) (sendKey s)),
        set_counts (wrapU 64 (sendCount s + 1)) (recvCount s) s).

Definition Decrypt (ciphertext : bytes) : noiseM bytes := fun s =>
  if negb (ns_complete s) then (Err (ErrText "handshake not complete"), s)
  else if len ciphertext <? Overhead then (Err (ErrText "ciphertext too short"), s)
  else if MaxNonce <? recvCount s then (Err (ErrText "recv nonce overflow"), s)
  else
    let s' := set_counts (sendCount s) (wrapU 64 (recvCount s + 1)) s in
    match open ciphertext (counter_nonce (recvCount s)) (recvKey s) with
    | None => (Err (ErrText "decryption failed (bad MAC or key)"), s')
    | Some out => (Ok out, s')
    end.

Definition SessionKey (s : NoiseSession) : bytes := sendKey s.
Definition RecvSessionKey (s : NoiseSession) : bytes := recvKey s.
Definition RemotePublic (s : NoiseSession) : bytes := remotePublic s.
Definition Complete (s : NoiseSession) : bool := ns_complete s.

End noise.

(** A concrete instance, not secure: the shared secret is the exclusive or of
    both keys, a sealed message carries nonce and key in the clear. *)
Definition xor_bytes (a b : bytes) : bytes := zip_with (fun x y => byte_of (Z.lxor (u8 x) (u8 y))) a b.

Lemma xor_bytes_comm a b : xor_bytes a b = xor_bytes b a.
Proof.
  unfold xor_bytes. revert b. induction a as [|x a IH]; intros [|y b]; simpl; try done.
  by rewrite Z.lxor_comm, IH.
Qed.

Definition toy_tag (n k : bytes) : bytes := take 16 (drop 16 n ++ k ++ zeroes 16).

Definition toy_noise : NoiseCrypto.
Proof.
  refine {|
    x25519 := fun a p => Some (xor_bytes a p);
    x25519_base := fun a => a;
    hkdf := fun secret salt info => take 64 (xor_bytes secret salt ++ salt ++ zeroes 64);
    seal := fun m n k => toy_tag n k ++ m;
    open := fun c n k => if decide (take 16 c = toy_tag n k) then Some (drop 16 c) else None;
  |}.
  - done.
  - intros a b _ _. exists (xor_bytes a b). by rewrite (xor_bytes_comm b a).
  - intros. rewrite length_take, !length_app, length_zeroes. lia.
  - intros. unfold toy_tag. rewrite length_app, length_take, !length_app, length_zeroes. lia.
  - intros. assert (length (toy_tag n k) = 16%nat) as Hl
      by (unfold toy_tag; rewrite length_take, !length_app, length_zeroes; lia).
    by rewrite take_app_exact, decide_True, drop_app_exact by done.
Defined.
