(* ===== verification/Handshake.v ===== *)
(** * Handshakes of a connection (pkg/crypto/hybrid.go, pkg/transport/quic.go and hybrid.go)

    The hybrid session, which adds a Kyber secret to a Noise session, and the
    four functions that run a handshake over a stream.  Each of these is a
    function from the bytes that arrive on the stream to the bytes it writes
    and its outcome; two of them run against each other when what one writes is
    what the other reads. *)

From S2P Require Import Prelude Bytes Hash Noise.
Local Open Scope Z_scope.
Local Open Scope go_scope.

(** Kyber-1024 of the circl library. *)
Class Kyber := {
  kyber_key_pair : bytes -> bytes * bytes;
  kyber_encapsulate : bytes -> bytes -> bytes * bytes;
  kyber_decapsulate : bytes -> bytes -> bytes;
  kyber_pub_length : forall seed, length (kyber_key_pair seed).1 = 1568%nat;
  kyber_sec_length : forall seed, length (kyber_key_pair seed).2 = 3168%nat;
  kyber_ct_length : forall pk r, length (kyber_encapsulate pk r).1 = 1568%nat;
  kyber_correct : forall seed r,
    kyber_decapsulate (kyber_key_pair seed).2 (kyber_encapsulate (kyber_key_pair seed).1 r).1
    = (kyber_encapsulate (kyber_key_pair seed).1 r).2;
}.

Definition kyberPublicKeySize : Z := 1568.
Definition kyberSecretKeySize : Z := 3168.
Definition kyberCiphertextSize : Z := 1568.

Record HybridHandshakeState := mkHybrid {
  hy_noise : NoiseSession;
  kyberPub : bytes;
  kyberSec : bytes;
  kyberSS : bytes;
  peerKyberPub : bytes;
  hasKyberSS : bool;
}.

Definition set_noise (n : NoiseSession) (h : HybridHandshakeState) : HybridHandshakeState :=
  mkHybrid n (kyberPub h) (kyberSec h) (kyberSS h) (peerKyberPub h) (hasKyberSS h).

(** What a handshake leaves behind; the peer's ID is a hash of its key. *)
Record HandshakeResult := mkHandshake { PeerID : bytes; SendKey : bytes; RecvKey : bytes }.

#[global] Instance HandshakeResult_eq_dec : EqDecision HandshakeResult.
Proof. solve_decision. Defined.

Section handshake.
Context `{Hash256, NoiseCrypto, Kyber}.

Definition KyberEncap (random pk : bytes) : result (bytes * bytes) :=
  if negb (len pk =? kyberPublicKeySize) then Err (ErrText "invalid public key length")
  else Ok (kyber_encapsulate pk random).

Definition KyberDecap (ct sk : bytes) : result bytes :=
  if negb (len ct =? kyberCiphertextSize) then Err (ErrText "invalid ciphertext length")
  else if negb (len sk =? kyberSecretKeySize) then Err (ErrText "invalid secret key length")
  else Ok (kyber_decapsulate sk ct).

Definition NewHybridInitiator (random seed pub priv : bytes) : HybridHandshakeState :=
  mkHybrid (NewNoiseInitiator random pub priv) (kyber_key_pair seed).1 (kyber_key_pair seed).2 [] [] false.
Definition NewHybridResponder (random seed pub priv : bytes) : HybridHandshakeState :=
  mkHybrid (NewNoiseResponder random pub priv) (kyber_key_pair seed).1 (kyber_key_pair seed).2 [] [] false.

(** The message of the Noise session, after what the hybrid puts before it. *)
Definition noise_step (prefix msg : bytes) (h : HybridHandshakeState)
    : result (bytes * bool) * HybridHandshakeState :=
  match WriteHandshake msg (hy_noise h) with
  | (Err e, n) => (Err e, set_noise n h)
  | (Ok (out, done), n) => (Ok (prefix ++ out, done), set_noise n h)
  end.

(** [random] is what [KyberEncap] draws; [None] is the nil message. *)
Definition HybridWriteHandshake (random : bytes) (peerMsg : option bytes) (h : HybridHandshakeState)
    : result (bytes * bool) * HybridHandshakeState :=
  let msg := default [] peerMsg in
  if ns_complete (hy_noise h) then (Ok ([], true), h)
  else if isInitiator (hy_noise h) then
    match peerMsg with
    | None => noise_step (kyberPub h) [] h
    | Some [] => noise_step [] [] h
    | Some _ =>
        if len msg <? kyberCiphertextSize then (Err (ErrText "hybrid: responder message too short"), h) else
        match KyberDecap (take 1568 msg) (kyberSec h) with
        | Err e => (Err e, h)
        | Ok ss => noise_step [] (drop 1568 msg)
                     (mkHybrid (hy_noise h) (kyberPub h) (kyberSec h) ss (peerKyberPub h) true)
        end
    end
  else if ns_step (hy_noise h) <? 1 then
    if len msg <? kyberPublicKeySize then (Err (ErrText "hybrid: initiator message too short"), h) else
    match noise_step [] (drop 1568 msg) h with
    | (Err e, h') => (Err e, h')
    | (Ok (noiseMsg, _), h') =>
        match KyberEncap random (take 1568 msg) with
        | Err e => (Err e, h')
        | Ok (ct, ss) =>
            (Ok (ct ++ noiseMsg, false),
             mkHybrid (hy_noise h') (kyberPub h') (kyberSec h') ss (take 1568 msg) true)
        end
    end
  else noise_step [] msg h.

Definition session_info : bytes := str "LocalWEB-v2-session".
Definition HybridSessionKey (h : HybridHandshakeState) : bytes :=
  take 32 (hkdf (SessionKey (hy_noise h)) (kyberSS h) session_info).
Definition HybridRecvSessionKey (h : HybridHandshakeState) : bytes :=
  take 32 (hkdf (RecvSessionKey (hy_noise h)) (kyberSS h) session_info).
Definition HybridRemotePublic (h : HybridHandshakeState) : bytes := RemotePublic (hy_noise h).

Definition not_complete : goerror := ErrText "handshake not complete".
Definition noise_call (m : noiseM bytes) (h : HybridHandshakeState) : result bytes * HybridHandshakeState :=
  if negb (Complete (hy_noise h)) then (Err not_complete, h)
  else let '(r, n) := m (hy_noise h) in (r, set_noise n h).
Definition HybridEncrypt (plaintext : bytes) : HybridHandshakeState -> result bytes * HybridHandshakeState :=
  noise_call (Encrypt plaintext).
Definition HybridDecrypt (ciphertext : bytes) : HybridHandshakeState -> result bytes * HybridHandshakeState :=
  noise_call (Decrypt ciphertext).

(** [HybridKeyDerivation.DeriveTransportKey]: a key per context. *)
Definition DeriveTransportKey (sessionKey context : bytes) : bytes :=
  take 32 (hkdf sessionKey [] (str "LocalWEB-v2-transport" ++ context)).

(** ** Over a stream

    [w1], [w2] tell whether a write to the stream succeeds, [eof] whether the
    peer ends the stream in the orderly way. *)

Definition handshakeResult (remote send recv : bytes) : HandshakeResult := mkHandshake (SHA3Hash remote) send recv.
Definition noise_result (s : NoiseSession) : HandshakeResult :=
  handshakeResult (RemotePublic s) (SessionKey s) (RecvSessionKey s).
Definition hybrid_result (h : HybridHandshakeState) : HandshakeResult :=
  handshakeResult (HybridRemotePublic h) (HybridSessionKey h) (HybridRecvSessionKey h).

Definition noiseHandshake (random pub priv : bytes) (w1 : bool) (input : bytes) : bytes * result HandshakeResult :=
  match readFull 32 input with
  | (Err _, _) => ([], Err (ErrText "read noise first"))
  | (Ok first, rest) =>
      match WriteHandshake first (NewNoiseResponder random pub priv) with
      | (Err e, _) => ([], Err e)
      | (Ok (next, _), s) =>
          if (0 <? len next) && negb w1 then ([], Err (ErrText "write noise response")) else
          match readFull 48 rest with
          | (Err _, _) => (next, Err (ErrText "read noise final"))
          | (Ok final, _) =>
              match WriteHandshake final s with
              | (Err e, _) => (next, Err e)
              | (Ok _, s') => (next, Ok (noise_result s'))
              end
          end
      end
  end.

Definition dialNoise (random pub priv : bytes) (w1 w2 eof : bool) (input : bytes) : bytes * result HandshakeResult :=
  match WriteHandshake [] (NewNoiseInitiator random pub priv) with
  | (Err e, _) => ([], Err e)
  | (Ok (first, _), s) =>
      if negb w1 then ([], Err (ErrText "write noise init")) else
      match readFull 80 input with
      | (Err _, _) => (first, Err (ErrText "read noise response"))
      | (Ok resp, _) =>
          match WriteHandshake resp s with
          | (Err e, _) => (first, Err e)
          | (Ok (toSend, _), s') =>
              if (0 <? len toSend) && negb w2 then (first, Err (ErrText "write noise final")) else
              if negb eof then (first ++ toSend, Err (ErrText "wait for responder close"))
              else (first ++ toSend, Ok (noise_result s'))
          end
      end
  end.

Definition hybridMsg1Size : Z := 1568 + 32.
Definition hybridMsg2Size : Z := 1568 + 32 + 32 + 16.
Definition hybridMsg3Size : Z := 32 + 16.

Definition hybridHandshake (random seed encap pub priv : bytes) (w1 : bool) (input : bytes)
    : bytes * result HandshakeResult :=
  match readFull (Z.to_nat hybridMsg1Size) input with
  | (Err _, _) => ([], Err (ErrText "read hybrid first"))
  | (Ok first, rest) =>
      match HybridWriteHandshake encap (Some first) (NewHybridResponder random seed pub priv) with
      | (Err e, _) => ([], Err e)
      | (Ok (next, _), h) =>
          if negb (len next =? hybridMsg2Size) then ([], Err (ErrText "unexpected hybrid msg2 size")) else
          if negb w1 then ([], Err (ErrText "write hybrid response")) else
          match readFull (Z.to_nat hybridMsg3Size) rest with
          | (Err _, _) => (next, Err (ErrText "read hybrid final"))
          | (Ok final, _) =>
              match HybridWriteHandshake encap (Some final) h with
              | (Err e, _) => (next, Err e)
              | (Ok (_, complete), h') =>
                  if negb complete then (next, Err (ErrText "hybrid handshake did not complete"))
                  else (next, Ok (hybrid_result h'))
              end
          end
      end
  end.

Definition dialHybrid (random seed pub priv : bytes) (w1 w2 eof : bool) (input : bytes)
    : bytes * result HandshakeResult :=
  match HybridWriteHandshake [] None (NewHybridInitiator random seed pub priv) with
  | (Err e, _) => ([], Err e)
  | (Ok (first, _), h) =>
      if negb (len first =? hybridMsg1Size) then ([], Err (ErrText "unexpected hybrid msg1 size")) else
      if negb w1 then ([], Err (ErrText "write hybrid init")) else
      match readFull (Z.to_nat hybridMsg2Size) input with
      | (Err _, _) => (first, Err (ErrText "read hybrid response"))
      | (Ok resp, _) =>
          match HybridWriteHandshake [] (Some resp) h with
          | (Err e, _) => (first, Err e)
          | (Ok (toSend, _), h') =>
              if negb (len toSend =? hybridMsg3Size) then (first, Err (ErrText "unexpected hybrid msg3 size")) else
              if negb w2 then (first, Err (ErrText "write hybrid final")) else
              if negb eof then (first ++ toSend, Err (ErrText "wait for responder close"))
              else (first ++ toSend, Ok (hybrid_result h'))
          end
      end
  end.
End handshake.

(** A concrete key encapsulation, not secure: the secret key is the public one
    with a tail, the ciphertext carries the secret in the clear. *)
Definition toy_kyber : Kyber.
Proof.
  refine {|
    kyber_key_pair := fun seed => (take 1568 (seed ++ zeroes 1568), take 3168 (seed ++ zeroes 3168));
    kyber_encapsulate := fun pk r => (take 1568 (r ++ zeroes 1568), take 1568 (r ++ zeroes 1568));
    kyber_decapsulate := fun sk ct => ct;
  |}; intros; cbn [fst snd]; rewrite ?length_take, ?length_app, ?length_zeroes; try lia; done.
Defined.
