(* ===== verification/HandshakeProps.v ===== *)
(** * What the handshakes establish

    Two honest sides end with each other's identity and matching keys; what
    one then encrypts the other decrypts, in order.  The identity is taken on
    trust: whoever runs the handshake may claim any public key. *)

From S2P Require Import Prelude Bytes Hash Noise Handshake.
Local Open Scope Z_scope.

(** One step of a handshake message, on a session in constructor form. *)
#[local] Ltac fields :=
  cbv beta iota delta [isInitiator staticPublic staticPrivate ephemeralPublic ephemeralPrivate remotePublic remoteEphemeral ns_h ns_ck
       ns_ok sendKey recvKey sendCount recvCount ns_step ns_complete set_remotePublic set_remoteEphemeral set_symmetric
       set_keys set_counts set_step mixHash mixKey split] in *.
#[local] Ltac noise_step_tac :=
  repeat (first [rewrite nbind_do | rewrite nbind_get | erewrite nbind_ok by (first
    [ apply dh_ok; eassumption | apply decrypt_ok; [reflexivity|eassumption] | apply encrypt_ok; reflexivity ])];
    fields).

Section noise.
Context `{Hash256, NoiseCrypto}.

(** The chaining key after mixing in a shared secret. *)
Definition next_ck (ck dh : bytes) : bytes := take 32 (hkdf dh ck [Byte.x01]).
Definition key_1 (ck : bytes) : bytes := take 32 (hkdf [] ck [Byte.x01]).
Definition key_2 (ck : bytes) : bytes := take 32 (drop 32 (hkdf [] ck [Byte.x01])).

Lemma length_clamp k : length (clamp k) = length k.
Proof. unfold clamp. by rewrite !length_alter. Qed.

Lemma initiator_first s :
  isInitiator s = true -> ns_complete s = false -> ns_step s = 0 ->
  WriteHandshake [] s = (Ok (ephemeralPublic s, false), set_step 1 false (mixHash (ephemeralPublic s) s)).
Proof.
  intros Hi Hc Hs. destruct s. cbn in Hi, Hc, Hs. subst.
  unfold WriteHandshake, initiatorWrite. noise_step_tac. reflexivity.
Qed.

(** The initiator's second step, given what the primitives answer. *)
Lemma initiator_second s re c rs ee es se :
  isInitiator s = true -> ns_complete s = false -> ns_step s = 1 -> length re = 32%nat ->
  x25519 (ephemeralPrivate s) re = Some ee ->
  open c zero_nonce (next_ck (ns_ck s) ee) = Some rs -> length rs = 32%nat ->
  x25519 (ephemeralPrivate s) rs = Some es -> x25519 (staticPrivate s) re = Some se ->
  let ck2 := next_ck (next_ck (ns_ck s) ee) es in
  exists s', WriteHandshake (re ++ c) s = (Ok (seal (staticPublic s) zero_nonce ck2, true), s') /\
    ns_complete s' = true /\ remotePublic s' = rs /\ sendCount s' = sendCount s /\ recvCount s' = recvCount s /\
    sendKey s' = key_1 (next_ck ck2 se) /\ recvKey s' = key_2 (next_ck ck2 se).
Proof.
  intros Hi Hc Hs Hre Hee Ho Hrs Hes Hse ck2. destruct s. cbn in Hi, Hc, Hs. subst.
  subst ck2. unfold next_ck in *. fields. unfold WriteHandshake, initiatorWrite. noise_step_tac.
  change (1 =? 0) with false. change (1 =? 1) with true. cbv iota.
  assert (len (re ++ c) <? 32 = false) as -> by (apply Z.ltb_ge; rewrite len_app; unfold len; lia).
  rewrite take_app_exact, drop_app_exact by done. noise_step_tac.
  assert (len rs =? 32 = true) as -> by (apply Z.eqb_eq; unfold len; lia). cbn [negb]. noise_step_tac.
  unfold nret, key_1, key_2. eexists. split; [reflexivity|]. fields. by split_and!.
Qed.

Lemma responder_first s re ee es :
  isInitiator s = false -> ns_complete s = false -> ns_step s = 0 -> length re = 32%nat ->
  x25519 (ephemeralPrivate s) re = Some ee -> x25519 (staticPrivate s) re = Some es ->
  exists s', WriteHandshake re s
      = (Ok (ephemeralPublic s ++ seal (staticPublic s) zero_nonce (next_ck (ns_ck s) ee), false), s') /\
    isInitiator s' = false /\ ns_complete s' = false /\ ns_step s' = 2 /\ ns_ok s' = true /\
    ephemeralPrivate s' = ephemeralPrivate s /\ sendCount s' = sendCount s /\ recvCount s' = recvCount s /\
    ns_ck s' = next_ck (next_ck (ns_ck s) ee) es.
Proof.
  intros Hi Hc Hs Hre Hee Hes. destruct s. cbn in Hi, Hc, Hs. subst.
  unfold next_ck in *. fields. unfold WriteHandshake, responderWrite. noise_step_tac.
  change (0 =? 0) with true. cbv iota.
  assert (len re =? 32 = true) as -> by (apply Z.eqb_eq; unfold len; lia). cbn [negb]. noise_step_tac.
  unfold nret, key_1, key_2. eexists. split; [reflexivity|]. fields. by split_and!.
Qed.

Lemma responder_second s c rs se :
  isInitiator s = false -> ns_complete s = false -> ns_step s = 2 -> ns_ok s = true ->
  open c zero_nonce (ns_ck s) = Some rs -> length rs = 32%nat -> x25519 (ephemeralPrivate s) rs = Some se ->
  exists s', WriteHandshake c s = (Ok ([], true), s') /\ ns_complete s' = true /\ remotePublic s' = rs /\
    sendCount s' = sendCount s /\ recvCount s' = recvCount s /\
    recvKey s' = key_1 (next_ck (ns_ck s) se) /\ sendKey s' = key_2 (next_ck (ns_ck s) se).
Proof.
  intros Hi Hc Hs Hok Ho Hl Hse. destruct s. cbn in Hi, Hc, Hs, Hok. subst.
  unfold next_ck in *. fields. unfold WriteHandshake, responderWrite. noise_step_tac.
  change (2 =? 0) with false. change (2 =? 2) with true. cbv iota. noise_step_tac.
  assert (len rs =? 32 = true) as -> by (apply Z.eqb_eq; unfold len; lia). cbn [negb]. noise_step_tac.
  unfold nret, key_1, key_2. eexists. split; [reflexivity|]. fields. by split_and!.
Qed.

(** What is needed of X25519 when the initiator holds the static key pair
    [(pa, a)] and the responder [(pb, b)], which need not be key pairs. *)
Record secrets (ra rb pa a pb b ee es es' se se' : bytes) : Prop := {
  sec_ra : length ra = 32%nat;
  sec_rb : length rb = 32%nat;
  sec_pa : length pa = 32%nat;
  sec_pb : length pb = 32%nat;
  sec_ee : x25519 (clamp ra) (x25519_base (clamp rb)) = Some ee;
  sec_ee' : x25519 (clamp rb) (x25519_base (clamp ra)) = Some ee;
  sec_es : x25519 (clamp ra) pb = Some es;
  sec_es' : x25519 b (x25519_base (clamp ra)) = Some es';
  sec_se : x25519 a (x25519_base (clamp rb)) = Some se;
  sec_se' : x25519 (clamp rb) pa = Some se';
}.

Definition m1_of (ra : bytes) : bytes := x25519_base (clamp ra).
Definition m2_of (rb pb ee : bytes) : bytes :=
  x25519_base (clamp rb) ++ seal pb zero_nonce (next_ck (sha3 protocolName) ee).
Definition ck_of (ee es : bytes) : bytes := next_ck (next_ck (sha3 protocolName) ee) es.
Definition m3_of (pa ee es : bytes) : bytes := seal pa zero_nonce (ck_of ee es).

(** The first message of each side and the initiator's second. *)
Lemma xx_initiator ra rb pa a pb b ee es es' se se' :
  secrets ra rb pa a pb b ee es es' se se' ->
  exists A1 B1 A2,
    WriteHandshake [] (NewNoiseInitiator ra pa a) = (Ok (m1_of ra, false), A1) /\
    isInitiator A1 = true /\ ns_complete A1 = false /\
    WriteHandshake (m1_of ra) (NewNoiseResponder rb pb b) = (Ok (m2_of rb pb ee, false), B1) /\
    isInitiator B1 = false /\ ns_complete B1 = false /\ ns_step B1 = 2 /\ ns_ok B1 = true /\
    ephemeralPrivate B1 = clamp rb /\ sendCount B1 = 0 /\ recvCount B1 = 0 /\ ns_ck B1 = ck_of ee es' /\
    WriteHandshake (m2_of rb pb ee) A1 = (Ok (m3_of pa ee es, true), A2) /\
    ns_complete A2 = true /\ remotePublic A2 = pb /\ sendCount A2 = 0 /\ recvCount A2 = 0 /\
    sendKey A2 = key_1 (next_ck (ck_of ee es) se) /\ recvKey A2 = key_2 (next_ck (ck_of ee es) se).
Proof.
  intros [Hra Hrb Hpa Hpb Hee Hee' Hes Hes' Hse Hse'].
  assert (length (x25519_base (clamp ra)) = 32%nat) as Hla by (apply x25519_base_length; by rewrite length_clamp).
  assert (length (x25519_base (clamp rb)) = 32%nat) as Hlb by (apply x25519_base_length; by rewrite length_clamp).
  set (A0 := NewNoiseInitiator ra pa a). set (B0 := NewNoiseResponder rb pb b).
  pose proof (initiator_first A0 eq_refl eq_refl eq_refl) as H1.
  destruct (responder_first B0 _ ee es' eq_refl eq_refl eq_refl Hla Hee' Hes')
    as (B1 & H2 & Bi & Bc & Bs & Bok & Be & Bsc & Brc & Bck).
  set (A1 := set_step 1 false (mixHash (ephemeralPublic A0) A0)) in H1.
  destruct (initiator_second A1 _ (seal pb zero_nonce (next_ck (ns_ck B0) ee)) pb ee es se
    eq_refl eq_refl eq_refl Hlb Hee (open_seal _ _ _) Hpb Hes Hse) as (A2 & H3 & Ac & Ar & Asc & Arc & Ask & Ark).
  exists A1, B1, A2. by split_and!.
Qed.

(** The responder's second, if both have the same secrets. *)
Lemma xx_responder ra rb pa a pb b ee es se se' B1 :
  secrets ra rb pa a pb b ee es es se se' ->
  isInitiator B1 = false -> ns_complete B1 = false -> ns_step B1 = 2 -> ns_ok B1 = true ->
  ephemeralPrivate B1 = clamp rb -> sendCount B1 = 0 -> recvCount B1 = 0 -> ns_ck B1 = ck_of ee es ->
  exists B2, WriteHandshake (m3_of pa ee es) B1 = (Ok ([], true), B2) /\
    ns_complete B2 = true /\ remotePublic B2 = pa /\ sendCount B2 = 0 /\ recvCount B2 = 0 /\
    recvKey B2 = key_1 (next_ck (ck_of ee es) se') /\ sendKey B2 = key_2 (next_ck (ck_of ee es) se').
Proof.
  intros Hsec Bi Bc Bs Bok Be Bsc Brc Bck.
  destruct (responder_second B1 (m3_of pa ee es) pa se' Bi Bc Bs Bok) as (B2 & H4 & Bc2 & Br & Bsc2 & Brc2 & Brk & Bsk).
  - rewrite Bck. apply open_seal.
  - apply Hsec.
  - rewrite Be. apply Hsec.
  - exists B2. rewrite <- Bck. split_and!; congruence.
Qed.

Lemma length_m1 ra : length ra = 32%nat -> length (m1_of ra) = 32%nat.
Proof. intros. apply x25519_base_length. by rewrite length_clamp. Qed.
Lemma length_m2 rb pb ee : length rb = 32%nat -> length pb = 32%nat -> length (m2_of rb pb ee) = 80%nat.
Proof. intros. unfold m2_of. rewrite length_app, seal_length. rewrite x25519_base_length by (by rewrite length_clamp). lia. Qed.
Lemma length_m3 pa ee es : length pa = 32%nat -> length (m3_of pa ee es) = 48%nat.
Proof. intros. unfold m3_of. rewrite seal_length. lia. Qed.

(** Two honest parties. *)
Lemma honest_secrets ra rb a b :
  length ra = 32%nat -> length rb = 32%nat -> length a = 32%nat -> length b = 32%nat ->
  exists ee es se, secrets ra rb (x25519_base a) a (x25519_base b) b ee es es se se.
Proof.
  intros Hra Hrb Ha Hb.
  assert (length (clamp ra) = 32%nat) as Hca by by rewrite length_clamp.
  assert (length (clamp rb) = 32%nat) as Hcb by by rewrite length_clamp.
  destruct (x25519_agree _ _ Hca Hcb) as (ee & ? & ?). destruct (x25519_agree _ _ Hca Hb) as (es & ? & ?).
  destruct (x25519_agree _ _ Ha Hcb) as (se & ? & ?).
  exists ee, es, se. split; try done; by apply x25519_base_length.
Qed.

(** An initiator that presents the public key of [v] and holds [x]. *)
Lemma impostor_initiator ra rb v x b :
  length ra = 32%nat -> length rb = 32%nat -> length v = 32%nat -> length x = 32%nat -> length b = 32%nat ->
  exists ee es se se', secrets ra rb (x25519_base v) x (x25519_base b) b ee es es se se'.
Proof.
  intros Hra Hrb Hv Hx Hb. destruct (honest_secrets ra rb x b) as (ee & es & se & []); [done..|].
  destruct (honest_secrets ra rb v b) as (ee2 & es2 & se' & []); [done..|].
  exists ee, es, se, se'. by split.
Qed.

(** A responder that presents the public key of [v] and holds [x]. *)
Lemma impostor_responder ra rb a v x :
  length ra = 32%nat -> length rb = 32%nat -> length v = 32%nat -> length x = 32%nat -> length a = 32%nat ->
  exists ee es es' se se', secrets ra rb (x25519_base a) a (x25519_base v) x ee es es' se se'.
Proof.
  intros Hra Hrb Hv Hx Ha. destruct (honest_secrets ra rb a x) as (ee & es' & se & []); [done..|].
  destruct (honest_secrets ra rb a v) as (ee2 & es & se2 & []); [done..|].
  exists ee, es, es', se, se. by split.
Qed.

(** ** The channel *)

(** Two sessions that can talk in one direction. *)
Definition in_step (a b : NoiseSession) : Prop :=
  ns_complete a = true /\ ns_complete b = true /\ sendKey a = recvKey b /\ sendCount a = recvCount b /\
  0 <= sendCount a <= MaxNonce.

(** Encrypt the messages one after the other; decrypt the ciphertexts so. *)
Fixpoint run_all (f : bytes -> noiseM bytes) (msgs : list bytes) (s : NoiseSession) : list (result bytes) * NoiseSession :=
  match msgs with
  | [] => ([], s)
  | m :: msgs =>
      let '(r, s) := f m s in
      let '(rs, s) := run_all f msgs s in (r :: rs, s)
  end.

Lemma channel_step a b m :
  in_step a b ->
  let c := seal m (counter_nonce (sendCount a)) (sendKey a) in
  exists a' b', Encrypt m a = (Ok c, a') /\ Decrypt c b = (Ok m, b') /\ in_step a' b'.
Proof.
  intros (Ha & Hb & Hk & Hn & Hr) c.
  assert (MaxNonce <? sendCount a = false) as Hmax by (apply Z.ltb_ge; lia).
  assert (len c <? Overhead = false) as Hlen
    by (apply Z.ltb_ge; unfold len, c, Overhead; rewrite seal_length; lia).
  exists (set_counts (wrapU 64 (sendCount a + 1)) (recvCount a) a), (set_counts (sendCount b) (wrapU 64 (recvCount b + 1)) b).
  split; [by unfold Encrypt; rewrite Ha, Hmax|]. split.
  - unfold Decrypt. rewrite Hb, Hlen, <- Hn, Hmax. unfold c. by rewrite <- Hk, open_seal.
  - repeat split; cbn [ns_complete sendKey recvKey sendCount recvCount set_counts]; try done; [by rewrite Hn|..];
      pose proof (wrapU_range 64 (sendCount a + 1)) as Hw; unfold MaxNonce; lia.
Qed.

(** What is encrypted on one side comes out on the other, in order. *)
Lemma channel_in_order msgs a b :
  in_step a b ->
  exists cs a' b', run_all Encrypt msgs a = (Ok <$> cs, a') /\ run_all Decrypt cs b = (Ok <$> msgs, b') /\ in_step a' b'.
Proof.
  revert a b. induction msgs as [|m msgs IH]; intros a b Hs; [exists [], a, b; done|].
  destruct (channel_step a b m Hs) as (a1 & b1 & He & Hd & Hs1).
  destruct (IH a1 b1 Hs1) as (cs & a' & b' & Hec & Hdc & Hs').
  eexists (_ :: cs), a', b'. cbn [run_all]. rewrite He, Hec. split; [reflexivity|].
  cbn [run_all]. by rewrite Hd, Hdc.
Qed.

(** The counter is compared with a bound no counter exceeds: once complete a
    session always encrypts, and after 2^64 messages uses its nonces again. *)
Lemma encrypt_never_refuses m s :
  ns_complete s = true -> 0 <= sendCount s <= MaxNonce ->
  (Encrypt m s).1 = Ok (seal m (counter_nonce (sendCount s)) (sendKey s)) /\
  (sendCount s = MaxNonce -> sendCount (Encrypt m s).2 = 0).
Proof.
  intros Hc Hr. assert (MaxNonce <? sendCount s = false) as Hmax by (apply Z.ltb_ge; lia).
  unfold Encrypt. rewrite Hc, Hmax. split; [done|]. cbn [snd sendCount set_counts]. intros ->. reflexivity.
Qed.

(** ** Over a stream *)

Lemma noise_result_eq s pub send recv :
  remotePublic s = pub -> sendKey s = send -> recvKey s = recv -> noise_result s = mkHandshake (SHA3Hash pub) send recv.
Proof. by intros <- <- <-. Qed.

Lemma dialNoise_run ra rb pa a pb b ee es es' se se' :
  secrets ra rb pa a pb b ee es es' se se' ->
  dialNoise ra pa a true true true (m2_of rb pb ee)
  = (m1_of ra ++ m3_of pa ee es,
     Ok (mkHandshake (SHA3Hash pb) (key_1 (next_ck (ck_of ee es) se)) (key_2 (next_ck (ck_of ee es) se)))).
Proof.
  intros Hs. destruct (xx_initiator _ _ _ _ _ _ _ _ _ _ _ Hs)
    as (A1 & B1 & A2 & H1 & _ & _ & _ & _ & _ & _ & _ & _ & _ & _ & _ & H3 & _ & Hr & _ & _ & Hk1 & Hk2).
  unfold dialNoise. rewrite H1. cbn [negb].
  rewrite <- (app_nil_r (m2_of rb pb ee)), readFull_app
    by (apply length_m2; apply Hs). rewrite H3, andb_false_r. cbn [negb].
  by rewrite (noise_result_eq _ _ _ _ Hr Hk1 Hk2).
Qed.

(** The responder's output comes before it knows who the initiator is. *)
Lemma noiseHandshake_first ra rb pa a pb b ee es es' se se' rest :
  secrets ra rb pa a pb b ee es es' se se' ->
  (noiseHandshake rb pb b true (m1_of ra ++ rest)).1 = m2_of rb pb ee.
Proof.
  intros Hs. destruct (xx_initiator _ _ _ _ _ _ _ _ _ _ _ Hs) as (A1 & B1 & A2 & _ & _ & _ & H2 & _).
  unfold noiseHandshake. rewrite readFull_app by (apply length_m1; apply Hs).
  rewrite H2, andb_false_r. destruct (readFull 48 rest) as [[final|] ?]; [|done].
  by destruct (WriteHandshake final B1) as [[[]|] ?].
Qed.

Lemma noiseHandshake_run ra rb pa a pb b ee es se se' :
  secrets ra rb pa a pb b ee es es se se' ->
  noiseHandshake rb pb b true (m1_of ra ++ m3_of pa ee es)
  = (m2_of rb pb ee,
     Ok (mkHandshake (SHA3Hash pa) (key_2 (next_ck (ck_of ee es) se')) (key_1 (next_ck (ck_of ee es) se')))).
Proof.
  intros Hs. destruct (xx_initiator _ _ _ _ _ _ _ _ _ _ _ Hs)
    as (A1 & B1 & A2 & _ & _ & _ & H2 & Bi & Bc & Bs & Bok & Be & Bsc & Brc & Bck & _).
  destruct (xx_responder _ _ _ _ _ _ _ _ _ _ _ Hs Bi Bc Bs Bok Be Bsc Brc Bck) as (B2 & H4 & _ & Hr & _ & _ & Hk1 & Hk2).
  unfold noiseHandshake. rewrite readFull_app by (apply length_m1; apply Hs). rewrite H2, andb_false_r.
  rewrite <- (app_nil_r (m3_of pa ee es)), readFull_app by (apply length_m3; apply Hs).
  rewrite H4. by rewrite (noise_result_eq _ _ _ _ Hr Hk2 Hk1).
Qed.

(** C5: Two honest nodes that run the Noise handshake over a stream both
    complete it: what each writes is what the other reads, each takes away the
    ID of the other's static key, and each one's sending key is the other's
    receiving key. *)
Theorem noise_handshake_agrees ra rb a b :
  length ra = 32%nat -> length rb = 32%nat -> length a = 32%nat -> length b = 32%nat ->
  exists to_responder to_initiator k1 k2,
    dialNoise ra (x25519_base a) a true true true to_initiator
      = (to_responder, Ok (mkHandshake (SHA3Hash (x25519_base b)) k1 k2)) /\
    noiseHandshake rb (x25519_base b) b true to_responder
      = (to_initiator, Ok (mkHandshake (SHA3Hash (x25519_base a)) k2 k1)).
Proof.
  intros Hra Hrb Ha Hb. destruct (honest_secrets ra rb a b Hra Hrb Ha Hb) as (ee & es & se & Hs).
  do 4 eexists. split; [by eapply dialNoise_run|by eapply noiseHandshake_run].
Qed.

(** C6: The identity a handshake reports is the one the other side claims.  For
    the public key of any [v], an initiator and a responder that hold another
    secret [x] and use nothing of [v] but its public key complete the
    handshake with an honest node, which then takes them for its owner. *)
Theorem handshake_identity_is_claimed ra rb v x c :
  length ra = 32%nat -> length rb = 32%nat -> length v = 32%nat -> length x = 32%nat -> length c = 32%nat ->
  let victim := x25519_base v in
  (exists input, let impostor := dialNoise ra victim x true true true input in
     exists keys, noiseHandshake rb (x25519_base c) c true impostor.1 = (input, Ok keys) /\
       PeerID keys = SHA3Hash victim) /\
  (exists input, let impostor := noiseHandshake rb victim x true input in
     exists out keys, dialNoise ra (x25519_base c) c true true true impostor.1 = (out, Ok keys) /\
       PeerID keys = SHA3Hash victim).
Proof.
  intros Hra Hrb Hv Hx Hc victim. subst victim. split.
  - destruct (impostor_initiator ra rb v x c) as (ee & es & se & se' & Hs); [done..|].
    exists (m2_of rb (x25519_base c) ee). cbv zeta. rewrite (dialNoise_run _ _ _ _ _ _ _ _ _ _ _ Hs). cbn [fst].
    eexists. split; [by eapply noiseHandshake_run|done].
  - destruct (impostor_responder ra rb c v x) as (ee & es & es' & se & se' & Hs); [done..|].
    exists (m1_of ra ++ []). cbv zeta. rewrite (noiseHandshake_first _ _ _ _ _ _ _ _ _ _ _ [] Hs).
    do 2 eexists. split; [by eapply dialNoise_run|done].
Qed.
End noise.

Section hybrid.
Context `{Hash256, NoiseCrypto, Kyber}.

Lemma kyber_lengths seed r :
  len (kyber_key_pair seed).1 = 1568 /\ len (kyber_key_pair seed).2 = 3168 /\
  len (kyber_encapsulate (kyber_key_pair seed).1 r).1 = 1568.
Proof. unfold len. rewrite kyber_pub_length, kyber_sec_length, kyber_ct_length. lia. Qed.

(** What the hybrid session does with its three messages. *)
Lemma hybrid_first pk msg r (h h' : HybridHandshakeState) noiseMsg n :
  isInitiator (hy_noise h) = false -> ns_complete (hy_noise h) = false -> ns_step (hy_noise h) = 0 ->
  len pk = 1568 -> WriteHandshake msg (hy_noise h) = (Ok (noiseMsg, false), n) ->
  let e := kyber_encapsulate pk r in
  HybridWriteHandshake r (Some (pk ++ msg)) h
  = (Ok (e.1 ++ noiseMsg, false), mkHybrid n (kyberPub h) (kyberSec h) e.2 pk true).
Proof.
  intros Hi Hc Hs Hpk Hw e. unfold HybridWriteHandshake. rewrite Hc, Hi, Hs.
  change (0 <? 1) with true. cbv zeta iota. change (default [] (Some (pk ++ msg))) with (pk ++ msg).
  assert (len (pk ++ msg) <? kyberPublicKeySize = false) as ->.
  { apply Z.ltb_ge. rewrite len_app. pose proof (len_nonneg msg). unfold kyberPublicKeySize. lia. }
  assert (length pk = Z.to_nat 1568) as Hl by (unfold len in Hpk; lia). change (Z.to_nat 1568) with 1568%nat in Hl.
  rewrite take_app_exact, drop_app_exact by done. unfold noise_step. rewrite Hw.
  unfold KyberEncap. rewrite Hpk. change (negb (1568 =? kyberPublicKeySize)) with false. cbv iota.
  fold e. by destruct e.
Qed.

Lemma hybrid_second ct msg r (h : HybridHandshakeState) noiseMsg n :
  isInitiator (hy_noise h) = true -> ns_complete (hy_noise h) = false ->
  len ct = 1568 -> len (kyberSec h) = 3168 -> WriteHandshake msg (hy_noise h) = (Ok (noiseMsg, true), n) ->
  HybridWriteHandshake r (Some (ct ++ msg)) h
  = (Ok (noiseMsg, true),
     mkHybrid n (kyberPub h) (kyberSec h) (kyber_decapsulate (kyberSec h) ct) (peerKyberPub h) true).
Proof.
  intros Hi Hc Hct Hsk Hw. unfold HybridWriteHandshake. rewrite Hc, Hi.
  destruct (ct ++ msg) as [|x rest] eqn:E.
  { destruct ct; [by change (len []) with 0 in Hct|done]. }
  rewrite <- E. cbv zeta. change (default [] (Some (ct ++ msg))) with (ct ++ msg).
  assert (len (ct ++ msg) <? kyberCiphertextSize = false) as ->.
  { apply Z.ltb_ge. rewrite len_app. pose proof (len_nonneg msg). unfold kyberCiphertextSize. lia. }
  assert (length ct = Z.to_nat 1568) as Hl by (unfold len in Hct; lia). change (Z.to_nat 1568) with 1568%nat in Hl.
  rewrite take_app_exact, drop_app_exact by done.
  unfold KyberDecap. rewrite Hct, Hsk.
  change (negb (1568 =? kyberCiphertextSize)) with false. change (negb (3168 =? kyberSecretKeySize)) with false. cbv iota.
  unfold noise_step. cbn [hy_noise]. by rewrite Hw.
Qed.

Lemma hybrid_third msg r (h : HybridHandshakeState) n :
  isInitiator (hy_noise h) = false -> ns_complete (hy_noise h) = false -> ns_step (hy_noise h) = 2 ->
  WriteHandshake msg (hy_noise h) = (Ok ([], true), n) ->
  HybridWriteHandshake r (Some msg) h = (Ok ([], true), set_noise n h).
Proof.
  intros Hi Hc Hs Hw. unfold HybridWriteHandshake. rewrite Hc, Hi, Hs.
  change (2 <? 1) with false. cbv zeta iota. change (default [] (Some msg)) with msg. unfold noise_step. by rewrite Hw.
Qed.

Definition hybrid_key (k ss : bytes) : bytes := take 32 (hkdf k ss session_info).

Lemma hybrid_result_eq h pub send recv ss :
  remotePublic (hy_noise h) = pub -> sendKey (hy_noise h) = send -> recvKey (hy_noise h) = recv -> kyberSS h = ss ->
  hybrid_result h = mkHandshake (SHA3Hash pub) (hybrid_key send ss) (hybrid_key recv ss).
Proof. by intros <- <- <- <-. Qed.

Definition hm1_of (ra seed : bytes) : bytes := (kyber_key_pair seed).1 ++ m1_of ra.
Definition hm2_of (rb pb ee seed r : bytes) : bytes :=
  (kyber_encapsulate (kyber_key_pair seed).1 r).1 ++ m2_of rb pb ee.
Definition ss_of (seed r : bytes) : bytes := (kyber_encapsulate (kyber_key_pair seed).1 r).2.

Lemma dialHybrid_run ra rb pa a pb b ee es es' se se' seed r :
  secrets ra rb pa a pb b ee es es' se se' ->
  dialHybrid ra seed pa a true true true (hm2_of rb pb ee seed r)
  = (hm1_of ra seed ++ m3_of pa ee es,
     Ok (mkHandshake (SHA3Hash pb) (hybrid_key (key_1 (next_ck (ck_of ee es) se)) (ss_of seed r))
           (hybrid_key (key_2 (next_ck (ck_of ee es) se)) (ss_of seed r)))).
Proof.
  intros Hs. destruct (xx_initiator _ _ _ _ _ _ _ _ _ _ _ Hs)
    as (A1 & B1 & A2 & H2' & Ai & Ac & _ & _ & _ & _ & _ & _ & _ & _ & _ & H3 & _ & Hr & _ & _ & Hk1 & Hk2).
  destruct (kyber_lengths seed r) as (Lp & Ls & Lc).
  assert (length (m1_of ra) = 32%nat) as L1 by (apply length_m1; apply Hs).
  assert (length (m2_of rb pb ee) = 80%nat) as L2 by (apply length_m2; apply Hs).
  assert (length (m3_of pa ee es) = 48%nat) as L3 by (apply length_m3; apply Hs).
  unfold dialHybrid. set (h0 := NewHybridInitiator ra seed pa a).
  assert (HybridWriteHandshake [] None h0 = (Ok (hm1_of ra seed, false), set_noise A1 h0)) as ->.
  { unfold HybridWriteHandshake. change (ns_complete (hy_noise h0)) with false. change (isInitiator (hy_noise h0)) with true.
    cbv iota. unfold noise_step. change (hy_noise h0) with (NewNoiseInitiator ra pa a). by rewrite H2'. }
  assert (len (hm1_of ra seed) =? hybridMsg1Size = true) as ->.
  { apply Z.eqb_eq. unfold hm1_of. rewrite len_app, Lp. unfold len. rewrite L1. reflexivity. }
  cbn [negb]. rewrite <- (app_nil_r (hm2_of rb pb ee seed r)), readFull_app.
  2:{ unfold hm2_of. apply Nat2Z.inj. change (Z.of_nat (length ?x)) with (len x). rewrite len_app, Lc. unfold len. rewrite L2. reflexivity. }
  unfold hm2_of. rewrite (hybrid_second _ _ [] (set_noise A1 h0) _ _ Ai Ac Lc Ls H3).
  assert (len (m3_of pa ee es) =? hybridMsg3Size = true) as -> by (apply Z.eqb_eq; unfold len; by rewrite L3).
  cbn [negb]. do 2 f_equal. apply hybrid_result_eq; [done..|]. cbn [kyberSS kyberSec set_noise h0 NewHybridInitiator].
  apply kyber_correct.
Qed.

Lemma hybridHandshake_run ra rb pa a pb b ee es se se' seed seed' r :
  secrets ra rb pa a pb b ee es es se se' ->
  hybridHandshake rb seed' r pb b true (hm1_of ra seed ++ m3_of pa ee es)
  = (hm2_of rb pb ee seed r,
     Ok (mkHandshake (SHA3Hash pa) (hybrid_key (key_2 (next_ck (ck_of ee es) se')) (ss_of seed r))
           (hybrid_key (key_1 (next_ck (ck_of ee es) se')) (ss_of seed r)))).
Proof.
  intros Hs. destruct (xx_initiator _ _ _ _ _ _ _ _ _ _ _ Hs)
    as (A1 & B1 & A2 & _ & _ & _ & H2' & Bi & Bc & Bs & Bok & Be & Bsc & Brc & Bck & _).
  destruct (xx_responder _ _ _ _ _ _ _ _ _ _ _ Hs Bi Bc Bs Bok Be Bsc Brc Bck) as (B2 & H4 & _ & Hr & _ & _ & Hk1 & Hk2).
  destruct (kyber_lengths seed r) as (Lp & Ls & Lc).
  assert (length (m1_of ra) = 32%nat) as L1 by (apply length_m1; apply Hs).
  assert (length (m2_of rb pb ee) = 80%nat) as L2 by (apply length_m2; apply Hs).
  assert (length (m3_of pa ee es) = 48%nat) as L3 by (apply length_m3; apply Hs).
  unfold hybridHandshake. set (h0 := NewHybridResponder rb seed' pb b).
  rewrite readFull_app.
  2:{ unfold hm1_of. apply Nat2Z.inj. change (Z.of_nat (length ?x)) with (len x). rewrite len_app, Lp. unfold len. rewrite L1. reflexivity. }
  unfold hm1_of. rewrite (hybrid_first _ _ r h0 h0 _ _ eq_refl eq_refl eq_refl Lp H2').
  fold (hm2_of rb pb ee seed r).
  assert (len (hm2_of rb pb ee seed r) =? hybridMsg2Size = true) as ->.
  { apply Z.eqb_eq. unfold hm2_of. rewrite len_app, Lc. unfold len. rewrite L2. reflexivity. }
  cbn [negb]. rewrite <- (app_nil_r (m3_of pa ee es)), readFull_app by (rewrite L3; reflexivity).
  rewrite (hybrid_third _ r _ B2) by done. cbn [negb]. do 2 f_equal. by apply hybrid_result_eq.
Qed.

End hybrid.

(** ** Examples *)

Module HandshakeSample.
#[local] Existing Instance sha3_256_hash.
#[local] Existing Instance toy_noise.
#[local] Existing Instance toy_kyber.

Definition key_of (z : Z) : bytes := replicate 32 (byte_of z).

Lemma noise_handshake_agrees_witness :
  length (key_of 1) = 32%nat /\
  exists to_responder to_initiator k1 k2,
    dialNoise (key_of 1) (x25519_base (key_of 3)) (key_of 3) true true true to_initiator
      = (to_responder, Ok (mkHandshake (SHA3Hash (x25519_base (key_of 4))) k1 k2)) /\
    noiseHandshake (key_of 2) (x25519_base (key_of 4)) (key_of 4) true to_responder
      = (to_initiator, Ok (mkHandshake (SHA3Hash (x25519_base (key_of 3))) k2 k1)).
Proof. split; [reflexivity|]. apply noise_handshake_agrees; reflexivity. Defined.

Lemma handshake_identity_is_claimed_witness :
  let victim := x25519_base (key_of 5) in
  (exists input, let impostor := dialNoise (key_of 1) victim (key_of 6) true true true input in
     exists keys, noiseHandshake (key_of 2) (x25519_base (key_of 7)) (key_of 7) true impostor.1 = (input, Ok keys) /\
       PeerID keys = SHA3Hash victim) /\
  (exists input, let impostor := noiseHandshake (key_of 2) victim (key_of 6) true input in
     exists out keys, dialNoise (key_of 1) (x25519_base (key_of 7)) (key_of 7) true true true impostor.1 = (out, Ok keys) /\
       PeerID keys = SHA3Hash victim).
Proof. apply (handshake_identity_is_claimed (key_of 1) (key_of 2) (key_of 5) (key_of 6) (key_of 7)); reflexivity. Defined.


(** Both ends of a completed Noise handshake. *)
Definition A0 : NoiseSession := NewNoiseInitiator (key_of 1) (key_of 3) (key_of 3).
Definition B0 : NoiseSession := NewNoiseResponder (key_of 2) (key_of 4) (key_of 4).
Definition msg (r : result (bytes * bool) * NoiseSession) : bytes := match r.1 with Ok (m, _) => m | Err _ => [] end.
Definition step1 := WriteHandshake [] A0.
Definition step2 := WriteHandshake (msg step1) B0.
Definition step3 := WriteHandshake (msg step2) step1.2.
Definition step4 := WriteHandshake (msg step3) step2.2.
Definition A2 : NoiseSession := step3.2.
Definition B2 : NoiseSession := step4.2.

(** The responder leaves its own ephemeral key out of the handshake hash: both
    complete with the same keys and different hashes, so that the hash
    authenticates nothing. *)
Lemma handshake_hashes_differ :
  ns_complete A2 = true /\ ns_complete B2 = true /\ sendKey A2 = recvKey B2 /\ ns_h A2 <> ns_h B2.
Proof. split_and!; [vm_compute; reflexivity..|]. intros Heq. vm_compute in Heq. discriminate Heq. Qed.

(** A ciphertext that fails to decrypt uses up a nonce: after a forged one the
    receiver rejects everything the sender sends. *)
Definition forged : bytes := key_of 0.
Lemma forged_frame_desynchronises :
  (Decrypt (msg ((m <~ Encrypt (str "hello"); nret (m, false))%go A2)) B2).1 = Ok (str "hello") /\
  (Decrypt (msg ((m <~ Encrypt (str "hello"); nret (m, false))%go A2)) (Decrypt forged B2).2).1
    = Err (ErrText "decryption failed (bad MAC or key)").
Proof. split; vm_compute; reflexivity. Qed.

(** Closing the stream tells the initiator nothing: the responder closes it
    when it rejects the handshake, too. *)
Lemma rejected_initiator_completes :
  let dial := dialNoise (key_of 1) (key_of 3) (key_of 3) true true true (msg step2) in
  let impostor := noiseHandshake (key_of 2) (key_of 4) (key_of 11) true in
  is_ok dial.2 = true /\
  is_ok (dialNoise (key_of 1) (key_of 3) (key_of 3) true true true (impostor dial.1).1).2 = true /\
  (impostor dial.1).2 = Err (ErrText "decrypt initiator static").
Proof. split_and!; vm_compute; reflexivity. Qed.
End HandshakeSample.
