(* ===== verification/Base64.v ===== *)
(** * Base64 and hexadecimal ([encoding/base64], [encoding/hex])

    The standard encoding with padding, and its decoder: line breaks are
    skipped, the bits behind the last byte are not looked at.  [hex_decoded] is
    what [hex.DecodeString] returns beside its error. *)

From S2P Require Import Prelude Bytes Decimal Federation.
Local Open Scope Z_scope.

Definition alphabet : bytes :=
  Eval vm_compute in str "ABCDEFGHIJKLMNOPQRSTUVWXYZabcdefghijklmnopqrstuvwxyz0123456789+/".
Definition pad_char : byte := byte_of 61.

(** The character of a group of six bits, and back. *)
Definition sextet (n : Z) : byte := nth (Z.to_nat n) alphabet Byte.x00.

Definition unsextet (c : byte) : option Z :=
  let v := u8 c in
  if (65 <=? v) && (v <=? 90) then Some (v - 65)
  else if (97 <=? v) && (v <=? 122) then Some (v - 71)
  else if (48 <=? v) && (v <=? 57) then Some (v + 4)
  else if v =? 43 then Some 62 else if v =? 47 then Some 63 else None.

Fixpoint EncodeToString (b : bytes) : bytes :=
  match b with
  | [] => []
  | [x] => let n := u8 x * 65536 in [sextet (n / 262144); sextet (n / 4096 mod 64); pad_char; pad_char]
  | [x; y] => let n := u8 x * 65536 + u8 y * 256 in
      [sextet (n / 262144); sextet (n / 4096 mod 64); sextet (n / 64 mod 64); pad_char]
  | x :: y :: z :: b => let n := u8 x * 65536 + u8 y * 256 + u8 z in
      sextet (n / 262144) :: sextet (n / 4096 mod 64) :: sextet (n / 64 mod 64) :: sextet (n mod 64) :: EncodeToString b
  end.

Fixpoint decode_quanta (s : bytes) : option bytes :=
  match s with
  | [] => Some []
  | a :: b :: c :: d :: s =>
      a' ← unsextet a; b' ← unsextet b;
      if decide (d = pad_char) then
        if decide (s <> []) then None
        else if decide (c = pad_char) then Some [byte_of ((a' * 64 + b') / 16)]
        else c' ← unsextet c; let n := a' * 4096 + b' * 64 + c' in Some [byte_of (n / 1024); byte_of (n / 4)]
      else
        c' ← unsextet c; d' ← unsextet d; rest ← decode_quanta s;
        let n := a' * 262144 + b' * 4096 + c' * 64 + d' in
        Some (byte_of (n / 65536) :: byte_of (n / 256) :: byte_of n :: rest)
  | _ => None
  end.

Definition not_newline (c : byte) : bool := negb (u8 c =? 10) && negb (u8 c =? 13).
Definition DecodeString (s : bytes) : option bytes := decode_quanta (filter not_newline s).

(** The bytes before the first pair that is not hexadecimal. *)
Fixpoint hex_decoded (s : bytes) : bytes :=
  match s with
  | a :: b :: s =>
      match hexVal a, hexVal b with
      | Some hi, Some lo => byte_of (Z.lor (Z.shiftl hi 4) lo) :: hex_decoded s
      | _, _ => []
      end
  | _ => []
  end.

(** [hex.DecodeString] where an error ends the matter. *)
Definition hex_DecodeString (s : bytes) : option bytes :=
  if decide (len s mod 2 = 0) then hex_pairs s else None.

(** * Lemmas *)

Lemma nat_below_ind (P : nat -> bool) n : forallb P (seq 0 n) = true -> forall k, (k < n)%nat -> P k = true.
Proof. intros H k Hk. rewrite forallb_forall in H. apply H, in_seq. lia. Qed.

Lemma z_below n (P : Z -> bool) :
  forallb (fun k => P (Z.of_nat k)) (seq 0 (Z.to_nat n)) = true -> forall z, 0 <= z < n -> P z = true.
Proof.
  intros H z Hz. rewrite <- (Z2Nat.id z) by lia.
  apply (nat_below_ind (fun k => P (Z.of_nat k)) _ H). lia.
Qed.

Lemma unsextet_sextet n : 0 <= n < 64 -> unsextet (sextet n) = Some n.
Proof.
  intros Hn. pose proof (z_below 64 (fun n => bool_decide (unsextet (sextet n) = Some n)) eq_refl n Hn) as H.
  by apply bool_decide_eq_true in H.
Qed.

Lemma unsextet_plain c v : unsextet c = Some v -> c <> pad_char /\ not_newline c = true /\ c <> byte_of 32.
Proof.
  intros H. assert (u8 c <> 61 /\ u8 c <> 10 /\ u8 c <> 13 /\ u8 c <> 32) as (H1 & H2 & H3 & H4).
  { unfold unsextet in H. repeat split; intros E; rewrite E in H; discriminate H. }
  split_and!; [by intros ->| |by intros ->].
  unfold not_newline. apply Z.eqb_neq in H2, H3. by rewrite H2, H3.
Qed.

Lemma sextet_not_pad n : 0 <= n < 64 -> sextet n <> pad_char.
Proof. intros H. by apply (unsextet_plain _ n), unsextet_sextet. Qed.

Definition sextet_char (c : byte) : Prop := is_Some (unsextet c) \/ c = pad_char.

Lemma sextet_ok n : 0 <= n < 64 -> sextet_char (sextet n).
Proof. intros H. left. rewrite unsextet_sextet; [by eexists|done]. Qed.

Lemma three_bytes_ind (P : bytes -> Prop) :
  P [] -> (forall x, P [x]) -> (forall x y, P [x; y]) -> (forall x y z b, P b -> P (x :: y :: z :: b)) -> forall b, P b.
Proof.
  intros H0 H1 H2 H3 b. assert (P b /\ (forall x, P (x :: b)) /\ (forall x y, P (x :: y :: b))) as [H _]; [|done].
  induction b as [|z b (IH0 & IH1 & IH2)]; [done|]. split_and!; [apply IH1|intros x; apply IH2|intros x y; by apply H3].
Qed.

Lemma range_div a b c : 0 <= a < b * c -> 0 < c -> 0 <= a / c < b.
Proof. intros H Hc. split; [apply Z.div_pos; lia|apply Z.div_lt_upper_bound; lia]. Qed.

Lemma encode_chars b : Forall sextet_char (EncodeToString b).
Proof.
  induction b as [|x|x y|x y z b IH] using three_bytes_ind; cbn [EncodeToString]; [constructor|..];
    pose proof (u8_range x) as Hx; try pose proof (u8_range y) as Hy; try pose proof (u8_range z) as Hz;
    repeat (constructor; [first [by right | apply sextet_ok; first [apply Z.mod_pos_bound; lia | apply range_div; lia]]|]);
    done.
Qed.

(** Division by the parts of a number put together from sextets. *)
Lemma byte_of_mod z : byte_of (z mod 256) = byte_of z.
Proof. apply u8_inj. rewrite !u8_byte_of. by rewrite Z.mod_mod. Qed.

Lemma byte_of_eq z x : z mod 256 = u8 x -> byte_of z = x.
Proof. intros H. by rewrite <- byte_of_mod, H, byte_of_u8. Qed.

Lemma decode_quanta_encode b : decode_quanta (EncodeToString b) = Some b.
Proof.
  induction b as [|x|x y|x y z b IH] using three_bytes_ind; cbn [EncodeToString]; [done|..]; cbn [decode_quanta];
    pose proof (u8_range x) as Hx; try pose proof (u8_range y) as Hy; try pose proof (u8_range z) as Hz.
  - rewrite !unsextet_sextet by (first [apply Z.mod_pos_bound; lia | apply range_div; lia]).
    cbn [mbind option_bind]. destruct (decide (pad_char = pad_char)) as [_|[]]; [|done].
    destruct (decide ([] <> [])) as [[]|_]; [done|].
    do 2 f_equal. apply byte_of_eq. Z.to_euclidean_division_equations. lia.
  - rewrite !unsextet_sextet by (first [apply Z.mod_pos_bound; lia | apply range_div; lia]).
    cbn [mbind option_bind]. destruct (decide (pad_char = pad_char)) as [_|[]]; [|done].
    destruct (decide ([] <> [])) as [[]|_]; [done|].
    destruct (decide (sextet _ = pad_char)) as [E|_]; [by apply sextet_not_pad in E; [|apply Z.mod_pos_bound]|].
    do 2 f_equal; [|f_equal]; apply byte_of_eq; Z.to_euclidean_division_equations; lia.
  - destruct (decide (sextet _ = pad_char)) as [E|_]; [by apply sextet_not_pad in E; [|apply Z.mod_pos_bound]|].
    rewrite !unsextet_sextet by (first [apply Z.mod_pos_bound; lia | apply range_div; lia]).
    cbn [mbind option_bind]. rewrite IH. cbn [mbind option_bind].
    set (n := u8 x * 65536 + u8 y * 256 + u8 z).
    assert (n / 262144 * 262144 + n / 4096 mod 64 * 4096 + n / 64 mod 64 * 64 + n mod 64 = n) as ->
      by (Z.to_euclidean_division_equations; lia).
    do 2 f_equal; [|f_equal; [|f_equal]]; apply byte_of_eq; unfold n; Z.to_euclidean_division_equations; lia.
Qed.

Lemma filter_keeps {A} (P : A -> Prop) `{forall x, Decision (P x)} (l : list A) : Forall P l -> filter P l = l.
Proof. induction 1 as [|x l Hx _ IH]; [done|]. rewrite filter_cons, decide_True by done. by f_equal. Qed.

Lemma decode_encode_string b : DecodeString (EncodeToString b) = Some b.
Proof.
  unfold DecodeString. rewrite filter_keeps; [apply decode_quanta_encode|].
  eapply Forall_impl; [apply encode_chars|]. intros c [[v Hv]| ->]; [|done].
  apply Is_true_true. by apply (unsextet_plain c v).
Qed.

(** A string with a space in it does not decode. *)
Lemma decode_quanta_chars s b : decode_quanta s = Some b -> Forall sextet_char s.
Proof.
  assert (forall n s b, (length s <= n)%nat -> decode_quanta s = Some b -> Forall sextet_char s) as H;
    [|by apply (H (length s))].
  clear. induction n as [|n IH]; intros s b Hl; [by destruct s; [constructor|simpl in Hl; lia]|].
  destruct s as [|a [|b' [|c [|d s]]]]; [by constructor|done..|]. cbn [decode_quanta]. simpl in Hl.
  intros (va & Ha & (vb & Hb & H)%bind_Some)%bind_Some.
  assert (sextet_char a /\ sextet_char b') as [? ?] by (split; left; by eexists).
  destruct (decide (d = pad_char)) as [->|Hd].
  - destruct (decide (s <> [])) as [|Hs]; [done|]. apply dec_stable in Hs as ->.
    destruct (decide (c = pad_char)) as [->|Hc]; [do 4 (constructor; [first [done | by right]|]); constructor|].
    apply bind_Some in H as (vc & Hvc & _). do 4 (constructor; [first [done | by right | left; by eexists]|]); constructor.
  - apply bind_Some in H as (vc & Hvc & (vd & Hvd & (rest & Hr & _)%bind_Some)%bind_Some).
    do 4 (constructor; [first [done | left; by eexists]|]). by eapply (IH s rest); [lia|].
Qed.

Lemma decode_rejects_space s : byte_of 32 ∈ s -> DecodeString s = None.
Proof.
  intros Hin. destruct (DecodeString s) as [b|] eqn:E; [|done]. exfalso.
  apply decode_quanta_chars in E. rewrite Forall_forall in E.
  destruct (E (byte_of 32)) as [[v Hv]|Hp]; [|by vm_compute in Hv|by vm_compute in Hp].
  apply list_elem_of_filter. split; [by vm_compute|done].
Qed.

(** ** Hexadecimal *)

Lemma hex_decode_fmtHex b : hex_DecodeString (fmtHex b) = Some b.
Proof.
  unfold hex_DecodeString. rewrite decide_True; [apply hex_pairs_fmtHex|].
  unfold len. rewrite length_fmtHex. rewrite Nat2Z.inj_mul. by rewrite Z.mul_comm, Z.mod_mul.
Qed.

Lemma hex_decoded_pairs s b : hex_pairs s = Some b -> hex_decoded s = b.
Proof.
  assert (forall n s b, (length s <= n)%nat -> hex_pairs s = Some b -> hex_decoded s = b) as H;
    [|by apply (H (length s))].
  clear. induction n as [|n IH]; intros s b Hl; [destruct s; [by intros [= <-]|simpl in Hl; lia]|].
  destruct s as [|x [|y s]]; simpl in *; try by intros [= <-].
  destruct (hexVal x), (hexVal y); try done.
  destruct (hex_pairs s) as [t|] eqn:E; [|done]. intros [= <-]. f_equal. apply IH; [lia|done].
Qed.

(** RFC 4648. *)
Example base64_vectors :
  (EncodeToString (str "f"), EncodeToString (str "fo"), EncodeToString (str "foob"))
  = (str "Zg==", str "Zm8=", str "Zm9vYg==").
Proof. reflexivity. Qed.
