(* ===== verification/Curve.v ===== *)
(** * SHA-512 and X25519

    The two functions of the standard library that tie the keys of a node
    together, executable (FIPS 180-4, RFC 7748): the conversion of identity
    keys is compared with them. *)

From S2P Require Import Prelude Bytes Hash.
Local Open Scope Z_scope.

(** ** SHA-512 *)

Module Sha512.
Definition w64 (z : Z) : Z := Z.land z Keccak.mask64.
Definition rotr (x : Z) (n : Z) : Z := Z.lor (Z.shiftr x n) (w64 (Z.shiftl x (64 - n))).

Definition initial : list Z :=
  [0x6a09e667f3bcc908; 0xbb67ae8584caa73b; 0x3c6ef372fe94f82b; 0xa54ff53a5f1d36f1; 0x510e527fade682d1;
   0x9b05688c2b3e6c1f; 0x1f83d9abfb41bd6b; 0x5be0cd19137e2179].

Definition constants : list Z :=
  [0x428a2f98d728ae22; 0x7137449123ef65cd; 0xb5c0fbcfec4d3b2f; 0xe9b5dba58189dbbc; 0x3956c25bf348b538;
   0x59f111f1b605d019; 0x923f82a4af194f9b; 0xab1c5ed5da6d8118; 0xd807aa98a3030242; 0x12835b0145706fbe;
   0x243185be4ee4b28c; 0x550c7dc3d5ffb4e2; 0x72be5d74f27b896f; 0x80deb1fe3b1696b1; 0x9bdc06a725c71235;
   0xc19bf174cf692694; 0xe49b69c19ef14ad2; 0xefbe4786384f25e3; 0x0fc19dc68b8cd5b5; 0x240ca1cc77ac9c65;
   0x2de92c6f592b0275; 0x4a7484aa6ea6e483; 0x5cb0a9dcbd41fbd4; 0x76f988da831153b5; 0x983e5152ee66dfab;
   0xa831c66d2db43210; 0xb00327c898fb213f; 0xbf597fc7beef0ee4; 0xc6e00bf33da88fc2; 0xd5a79147930aa725;
   0x06ca6351e003826f; 0x142929670a0e6e70; 0x27b70a8546d22ffc; 0x2e1b21385c26c926; 0x4d2c6dfc5ac42aed;
   0x53380d139d95b3df; 0x650a73548baf63de; 0x766a0abb3c77b2a8; 0x81c2c92e47edaee6; 0x92722c851482353b;
   0xa2bfe8a14cf10364; 0xa81a664bbc423001; 0xc24b8b70d0f89791; 0xc76c51a30654be30; 0xd192e819d6ef5218;
   0xd69906245565a910; 0xf40e35855771202a; 0x106aa07032bbd1b8; 0x19a4c116b8d2d0c8; 0x1e376c085141ab53;
   0x2748774cdf8eeb99; 0x34b0bcb5e19b48a8; 0x391c0cb3c5c95a63; 0x4ed8aa4ae3418acb; 0x5b9cca4f7763e373;
   0x682e6ff3d6b2b8a3; 0x748f82ee5defb2fc; 0x78a5636f43172f60; 0x84c87814a1f0ab72; 0x8cc702081a6439ec;
   0x90befffa23631e28; 0xa4506cebde82bde9; 0xbef9a3f7b2c67915; 0xc67178f2e372532b; 0xca273eceea26619c;
   0xd186b8c721c0c207; 0xeada7dd6cde0eb1e; 0xf57d4f7fee6ed178; 0x06f067aa72176fba; 0x0a637dc5a2c898a6;
   0x113f9804bef90dae; 0x1b710b35131c471b; 0x28db77f523047d84; 0x32caab7b40c72493; 0x3c9ebe0a15c9bebc;
   0x431d67c49c100d4c; 0x4cc5d4becb3e42b6; 0x597f299cfc657e2a; 0x5fcb6fab3ad6faec; 0x6c44198c4a475817].

Definition ch (x y z : Z) : Z := Z.lxor (Z.land x y) (Z.land (Z.lxor x Keccak.mask64) z).
Definition maj (x y z : Z) : Z := Z.lxor (Z.lxor (Z.land x y) (Z.land x z)) (Z.land y z).
Definition big_sigma0 (x : Z) : Z := Z.lxor (Z.lxor (rotr x 28) (rotr x 34)) (rotr x 39).
Definition big_sigma1 (x : Z) : Z := Z.lxor (Z.lxor (rotr x 14) (rotr x 18)) (rotr x 41).
Definition small_sigma0 (x : Z) : Z := Z.lxor (Z.lxor (rotr x 1) (rotr x 8)) (Z.shiftr x 7).
Definition small_sigma1 (x : Z) : Z := Z.lxor (Z.lxor (rotr x 19) (rotr x 61)) (Z.shiftr x 6).

(** The message schedule, latest word first. *)
Fixpoint schedule (n : nat) (ws : list Z) : list Z :=
  match n with
  | O => ws
  | S n =>
      schedule n (w64 (small_sigma1 (nth 1 ws 0) + nth 6 ws 0 + small_sigma0 (nth 14 ws 0) + nth 15 ws 0) :: ws)
  end.

Definition round (st : list Z) (kw : Z * Z) : list Z :=
  match st with
  | [a; b; c; d; e; f; g; h] =>
      let t1 := h + big_sigma1 e + ch e f g + kw.1 + kw.2 in
      let t2 := big_sigma0 a + maj a b c in
      [w64 (t1 + t2); a; b; c; w64 (d + t1); e; f; g]
  | _ => st
  end.

Definition compress (st : list Z) (block : bytes) : list Z :=
  let words := (fun i => be_get (take 8 (drop (8 * i) block))) <$> seq 0 16 in
  let ws := rev (schedule 64 (rev words)) in
  zip_with (fun x y => w64 (x + y)) st (foldl round st (combine constants ws)).

Definition pad (b : bytes) : bytes :=
  b ++ Byte.x80 :: zeroes (Z.to_nat ((111 - len b) mod 128)) ++ be_put 16 (8 * len b).

Definition sha512 (b : bytes) : bytes :=
  let p := pad b in
  concat (be_put 8 <$> foldl (fun st i => compress st (take 128 (drop (128 * i) p))) initial
    (seq 0 (length p / 128))).

Example sha512_abc :
  be_get (sha512 (str "abc")) =
  0xddaf35a193617abacc417349ae20413112e6fa4e89a97ea20a9eeee64b55d39a2192992a274fc1a836ba3c23a3feebbd454d4423643ce80e2a9ac94fa54ca49f.
Proof. vm_compute. reflexivity. Qed.
End Sha512.

(** ** X25519 *)

Module Curve25519.
Definition p : Z := 2 ^ 255 - 19.

(** A number congruent modulo [p], of little more than 255 bits. *)
Definition fold255 (z : Z) : Z := Z.land z (2 ^ 255 - 1) + 19 * Z.shiftr z 255.
Definition reduce (z : Z) : Z := fold255 (fold255 z).

Fixpoint pow_mod (a : Z) (n : positive) : Z :=
  match n with
  | xH => a
  | xO n => let h := pow_mod a n in reduce (h * h)
  | xI n => let h := pow_mod a n in reduce (a * reduce (h * h))
  end.

(** The inverse modulo the prime [p]; 0 for a multiple of [p]. *)
Definition inv_mod (a : Z) : Z := pow_mod (a mod p) (Z.to_pos (p - 2)) mod p.

(** Scalars and coordinates are little-endian. *)
Definition decode_scalar (k : bytes) : Z :=
  let n := be_get (rev k) in Z.lor (Z.land n (2 ^ 254 - 8)) (2 ^ 254).
Definition decode_u (u : bytes) : Z := be_get (rev u) mod 2 ^ 255 mod p.
Definition encode_u (u : Z) : bytes := le_put 32 (u mod p).

(** One step of the ladder of RFC 7748, on two points [(x2 : z2)], [(x3 : z3)]. *)
Definition ladder_step (x1 : Z) (st : Z * Z * Z * Z) (bit : bool) : Z * Z * Z * Z :=
  let '(x2, z2, x3, z3) := st in
  let '(x2, z2, x3, z3) := if bit then (x3, z3, x2, z2) else (x2, z2, x3, z3) in
  let a := x2 + z2 in let aa := reduce (a * a) in
  let b := x2 - z2 in let bb := reduce (b * b) in
  let e := aa - bb in
  let da := reduce ((x3 - z3) * a) in let cb := reduce ((x3 + z3) * b) in
  let x3 := reduce ((da + cb) * (da + cb)) in
  let z3 := reduce (x1 * reduce ((da - cb) * (da - cb))) in
  let x2 := reduce (aa * bb) in
  let z2 := reduce (e * reduce (aa + 121665 * e)) in
  if bit then (x3, z3, x2, z2) else (x2, z2, x3, z3).

Definition x25519_value (k u : Z) : Z :=
  let bits := (fun i => Z.testbit k (Z.of_nat i)) <$> rev (seq 0 255) in
  let '(x2, z2, _, _) := foldl (ladder_step u) (1, 0, u, 1) bits in
  x2 * inv_mod z2 mod p.

Definition X25519 (scalar point : bytes) : bytes := encode_u (x25519_value (decode_scalar scalar) (decode_u point)).
Definition X25519_base (scalar : bytes) : bytes := X25519 scalar (le_put 32 9).

(** The coordinate of the point with the compressed encoding [pub] on the
    twisted Edwards curve, taken to the Montgomery curve: (1 + y) / (1 - y). *)
Definition montgomery_u (pub : bytes) : bytes :=
  let y := be_get (rev pub) mod 2 ^ 255 in encode_u ((1 + y) * inv_mod (1 - y)).
End Curve25519.
