(* ===== verification/Identity.v ===== *)
(** * Identities of nodes (pkg/crypto/crypto.go, storage.go)

    Key pairs and their conversion to X25519, signatures by key type, the
    pairing code, encrypted backups, the identity file.  Signature schemes,
    scrypt, secretbox and JSON are interfaces; random bytes are arguments. *)

From S2P Require Import Prelude Bytes Hash Ed25519 Text Decimal Federation Noise Base64 Curve.
Local Open Scope Z_scope.

Definition KeySize : Z := 32.

(** [GenerateX25519KeyPair], [GenerateKeyPair] on the bytes drawn. *)
Definition GenerateX25519KeyPair `{NoiseCrypto} (random : bytes) : bytes * bytes :=
  let priv := clamp random in (x25519_base priv, priv).

Section ed25519.
Context `{Hash256, Ed25519}.

Definition GenerateKeyPair (seed : bytes) : bytes * bytes := (ed_public seed, seed).
Definition NodeID_ (pub : bytes) : bytes := SHA3Hash pub.
Definition NodeIDFromBytes (pub : bytes) : bytes := SHA3Hash pub.
Definition computePubFromSeed (seed : bytes) : bytes := ed_public seed.
Definition Sign (priv msg : bytes) : bytes := ed_sign priv msg.
Definition Verify (pub msg sig : bytes) : bool := ed_verify pub msg sig.
Definition SeedToPrivateKey (seed : bytes) : bytes := seed ++ ed_public seed.
Definition SeedToEd25519 (seed : bytes) : bytes := take 32 (Sha512.sha512 seed) ++ computePubFromSeed seed.
Definition DeriveStorageKey (priv : bytes) : bytes := SHA3Hash priv.
End ed25519.

(** ** Post-quantum signatures

    A scheme is known by the encodings of its keys that it accepts. *)
Record scheme := {
  parse_private : bytes -> bool;
  parse_public : bytes -> bool;
  sign_with : bytes -> bytes -> result bytes;
  verify_with : bytes -> bytes -> bytes -> bool;
}.

Class PQSchemes := { eddilithium3 : scheme; mldsa65 : scheme }.

Section pq.
Context `{PQSchemes}.

Definition SignPQ (priv msg : bytes) : result bytes :=
  if parse_private eddilithium3 priv then sign_with eddilithium3 priv msg
  else if parse_private mldsa65 priv then sign_with mldsa65 priv msg
  else Err (ErrText "unknown PQ private key format").

Definition VerifyPQ (pub msg sig : bytes) : bool :=
  if parse_public eddilithium3 pub then verify_with eddilithium3 pub msg sig
  else if parse_public mldsa65 pub then verify_with mldsa65 pub msg sig
  else false.
End pq.

(** ** Conversion to X25519 *)

Definition curve25519p : Z := 57896044618658097711785492504343953926634992332820282019728792003956564819949.

(** [None] is the panic on the nil inverse of a multiple of the prime. *)
Definition Ed25519PublicToX25519 (pub : bytes) : option bytes :=
  let yBytes := alter (fun b => byte_of (Z.land (u8 b) 127)) 0%nat pub in
  let y := be_get yBytes in
  let denom := curve25519p - y in
  if decide (denom mod curve25519p = 0) then None
  else
    let num := 1 + y in
    Some (be_put 32 (num * Curve25519.inv_mod denom mod curve25519p)).

Definition Ed25519PrivateToX25519 (priv : bytes) : bytes := clamp (take 32 (Sha512.sha512 priv)).

(** ** Pairing code *)

Definition hexadecimal (b : bytes) : bytes := fmtHex b.

Definition pairing_data (nodeID pubKey name : bytes) : bytes :=
  str "localweb://pair?node_id=" ++ hexadecimal nodeID ++ str "&pub_key=" ++ EncodeToString pubKey
  ++ str "&name=" ++ name.

(** [GenerateIdentityQR], up to the drawing of the code. *)
Definition GenerateIdentityQR {A} (draw : bytes -> A) (nodeID pubKey name : bytes) : A :=
  draw (pairing_data nodeID pubKey name).

(** [url.QueryUnescape]; the code takes the empty string it returns with an error. *)
Fixpoint query_unescape (s : bytes) : option bytes :=
  match s with
  | [] => Some []
  | c :: s' =>
      if decide (c = byte_of 37) then
        match s' with
        | a :: b :: s'' =>
            match hexVal a, hexVal b with
            | Some hi, Some lo => cons (byte_of (hi * 16 + lo)) <$> query_unescape s''
            | _, _ => None
            end
        | _ => None
        end
      else if decide (c = byte_of 43) then cons (byte_of 32) <$> query_unescape s'
      else cons c <$> query_unescape s'
  end.

Definition QueryUnescape (s : bytes) : bytes := default [] (query_unescape s).

Definition split_pair (result : gmap bytes bytes) (pair : bytes) : gmap bytes bytes :=
  match cut_at (byte_of 61) pair with
  | (k, Some v) => <[k := QueryUnescape v]> result
  | (_, None) => result
  end.

Definition splitQuery (query : bytes) : gmap bytes bytes := foldl split_pair ∅ (Split (byte_of 38) query).

Definition pair_prefix : bytes := Eval vm_compute in str "localweb://pair?".

Definition ParseIdentityQR (data : bytes) : result (bytes * bytes * bytes) :=
  match strip_prefix pair_prefix data with
  | None => Err (ErrText "invalid QR format: missing prefix")
  | Some params =>
      let parts := splitQuery params in
      let get k := default [] (parts !! str k) in
      let nodeIDStr := get "node_id"%string in
      let pubKeyStr := get "pub_key"%string in
      let name := get "name"%string in
      if bool_decide (nodeIDStr = []) || bool_decide (pubKeyStr = [])
      then Err (ErrText "missing required params")
      else
        match hex_DecodeString nodeIDStr with
        | None => Err (ErrText "invalid node_id")
        | Some nodeID =>
            if negb (len nodeID =? 32) then Err (ErrText "invalid node_id") else
            match DecodeString pubKeyStr with
            | None => Err (ErrText "invalid pub_key")
            | Some pubKey =>
                if negb (len pubKey =? 32) then Err (ErrText "invalid pub_key") else Ok (nodeID, pubKey, name)
            end
        end
  end.

(** ** Backups *)

Definition KeyTypeEd25519 : Z := 0.

Record IdentityBackup := mkBackup {
  Version : Z;
  CreatedAt : Z;
  NodeID : bytes;
  Name : bytes;
  KeyType : Z;
  Encrypted : bytes;
  Nonce : bytes;
  Salt : bytes;
}.

#[global] Instance IdentityBackup_eq_dec : EqDecision IdentityBackup.
Proof. solve_decision. Defined.

(** JSON of a payload, a backup (for the names and times that survive it) and
    an identity file, and scrypt with the parameters of the code (for which it
    does not fail). *)
Class IdentityLib := {
  scrypt : bytes -> bytes -> bytes;
  marshalPayload : bytes * bytes -> bytes;
  unmarshalPayload : bytes -> result (bytes * bytes);
  payload_roundtrip : forall p, unmarshalPayload (marshalPayload p) = Ok p;
  marshalBackup : IdentityBackup -> result bytes;
  unmarshalBackup : bytes -> result IdentityBackup;
  backup_ok : IdentityBackup -> Prop;
  backup_roundtrip : forall b, backup_ok b -> exists data, marshalBackup b = Ok data /\ unmarshalBackup data = Ok b;
  marshalIdentity : bytes * bytes -> bytes;
  unmarshalIdentity : bytes -> result (bytes * bytes);
  identity_roundtrip : forall a b, unmarshalIdentity (marshalIdentity (fmtHex a, fmtHex b)) = Ok (fmtHex a, fmtHex b);
}.

Section backup.
Context `{Hash256, Ed25519, NoiseCrypto, IdentityLib}.

Definition BackupIdentity (salt nonce : bytes) (now : Z) (pubKey privKey name passphrase : bytes) : IdentityBackup :=
  let key := scrypt passphrase salt in
  let payload := marshalPayload (privKey, pubKey) in
  mkBackup 1 now (hexadecimal (take 8 (NodeID_ pubKey))) name KeyTypeEd25519 (seal payload nonce key) nonce salt.

(** The payload is [(PrivateKey, PublicKey)]; the result [(pubKey, privKey)]. *)
Definition RestoreIdentity (backup : IdentityBackup) (passphrase : bytes) : result (bytes * bytes) :=
  if negb (Version backup =? 1) then Err (ErrText "unsupported backup version") else
  let key := scrypt passphrase (Salt backup) in
  match open (Encrypted backup) (Nonce backup) key with
  | None => Err (ErrText "decryption failed: wrong passphrase or corrupted backup")
  | Some payloadBytes =>
      match unmarshalPayload payloadBytes with
      | Err e => Err e
      | Ok (priv, pub) =>
          if negb (len priv =? 32) || negb (len pub =? 32) then Err (ErrText "invalid key lengths in backup") else
          let actual := hex_decoded (NodeID backup) in
          if (len actual =? 8) && negb (bool_decide (take 8 (NodeID_ pub) = actual))
          then Err (ErrText "node ID mismatch in backup")
          else Ok (pub, priv)
      end
  end.

Definition ExportIdentityBackupJSON (backup : IdentityBackup) : result bytes := marshalBackup backup.
Definition ImportIdentityBackupJSON (data : bytes) : result IdentityBackup := unmarshalBackup data.

(** ** The identity file

    [file] is what reading it gives; the result and, if it was written, the new
    content. *)
Definition stored_identity (data : bytes) : option (bytes * bytes) :=
  match unmarshalIdentity data with
  | Err _ => None
  | Ok (public, private) =>
      match hex_DecodeString public, hex_DecodeString private with
      | Some pub, Some priv => if (len pub =? 32) && (len priv =? 32) then Some (pub, priv) else None
      | _, _ => None
      end
  end.

Definition LoadOrGenerateIdentity (file : option bytes) (seed : bytes) (mkdir_ok write_ok : bool)
    : result (bytes * bytes) * option bytes :=
  match file ≫= stored_identity with
  | Some keys => (Ok keys, file)
  | None =>
      let '(pub, priv) := GenerateKeyPair seed in
      if negb mkdir_ok then (Err (ErrText "create key dir"), file) else
      if negb write_ok then (Err (ErrText "write identity"), file) else
      (Ok (pub, priv), Some (marshalIdentity (hexadecimal pub, hexadecimal priv)))
  end.
End backup.

(** * Lemmas *)

Lemma strip_prefix_app p s : strip_prefix p (p ++ s) = Some s.
Proof. by apply strip_prefix_Some. Qed.

(** Characters that [QueryUnescape] leaves alone. *)
Definition plain_query (c : byte) : Prop := c <> byte_of 37 /\ c <> byte_of 43.

Lemma unescape_plain s : Forall plain_query s -> query_unescape s = Some s.
Proof.
  induction 1 as [|c s [Hp Hs] _ IH]; [done|]. cbn [query_unescape].
  rewrite decide_False, decide_False by done. by rewrite IH.
Qed.

Lemma unescape_no_percent s :
  byte_of 37 ∉ s -> query_unescape s = Some ((fun c => if decide (c = byte_of 43) then byte_of 32 else c) <$> s).
Proof.
  induction s as [|c s IH]; [done|]. intros [Hc Hs]%not_elem_of_cons. cbn [query_unescape fmap list_fmap].
  rewrite decide_False by done. rewrite IH by done. by case_decide.
Qed.

Lemma cut_at_app sep a s : sep ∉ a -> cut_at sep (a ++ sep :: s) = (a, Some s).
Proof.
  induction a as [|c a IH]; cbn [app cut_at]; [by rewrite decide_True|]. intros [Hc Ha]%not_elem_of_cons.
  rewrite decide_False by done. by rewrite IH.
Qed.

(** The characters of the two encodings. *)
Lemma hexd_plain z : 0 <= z < 16 -> exists v, hexVal (nth (Z.to_nat z) hexd Byte.x00) = Some v.
Proof.
  intros Hz. pose proof (z_below 16 (fun z => bool_decide (is_Some (hexVal (nth (Z.to_nat z) hexd Byte.x00)))) eq_refl z Hz) as H.
  by apply bool_decide_eq_true in H.
Qed.

Lemma hex_pair_range b : 0 <= Z.shiftr (u8 b) 4 < 16 /\ 0 <= Z.land (u8 b) 15 < 16.
Proof.
  pose proof (u8_range b). rewrite Z.shiftr_div_pow2 by lia. change 15 with (Z.ones 4). rewrite Z.land_ones by lia.
  split; [|by apply Z.mod_pos_bound]. split; [by apply Z.div_pos; lia|apply Z.div_lt_upper_bound; lia].
Qed.

Lemma hex_chars b : Forall (fun c => exists v, hexVal c = Some v) (fmtHex b).
Proof.
  unfold fmtHex. induction b as [|x b IH]; [constructor|]. cbn [fmap list_fmap concat].
  destruct (hex_pair_range x) as [H1 H2]. constructor; [by apply hexd_plain|]. constructor; [by apply hexd_plain|done].
Qed.

Lemma hex_char_not c v : hexVal c = Some v -> c <> byte_of 37 /\ c <> byte_of 43 /\ c <> byte_of 38.
Proof. intros H. split_and!; intros ->; vm_compute in H; discriminate H. Qed.

Lemma sextet_char_not c : sextet_char c -> c <> byte_of 37 /\ c <> byte_of 38.
Proof. intros [[v H]| ->]; [split; intros ->; vm_compute in H; discriminate H|by split]. Qed.

Lemma not_in_Forall (c : byte) s (P : byte -> Prop) : Forall P s -> (forall x, P x -> x <> c) -> c ∉ s.
Proof. rewrite Forall_forall. intros H HP Hin. by apply (HP c (H c Hin)). Qed.

Lemma pairing_data_parts n p name :
  pairing_data n p name
  = pair_prefix ++ (str "node_id" ++ byte_of 61 :: fmtHex n) ++ byte_of 38 ::
    (str "pub_key" ++ byte_of 61 :: EncodeToString p) ++ byte_of 38 :: (str "name" ++ byte_of 61 :: name).
Proof.
  unfold pairing_data, hexadecimal.
  change (str "localweb://pair?node_id=") with (pair_prefix ++ str "node_id" ++ [byte_of 61]).
  change (str "&pub_key=") with (byte_of 38 :: str "pub_key" ++ [byte_of 61]).
  change (str "&name=") with (byte_of 38 :: str "name" ++ [byte_of 61]).
  repeat first [rewrite <- app_assoc | progress cbn [app]]. reflexivity.
Qed.

Lemma splitQuery_pairing n p name :
  byte_of 38 ∉ name ->
  splitQuery ((str "node_id" ++ byte_of 61 :: fmtHex n) ++ byte_of 38 ::
    (str "pub_key" ++ byte_of 61 :: EncodeToString p) ++ byte_of 38 :: (str "name" ++ byte_of 61 :: name))
  = <[str "name" := QueryUnescape name]> (<[str "pub_key" := QueryUnescape (EncodeToString p)]>
      (<[str "node_id" := QueryUnescape (fmtHex n)]> ∅)).
Proof.
  intros Hname. unfold splitQuery.
  assert (byte_of 38 ∉ fmtHex n) as Hn.
  { eapply not_in_Forall; [apply hex_chars|]. intros x [v Hv]. by apply (hex_char_not x v). }
  assert (byte_of 38 ∉ EncodeToString p) as Hp.
  { eapply not_in_Forall; [apply encode_chars|]. intros x Hx. by apply sextet_char_not. }
  assert (forall k s, byte_of 38 ∉ str k -> byte_of 38 ∉ s -> byte_of 38 ∉ str k ++ byte_of 61 :: s) as Hsep.
  { intros k s Hk Hs [|[E|]%elem_of_cons]%elem_of_app; [done|by vm_compute in E|done]. }
  rewrite !Split_cons by (apply Hsep; [decide_vm|done]).
  rewrite Split_one by (apply Hsep; [decide_vm|done]).
  cbn [foldl]. unfold split_pair.
  by rewrite !cut_at_app by (decide_vm).
Qed.

(** The pairing code of a node is read back as the node's ID, key and name,
    if the Base64 of the key has no plus sign.  If it has one, the code is
    rejected: the plus is not escaped and is read as a space. *)
Theorem pairing_code_readback nodeID pubKey name :
  length nodeID = 32%nat -> length pubKey = 32%nat ->
  Forall (fun c => c <> byte_of 37 /\ c <> byte_of 43 /\ c <> byte_of 38) name ->
  GenerateIdentityQR ParseIdentityQR nodeID pubKey name
  = if decide (byte_of 43 ∈ EncodeToString pubKey) then Err (ErrText "invalid pub_key") else Ok (nodeID, pubKey, name).
Proof.
  intros Hn Hp Hname. unfold GenerateIdentityQR, ParseIdentityQR.
  rewrite pairing_data_parts, strip_prefix_app, splitQuery_pairing.
  2:{ eapply not_in_Forall; [exact Hname|]. by intros x (_ & _ & ?). }
  assert (QueryUnescape (fmtHex nodeID) = fmtHex nodeID) as ->.
  { unfold QueryUnescape. rewrite unescape_plain; [done|]. eapply Forall_impl; [apply hex_chars|].
    intros x [v Hv]. by split; apply (hex_char_not x v). }
  assert (QueryUnescape name = name) as ->.
  { unfold QueryUnescape. rewrite unescape_plain; [done|]. eapply Forall_impl; [exact Hname|]. by intros x (? & ? & _). }
  cbv zeta. rewrite lookup_insert_eq.
  rewrite (lookup_insert_ne _ _ (str "pub_key")), lookup_insert_eq by (by vm_compute).
  rewrite !(lookup_insert_ne _ _ (str "node_id")), lookup_insert_eq by (by vm_compute). cbn [from_option id].
  rewrite hex_decode_fmtHex. assert (len nodeID =? 32 = true) as -> by (apply Z.eqb_eq; unfold len; lia). cbn [negb].
  rewrite bool_decide_eq_false_2 by (intros E; apply (f_equal length) in E; rewrite length_fmtHex in E; simpl in E; lia).
  assert (EncodeToString pubKey <> []) as Hne by by destruct pubKey as [|? [|? [|? ?]]].
  assert (QueryUnescape (EncodeToString pubKey)
          = (fun c => if decide (c = byte_of 43) then byte_of 32 else c) <$> EncodeToString pubKey) as ->.
  { unfold QueryUnescape. rewrite unescape_no_percent; [done|].
    eapply not_in_Forall; [apply encode_chars|]. intros x Hx. by apply sextet_char_not. }
  rewrite bool_decide_eq_false_2 by (by intros ?%fmap_nil_inv). cbn [orb].
  destruct (decide (byte_of 43 ∈ EncodeToString pubKey)) as [Hplus|Hplus].
  - rewrite decode_rejects_space; [done|]. apply list_elem_of_fmap. exists (byte_of 43). by rewrite decide_True.
  - rewrite (list_fmap_ext _ id), list_fmap_id, decode_encode_string.
    + by assert (len pubKey =? 32 = true) as -> by (apply Z.eqb_eq; unfold len; lia).
    + intros i x Hi. rewrite decide_False; [done|]. intros ->. apply Hplus. by eapply list_elem_of_lookup_2.
Qed.

Section backup_props.
Context `{Hash256, Ed25519, NoiseCrypto, IdentityLib}.

Lemma hex_decoded_fmtHex b : hex_decoded (fmtHex b) = b.
Proof. by apply hex_decoded_pairs, hex_pairs_fmtHex. Qed.


(** The identity of a node persists: what was generated and written is what
    the next start loads. *)
Lemma identity_persists seed seed' :
  length (ed_public seed) = 32%nat -> length seed = 32%nat ->
  let '(r, file) := LoadOrGenerateIdentity None seed true true in
  r = Ok (ed_public seed, seed) /\ LoadOrGenerateIdentity file seed' true true = (r, file).
Proof.
  intros Hp Hs. unfold LoadOrGenerateIdentity at 1. cbn [mbind option_bind negb GenerateKeyPair]. split; [done|].
  unfold LoadOrGenerateIdentity. cbn [mbind option_bind]. unfold stored_identity. rewrite identity_roundtrip.
  unfold hexadecimal. rewrite !hex_decode_fmtHex.
  assert (len (ed_public seed) =? 32 = true) as -> by (apply Z.eqb_eq; unfold len; lia).
  by assert (len seed =? 32 = true) as -> by (apply Z.eqb_eq; unfold len; lia).
Qed.

(** A file that does not parse is replaced: the old identity is gone. *)
Lemma unreadable_identity_replaced data seed :
  stored_identity data = None ->
  (LoadOrGenerateIdentity (Some data) seed true true).1 = Ok (ed_public seed, seed).
Proof. intros E. unfold LoadOrGenerateIdentity. cbn [mbind option_bind]. by rewrite E. Qed.
End backup_props.

(** ** Examples *)

Module IdentitySample.
(** Two strings in one, with the length of the first in unary. *)
Definition pack (p : bytes * bytes) : bytes := replicate (length p.1) Byte.x01 ++ Byte.x00 :: p.1 ++ p.2.
Fixpoint unpack_at (n : nat) (s : bytes) : result (bytes * bytes) :=
  match s with
  | Byte.x01 :: s => unpack_at (S n) s
  | Byte.x00 :: s => Ok (take n s, drop n s)
  | _ => Err EOF
  end.
Definition unpack (s : bytes) : result (bytes * bytes) := unpack_at 0 s.

Lemma unpack_pack p : unpack (pack p) = Ok p.
Proof.
  destruct p as [a b]. unfold unpack, pack. cbn [fst snd].
  assert (forall k n s, unpack_at n (replicate k Byte.x01 ++ Byte.x00 :: s) = Ok (take (n + k) s, drop (n + k) s)) as H.
  { induction k as [|k IH]; intros n s; cbn [replicate app unpack_at]; [by rewrite Nat.add_0_r|].
    rewrite IH. by rewrite Nat.add_succ_r. }
  rewrite H. cbn [Nat.add]. by rewrite take_app_exact, drop_app_exact.
Qed.

Definition pack_backup (b : IdentityBackup) : result bytes :=
  Ok (pack (NodeID b, pack (Name b, pack (Encrypted b, pack (Nonce b, pack (Salt b, be_put 8 (CreatedAt b))))))).
Definition unpack_backup (s : bytes) : result IdentityBackup :=
  '(i, s) ← unpack s; '(n, s) ← unpack s; '(e, s) ← unpack s; '(nc, s) ← unpack s; '(sa, s) ← unpack s;
  Ok (mkBackup 1 (be_get s) i n KeyTypeEd25519 e nc sa).

Definition toy_identity_lib : IdentityLib.
Proof.
  refine {|
    scrypt := fun pass salt => take 32 (pass ++ salt ++ zeroes 32);
    marshalPayload := pack; unmarshalPayload := unpack; payload_roundtrip := unpack_pack;
    marshalBackup := pack_backup; unmarshalBackup := unpack_backup;
    backup_ok := fun b => Version b = 1 /\ KeyType b = KeyTypeEd25519 /\ 0 <= CreatedAt b < 2 ^ 64;
    marshalIdentity := pack; unmarshalIdentity := unpack; identity_roundtrip := fun a b => unpack_pack (fmtHex a, fmtHex b);
  |}.
  intros [v c i n k e nc sa] (Hv & Hk & Hc). cbn in Hv, Hk, Hc. eexists. split; [reflexivity|].
  unfold unpack_backup. cbn [NodeID Name Encrypted Nonce Salt CreatedAt].
  repeat (rewrite unpack_pack; cbn [mbind result_bind]). rewrite be_get_put_small by (simpl; lia). by subst.
Defined.

#[local] Existing Instance sha3_256_hash.
#[local] Existing Instance toy_ed25519.
#[local] Existing Instance toy_noise.
#[local] Existing Instance toy_identity_lib.

Definition key_of (z : Z) : bytes := replicate 32 (byte_of z).

Lemma pairing_code_readback_witness :
  length (key_of 1) = 32%nat /\
  GenerateIdentityQR ParseIdentityQR (key_of 1) (key_of 0) (str "ann")
  = if decide (byte_of 43 ∈ EncodeToString (key_of 0)) then Err (ErrText "invalid pub_key")
    else Ok (key_of 1, key_of 0, str "ann").
Proof.
  split; [reflexivity|]. apply pairing_code_readback; [reflexivity|reflexivity|].
  repeat constructor; vm_compute; discriminate.
Defined.

(** A key whose Base64 has a plus sign (251 = 62 * 4 + 3). *)
Lemma plus_key_cannot_pair :
  GenerateIdentityQR ParseIdentityQR (key_of 1) (key_of 251) (str "ann") = Err (ErrText "invalid pub_key") /\
  GenerateIdentityQR ParseIdentityQR (key_of 1) (key_of 1) (str "ann") = Ok (key_of 1, key_of 1, str "ann").
Proof. split; vm_compute; reflexivity. Qed.

(** A name is not escaped either: it can take the place of the key. *)
Lemma name_overrides_key :
  GenerateIdentityQR ParseIdentityQR (key_of 1) (key_of 1) (str "ann&pub_key=" ++ EncodeToString (key_of 2))
  = Ok (key_of 1, key_of 2, str "ann").
Proof. vm_compute. reflexivity. Qed.


(** A backup that states no node ID of eight bytes is restored without the
    check, whatever its keys. *)
Lemma backup_without_id_unchecked :
  let b := BackupIdentity (key_of 7) (zeroes 24) 5 (key_of 1) (key_of 2) (str "ann") (str "secret") in
  let renamed i := mkBackup (Version b) (CreatedAt b) i (Name b) (KeyType b) (Encrypted b) (Nonce b) (Salt b) in
  RestoreIdentity (renamed (str "0000000000000000")) (str "secret") = Err (ErrText "node ID mismatch in backup") /\
  RestoreIdentity (renamed (str "00")) (str "secret") = Ok (key_of 1, key_of 2).
Proof. split; vm_compute; reflexivity. Qed.

(** The key pair of RFC 8032, section 7.1, test 1. *)
Definition rfc_secret : bytes := be_put 32 0x9d61b19deffd5a60ba844af492ec2cc44449c5697b326919703bac031cae7f60.
Definition rfc_public : bytes := be_put 32 0xd75a980182b10ab7d54bfed3c964073a0ee172f3daa62325af021a68f707511a.

(** The X25519 key pair a node derives from it is not one: the public key that
    belongs to the derived private key is the image of the Ed25519 public key
    on the Montgomery curve, and the conversion gives another. *)
Lemma derived_keys_do_not_match :
  Curve25519.X25519_base (Ed25519PrivateToX25519 rfc_secret) = Curve25519.montgomery_u rfc_public /\
  bool_decide (Ed25519PublicToX25519 rfc_public = Some (Curve25519.montgomery_u rfc_public)) = false.
Proof. split; vm_compute; reflexivity. Qed.

Lemma conversion_panics : Ed25519PublicToX25519 (zeroes 32) = None.
Proof. vm_compute. reflexivity. Qed.
End IdentitySample.
