(* ===== verification/Vpn.v ===== *)
(** * VPN tunnels (pkg/services/vpn/vpn.go, carrier.go)

    The table of tunnels and their forwarding loops, the two loops over a
    device and a carrier, and the carrier that frames packets on a stream.  A
    loop is a function of what happens in its rounds: what the device reads,
    what the stream delivers and in which pieces, whether its context is still
    alive.  The device itself and the opening of streams are not part of it. *)

From S2P Require Import Prelude Bytes Hash.
Local Open Scope Z_scope.

Definition DefaultMTU : Z := 1500.
Definition maxPacketSize : Z := DefaultMTU + 64.
Definition ErrCarrierClosed : goerror := ErrText "vpn carrier is closed".

(** ** The carrier *)

(** What a read of the stream gives: some bytes (as many as fit, the rest
    stays), nothing, with the context alive or not, or an error.  The end of
    the list is the end of the stream. *)
Inductive read_event :=
| Chunk (b : bytes)
| Idle (alive : bool)
| Broken.

Fixpoint read_full (n : nat) (stream : list read_event) : result bytes * list read_event :=
  match n, stream with
  | O, _ => (Ok [], stream)
  | _, [] => (Err ErrCarrierClosed, [])
  | _, Chunk b :: rest =>
      if decide (length b < n)%nat then
        let '(r, rest) := read_full (n - length b) rest in (app b <$> r, rest)
      else (Ok (take n b), if decide (length b = n) then rest else Chunk (drop n b) :: rest)
  | _, Idle alive :: rest => if alive : bool then read_full n rest else (Err (ErrText "context canceled"), rest)
  | _, Broken :: rest => (Err (ErrText "read vpn packet"), rest)
  end.

(** [Send]: the bytes written. *)
Definition Send (closed write_ok : bool) (packet : bytes) : result bytes :=
  if len packet =? 0 then Err (ErrText "refusing to send an empty packet")
  else if maxPacketSize <? len packet then Err (ErrText "packet exceeds the byte limit")
  else if closed then Err ErrCarrierClosed
  else if negb write_ok then Err (ErrText "write vpn packet")
  else Ok (be_put 2 (len packet) ++ packet).

Definition Recv (closed : bool) (stream : list read_event) : result bytes * list read_event :=
  if closed then (Err ErrCarrierClosed, stream) else
  match read_full 2 stream with
  | (Err e, stream) => (Err e, stream)
  | (Ok header, stream) =>
      let length := be_get header in
      if length =? 0 then (Err (ErrText "peer sent a zero length packet"), stream)
      else if maxPacketSize <? length then (Err (ErrText "peer claims a packet over the limit"), stream)
      else read_full (Z.to_nat length) stream
  end.

(** [Close]: whether the stream is closed now, and by this call. *)
Definition carrier_Close (closed : bool) : bool * bool := (true, negb closed).

(** ** The loops *)

Record out_round := mkOut { o_alive : bool; o_read : result bytes; o_closed : bool; o_write : bool }.
Record in_round := mkIn { i_alive : bool; i_closed : bool; i_write : bool }.

(** The packets forwarded, the bytes on the stream, and whether the loop has
    returned. *)
Fixpoint forwardOutbound (rounds : list out_round) : Z * bytes * bool :=
  match rounds with
  | [] => (0, [], false)
  | r :: rounds =>
      if negb (o_alive r) then (0, [], true) else
      match o_read r with
      | Err _ => (0, [], true)
      | Ok packet =>
          if len packet =? 0 then forwardOutbound rounds
          else if DefaultMTU <? len packet then forwardOutbound rounds
          else
            match Send (o_closed r) (o_write r) packet with
            | Err _ => (0, [], true)
            | Ok frame => let '(n, sent, ended) := forwardOutbound rounds in (n + 1, frame ++ sent, ended)
            end
      end
  end.

(** The packets written to the device, and whether the loop has returned. *)
Fixpoint forwardInbound (rounds : list in_round) (stream : list read_event) : list bytes * bool :=
  match rounds with
  | [] => ([], false)
  | r :: rounds =>
      if negb (i_alive r) then ([], true) else
      match Recv (i_closed r) stream with
      | (Err _, _) => ([], true)
      | (Ok packet, stream) =>
          if len packet =? 0 then forwardInbound rounds stream
          else if negb (i_write r) then ([], true)
          else let '(out, ended) := forwardInbound rounds stream in (packet :: out, ended)
      end
  end.

(** ** The server *)

Record Tunnel := mkTunnel {
  t_ID : bytes;
  t_Src : bytes;
  t_Dst : bytes;
  t_Addr : bytes;
  t_State : bytes;
  t_Created : Z;
}.

Record Route := mkRoute { r_Dest : bytes; r_Via : bytes; r_Metric : Z }.

#[global] Instance Tunnel_eq_dec : EqDecision Tunnel.
Proof. solve_decision. Defined.

(** The cancel function of a loop is its index in [loops], which says whether
    it was called. *)
Record Server := mkVpn {
  v_tunnels : gmap bytes Tunnel;
  v_routes : gmap bytes Route;
  v_iface : option bytes;
  v_localID : bytes;
  v_running : gmap bytes nat;
  v_loops : list bool;
  v_forwarded : Z;
  v_delivered : Z;
  v_deviceErr : option goerror;
}.

Definition NewServerWithInterface (localID : bytes) (iface : option bytes) : Server :=
  mkVpn ∅ ∅ iface localID ∅ [] 0 0 None.

(** [NewServer]: what opening the device gave. *)
Definition NewServer (localID : bytes) (opened : result bytes) : Server :=
  match opened with
  | Ok name => NewServerWithInterface localID (Some name)
  | Err e => mkVpn ∅ ∅ None localID ∅ [] 0 0 (Some e)
  end.

Section server.
Context `{Hash256}.

Definition tunnel_id (localID peer : bytes) : bytes := sha3 (localID ++ peer).

(** [deadline] is the deadline of the context, 0 without one. *)
Definition CreateTunnel (deadline : Z) (peerID addr : bytes) (s : Server) : bytes * Server :=
  let id := tunnel_id (v_localID s) peerID in
  (id, mkVpn (<[id := mkTunnel id (v_localID s) peerID addr (str "open") deadline]> (v_tunnels s)) (v_routes s)
         (v_iface s) (v_localID s) (v_running s) (v_loops s) (v_forwarded s) (v_delivered s) (v_deviceErr s)).

Definition start_loops (id : bytes) (s : Server) : Server :=
  mkVpn (v_tunnels s) (v_routes s) (v_iface s) (v_localID s) (<[id := length (v_loops s)]> (v_running s))
    (v_loops s ++ [false]) (v_forwarded s) (v_delivered s) (v_deviceErr s).

Definition Attach (deadline : Z) (peer : bytes) (carrier : bool) (s : Server) : result bytes * Server :=
  match v_iface s with
  | None => (Err (ErrText "no tunnel device: this node has no TUN interface"), s)
  | Some _ =>
      if negb carrier then (Err (ErrText "no carrier: nothing to forward packets over"), s) else
      let '(id, s) := CreateTunnel deadline peer [] s in (Ok id, start_loops id s)
  end.

Definition CloseTunnel (id : bytes) (s : Server) : Server :=
  let loops := match v_running s !! id with Some i => <[i := true]> (v_loops s) | None => v_loops s end in
  mkVpn (delete id (v_tunnels s)) (v_routes s) (v_iface s) (v_localID s) (delete id (v_running s)) loops
    (v_forwarded s) (v_delivered s) (v_deviceErr s).

(** [ServiceHandler] on a stream of [peer] until it parks: whether the carrier
    was closed at once. *)
Definition ServiceHandler (deadline : Z) (peer : bytes) (s : Server) : bool * Server :=
  match Attach deadline peer true s with
  | (Err _, s) => (true, s)
  | (Ok _, s) => (false, s)
  end.

Definition AddRoute (dest via : bytes) (metric : Z) (s : Server) : Server :=
  mkVpn (v_tunnels s) (<[dest := mkRoute dest via metric]> (v_routes s)) (v_iface s) (v_localID s) (v_running s)
    (v_loops s) (v_forwarded s) (v_delivered s) (v_deviceErr s).

Definition count_packets (forwarded delivered : Z) (s : Server) : Server :=
  mkVpn (v_tunnels s) (v_routes s) (v_iface s) (v_localID s) (v_running s) (v_loops s)
    (wrapU 64 (v_forwarded s + forwarded)) (wrapU 64 (v_delivered s + delivered)) (v_deviceErr s).

(** Maps are visited in any order; here in that of their keys. *)
Definition Routes (s : Server) : list Route := (map_to_list (v_routes s)).*2.
Definition Tunnels (s : Server) : list Tunnel := (map_to_list (v_tunnels s)).*2.
Definition Stats (s : Server) : Z * Z := (v_forwarded s, v_delivered s).
Definition HasDevice (s : Server) : bool := bool_decide (is_Some (v_iface s)).
Definition DeviceName (s : Server) : bytes := default [] (v_iface s).
Definition DeviceError (s : Server) : option goerror :=
  match v_iface s with
  | Some _ => None
  | None => Some (default (ErrText "no TUN interface") (v_deviceErr s))
  end.
End server.

(** ** Wire format of a tunnel *)

Definition MarshalTunnel (t : Tunnel) : bytes :=
  t_Src t ++ t_Dst t ++ t_ID t ++ be_put 8 (wrapU 64 (t_Created t)) ++ zeroes 8.

Definition UnmarshalTunnel (data : bytes) : result Tunnel :=
  if len data <? 104 then Err (ErrText "data too short") else
  Ok (mkTunnel (take 32 (drop 64 data)) (take 32 data) (take 32 (drop 32 data)) [] []
        (wrapS 64 (be_get (take 8 (drop 96 data))))).

(** * Lemmas *)

(** The stream delivers these bytes, in whatever pieces. *)
Definition delivers (stream : list read_event) (b : bytes) : Prop :=
  Forall (fun e => match e with Chunk _ => True | Idle alive => alive = true | Broken => False end) stream /\
  concat ((fun e => match e with Chunk b => b | _ => [] end) <$> stream) = b.

Lemma read_full_delivers n stream b rest :
  delivers stream (b ++ rest) -> length b = n ->
  exists stream', read_full n stream = (Ok b, stream') /\ delivers stream' rest.
Proof.
  intros [Hf Hc]. revert n b Hc. induction stream as [|e stream IH]; intros n b Hc Hn.
  { apply eq_sym, app_nil in Hc as [-> ->]. simpl in Hn. subst n. exists []. by split. }
  destruct n as [|n].
  { apply length_zero_iff_nil in Hn as ->. exists (e :: stream). by split. }
  apply Forall_cons in Hf as [He Hf]. cbn [fmap list_fmap concat] in Hc. destruct e as [c|alive|]; [|subst alive|done].
  2:{ cbn [read_full]. by apply IH. }
  cbn [read_full]. destruct (decide (length c < S n)%nat) as [Hlt|Hge].
  - assert (b = c ++ drop (length c) b) as Hb.
    { apply (f_equal (take (length c))) in Hc as Ht. rewrite take_app_length, take_app_le in Ht by lia.
      rewrite Ht at 1. by rewrite take_drop. }
    rewrite Hb, <- app_assoc in Hc. apply app_inv_head in Hc.
    destruct (IH Hf (S n - length c)%nat (drop (length c) b) Hc) as (stream' & Hr & Hd); [rewrite length_drop; lia|].
    exists stream'. rewrite Hr. cbn [fmap result_fmap]. by rewrite <- Hb.
  - assert (take (S n) c = b) as Ht.
    { apply (f_equal (take (S n))) in Hc. rewrite take_app_le, take_app_exact in Hc by lia. done. }
    rewrite Ht. rewrite <- (take_drop (S n) c), Ht, <- app_assoc in Hc. apply app_inv_head in Hc.
    eexists. split; [reflexivity|]. destruct (decide (length c = S n)) as [Hl|Hl].
    + rewrite drop_ge in Hc by lia. by split.
    + by split; [constructor|].
Qed.

(** A packet as the loops carry it. *)
Definition packet_ok (p : bytes) : Prop := 0 < len p <= DefaultMTU.
Definition framed (p : bytes) : bytes := be_put 2 (len p) ++ p.

Lemma Send_framed p : packet_ok p -> Send false true p = Ok (framed p).
Proof.
  unfold packet_ok, DefaultMTU, Send, maxPacketSize, DefaultMTU. intros Hp.
  assert (len p =? 0 = false) as -> by (apply Z.eqb_neq; lia).
  by assert (1500 + 64 <? len p = false) as -> by (apply Z.ltb_ge; lia).
Qed.

Lemma Recv_framed p stream rest :
  packet_ok p -> delivers stream (framed p ++ rest) ->
  exists stream', Recv false stream = (Ok p, stream') /\ delivers stream' rest.
Proof.
  unfold packet_ok, DefaultMTU, framed. intros Hp. rewrite <- app_assoc. intros Hd.
  destruct (read_full_delivers 2 _ _ _ Hd) as (s1 & H1 & Hd1); [apply length_be_put|].
  destruct (read_full_delivers (length p) _ _ _ Hd1) as (s2 & H2 & Hd2); [done|].
  exists s2. split; [|done]. unfold Recv, maxPacketSize, DefaultMTU. rewrite H1.
  rewrite be_get_put_small by (split; [lia|]; change (2 ^ (Z.of_nat 2 * 8)) with 65536; lia).
  assert (len p =? 0 = false) as -> by (apply Z.eqb_neq; lia).
  assert (1500 + 64 <? len p = false) as -> by (apply Z.ltb_ge; lia).
  unfold len. by rewrite Nat2Z.id.
Qed.

(** The rounds of loops that are not disturbed. *)
Definition reads (packets : list bytes) : list out_round := (fun p => mkOut true (Ok p) false true) <$> packets.
Definition quiet (n : nat) : list in_round := replicate n (mkIn true false true).

Definition carried (p : bytes) : bool := (0 <? len p) && (len p <=? DefaultMTU).

Lemma carried_ok p : carried p = true <-> packet_ok p.
Proof. unfold carried, packet_ok. rewrite andb_true_iff, Z.ltb_lt, Z.leb_le. done. Qed.

Lemma forwardOutbound_frames packets :
  let kept := filter carried packets in
  forwardOutbound (reads packets) = (Z.of_nat (length kept), concat (framed <$> kept), false).
Proof.
  induction packets as [|p packets IH]; [done|]. cbv zeta in *. unfold reads in *. cbn [fmap list_fmap forwardOutbound].
  cbn [o_alive o_read o_closed o_write negb]. rewrite filter_cons. destruct (decide (carried p)) as [Hp|Hp].
  - apply Is_true_true, carried_ok in Hp. unfold packet_ok in Hp.
    assert (len p =? 0 = false) as -> by (apply Z.eqb_neq; lia).
    assert (DefaultMTU <? len p = false) as -> by (apply Z.ltb_ge; lia).
    rewrite Send_framed, IH by done. cbn [length fmap list_fmap concat]. f_equal. f_equal. lia.
  - destruct (Z.eqb_spec (len p) 0) as [E|E]; [done|].
    destruct (Z.ltb_spec DefaultMTU (len p)) as [G|G]; [done|]. exfalso.
    apply Hp, Is_true_true, carried_ok. pose proof (len_nonneg p). unfold packet_ok. lia.
Qed.

Lemma forwardInbound_frames packets stream n :
  Forall packet_ok packets -> delivers stream (concat (framed <$> packets)) -> (length packets <= n)%nat ->
  (forwardInbound (quiet n) stream).1 = packets.
Proof.
  intros Hp. revert stream n. induction Hp as [|p packets Hp Hps IH]; intros stream n Hd Hn.
  - destruct n as [|n]; [done|]. unfold quiet. cbn [replicate forwardInbound i_alive i_closed i_write negb].
    destruct (Recv false stream) as [r s'] eqn:E. destruct r as [packet|e]; [|done]. exfalso.
    unfold Recv in E. destruct (read_full 2 stream) as [[h|] s1] eqn:E1; [|done].
    destruct Hd as [Hf Hc]. cbn in Hc. clear -Hf Hc E1. revert h s1 E1. induction stream as [|e stream IHs]; intros h s1 E1; [done|].
    apply Forall_cons in Hf as [He Hf]. cbn [fmap list_fmap concat] in Hc. apply app_nil in Hc as [Hc1 Hc].
    destruct e as [c|alive|]; [|subst alive|done]; cbn [read_full] in E1.
    + subst c. cbn [length] in E1. rewrite decide_True in E1 by lia. cbn [Nat.sub] in E1.
      destruct (read_full 2 stream) as [[h'|] s'] eqn:E2; [|done]. by eapply IHs.
    + by eapply IHs.
  - destruct n as [|n]; [simpl in Hn; lia|]. unfold quiet. cbn [replicate forwardInbound i_alive i_closed i_write negb].
    cbn [fmap list_fmap concat] in Hd. destruct (Recv_framed p stream _ Hp Hd) as (s' & -> & Hd').
    assert (len p =? 0 = false) as -> by (apply Z.eqb_neq; unfold packet_ok in Hp; lia).
    specialize (IH s' n Hd'). cbn [length] in Hn. unfold quiet in IH.
    destruct (forwardInbound (replicate n _) s') as [out ended] eqn:E. cbn [fst] in *. by rewrite IH by lia.
Qed.


Section invariant.
Context `{Hash256}.

(** ** The table of tunnels *)

Record vpn_ok (s : Server) : Prop := {
  vo_tunnels : map_Forall (fun id t => t_ID t = id /\ t_Src t = v_localID s /\ id = tunnel_id (v_localID s) (t_Dst t)) (v_tunnels s);
  vo_running : map_Forall (fun id i => is_Some (v_tunnels s !! id) /\ v_loops s !! i = Some false) (v_running s);
  vo_distinct : forall id1 id2 i, v_running s !! id1 = Some i -> v_running s !! id2 = Some i -> id1 = id2;
}.

Inductive vpn_call :=
| CAttach (deadline : Z) (peer : bytes) (carrier : bool)
| CCreate (deadline : Z) (peer addr : bytes)
| CClose (id : bytes)
| CRoute (dest via : bytes) (metric : Z).

Definition run_vpn_call (c : vpn_call) (s : Server) : Server :=
  match c with
  | CAttach d p k => (Attach d p k s).2
  | CCreate d p a => (CreateTunnel d p a s).2
  | CClose id => CloseTunnel id s
  | CRoute d v m => AddRoute d v m s
  end.

Lemma CreateTunnel_ok d p a s : vpn_ok s -> vpn_ok (CreateTunnel d p a s).2.
Proof.
  intros [Ht Hr Hd]. split; cbn [snd CreateTunnel v_tunnels v_running v_loops v_localID]; [|intros id i Hi|done].
  - apply map_Forall_insert_2; [by cbn|done].
  - destruct (Hr id i Hi) as [Hs Hl]. split; [|done]. apply lookup_insert_is_Some'. by right.
Qed.

Lemma start_loops_ok id s : is_Some (v_tunnels s !! id) -> vpn_ok s -> vpn_ok (start_loops id s).
Proof.
  intros Hid [Ht Hr Hd]. split; cbn [start_loops v_tunnels v_running v_loops v_localID]; [done| |].
  - intros id' i Hi. apply lookup_insert_Some in Hi as [[<- <-]|[Hne Hi]].
    + split; [done|]. by rewrite lookup_app_r, Nat.sub_diag by lia.
    + destruct (Hr id' i Hi) as [Hs Hl]. split; [done|]. by apply lookup_app_l_Some.
  - assert (forall id' i, v_running s !! id' = Some i -> (i < length (v_loops s))%nat) as Hlt.
    { intros id' i Hi. destruct (Hr id' i Hi) as [_ Hl]. by apply lookup_lt_Some in Hl. }
    intros id1 id2 i [[<- <-]|[Hne1 H1]]%lookup_insert_Some [[<- Hi]|[Hne2 H2]]%lookup_insert_Some; try done.
    + apply Hlt in H2. lia.
    + apply Hlt in H1. lia.
    + by eapply Hd.
Qed.

Lemma CloseTunnel_ok id s : vpn_ok s -> vpn_ok (CloseTunnel id s).
Proof.
  intros [Ht Hr Hd]. split; cbn [CloseTunnel v_tunnels v_running v_loops v_localID].
  - by apply map_Forall_delete.
  - intros id' i [Hne Hi]%lookup_delete_Some. destruct (Hr id' i Hi) as [Hs Hl]. split; [by rewrite lookup_delete_ne|].
    destruct (v_running s !! id) as [j|] eqn:E; [|done].
    rewrite list_lookup_insert_ne; [done|]. intros ->. apply Hne. by eapply Hd.
  - intros id1 id2 i [_ H1]%lookup_delete_Some [_ H2]%lookup_delete_Some. by eapply Hd.
Qed.

Lemma run_vpn_call_ok c s : vpn_ok s -> vpn_ok (run_vpn_call c s).
Proof.
  intros Hs. destruct c as [d p k|d p a|id|d v m]; cbn [run_vpn_call].
  - unfold Attach. destruct (v_iface s); [|done]. destruct k; [|done]. cbn [negb].
    pose proof (CreateTunnel_ok d p [] s Hs) as Hc. destruct (CreateTunnel d p [] s) as [id s'] eqn:E. cbn [snd] in *.
    apply start_loops_ok; [|done]. injection E as <- <-. cbn [v_tunnels]. by rewrite lookup_insert_eq.
  - by apply CreateTunnel_ok.
  - by apply CloseTunnel_ok.
  - by destruct Hs.
Qed.

(** Whatever is attached and closed, a tunnel is filed under the hash of both
    ends, a loop that can be stopped belongs to an open tunnel and goes on, and
    closing a tunnel stops the loop it was last attached with. *)
Lemma vpn_table cs local iface :
  let s := foldl (flip run_vpn_call) (NewServerWithInterface local iface) cs in
  vpn_ok s /\
  forall id i, v_running s !! id = Some i ->
    v_loops (CloseTunnel id s) !! i = Some true /\ v_tunnels (CloseTunnel id s) !! id = None.
Proof.
  intros s. assert (vpn_ok s) as Hs.
  { unfold s. clear s. assert (vpn_ok (NewServerWithInterface local iface)) as H0.
    { split; cbn; [apply map_Forall_empty|apply map_Forall_empty|by intros ?? i ?%lookup_empty_Some]. }
    revert H0. generalize (NewServerWithInterface local iface). induction cs as [|c cs IH]; intros s Hs; [done|].
    cbn [foldl flip]. apply IH. by apply run_vpn_call_ok. }
  split; [done|]. intros id i Hi. unfold CloseTunnel. cbn [v_loops v_tunnels]. rewrite Hi.
  destruct (vo_running s Hs id i Hi) as [_ Hl]. split; [|apply lookup_delete_eq].
  apply list_lookup_insert_eq. by apply lookup_lt_Some in Hl.
Qed.

(** What the format of a tunnel keeps. *)
Lemma tunnel_roundtrip t :
  length (t_Src t) = 32%nat -> length (t_Dst t) = 32%nat -> length (t_ID t) = 32%nat ->
  int64_min <= t_Created t <= int64_max ->
  length (MarshalTunnel t) = 112%nat /\
  UnmarshalTunnel (MarshalTunnel t) = Ok (mkTunnel (t_ID t) (t_Src t) (t_Dst t) [] [] (t_Created t)).
Proof.
  intros Hs Hd Hi Hc. assert (length (MarshalTunnel t) = 112%nat) as Hl.
  { unfold MarshalTunnel. rewrite !length_app, length_be_put, length_zeroes. lia. }
  split; [done|]. unfold UnmarshalTunnel.
  assert (len (MarshalTunnel t) <? 104 = false) as -> by (apply Z.ltb_ge; unfold len; lia).
  assert (forall (b k : bytes), length b = 32%nat -> drop 32 (b ++ k) = k) as E by (intros; by apply drop_app_exact).
  assert (forall b : bytes, drop 64 b = drop 32 (drop 32 b)) as E2 by (intros; by rewrite drop_drop).
  assert (forall b : bytes, drop 96 b = drop 32 (drop 64 b)) as E3 by (intros; by rewrite drop_drop).
  rewrite E3, E2. unfold MarshalTunnel. rewrite !E by done.
  rewrite (take_app_exact (t_Src t)), (take_app_exact (t_Dst t)), (take_app_exact (t_ID t)) by done.
  rewrite take_app_exact by apply length_be_put.
  rewrite be_get_put_small by (apply wrapU_range; lia). rewrite wrapS_wrapU by lia.
  rewrite wrapS_small; [done|lia|]. unfold int64_min, int64_max in Hc. change (64 - 1) with 63. lia.
Qed.
End invariant.

(** ** Examples *)


Module VpnSample.
#[local] Existing Instance sha3_256_hash.
Definition peer : bytes := zeroes 32.
Definition fresh : Server := NewServerWithInterface (zeroes 32) (Some (str "tun0")).
Definition once : result bytes * Server := Attach 0 peer true fresh.
Definition twice : Server := (Attach 0 peer true once.2).2.

(** Attaching a second time to the same peer forgets the cancel function of the
    first loops: closing the tunnel leaves them running. *)
Lemma second_attach_leaks :
  match once.1 with
  | Ok id => v_loops (CloseTunnel id twice) = [false; true] /\ v_running (CloseTunnel id twice) = ∅
  | Err _ => False
  end.
Proof. vm_compute. split; reflexivity. Qed.

(** A read that times out on an idle tunnel ends the loop for good: what comes
    afterwards is not delivered. *)
Lemma idle_tunnel_goes_deaf :
  forwardInbound (quiet 5) [Chunk (framed (str "a")); Broken; Chunk (framed (str "b"))] = ([str "a"], true).
Proof. vm_compute. reflexivity. Qed.
End VpnSample.
