(* ===== verification/Mdns.v ===== *)
(** * Multicast DNS (pkg/discovery/mdns.go)

    The announcement of a node and the parser of the announcements of others.
    Slices are taken as Go takes them: [None] is a run-time panic, or a loop
    that has not ended.  The parsing of addresses of [net], the form of an
    IPv6 address and the transaction ID (from the clock) are arguments; the
    sockets are left out. *)

From S2P Require Import Prelude Bytes Decimal Float Qos Multipath LinkManager Text Federation Base64 Discovery.
Local Open Scope Z_scope.

Definition serviceType : bytes := str "_localweb._tcp.local".
Definition mdnsTTL : Z := 120.
Definition dot : byte := byte_of 46.
Definition comma : byte := byte_of 44.

(** ** Writing *)

(** [data[a:b]] and [data[i]]. *)
Definition slice (data : bytes) (a b : nat) : option bytes :=
  if (a <=? b)%nat && (b <=? length data)%nat then Some (take (b - a) (drop a data)) else None.
Definition at_ (data : bytes) (i : nat) : option Z := u8 <$> data !! i.
Definition u16_at (data : bytes) (a : nat) : option Z := be_get <$> slice data a (a + 2).

Definition encode_label (part : bytes) : bytes := byte_of (len part) :: part.
Definition encodeDNSName (name : bytes) : bytes := concat (encode_label <$> Split dot name) ++ [byte_of 0].

Definition appendDNSAnswer (pkt name : bytes) (recType ttl : Z) (data : bytes) : bytes :=
  pkt ++ name ++ (be_put 2 recType ++ be_put 2 1 ++ be_put 4 ttl ++ be_put 2 (len data)) ++ data.

Definition txt_entry (entry : bytes) : bytes := byte_of (len entry) :: entry.

Fixpoint service_names (services : list ServiceInfo) : bytes :=
  match services with
  | [] => []
  | [s] => svc_Name s
  | s :: services => svc_Name s ++ comma :: service_names services
  end.

Definition buildTXTRecord (info : PeerInfo) : bytes :=
  txt_entry (str "id=" ++ fmtHex (take 8 (ID info))) ++ txt_entry (str "ver=1") ++
  match Services info with
  | [] => []
  | _ => txt_entry (str "svc=" ++ service_names (Services info))
  end.

Definition local_name (info : PeerInfo) : bytes := encodeDNSName (Name info ++ str ".local").
Definition srv_data (info : PeerInfo) : bytes := be_put 2 0 ++ be_put 2 0 ++ be_put 2 4443 ++ local_name info.

Section announce.
(** [net.ParseIP] followed by [To4]. *)
Variable parse_ip4 : bytes -> option bytes.

Definition announced_ip (info : PeerInfo) : option bytes :=
  match Addrs info with [] => None | a :: _ => parse_ip4 a end.

Definition buildAnnounce (txid : Z) (info : PeerInfo) : bytes :=
  let ip := announced_ip info in
  let answers := if ip is Some _ then 3 else 2 in
  let header := be_put 2 txid ++ be_put 2 0x8400 ++ be_put 2 0 ++ be_put 2 answers ++ be_put 2 0 ++ be_put 2 0 in
  let pkt := appendDNSAnswer header (encodeDNSName serviceType) 33 mdnsTTL (srv_data info) in
  let pkt := match ip with Some ip4 => appendDNSAnswer pkt (local_name info) 1 mdnsTTL ip4 | None => pkt end in
  appendDNSAnswer pkt (local_name info) 16 mdnsTTL (buildTXTRecord info).

(** What [sendAnnounce] announces. *)
Definition own_info (nodeID name addr : bytes) : PeerInfo :=
  mkDiscovered nodeID (zeroes 32) name [addr]
    [mkServiceInfo (str "dns") 5353 ∅; mkServiceInfo (str "http") 8080 ∅; mkServiceInfo (str "messaging") 9090 ∅]
    [] 0 0 (f64_of_Z 0) 0 0 [].
End announce.

(** ** Reading *)

Definition pointer (length_ : Z) : bool := Z.land length_ 0xC0 =? 0xC0.

(** The loops over a name, a turn for each unit of fuel. *)
Fixpoint skip_name (fuel : nat) (data : bytes) (offset : nat) : option nat :=
  match fuel with
  | O => None
  | S fuel =>
      if (length data <=? offset)%nat then Some offset else
      l ← at_ data offset;
      let offset := S offset in
      if l =? 0 then Some offset
      else if pointer l then Some (if (length data <=? offset)%nat then length data else S offset)
      else if (length data - offset <? Z.to_nat l)%nat then Some (length data)
      else skip_name fuel data (offset + Z.to_nat l)
  end.
Definition skipDNSName (data : bytes) (offset : nat) : option nat := skip_name (S (length data)) data offset.

Fixpoint parse_name (fuel : nat) (data : bytes) (offset : nat) (name : bytes) : option bytes :=
  match fuel with
  | O => None
  | S fuel =>
      if (length data <=? offset)%nat then Some name else
      l ← at_ data offset;
      let offset := S offset in
      if l =? 0 then Some name
      else if pointer l then Some name
      else if (length data <? offset + Z.to_nat l)%nat then Some name
      else
        let name := if decide (name = []) then name else name ++ [dot] in
        part ← slice data offset (offset + Z.to_nat l);
        parse_name fuel data (offset + Z.to_nat l) (name ++ part)
  end.
Definition parseDNSName (data : bytes) (offset : nat) : option bytes := parse_name (S (length data)) data offset [].

Fixpoint txt_services (fuel : nat) (data : bytes) (offset : nat) (services : list ServiceInfo) : option (list ServiceInfo) :=
  match fuel with
  | O => None
  | S fuel =>
      if (length data <=? offset)%nat then Some services else
      l ← at_ data offset;
      let offset := S offset in
      if (length data <? offset + Z.to_nat l)%nat then Some services else
      entry ← slice data offset (offset + Z.to_nat l);
      let services := match strip_prefix (str "svc=") entry with
                      | Some names => services ++ ((fun n => mkServiceInfo n 0 ∅) <$> Split comma names)
                      | None => services
                      end in
      txt_services fuel data (offset + Z.to_nat l) services
  end.
Definition parseTXTRecord (data : bytes) : option (list ServiceInfo) := txt_services (S (length data)) data 0 [].

Fixpoint txt_value (fuel : nat) (prefix data : bytes) (offset : nat) : option bytes :=
  match fuel with
  | O => None
  | S fuel =>
      if (length data <=? offset)%nat then Some [] else
      l ← at_ data offset;
      let offset := S offset in
      if (length data <? offset + Z.to_nat l)%nat then Some [] else
      entry ← slice data offset (offset + Z.to_nat l);
      match strip_prefix prefix entry with
      | Some v => Some v
      | None => txt_value fuel prefix data (offset + Z.to_nat l)
      end
  end.
Definition parseTXTValue (data key : bytes) : option bytes := txt_value (S (length data)) (key ++ str "=") data 0.

Definition peerIDFromHex (s : bytes) : bytes :=
  match hex_DecodeString s with
  | Some raw => if (len raw =? 0) || (32 <? len raw) then zeroes 32 else raw ++ zeroes (32 - length raw)
  | None => zeroes 32
  end.

(** [strings.TrimSuffix]. *)
Definition trim_local (s : bytes) : bytes :=
  match strip_prefix (reverse (str ".local")) (reverse s) with Some rest => reverse rest | None => s end.

(** [net.IP.String] of four bytes. *)
Definition ip4_String (ip : bytes) : bytes :=
  match dec ∘ u8 <$> ip with
  | [a; b; c; d] => a ++ str "." ++ b ++ str "." ++ c ++ str "." ++ d
  | _ => []
  end.

Definition with_name (n : bytes) (p : PeerInfo) : PeerInfo :=
  mkDiscovered (ID p) (PublicKey p) n (Addrs p) (Services p) (Source p) (RSSI p) (Latency p) (Score p) (LastSeen p)
    (FirstSeen p) (Version p).
Definition with_addrs (a : list bytes) (p : PeerInfo) : PeerInfo :=
  mkDiscovered (ID p) (PublicKey p) (Name p) a (Services p) (Source p) (RSSI p) (Latency p) (Score p) (LastSeen p)
    (FirstSeen p) (Version p).
Definition with_services (s : list ServiceInfo) (p : PeerInfo) : PeerInfo :=
  mkDiscovered (ID p) (PublicKey p) (Name p) (Addrs p) s (Source p) (RSSI p) (Latency p) (Score p) (LastSeen p)
    (FirstSeen p) (Version p).
Definition with_ID (i : bytes) (p : PeerInfo) : PeerInfo :=
  mkDiscovered i (PublicKey p) (Name p) (Addrs p) (Services p) (Source p) (RSSI p) (Latency p) (Score p) (LastSeen p)
    (FirstSeen p) (Version p).

Section parse.
Variable ip6_String : bytes -> bytes.

Fixpoint skip_questions (n : nat) (data : bytes) (offset : nat) : option nat :=
  match n with
  | O => Some offset
  | S n =>
      if (length data <=? offset)%nat then Some offset else
      o ← skipDNSName data offset; skip_questions n data (o + 4)
  end.

(** What a record tells of the peer; [nameEnd] is where its fields begin. *)
Definition take_record (data : bytes) (nameEnd : nat) (recType : Z) (rdLen : nat) (rdData : bytes) (peer : PeerInfo)
    : option PeerInfo :=
  if recType =? 33 then
    if (6 <? rdLen)%nat then name ← parseDNSName data (nameEnd + 10 + 6); Some (with_name (trim_local name) peer)
    else Some peer
  else if recType =? 1 then
    Some (if (rdLen =? 4)%nat then with_addrs [ip4_String rdData ++ str ":4443"] peer else peer)
  else if recType =? 16 then
    services ← parseTXTRecord rdData;
    let peer := with_services (Services peer ++ services) peer in
    idHex ← parseTXTValue rdData (str "id");
    Some (if decide (idHex = []) then peer else with_ID (peerIDFromHex idHex) peer)
  else if recType =? 28 then
    Some (if (rdLen =? 16)%nat then with_addrs [str "[" ++ ip6_String rdData ++ str "]:4443"] peer else peer)
  else Some peer.

Fixpoint parse_answers (n : nat) (data : bytes) (offset : nat) (peer : PeerInfo) : option PeerInfo :=
  match n with
  | O => Some peer
  | S n =>
      if (length data <=? offset)%nat then Some peer else
      nameEnd ← skipDNSName data offset;
      if (length data <? nameEnd + 10)%nat then Some peer else
      recType ← u16_at data nameEnd;
      rdLen ← Z.to_nat <$> u16_at data (nameEnd + 8);
      if (length data <? nameEnd + 10 + rdLen)%nat then Some peer else
      rdData ← slice data (nameEnd + 10) (nameEnd + 10 + rdLen);
      peer ← take_record data nameEnd recType rdLen rdData peer;
      parse_answers n data (nameEnd + 10 + rdLen) peer
  end.

(** [src] is the address the packet came from.  The result is [None] inside
    for a packet that is no announcement. *)
Definition parseMDNSResponse (now : Z) (src data : bytes) : option (option PeerInfo) :=
  if (length data <? 12)%nat then Some None else
  flags ← u16_at data 2;
  if Z.land flags 0x8000 =? 0 then Some None else
  answerCount ← Z.to_nat <$> u16_at data 6;
  questionCount ← Z.to_nat <$> u16_at data 4;
  let peer := mkDiscovered (zeroes 32) (zeroes 32) [] [src ++ str ":4443"] [] (str "mdns") 0 0 (f64_of_Z 0) now 0 [] in
  offset ← skip_questions questionCount data 12;
  peer ← parse_answers answerCount data offset peer;
  Some (if decide (Name peer = []) then None else Some peer).

(** The body of [listenLoop]: the peer that is reported, if any. *)
Definition heard (nodeID : bytes) (now : Z) (src data : bytes) : option (option PeerInfo) :=
  peer ← parseMDNSResponse now src data;
  Some (match peer with Some p => if decide (ID p = nodeID) then None else Some p | None => None end).
End parse.

(** * No packet makes the parser panic or loop *)

Lemma slice_Some data a b : (a <= b)%nat -> (b <= length data)%nat -> slice data a b = Some (take (b - a) (drop a data)).
Proof. intros Hab Hb. unfold slice. by rewrite (proj2 (Nat.leb_le _ _) Hab), (proj2 (Nat.leb_le _ _) Hb). Qed.

Lemma at_Some data i : (i < length data)%nat -> exists b, data !! i = Some b /\ at_ data i = Some (u8 b).
Proof. intros Hi. destruct (lookup_lt_is_Some_2 data i Hi) as [b Hb]. exists b. unfold at_. by rewrite Hb. Qed.

Lemma u16_at_Some data a : (a + 2 <= length data)%nat -> is_Some (u16_at data a).
Proof. intros Ha. unfold u16_at. rewrite slice_Some by lia. by eexists. Qed.

Lemma skip_name_total fuel data off : (length data - off < fuel)%nat -> is_Some (skip_name fuel data off).
Proof.
  revert off. induction fuel as [|fuel IH]; intros off Hf; [lia|]. cbn [skip_name].
  destruct (Nat.leb_spec (length data) off) as [|Hlt]; [by eexists|].
  destruct (at_Some data off Hlt) as (b & _ & ->). cbn [mbind option_bind].
  destruct (_ =? 0); [by eexists|]. destruct (pointer _); [by eexists|].
  destruct (_ <? _)%nat; [by eexists|]. apply IH. lia.
Qed.

Lemma parse_name_total fuel data off name : (length data - off < fuel)%nat -> is_Some (parse_name fuel data off name).
Proof.
  revert off name. induction fuel as [|fuel IH]; intros off name Hf; [lia|]. cbn [parse_name].
  destruct (Nat.leb_spec (length data) off) as [|Hlt]; [by eexists|].
  destruct (at_Some data off Hlt) as (b & _ & ->). cbn [mbind option_bind].
  destruct (_ =? 0); [by eexists|]. destruct (pointer _); [by eexists|].
  destruct (Nat.ltb_spec (length data) (S off + Z.to_nat (u8 b))) as [|Hle]; [by eexists|].
  rewrite slice_Some by lia. cbn [mbind option_bind]. apply IH. lia.
Qed.

Lemma txt_services_total fuel data off svcs : (length data - off < fuel)%nat -> is_Some (txt_services fuel data off svcs).
Proof.
  revert off svcs. induction fuel as [|fuel IH]; intros off svcs Hf; [lia|]. cbn [txt_services].
  destruct (Nat.leb_spec (length data) off) as [|Hlt]; [by eexists|].
  destruct (at_Some data off Hlt) as (b & _ & ->). cbn [mbind option_bind].
  destruct (Nat.ltb_spec (length data) (S off + Z.to_nat (u8 b))) as [|Hle]; [by eexists|].
  rewrite slice_Some by lia. cbn [mbind option_bind]. apply IH. lia.
Qed.

Lemma txt_value_total fuel prefix data off : (length data - off < fuel)%nat -> is_Some (txt_value fuel prefix data off).
Proof.
  revert off. induction fuel as [|fuel IH]; intros off Hf; [lia|]. cbn [txt_value].
  destruct (Nat.leb_spec (length data) off) as [|Hlt]; [by eexists|].
  destruct (at_Some data off Hlt) as (b & _ & ->). cbn [mbind option_bind].
  destruct (Nat.ltb_spec (length data) (S off + Z.to_nat (u8 b))) as [|Hle]; [by eexists|].
  rewrite slice_Some by lia. cbn [mbind option_bind]. destruct (strip_prefix _ _); [by eexists|]. apply IH. lia.
Qed.

Lemma take_record_total ip6 data nameEnd t n rd peer : is_Some (take_record ip6 data nameEnd t n rd peer).
Proof.
  unfold take_record. destruct (t =? 33).
  { destruct (_ <? _)%nat; [|by eexists].
    destruct (parse_name_total (S (length data)) data (nameEnd + 10 + 6) [] ltac:(lia)) as [m Hm].
    unfold parseDNSName. rewrite Hm. by eexists. }
  destruct (t =? 1); [by eexists|]. destruct (t =? 16).
  { destruct (txt_services_total (S (length rd)) rd 0 [] ltac:(lia)) as [svcs Hs].
    destruct (txt_value_total (S (length rd)) (str "id" ++ str "=") rd 0 ltac:(lia)) as [v Hv].
    unfold parseTXTRecord, parseTXTValue. rewrite Hs. cbn [mbind option_bind]. rewrite Hv. by eexists. }
  destruct (t =? 28); by eexists.
Qed.

Lemma parse_answers_total ip6 n data off peer : is_Some (parse_answers ip6 n data off peer).
Proof.
  revert off peer. induction n as [|n IH]; intros off peer; [by eexists|]. cbn [parse_answers].
  destruct (length data <=? off)%nat; [by eexists|].
  destruct (skip_name_total (S (length data)) data off ltac:(lia)) as [e He].
  unfold skipDNSName. rewrite He. cbn [mbind option_bind].
  destruct (Nat.ltb_spec (length data) (e + 10)) as [|Hle]; [by eexists|].
  destruct (u16_at_Some data e ltac:(lia)) as [t Ht]. destruct (u16_at_Some data (e + 8) ltac:(lia)) as [l Hl].
  rewrite Ht, Hl. cbn [mbind option_bind fmap option_fmap option_map].
  destruct (Nat.ltb_spec (length data) (e + 10 + Z.to_nat l)) as [|Hle']; [by eexists|].
  rewrite slice_Some by lia. cbn [mbind option_bind].
  destruct (take_record_total ip6 data e t (Z.to_nat l) (take (e + 10 + Z.to_nat l - (e + 10)) (drop (e + 10) data)) peer)
    as [p Hp].
  rewrite Hp. cbn [mbind option_bind]. apply IH.
Qed.

Lemma skip_questions_total n data off : is_Some (skip_questions n data off).
Proof.
  revert off. induction n as [|n IH]; intros off; [by eexists|]. cbn [skip_questions].
  destruct (length data <=? off)%nat; [by eexists|].
  destruct (skip_name_total (S (length data)) data off ltac:(lia)) as [e He].
  unfold skipDNSName. rewrite He. cbn [mbind option_bind]. apply IH.
Qed.

Lemma parseMDNSResponse_total ip6 now src data : is_Some (parseMDNSResponse ip6 now src data).
Proof.
  unfold parseMDNSResponse. destruct (Nat.ltb_spec (length data) 12) as [|Hle]; [by eexists|].
  destruct (u16_at_Some data 2 ltac:(lia)) as [f Hf]. destruct (u16_at_Some data 6 ltac:(lia)) as [a Ha].
  destruct (u16_at_Some data 4 ltac:(lia)) as [q Hq]. rewrite Hf, Ha, Hq. cbn [mbind option_bind fmap option_fmap option_map].
  destruct (_ =? 0); [by eexists|]. destruct (skip_questions_total (Z.to_nat q) data 12) as [o Ho]. rewrite Ho.
  cbn [mbind option_bind]. set (peer := mkDiscovered _ _ _ _ _ _ _ _ _ _ _ _).
  destruct (parse_answers_total ip6 (Z.to_nat a) data o peer) as [p Hp]. rewrite Hp. by eexists.
Qed.

(** * What is announced is heard *)

Lemma sub_slice_app pre x post a b :
  a = length pre -> b = (length pre + length x)%nat -> slice (pre ++ x ++ post) a b = Some x.
Proof.
  intros -> ->. rewrite slice_Some by (rewrite ?length_app; lia). rewrite drop_app_exact by done.
  rewrite take_app_exact; [done|lia].
Qed.

Lemma at_app pre b post i : i = length pre -> at_ (pre ++ b :: post) i = Some (u8 b).
Proof. intros ->. unfold at_. by rewrite list_lookup_middle. Qed.

Lemma u16_app pre z post i : i = length pre -> u16_at (pre ++ be_put 2 z ++ post) i = Some (z mod 2 ^ 16).
Proof.
  intros ->. unfold u16_at. rewrite sub_slice_app by (rewrite ?length_be_put; done). cbn [fmap option_fmap option_map].
  by rewrite be_get_put.
Qed.

Definition label_ok (part : bytes) : Prop := 0 < len part < 192.

Lemma label_byte part : label_ok part ->
  u8 (byte_of (len part)) = len part /\ len part =? 0 = false /\ pointer (len part) = false /\ Z.to_nat (len part) = length part.
Proof.
  intros [Hp Hl]. split; [rewrite u8_byte_of; apply Z.mod_small; lia|]. split; [apply Z.eqb_neq; lia|].
  split; [|unfold len; lia]. unfold pointer. apply Z.eqb_neq. intros E.
  assert (Z.land (len part) 0xC0 <= 0xC0 /\ Z.testbit (len part) 7 = true /\ Z.testbit (len part) 6 = true) as (_ & H7 & H6).
  { rewrite E. split; [lia|]. split.
    - apply (f_equal (fun z => Z.testbit z 7)) in E. rewrite Z.land_spec in E. by apply andb_true_iff in E as [-> _].
    - apply (f_equal (fun z => Z.testbit z 6)) in E. rewrite Z.land_spec in E. by apply andb_true_iff in E as [-> _]. }
  apply Z.testbit_true in H7, H6; [|lia|lia].
  change (2 ^ 7) with 128 in H7. change (2 ^ 6) with 64 in H6.
  pose proof (Z.div_mod (len part) 64 ltac:(lia)). pose proof (Z.mod_pos_bound (len part) 64 ltac:(lia)).
  assert (len part / 64 <= 2) by (apply Z.lt_succ_r, Z.div_lt_upper_bound; lia).
  assert (len part / 128 = len part / 64 / 2) as E2 by (rewrite Z.div_div by lia; done).
  assert (len part / 64 = 0 \/ len part / 64 = 1 \/ len part / 64 = 2) as [Hq|[Hq|Hq]]
    by (pose proof (Z.div_pos (len part) 64); lia); rewrite ?E2, Hq in H7; rewrite Hq in H6; done.
Qed.

Lemma encode_cons part parts post :
  concat (encode_label <$> part :: parts) ++ post = byte_of (len part) :: part ++ concat (encode_label <$> parts) ++ post.
Proof. rewrite fmap_cons. cbn [concat]. unfold encode_label at 1. by rewrite <- app_assoc. Qed.

(** Skipping and reading a name of whole labels. *)
Lemma skip_name_labels parts pre post fuel :
  Forall label_ok parts -> (length parts < fuel)%nat ->
  skip_name fuel (pre ++ concat (encode_label <$> parts) ++ byte_of 0 :: post) (length pre)
  = Some (length pre + length (concat (encode_label <$> parts)) + 1)%nat.
Proof.
  intros Hp. revert pre fuel. induction Hp as [|part parts Hpart _ IH]; intros pre fuel Hf; (destruct fuel as [|fuel]; [lia|]); cbn [skip_name].
  - cbn [fmap list_fmap concat app]. rewrite at_app by done. cbn [mbind option_bind].
    destruct (Nat.leb_spec (length (pre ++ byte_of 0 :: post)) (length pre)) as [H|_]; [rewrite length_app in H; simpl in H; lia|].
    change (u8 (byte_of 0) =? 0) with true. cbv iota. f_equal. simpl. lia.
  - destruct (label_byte part Hpart) as (Hb & H0 & Hptr & Hn).
    rewrite encode_cons, at_app by done. cbn [mbind option_bind]. set (rest := concat (encode_label <$> parts) ++ byte_of 0 :: post).
    destruct (Nat.leb_spec (length (pre ++ byte_of (len part) :: part ++ rest)) (length pre)) as [H|_];
      [rewrite length_app in H; simpl in H; lia|].
    rewrite Hb, H0, Hptr, Hn.
    destruct (Nat.ltb_spec (length (pre ++ byte_of (len part) :: part ++ rest) - S (length pre)) (length part)) as [H|_];
      [rewrite !length_app in H; cbn [length] in H; rewrite !length_app in H; lia|].
    replace (pre ++ byte_of (len part) :: part ++ rest) with ((pre ++ byte_of (len part) :: part) ++ rest)
      by (by rewrite <- app_assoc).
    replace (S (length pre) + length part)%nat with (length (pre ++ byte_of (len part) :: part))
      by (rewrite length_app; simpl; lia).
    unfold rest. rewrite IH by (simpl in Hf; lia). f_equal. rewrite fmap_cons. cbn [concat]. unfold encode_label at 2.
    rewrite !length_app. cbn [length]. lia.
Qed.

Definition joined (name : bytes) (parts : list bytes) : bytes :=
  foldl (fun name part => (if decide (name = []) then name else name ++ [dot]) ++ part) name parts.

Lemma parse_name_labels parts pre post fuel name :
  Forall label_ok parts -> (length parts < fuel)%nat ->
  parse_name fuel (pre ++ concat (encode_label <$> parts) ++ byte_of 0 :: post) (length pre) name = Some (joined name parts).
Proof.
  intros Hp. revert pre fuel name. induction Hp as [|part parts Hpart _ IH]; intros pre fuel name Hf; (destruct fuel as [|fuel]; [lia|]); cbn [parse_name].
  - cbn [fmap list_fmap concat app]. rewrite at_app by done. cbn [mbind option_bind].
    destruct (Nat.leb_spec (length (pre ++ byte_of 0 :: post)) (length pre)) as [H|_]; [rewrite length_app in H; simpl in H; lia|].
    done.
  - destruct (label_byte part Hpart) as (Hb & H0 & Hptr & Hn).
    rewrite encode_cons, at_app by done. cbn [mbind option_bind]. set (rest := concat (encode_label <$> parts) ++ byte_of 0 :: post).
    destruct (Nat.leb_spec (length (pre ++ byte_of (len part) :: part ++ rest)) (length pre)) as [H|_];
      [rewrite length_app in H; simpl in H; lia|].
    rewrite Hb, H0, Hptr, Hn.
    destruct (Nat.ltb_spec (length (pre ++ byte_of (len part) :: part ++ rest)) (S (length pre) + length part)) as [H|_];
      [rewrite !length_app in H; cbn [length] in H; rewrite !length_app in H; lia|].
    replace (pre ++ byte_of (len part) :: part ++ rest) with ((pre ++ [byte_of (len part)]) ++ part ++ rest)
      by (by rewrite <- app_assoc).
    rewrite sub_slice_app by (rewrite length_app; simpl; lia). cbn [mbind option_bind]. rewrite app_assoc.
    replace (S (length pre) + length part)%nat with (length ((pre ++ [byte_of (len part)]) ++ part))
      by (rewrite !length_app; simpl; lia).
    unfold rest. by rewrite IH by (simpl in Hf; lia).
Qed.

Lemma Split_nonempty sep s : exists p ps, Split sep s = p :: ps.
Proof. destruct s as [|b s]; cbn [Split]; [by eexists _, _|]. case_decide; [by eexists _, _|]. destruct (Split sep s); by eexists _, _. Qed.

Lemma Split_glue sep s p ps : Split sep s = p :: ps -> s = p ++ concat (cons sep <$> ps).
Proof.
  revert p ps. induction s as [|b s IH]; intros p ps; cbn [Split]; [by intros [= <- <-]|].
  destruct (Split_nonempty sep s) as (q & qs & E). rewrite E. case_decide as Hb.
  - intros [= <- <-]. subst b. cbn. f_equal. by apply IH.
  - intros [= <- <-]. cbn [app]. f_equal. by apply IH.
Qed.

Lemma Split_join sep a b : Split sep (a ++ sep :: b) = Split sep a ++ Split sep b.
Proof.
  induction a as [|c a IH]; cbn [app Split]; [by rewrite decide_True|]. rewrite IH. case_decide; [done|].
  destruct (Split_nonempty sep a) as (p & ps & ->). done.
Qed.

Lemma joined_glue name parts :
  name <> [] -> joined name parts = name ++ concat (cons dot <$> parts).
Proof.
  revert name. induction parts as [|p parts IH]; intros name Hn; [by rewrite app_nil_r|].
  unfold joined in *. cbn [foldl]. rewrite decide_False by done. rewrite IH.
  - cbn [fmap list_fmap concat]. by rewrite <- !app_assoc.
  - destruct name; [done|]. done.
Qed.

Lemma joined_Split name : Forall label_ok (Split dot name) -> joined [] (Split dot name) = name.
Proof.
  destruct (Split_nonempty dot name) as (p & ps & E). rewrite E. intros [Hp _]%Forall_cons.
  unfold joined. cbn [foldl]. rewrite decide_True by done. change (foldl _ ([] ++ p) ps) with (joined p ps).
  rewrite joined_glue; [by rewrite (Split_glue _ _ _ _ E)|]. intros ->. destruct Hp as [H _]. by vm_compute in H.
Qed.

Lemma count_labels parts : (length parts <= length (concat (encode_label <$> parts)))%nat.
Proof. induction parts as [|p parts IH]; [done|]. rewrite fmap_cons. cbn [concat]. rewrite length_app. unfold encode_label at 1. simpl. lia. Qed.

Definition name_ok (name : bytes) : Prop := Forall label_ok (Split dot name).

Lemma skip_encoded name pre post :
  name_ok name ->
  skipDNSName (pre ++ encodeDNSName name ++ post) (length pre) = Some (length pre + length (encodeDNSName name))%nat.
Proof.
  intros Hn. unfold skipDNSName, encodeDNSName. rewrite <- app_assoc. cbn [app]. rewrite skip_name_labels; [|done|].
  - f_equal. rewrite length_app. simpl. lia.
  - rewrite !length_app. pose proof (count_labels (Split dot name)). lia.
Qed.

Lemma parse_encoded name pre post :
  name_ok name -> parseDNSName (pre ++ encodeDNSName name ++ post) (length pre) = Some name.
Proof.
  intros Hn. unfold parseDNSName, encodeDNSName. rewrite <- app_assoc. cbn [app]. rewrite parse_name_labels; [|done|].
  - by rewrite joined_Split.
  - rewrite !length_app. pose proof (count_labels (Split dot name)). lia.
Qed.

(** One record. *)
Lemma parse_answer ip6 n pre name t ttl rd post peer :
  name_ok name -> 0 <= t < 2 ^ 16 -> len rd < 2 ^ 16 ->
  let data := appendDNSAnswer pre (encodeDNSName name) t ttl rd ++ post in
  let e := (length pre + length (encodeDNSName name))%nat in
  parse_answers ip6 (S n) data (length pre) peer
  = (peer' ← take_record ip6 data e t (length rd) rd peer;
     parse_answers ip6 n data (length (appendDNSAnswer pre (encodeDNSName name) t ttl rd)) peer').
Proof.
  intros Hn Ht Hl data e. set (nm := encodeDNSName name) in *.
  assert (data = pre ++ nm ++ (be_put 2 t ++ be_put 2 1 ++ be_put 4 ttl ++ be_put 2 (len rd)) ++ rd ++ post) as Ed.
  { unfold data, appendDNSAnswer. by rewrite <- !app_assoc. }
  assert (length data = (e + 10 + length rd + length post)%nat) as El.
  { rewrite Ed. unfold e. rewrite !length_app, !length_be_put. lia. }
  assert (length (appendDNSAnswer pre nm t ttl rd) = (e + 10 + length rd)%nat) as Ea.
  { unfold appendDNSAnswer, e. rewrite !length_app, !length_be_put. lia. }
  cbn [parse_answers]. destruct (Nat.leb_spec (length data) (length pre)) as [H|_]; [unfold e in El; lia|].
  assert (skipDNSName data (length pre) = Some e) as -> by (rewrite Ed; by apply skip_encoded). cbn [mbind option_bind].
  destruct (Nat.ltb_spec (length data) (e + 10)) as [H|_]; [lia|].
  assert (u16_at data e = Some t) as ->.
  { replace data with ((pre ++ nm) ++ be_put 2 t ++ (be_put 2 1 ++ be_put 4 ttl ++ be_put 2 (len rd)) ++ rd ++ post)
      by (rewrite Ed; by rewrite <- !app_assoc).
    rewrite u16_app by (by rewrite length_app). by rewrite Z.mod_small. }
  assert (u16_at data (e + 8) = Some (len rd)) as ->.
  { replace data with ((pre ++ nm ++ be_put 2 t ++ be_put 2 1 ++ be_put 4 ttl) ++ be_put 2 (len rd) ++ rd ++ post)
      by (rewrite Ed; by rewrite <- !app_assoc).
    rewrite u16_app by (rewrite !length_app, !length_be_put; unfold e; lia). rewrite Z.mod_small; [done|]. unfold len in *. lia. }
  cbn [mbind option_bind fmap option_fmap option_map]. assert (Z.to_nat (len rd) = length rd) as -> by (unfold len; lia).
  destruct (Nat.ltb_spec (length data) (e + 10 + length rd)) as [H|_]; [lia|].
  assert (slice data (e + 10) (e + 10 + length rd) = Some rd) as ->.
  { replace data with ((pre ++ nm ++ be_put 2 t ++ be_put 2 1 ++ be_put 4 ttl ++ be_put 2 (len rd)) ++ rd ++ post)
      by (rewrite Ed; by rewrite <- !app_assoc).
    apply sub_slice_app; rewrite !length_app, !length_be_put; unfold e; lia. }
  cbn [mbind option_bind]. by rewrite Ea.
Qed.

(** ** The text record *)

Definition services_in (entry : bytes) : list ServiceInfo :=
  match strip_prefix (str "svc=") entry with
  | Some names => (fun n => mkServiceInfo n 0 ∅) <$> Split comma names
  | None => []
  end.

Lemma entry_cons e es : concat (txt_entry <$> e :: es) = byte_of (len e) :: e ++ concat (txt_entry <$> es).
Proof. rewrite fmap_cons. done. Qed.

Lemma entry_byte e : len e < 256 -> Z.to_nat (u8 (byte_of (len e))) = length e.
Proof. intros He. rewrite u8_byte_of, Z.mod_small; unfold len in *; lia. Qed.

Lemma txt_services_entries es pre fuel svcs :
  Forall (fun e => len e < 256) es -> (length es < fuel)%nat ->
  txt_services fuel (pre ++ concat (txt_entry <$> es)) (length pre) svcs = Some (svcs ++ concat (services_in <$> es)).
Proof.
  intros He. revert pre fuel svcs. induction He as [|e es He _ IH]; intros pre fuel svcs Hf; (destruct fuel as [|fuel]; [lia|]); cbn [txt_services].
  - cbn [fmap list_fmap concat]. rewrite !app_nil_r. by rewrite (proj2 (Nat.leb_le _ _)).
  - rewrite entry_cons, at_app by done. cbn [mbind option_bind]. rewrite entry_byte by done.
    set (rest := concat (txt_entry <$> es)).
    destruct (Nat.leb_spec (length (pre ++ byte_of (len e) :: e ++ rest)) (length pre)) as [H|_]; [rewrite length_app in H; simpl in H; lia|].
    destruct (Nat.ltb_spec (length (pre ++ byte_of (len e) :: e ++ rest)) (S (length pre) + length e)) as [H|_];
      [rewrite !length_app in H; cbn [length] in H; rewrite !length_app in H; lia|].
    replace (pre ++ byte_of (len e) :: e ++ rest) with ((pre ++ [byte_of (len e)]) ++ e ++ rest) by (by rewrite <- app_assoc).
    rewrite sub_slice_app by (rewrite length_app; simpl; lia). cbn [mbind option_bind]. rewrite app_assoc.
    replace (S (length pre) + length e)%nat with (length ((pre ++ [byte_of (len e)]) ++ e)) by (rewrite !length_app; simpl; lia).
    unfold rest. rewrite IH by (simpl in Hf; lia). rewrite fmap_cons. cbn [concat]. f_equal. rewrite app_assoc. f_equal.
    unfold services_in at 1. destruct (strip_prefix _ e); [done|by rewrite app_nil_r].
Qed.

Fixpoint value_in (prefix : bytes) (es : list bytes) : bytes :=
  match es with
  | [] => []
  | e :: es => match strip_prefix prefix e with Some v => v | None => value_in prefix es end
  end.

Lemma txt_value_entries prefix es pre fuel :
  Forall (fun e => len e < 256) es -> (length es < fuel)%nat ->
  txt_value fuel prefix (pre ++ concat (txt_entry <$> es)) (length pre) = Some (value_in prefix es).
Proof.
  intros He. revert pre fuel. induction He as [|e es He _ IH]; intros pre fuel Hf; (destruct fuel as [|fuel]; [lia|]); cbn [txt_value].
  - cbn [fmap list_fmap concat]. rewrite !app_nil_r. by rewrite (proj2 (Nat.leb_le _ _)).
  - rewrite entry_cons, at_app by done. cbn [mbind option_bind]. rewrite entry_byte by done.
    set (rest := concat (txt_entry <$> es)).
    destruct (Nat.leb_spec (length (pre ++ byte_of (len e) :: e ++ rest)) (length pre)) as [H|_]; [rewrite length_app in H; simpl in H; lia|].
    destruct (Nat.ltb_spec (length (pre ++ byte_of (len e) :: e ++ rest)) (S (length pre) + length e)) as [H|_];
      [rewrite !length_app in H; cbn [length] in H; rewrite !length_app in H; lia|].
    replace (pre ++ byte_of (len e) :: e ++ rest) with ((pre ++ [byte_of (len e)]) ++ e ++ rest) by (by rewrite <- app_assoc).
    rewrite sub_slice_app by (rewrite length_app; simpl; lia). cbn [mbind option_bind value_in]. rewrite app_assoc.
    destruct (strip_prefix prefix e); [done|].
    replace (S (length pre) + length e)%nat with (length ((pre ++ [byte_of (len e)]) ++ e)) by (rewrite !length_app; simpl; lia).
    unfold rest. by rewrite IH by (simpl in Hf; lia).
Qed.

Definition entries (info : PeerInfo) : list bytes :=
  [str "id=" ++ fmtHex (take 8 (ID info)); str "ver=1"] ++
  match Services info with [] => [] | _ => [str "svc=" ++ service_names (Services info)] end.

Lemma buildTXTRecord_entries info : buildTXTRecord info = concat (txt_entry <$> entries info).
Proof.
  unfold buildTXTRecord, entries. rewrite fmap_app, concat_app. destruct (Services info); cbn [fmap list_fmap concat app];
    by rewrite ?app_nil_r, <- ?app_assoc.
Qed.

Lemma count_entries es : (length es <= length (concat (txt_entry <$> es)))%nat.
Proof. induction es as [|e es IH]; [done|]. rewrite entry_cons. cbn [length]. rewrite length_app. lia. Qed.

Lemma Split_names svcs :
  svcs <> [] -> Forall (fun s => comma ∉ svc_Name s) svcs -> Split comma (service_names svcs) = svc_Name <$> svcs.
Proof.
  induction svcs as [|s svcs IH]; [done|]. intros _ [Hs Hss]%Forall_cons. destruct svcs as [|s' svcs].
  - by apply Split_one.
  - change (service_names (s :: s' :: svcs)) with (svc_Name s ++ comma :: service_names (s' :: svcs)).
    by rewrite Split_cons, IH by done.
Qed.

(** ** The records of an announcement *)

Section heard.
Variables (parse_ip4 ip6_String : bytes -> bytes).

Lemma name_local_ok name : name_ok name -> name_ok (name ++ str ".local").
Proof.
  intros Hn. unfold name_ok. change (str ".local") with (dot :: str "local"). rewrite Split_join.
  apply Forall_app. split; [done|]. repeat constructor; unfold label_ok, len; simpl; lia.
Qed.

Lemma service_ok : name_ok serviceType.
Proof. unfold name_ok. vm_compute. repeat constructor; discriminate. Qed.

Lemma trim_local_app name : trim_local (name ++ str ".local") = name.
Proof.
  unfold trim_local. rewrite reverse_app.
  assert (strip_prefix (reverse (str ".local")) (reverse (str ".local") ++ reverse name) = Some (reverse name)) as ->
    by (by apply strip_prefix_Some).
  apply reverse_involutive.
Qed.

Lemma take_srv pre info post peer :
  name_ok (Name info) ->
  take_record ip6_String (pre ++ encodeDNSName serviceType ++ (be_put 2 33 ++ be_put 2 1 ++ be_put 4 mdnsTTL ++
    be_put 2 (len (srv_data info))) ++ srv_data info ++ post) (length pre + length (encodeDNSName serviceType)) 33
    (length (srv_data info)) (srv_data info) peer
  = Some (with_name (Name info) peer).
Proof.
  intros Hn. unfold take_record. change (33 =? 33) with true. cbv iota.
  assert (6 <? length (srv_data info) = true)%nat as ->.
  { apply Nat.ltb_lt. unfold srv_data, local_name, encodeDNSName. rewrite !length_app, !length_be_put. simpl. lia. }
  unfold srv_data at 2.
  replace (pre ++ encodeDNSName serviceType ++ (be_put 2 33 ++ be_put 2 1 ++ be_put 4 mdnsTTL ++ be_put 2 (len (srv_data info))) ++
    (be_put 2 0 ++ be_put 2 0 ++ be_put 2 4443 ++ local_name info) ++ post)
    with ((pre ++ encodeDNSName serviceType ++ be_put 2 33 ++ be_put 2 1 ++ be_put 4 mdnsTTL ++ be_put 2 (len (srv_data info)) ++
      be_put 2 0 ++ be_put 2 0 ++ be_put 2 4443) ++ local_name info ++ post) by (by rewrite <- !app_assoc).
  match goal with |- context [parseDNSName (?a ++ _) ?n] => replace n with (length a) by (rewrite !length_app, !length_be_put; lia) end.
  unfold local_name. rewrite parse_encoded by (by apply name_local_ok). cbn [mbind option_bind]. by rewrite trim_local_app.
Qed.

Lemma take_txt data e info n peer :
  length (ID info) = 32%nat -> Forall (fun s => comma ∉ svc_Name s) (Services info) ->
  len (service_names (Services info)) <= 251 ->
  take_record ip6_String data e 16 n (buildTXTRecord info) peer
  = Some (with_ID (take 8 (ID info) ++ zeroes 24)
            (with_services (Services peer ++ ((fun s => mkServiceInfo (svc_Name s) 0 ∅) <$> Services info)) peer)).
Proof.
  intros Hid Hc Hl. unfold take_record. change (16 =? 33) with false. change (16 =? 1) with false.
  change (16 =? 16) with true. cbv iota.
  assert (length (take 8 (ID info)) = 8%nat) as H8 by (rewrite length_take; lia).
  assert (Forall (fun e => len e < 256) (entries info)) as He.
  { unfold entries. apply Forall_app. split.
    - constructor; [|constructor; [by vm_compute|done]]. rewrite len_app. unfold len at 2. rewrite length_fmtHex, H8. by vm_compute.
    - destruct (Services info) as [|s l]; [done|]. constructor; [|done]. rewrite len_app. change (len (str "svc=")) with 4. lia. }
  assert (length (entries info) < S (length (buildTXTRecord info)))%nat as Hf.
  { rewrite buildTXTRecord_entries. pose proof (count_entries (entries info)). lia. }
  unfold parseTXTRecord, parseTXTValue. rewrite buildTXTRecord_entries in *.
  pose proof (txt_services_entries (entries info) [] _ [] He Hf) as Hs. cbn [app length] in Hs. rewrite Hs.
  pose proof (txt_value_entries (str "id" ++ str "=") (entries info) [] _ He Hf) as Hv. cbn [app length] in Hv.
  cbn [mbind option_bind]. change (str "id" ++ str "=") with (str "id=") in Hv |- *. rewrite Hv. cbn [mbind option_bind].
  assert (value_in (str "id=") (entries info) = fmtHex (take 8 (ID info))) as ->.
  { unfold entries. cbn [app value_in].
    assert (strip_prefix (str "id=") (str "id=" ++ fmtHex (take 8 (ID info))) = Some (fmtHex (take 8 (ID info)))) as ->
      by (by apply strip_prefix_Some). done. }
  assert (fmtHex (take 8 (ID info)) <> []) as Hne by (intros E; apply (f_equal length) in E; rewrite length_fmtHex, H8 in E; done).
  rewrite decide_False by done. f_equal.
  assert (peerIDFromHex (fmtHex (take 8 (ID info))) = take 8 (ID info) ++ zeroes 24) as ->.
  { unfold peerIDFromHex. rewrite hex_decode_fmtHex. unfold len. by rewrite H8. }
  assert (concat (services_in <$> entries info) = (fun s => mkServiceInfo (svc_Name s) 0 ∅) <$> Services info) as ->; [|done].
  unfold entries. rewrite fmap_app, concat_app.
  assert (Services info = [] \/ Services info <> []) as [E|E] by (destruct (Services info); auto); [by rewrite E|].
  assert (match Services info with [] => [] | _ => [str "svc=" ++ service_names (Services info)] end
    = [str "svc=" ++ service_names (Services info)]) as -> by (by destruct (Services info)).
  cbn [fmap list_fmap concat app].
  assert (services_in (str "id=" ++ fmtHex (take 8 (ID info))) = []) as -> by reflexivity.
  assert (services_in (str "ver=1") = []) as -> by reflexivity.
  unfold services_in.
  assert (strip_prefix (str "svc=") (str "svc=" ++ service_names (Services info)) = Some (service_names (Services info))) as ->
    by (by apply strip_prefix_Some).
  cbn [app]. rewrite app_nil_r, Split_names by done. rewrite <- list_fmap_compose. reflexivity.
Qed.
End heard.

(** What a node announces over multicast is what every other node hears:
    its name, whatever dots it has, the names of its services, its IPv4
    address (or, without one, the address the packet came from), and the
    first eight bytes of its identity with zeroes after them.  No packet,
    announcement or not, makes the listener panic or loop. *)
Theorem mdns_announcement_heard parse_ip4 ip6_String txid now src info nodeID data :
  is_Some (heard ip6_String nodeID now src data) /\
  (name_ok (Name info) -> length (ID info) = 32%nat ->
   Forall (fun s => comma ∉ svc_Name s) (Services info) -> len (service_names (Services info)) <= 251 ->
   (forall ip, announced_ip parse_ip4 info = Some ip -> length ip = 4%nat) ->
   len (buildAnnounce parse_ip4 txid info) <= 4096 ->
   let id := take 8 (ID info) ++ zeroes 24 in
   let addr := match announced_ip parse_ip4 info with Some ip => ip4_String ip | None => src end ++ str ":4443" in
   let services := (fun s => mkServiceInfo (svc_Name s) 0 ∅) <$> Services info in
   heard ip6_String nodeID now src (buildAnnounce parse_ip4 txid info)
   = Some (if decide (id = nodeID) then None
           else Some (mkDiscovered id (zeroes 32) (Name info) [addr] services (str "mdns") 0 0 (f64_of_Z 0) now 0 []))).
Proof.
  split.
  { unfold heard. destruct (parseMDNSResponse_total ip6_String now src data) as [r ->]. by eexists. }
  intros Hn Hid Hc Hl Hip Hlen id addr services.
  assert (len (buildTXTRecord info) < 2 ^ 16 /\ len (srv_data info) < 2 ^ 16) as [Htxt Hsrv].
  { unfold buildAnnounce, appendDNSAnswer in Hlen. destruct (announced_ip parse_ip4 info); rewrite !len_app in Hlen;
      unfold len in *; rewrite ?length_be_put in Hlen; lia. }
  unfold heard, parseMDNSResponse, buildAnnounce.
  set (ip := announced_ip parse_ip4 info) in *.
  set (h := be_put 2 txid ++ be_put 2 0x8400 ++ be_put 2 0 ++ be_put 2 (if ip is Some _ then 3 else 2) ++ be_put 2 0 ++ be_put 2 0).
  assert (length h = 12%nat) as Hh by (unfold h; rewrite !length_app, !length_be_put; done).
  set (p1 := appendDNSAnswer h (encodeDNSName serviceType) 33 mdnsTTL (srv_data info)).
  set (p2 := match ip with Some ip4 => appendDNSAnswer p1 (local_name info) 1 mdnsTTL ip4 | None => p1 end).
  set (p3 := appendDNSAnswer p2 (local_name info) 16 mdnsTTL (buildTXTRecord info)).
  set (n2 := match ip with Some ip4 => 1%nat | None => 0%nat end).
  assert (exists t1 t2, p3 = p1 ++ t1 /\ p3 = p2 ++ t2) as (t1 & t2 & E1 & E2).
  { unfold p3, p2, appendDNSAnswer. destruct ip; eexists _, _; (split; [|reflexivity]); rewrite <- ?app_assoc; reflexivity. }
  assert (exists t0, p3 = h ++ t0) as (t0 & E0) by (rewrite E1; unfold p1, appendDNSAnswer; rewrite <- !app_assoc; by eexists).
  assert (12 <= length p3)%nat as H12 by (rewrite E0, length_app; lia).
  destruct (Nat.ltb_spec (length p3) 12) as [H|_]; [lia|].
  assert (u16_at p3 2 = Some 0x8400 /\ u16_at p3 4 = Some 0 /\ u16_at p3 6 = Some (Z.of_nat (S (S n2)))) as (-> & -> & ->).
  { rewrite E0. unfold h. rewrite <- !app_assoc. split; [|split].
    - rewrite u16_app by (by rewrite length_be_put). done.
    - rewrite (app_assoc (be_put 2 txid)). rewrite u16_app by (by rewrite length_app, !length_be_put). done.
    - rewrite (app_assoc (be_put 2 txid)), (app_assoc (be_put 2 txid ++ _)).
      rewrite u16_app by (by rewrite !length_app, !length_be_put). unfold n2. by destruct ip. }
  cbn [mbind option_bind fmap option_fmap option_map]. change (Z.land 0x8400 0x8000 =? 0) with false. cbv iota.
  rewrite Nat2Z.id. change (Z.to_nat 0) with 0%nat. cbn [skip_questions mbind option_bind].
  set (peer0 := mkDiscovered _ _ _ _ _ _ _ _ _ _ _ _).
  (* the first record *)
  pose proof (parse_answer ip6_String (S n2) h serviceType 33 mdnsTTL (srv_data info) t1 peer0 service_ok ltac:(lia) Hsrv) as R1.
  fold p1 in R1. rewrite <- E1, Hh in R1. rewrite R1. clear R1.
  assert (p3 = h ++ encodeDNSName serviceType ++ (be_put 2 33 ++ be_put 2 1 ++ be_put 4 mdnsTTL ++ be_put 2 (len (srv_data info))) ++
    srv_data info ++ t1) as E3 by (rewrite E1; unfold p1, appendDNSAnswer; by rewrite <- !app_assoc).
  pose proof (take_srv ip6_String h info t1 peer0 Hn) as T1. rewrite <- E3, Hh in T1. rewrite T1. clear T1. cbn [mbind option_bind].
  set (peer1 := with_name (Name info) peer0).
  (* the second, if there is an address *)
  assert (parse_answers ip6_String (S n2) p3 (length p1) peer1
    = parse_answers ip6_String 1 p3 (length p2) (with_addrs [addr] peer1)) as ->.
  { unfold n2. destruct ip as [ip4|] eqn:Eip; [|done].
    assert (len ip4 < 2 ^ 16) as H4 by (unfold len; rewrite (Hip ip4 eq_refl); done).
    pose proof (parse_answer ip6_String 1 p1 (Name info ++ str ".local") 1 mdnsTTL ip4 t2 peer1 (name_local_ok _ Hn) ltac:(lia) H4) as R2.
    change (appendDNSAnswer p1 (encodeDNSName (Name info ++ str ".local")) 1 mdnsTTL ip4) with p2 in R2.
    rewrite <- E2 in R2. rewrite R2. unfold take_record. change (1 =? 33) with false. change (1 =? 1) with true. cbv iota.
    rewrite (Hip ip4 eq_refl). done. }
  (* the text *)
  pose proof (parse_answer ip6_String 0 p2 (Name info ++ str ".local") 16 mdnsTTL (buildTXTRecord info) [] (with_addrs [addr] peer1)
    (name_local_ok _ Hn) ltac:(lia) Htxt) as R3.
  change (appendDNSAnswer p2 (encodeDNSName (Name info ++ str ".local")) 16 mdnsTTL (buildTXTRecord info)) with p3 in R3.
  rewrite app_nil_r in R3. rewrite R3. clear R3. rewrite take_txt by done. cbn [mbind option_bind parse_answers].
  assert (Name info <> []) as Hne.
  { intros E. unfold name_ok in Hn. rewrite E in Hn. apply Forall_cons in Hn as [[Hp _] _]. by vm_compute in Hp. }
  cbn [Name with_ID with_services with_addrs with_name peer1]. rewrite decide_False by done. done.
Qed.

(** ** Examples *)

Module MdnsSample.
Definition no_ip6 (_ : bytes) : bytes := [].
Definition lan_ip (a : bytes) : option bytes := if decide (a = str "192.168.1.7") then Some (byte_of <$> [192; 168; 1; 7]) else None.
Definition node_id : bytes := replicate 32 (byte_of 7).
Definition info : PeerInfo := own_info node_id (str "alice.lan") (str "192.168.1.7").
End MdnsSample.
Import MdnsSample.

Lemma mdns_announcement_heard_witness :
  exists p, heard no_ip6 (zeroes 32) 5 (str "10.0.0.1") (buildAnnounce lan_ip 77 info) = Some (Some p) /\
    Name p = str "alice.lan" /\ Addrs p = [str "192.168.1.7:4443"] /\ svc_Name <$> Services p = [str "dns"; str "http"; str "messaging"].
Proof.
  destruct (mdns_announcement_heard lan_ip no_ip6 77 5 (str "10.0.0.1") info (zeroes 32) []) as [_ H].
  cbv zeta in H. rewrite decide_False in H by (vm_compute; discriminate). eexists. split; [apply H|].
  - unfold name_ok, label_ok. vm_compute. repeat constructor.
  - reflexivity.
  - decide_vm.
  - apply Z.leb_le. vm_compute. reflexivity.
  - intros ip E. vm_compute in E. by injection E as <-.
  - apply Z.leb_le. vm_compute. reflexivity.
  - split; [reflexivity|]. split; vm_compute; reflexivity.
Defined.

(** A node hears its own announcement as that of another: only eight bytes of
    its identity come back. *)
Lemma node_hears_itself :
  exists p, heard no_ip6 node_id 5 (str "192.168.1.7") (buildAnnounce lan_ip 77 info) = Some (Some p) /\
    Name p = Name info /\ ID p <> node_id.
Proof. eexists. split; [vm_compute; reflexivity|]. split; [reflexivity|]. by vm_compute. Qed.

(** A service list of 256 bytes or more is announced with the wrong length, and
    not heard as it is. *)
Lemma long_service_list_is_lost :
  let long := mkServiceInfo (replicate 253 (byte_of 97)) 1 ∅ in
  exists p, heard no_ip6 (zeroes 32) 5 (str "192.168.1.7") (buildAnnounce lan_ip 77 (with_services [long] info)) = Some (Some p) /\
    Services p = [].
Proof. eexists. split; [vm_compute; reflexivity|]. reflexivity. Qed.
