(* ===== verification/Plugins.v ===== *)
(** * Plugins (pkg/plugin/plugin.go, host.go)

    The manager with its plugins, the services of the host, and the paths of
    its routers.  A plugin is code the manager is given: its operations change
    a world and may fail.  Logging is left out, and so is the code of the
    example plugins, which is HTTP handlers on top of [BuiltinPlugin]. *)

From S2P Require Import Prelude Bytes Text.
Local Open Scope Z_scope.

Record Metadata := mkMetadata {
  md_Name : bytes;
  md_Version : bytes;
  md_Author : bytes;
  md_Description : bytes;
  md_License : bytes;
  md_MinHostVer : bytes;
  md_Dependencies : list bytes;
}.

Record EndpointDesc := mkEndpoint { ep_Path : bytes; ep_Method : bytes; ep_Description : bytes; ep_AuthRequired : bool }.

Record ServiceDescriptor := mkService {
  sd_Name : bytes;
  sd_Type : bytes;
  sd_Port : Z;
  sd_Config : bytes;
  sd_Endpoints : list EndpointDesc;
}.

Inductive PluginStatus := PluginStatusLoaded | PluginStatusRunning | PluginStatusStopped | PluginStatusError.
#[global] Instance PluginStatus_eq_dec : EqDecision PluginStatus.
Proof. solve_decision. Defined.

Record PluginEvent := mkEvent { ev_Type : bytes; ev_Plugin : bytes; ev_Timestamp : Z }.

(** The interface: [Init] is given whether the context has ended. *)
Record Plugin (W : Type) := mkPlugin {
  pl_Metadata : Metadata;
  pl_Init : bool -> W -> result unit * W;
  pl_Start : W -> result unit * W;
  pl_Stop : W -> result unit * W;
  pl_Services : list ServiceDescriptor;
}.
Arguments mkPlugin {W}.
Arguments pl_Metadata {W}.
Arguments pl_Init {W}.
Arguments pl_Start {W}.
Arguments pl_Stop {W}.
Arguments pl_Services {W}.

(** [NewBuiltinPlugin] with its options; a function that is not set succeeds. *)
Definition NewBuiltinPlugin {W} (meta : Metadata) (init : option (bool -> W -> result unit * W))
    (start stop : option (W -> result unit * W)) (services : list ServiceDescriptor) : Plugin W :=
  let skip := fun w => (Ok tt, w) in
  mkPlugin meta (default (fun _ => skip) init) (default skip start) (default skip stop) services.

(** ** The manager *)

Section manager.
Context {W : Type}.

Record PluginInstance := mkInstance {
  pi_Plugin : Plugin W;
  pi_Metadata : Metadata;
  pi_Status : PluginStatus;
  pi_Config : bytes;
}.

Record PluginManager := mkManager {
  pm_plugins : gmap bytes PluginInstance;
  pm_events : list PluginEvent;
  pm_cancelled : bool;
}.

Definition NewPluginManager : PluginManager := mkManager ∅ [] false.

Definition with_status (s : PluginStatus) (i : PluginInstance) : PluginInstance :=
  mkInstance (pi_Plugin i) (pi_Metadata i) s (pi_Config i).
Definition with_plugins (m : gmap bytes PluginInstance) (pm : PluginManager) : PluginManager :=
  mkManager m (pm_events pm) (pm_cancelled pm).

Definition emitEvent (evt : PluginEvent) (pm : PluginManager) : PluginManager :=
  if (length (pm_events pm) <? 32)%nat then mkManager (pm_plugins pm) (pm_events pm ++ [evt]) (pm_cancelled pm) else pm.

Definition LoadPlugin (path config : bytes) : result unit :=
  Err (ErrText "Go plugin loading not implemented; use built-in plugins").

Definition RegisterPlugin (now : Z) (p : Plugin W) (config : bytes) (pm : PluginManager) (w : W)
    : result unit * PluginManager * W :=
  let meta := pl_Metadata p in
  let name := md_Name meta in
  match pm_plugins pm !! name with
  | Some _ => (Err (ErrText "plugin %s already registered"), pm, w)
  | None =>
      let instance := mkInstance p meta PluginStatusLoaded config in
      match pl_Init p (pm_cancelled pm) w with
      | (Err e, w) =>
          (Err (ErrText "init plugin %s: %w"),
           with_plugins (<[name := with_status PluginStatusError instance]> (pm_plugins pm)) pm, w)
      | (Ok _, w) =>
          (Ok tt, emitEvent (mkEvent (str "loaded") name now) (with_plugins (<[name := instance]> (pm_plugins pm)) pm), w)
      end
  end.

Definition StartPlugin (now : Z) (name : bytes) (pm : PluginManager) (w : W) : result unit * PluginManager * W :=
  match pm_plugins pm !! name with
  | None => (Err (ErrText "plugin %s not found"), pm, w)
  | Some instance =>
      if decide (pi_Status instance = PluginStatusRunning) then (Ok tt, pm, w) else
      match pl_Start (pi_Plugin instance) w with
      | (Err e, w) =>
          (Err (ErrText "start plugin %s: %w"),
           with_plugins (<[name := with_status PluginStatusError instance]> (pm_plugins pm)) pm, w)
      | (Ok _, w) =>
          (Ok tt, emitEvent (mkEvent (str "started") name now)
                    (with_plugins (<[name := with_status PluginStatusRunning instance]> (pm_plugins pm)) pm), w)
      end
  end.

Definition StopPlugin (now : Z) (name : bytes) (pm : PluginManager) (w : W) : result unit * PluginManager * W :=
  match pm_plugins pm !! name with
  | None => (Err (ErrText "plugin %s not found"), pm, w)
  | Some instance =>
      match pl_Stop (pi_Plugin instance) w with
      | (Err e, w) => (Err (ErrText "stop plugin %s: %w"), pm, w)
      | (Ok _, w) =>
          (Ok tt, emitEvent (mkEvent (str "stopped") name now)
                    (with_plugins (<[name := with_status PluginStatusStopped instance]> (pm_plugins pm)) pm), w)
      end
  end.

Definition UnregisterPlugin (now : Z) (name : bytes) (pm : PluginManager) (w : W) : result unit * PluginManager * W :=
  match pm_plugins pm !! name with
  | None => (Err (ErrText "plugin %s not found"), pm, w)
  | Some instance =>
      let w := if decide (pi_Status instance = PluginStatusRunning) then (pl_Stop (pi_Plugin instance) w).2 else w in
      (Ok tt, emitEvent (mkEvent (str "unregistered") name now) (with_plugins (delete name (pm_plugins pm)) pm), w)
  end.

Definition ListPlugins (pm : PluginManager) : list PluginInstance := (map_to_list (pm_plugins pm)).*2.
Definition GetPlugin (name : bytes) (pm : PluginManager) : option PluginInstance := pm_plugins pm !! name.

(** [order] is the range over the plugins. *)
Definition Shutdown (order : list bytes) (pm : PluginManager) (w : W) : PluginManager * W :=
  (mkManager (pm_plugins pm) (pm_events pm) true,
   foldl (fun w name => match pm_plugins pm !! name with
                        | Some i => if decide (pi_Status i = PluginStatusRunning) then (pl_Stop (pi_Plugin i) w).2 else w
                        | None => w
                        end) w order).

Inductive Op :=
  | ORegister (now : Z) (p : Plugin W) (config : bytes)
  | OStart (now : Z) (name : bytes)
  | OStop (now : Z) (name : bytes)
  | OUnregister (now : Z) (name : bytes)
  | OShutdown (order : list bytes).

Definition manage (st : PluginManager * W) (op : Op) : PluginManager * W :=
  let '(pm, w) := st in
  match op with
  | ORegister now p config => let '(_, pm, w) := RegisterPlugin now p config pm w in (pm, w)
  | OStart now name => let '(_, pm, w) := StartPlugin now name pm w in (pm, w)
  | OStop now name => let '(_, pm, w) := StopPlugin now name pm w in (pm, w)
  | OUnregister now name => let '(_, pm, w) := UnregisterPlugin now name pm w in (pm, w)
  | OShutdown order => Shutdown order pm w
  end.
End manager.
Arguments PluginInstance : clear implicits.
Arguments PluginManager : clear implicits.
Arguments Op : clear implicits.

(** ** The services and the routers of the host *)

(** Services are known by name. *)
Definition RegisterService {S} (name : bytes) (svc : S) (services : gmap bytes S) : result unit * gmap bytes S :=
  match services !! name with
  | Some _ => (Err (ErrText "service %s already registered"), services)
  | None => (Ok tt, <[name := svc]> services)
  end.

Definition UnregisterService {S} (name : bytes) (services : gmap bytes S) : result unit * gmap bytes S :=
  match services !! name with
  | None => (Err (ErrText "service %s not found"), services)
  | Some _ => (Ok tt, delete name services)
  end.

Definition EmitEvent (evt : PluginEvent) (bus : list PluginEvent) : list PluginEvent :=
  if (length bus <? 64)%nat then bus ++ [evt] else bus.

Definition slash : byte := byte_of 47.

(** [strings.TrimSuffix]. *)
Definition TrimSuffix (s suffix : bytes) : bytes :=
  match strip_prefix (reverse suffix) (reverse s) with Some rest => reverse rest | None => s end.

(** Where a group is mounted: the patterns under which its parent finds it. *)
Definition mount_of (prefix : bytes) : bytes := TrimSuffix prefix [slash].
Definition mountGroup (prefix : bytes) : bytes * list bytes :=
  let mount := mount_of prefix in
  (mount, if decide (mount = []) then [] else [mount; mount ++ [slash]]).

Definition strip (prefix path : bytes) : option bytes :=
  if decide (path = prefix) then Some [slash] else
  match strip_prefix (prefix ++ [slash]) path with
  | Some rest => Some (slash :: rest)
  | None => None
  end.

(** The path a group hands to its own multiplexer. *)
Definition group_path (prefix path : bytes) : bytes := default path (strip prefix path).

(** * The life of a plugin *)

Inductive Act := AInit | AStart | AStop.

(** A plugin whose calls are recorded, with whether they succeeded. *)
Definition note {W} (name : bytes) (a : Act) (r : result unit * W) (tr : list (bytes * Act * bool))
    : result unit * (W * list (bytes * Act * bool)) :=
  (r.1, (r.2, tr ++ [(name, a, is_ok r.1)])).

Definition traced {W} (p : Plugin W) : Plugin (W * list (bytes * Act * bool)) :=
  let name := md_Name (pl_Metadata p) in
  mkPlugin (pl_Metadata p) (fun c w => note name AInit (pl_Init p c w.1) w.2)
    (fun w => note name AStart (pl_Start p w.1) w.2) (fun w => note name AStop (pl_Stop p w.1) w.2) (pl_Services p).

Definition traced_op {W} (op : Op W) : Op (W * list (bytes * Act * bool)) :=
  match op with
  | ORegister now p config => ORegister now (traced p) config
  | OStart now name => OStart now name
  | OStop now name => OStop now name
  | OUnregister now name => OUnregister now name
  | OShutdown order => OShutdown order
  end.

(** The plugins that a trace leaves up: started, and not stopped or tried to. *)
Definition act (up : gset bytes) (c : bytes * Act * bool) : gset bytes :=
  match c with
  | (name, AStart, true) => {[name]} ∪ up
  | (name, AStop, _) => up ∖ {[name]}
  | _ => up
  end.
Definition up_after (tr : list (bytes * Act * bool)) : gset bytes := foldl act ∅ tr.

(** No call of [Start] finds the plugin up. *)
Fixpoint starts_ok (up : gset bytes) (tr : list (bytes * Act * bool)) : bool :=
  match tr with
  | [] => true
  | c :: tr => match c with (name, AStart, _) => bool_decide (name ∉ up) | _ => true end && starts_ok (act up c) tr
  end.

Lemma up_after_snoc tr c : up_after (tr ++ [c]) = act (up_after tr) c.
Proof. unfold up_after. by rewrite foldl_app. Qed.

Lemma starts_ok_snoc up tr c :
  starts_ok up (tr ++ [c])
  = starts_ok up tr && match c with (name, AStart, _) => bool_decide (name ∉ foldl act up tr) | _ => true end.
Proof.
  revert up. induction tr as [|d tr IH]; intros up; cbn [app starts_ok foldl]; [by rewrite andb_true_r|].
  by rewrite IH, andb_assoc.
Qed.

Section life.
Context {W : Type}.
Abbreviation TW := (W * list (bytes * Act * bool))%type.

(** What holds between the operations: the calls were in order; what is up is
    a registered plugin with the status of a running one, under its name. *)
Definition managed (st : PluginManager TW * TW) : Prop :=
  let '(pm, (_, tr)) := st in
  starts_ok ∅ tr = true /\
  (forall name, name ∈ up_after tr -> exists i, pm_plugins pm !! name = Some i /\ pi_Status i = PluginStatusRunning) /\
  (forall name i, pm_plugins pm !! name = Some i ->
     (exists p : Plugin W, pi_Plugin i = traced p /\ md_Name (pl_Metadata p) = name) /\
     (pi_Status i = PluginStatusRunning -> (name, AStart, true) ∈ tr)).

Lemma pm_plugins_emit e (pm : PluginManager TW) : pm_plugins (emitEvent e pm) = pm_plugins pm.
Proof. unfold emitEvent. by destruct (_ <? _)%nat. Qed.

(** A call of [Stop] of one plugin. *)
Lemma managed_stop pm w tr name i r :
  managed (pm, (w, tr)) -> pm_plugins pm !! name = Some i ->
  managed (pm, (r.2, tr ++ [(name, AStop, is_ok (A := unit) r.1)])).
Proof.
  intros (Hs & Hu & Hp) Hi. split; [|split].
  - by rewrite starts_ok_snoc, Hs.
  - intros n. rewrite up_after_snoc. cbn [act]. intros [Hn _]%elem_of_difference. by apply Hu.
  - intros n j Hj. destruct (Hp n j Hj) as [? Hr]. split; [done|]. intros Ht. apply elem_of_app. left. by apply Hr.
Qed.

(** A plugin put under a name that is not up, with a status of one that does
    not run. *)
Lemma managed_put pm w tr (p : Plugin W) config status :
  managed (pm, (w, tr)) -> status <> PluginStatusRunning -> md_Name (pl_Metadata p) ∉ up_after tr ->
  managed (with_plugins (<[md_Name (pl_Metadata p) := mkInstance (traced p) (pl_Metadata p) status config]> (pm_plugins pm)) pm,
           (w, tr)).
Proof.
  intros (Hs & Hu & Hp) Hst Hn. split; [done|]. split; cbn [with_plugins pm_plugins].
  - intros n Hin. destruct (Hu n Hin) as (i & Hi & Hr). exists i. split; [|done]. rewrite lookup_insert_ne; [done|]. by intros <-.
  - intros n j [[<- <-]|[_ Hj]]%lookup_insert_Some; [|by apply Hp]. split; [by exists p|done].
Qed.

(** The same instance with another status. *)
Lemma managed_status pm w tr name i status :
  managed (pm, (w, tr)) -> pm_plugins pm !! name = Some i ->
  (status = PluginStatusRunning -> (name, AStart, true) ∈ tr) -> (status <> PluginStatusRunning -> name ∉ up_after tr) ->
  managed (with_plugins (<[name := with_status status i]> (pm_plugins pm)) pm, (w, tr)).
Proof.
  intros (Hs & Hu & Hp) Hi Hr Hn. split; [done|]. split; cbn [with_plugins pm_plugins].
  - intros n Hin. destruct (decide (n = name)) as [->|Hne].
    + rewrite lookup_insert_eq. eexists. split; [done|].
      destruct (decide (status = PluginStatusRunning)) as [|Hd]; [done|]. by destruct (Hn Hd).
    + rewrite lookup_insert_ne by done. by apply Hu.
  - intros n j [[<- <-]|[_ Hj]]%lookup_insert_Some; [|by apply Hp]. destruct (Hp name i Hi) as [Hpl _]. by split.
Qed.

Lemma managed_emit e pm w : managed (pm, w) -> managed (emitEvent e pm, w).
Proof. unfold managed. by rewrite pm_plugins_emit. Qed.

(** A call of [Init], and a call of [Start] of a plugin that is not up. *)
Lemma managed_init pm w tr name ok w' : managed (pm, (w, tr)) -> managed (pm, (w', tr ++ [(name, AInit, ok)])).
Proof.
  intros (Hs & Hu & Hp). split; [|split].
  - by rewrite starts_ok_snoc, Hs.
  - intros n. rewrite up_after_snoc. apply Hu.
  - intros n j Hj. destruct (Hp n j Hj) as [? Hr]. split; [done|]. intros Ht. apply elem_of_app. left. by apply Hr.
Qed.

Lemma managed_start pm w tr name i ok w' :
  managed (pm, (w, tr)) -> pm_plugins pm !! name = Some i -> pi_Status i <> PluginStatusRunning ->
  managed (with_plugins (<[name := with_status (if ok : bool then PluginStatusRunning else PluginStatusError) i]> (pm_plugins pm)) pm,
           (w', tr ++ [(name, AStart, ok)])).
Proof.
  intros (Hs & Hu & Hp) Hi Hst.
  assert (name ∉ up_after tr) as Hn by (intros Hin; destruct (Hu name Hin) as (j & Hj & Hr); congruence).
  split; [|split]; cbn [with_plugins pm_plugins].
  - rewrite starts_ok_snoc, Hs. by apply bool_decide_eq_true.
  - intros n. rewrite up_after_snoc. destruct (decide (n = name)) as [->|Hne].
    + rewrite lookup_insert_eq. intros Hin. eexists. split; [done|]. destruct ok; [done|]. by destruct Hn.
    + rewrite lookup_insert_ne by done. destruct ok; cbn [act]; [|apply Hu].
      intros [Hin%elem_of_singleton|Hin]%elem_of_union; [done|by apply Hu].
  - intros n j [[<- <-]|[_ Hj]]%lookup_insert_Some.
    + destruct (Hp name i Hi) as [Hpl _]. split; [done|]. destruct ok; [|done]. intros _. apply elem_of_app. right. by left.
    + destruct (Hp n j Hj) as [? Hr]. split; [done|]. intros Ht. apply elem_of_app. left. by apply Hr.
Qed.

Lemma up_after_stop tr name ok : name ∉ up_after (tr ++ [(name, AStop, ok)]).
Proof. rewrite up_after_snoc. cbn [act]. set_solver. Qed.

Lemma managed_shutdown pm order w tr :
  managed (pm, (w, tr)) ->
  managed (pm, (Shutdown order pm (w, tr)).2).
Proof.
  revert w tr. induction order as [|name order IH]; intros w tr Hm; [done|]. unfold Shutdown. cbn [foldl snd].
  destruct (pm_plugins pm !! name) as [i|] eqn:Ei; [|by apply (IH w tr)].
  case_decide; [|by apply (IH w tr)].
  destruct Hm as (Hs & Hu & Hp). destruct (Hp name i Ei) as [(p & Hpl & Hname) _].
  rewrite Hpl. cbn [traced pl_Stop note snd fst]. apply IH. rewrite Hname. by apply (managed_stop pm w tr name i (pl_Stop p w)).
Qed.

(** Whatever is asked of the manager, with whatever plugins: [Start] is called
    only on a plugin that is not up; what is up is registered and has the
    status of a running plugin; and a plugin with that status has been
    started. *)
Theorem plugins_started_in_turn ops (w : W) : managed (foldl manage (NewPluginManager, (w, [])) (traced_op <$> ops)).
Proof.
  assert (managed (NewPluginManager, (w, []))) as H0 by (split; [done|]; split; [by intros n ?%elem_of_empty|done]).
  revert H0. generalize (NewPluginManager (W := TW), (w, @nil (bytes * Act * bool))). induction ops as [|op ops IH]; intros st Hst; [done|].
  cbn [fmap list_fmap foldl]. apply IH. clear IH ops. destruct st as [pm [v tr]].
  destruct op as [now p config|now name|now name|now name|order]; cbn [traced_op manage].
  - unfold RegisterPlugin. cbn [traced pl_Metadata]. destruct (pm_plugins pm !! _) as [j|] eqn:Ej; [done|].
    cbn [traced pl_Init note fst snd]. change (v, tr).1 with v. change (v, tr).2 with tr. destruct (pl_Init p (pm_cancelled pm) v) as [r v']. cbn [fst snd].
    assert (forall ok, managed (pm, (v', tr ++ [(md_Name (pl_Metadata p), AInit, ok)]))) as Hi by (intros ok; by eapply managed_init).
    assert (forall ok, md_Name (pl_Metadata p) ∉ up_after (tr ++ [(md_Name (pl_Metadata p), AInit, ok)])) as Hn.
    { intros ok Hin. destruct (proj1 (proj2 (Hi ok)) _ Hin) as (k & Hk & _). congruence. }
    destruct r as [[]|e]; [apply managed_emit|]; by apply (managed_put pm v' _ p config).
  - unfold StartPlugin. destruct (pm_plugins pm !! name) as [i|] eqn:Ei; [|done]. case_decide as Hr; [done|].
    destruct (proj2 (proj2 Hst) name i Ei) as [(p & Hpl & Hname) _]. rewrite Hpl. cbn [traced pl_Start note fst snd].
    change (v, tr).1 with v. change (v, tr).2 with tr.
    rewrite Hname. destruct (pl_Start p v) as [r v']. cbn [fst snd].
    pose proof (fun ok => managed_start pm v tr name i ok v' Hst Ei Hr) as Hs.
    destruct r as [[]|e]; [apply managed_emit, (Hs true)|apply (Hs false)].
  - unfold StopPlugin. destruct (pm_plugins pm !! name) as [i|] eqn:Ei; [|done].
    destruct (proj2 (proj2 Hst) name i Ei) as [(p & Hpl & Hname) _]. rewrite Hpl. cbn [traced pl_Stop note fst snd].
    change (v, tr).1 with v. change (v, tr).2 with tr.
    rewrite Hname. pose proof (managed_stop pm v tr name i (pl_Stop p v) Hst Ei) as Hs.
    destruct (pl_Stop p v) as [[[]|e] v']; cbn [fst snd is_ok] in *; [|exact Hs].
    apply managed_emit, managed_status; [exact Hs|done|done|]. intros _. apply up_after_stop.
  - unfold UnregisterPlugin. destruct (pm_plugins pm !! name) as [i|] eqn:Ei; [|done]. apply managed_emit.
    destruct (proj2 (proj2 Hst) name i Ei) as [(p & Hpl & Hname) _].
    assert (forall v' tr', managed (pm, (v', tr')) -> name ∉ up_after tr' ->
      managed (with_plugins (delete name (pm_plugins pm)) pm, (v', tr'))) as Hdel.
    { intros v' tr' (Hs & Hu & Hp) Hn. split; [done|]. split; cbn [with_plugins pm_plugins].
      - intros n Hin. rewrite lookup_delete_ne; [by apply Hu|]. by intros <-.
      - intros n j [_ Hj]%lookup_delete_Some. by apply Hp. }
    case_decide as Hr.
    + rewrite Hpl. cbn [traced pl_Stop note fst snd]. change (v, tr).1 with v. change (v, tr).2 with tr. rewrite Hname. apply Hdel; [|apply up_after_stop].
      by apply (managed_stop pm v tr name i (pl_Stop p v)).
    + apply Hdel; [done|]. intros Hin. destruct (proj1 (proj2 Hst) name Hin) as (j & Hj & Hjr). congruence.
  - exact (managed_shutdown pm order v tr Hst).
Qed.
End life.

(** * Paths *)

(** A group is handed the rest of the path below its prefix, and nothing else
    is taken for its own: a longer name with the prefix in front is not. *)
Lemma strip_spec prefix path r :
  strip prefix path = Some r <-> (path = prefix /\ r = [slash]) \/ (exists rest, path = prefix ++ slash :: rest /\ r = slash :: rest).
Proof.
  unfold strip. case_decide as Hp.
  - subst path. split; [intros [= <-]; by left|]. intros [[_ ->]|(rest & E & _)]; [done|].
    apply (f_equal length) in E. rewrite length_app in E. simpl in E. lia.
  - destruct (strip_prefix _ path) as [rest|] eqn:E.
    + apply strip_prefix_Some in E. rewrite <- app_assoc in E. split.
      * intros [= <-]. right. by exists rest.
      * intros [[? _]|(rest' & -> & ->)]; [done|]. f_equal. apply app_inv_head in E. by injection E as ->.
    + split; [done|]. intros [[? _]|(rest & -> & _)]; [done|]. exfalso.
      assert (strip_prefix (prefix ++ [slash]) (prefix ++ slash :: rest) = Some rest) as E'
        by (apply strip_prefix_Some; by rewrite <- app_assoc).
      by rewrite E in E'.
Qed.

(** Groups in groups strip their prefixes one after the other. *)
Lemma nested_groups a b rest :
  group_path (slash :: b) (group_path a (a ++ slash :: b ++ slash :: rest)) = slash :: rest.
Proof.
  unfold group_path.
  assert (strip a (a ++ slash :: b ++ slash :: rest) = Some (slash :: b ++ slash :: rest)) as ->.
  { apply strip_spec. right. by eexists. }
  cbn [from_option id]. change (slash :: b ++ slash :: rest) with ((slash :: b) ++ slash :: rest).
  assert (strip (slash :: b) ((slash :: b) ++ slash :: rest) = Some (slash :: rest)) as ->; [|done].
  apply strip_spec. right. by eexists.
Qed.

(** ** Examples *)

Module PluginSample.
Definition name : bytes := str "echo".
Definition meta : Metadata := mkMetadata name (str "1") [] [] [] [] [].
Definition broken : Plugin unit := NewBuiltinPlugin meta (Some (fun _ w => (Err (ErrText "no disk"), w))) None None [].
Definition sound : Plugin unit := NewBuiltinPlugin meta None None None [].
Definition trace_of (ops : list (Op unit)) : list (bytes * Act * bool) :=
  (foldl manage (NewPluginManager, (tt, [])) (traced_op <$> ops)).2.2.
End PluginSample.
Import PluginSample.

(** A plugin whose [Init] failed keeps its name and can be started. *)
Lemma failed_init_can_start :
  trace_of [ORegister 1 broken []; ORegister 2 sound []; OStart 3 name] = [(name, AInit, false); (name, AStart, true)].
Proof. vm_compute. reflexivity. Qed.

(** [StopPlugin] stops a plugin that was never started. *)
Lemma stop_without_start : trace_of [ORegister 1 sound []; OStop 2 name] = [(name, AInit, true); (name, AStop, true)].
Proof. vm_compute. reflexivity. Qed.

(** [Shutdown] leaves the status as it was: the plugin is stopped again when it
    is unregistered, and not started when it is asked to be. *)
Lemma shutdown_keeps_status :
  trace_of [ORegister 1 sound []; OStart 2 name; OShutdown [name]; OStart 3 name; OUnregister 4 name]
  = [(name, AInit, true); (name, AStart, true); (name, AStop, true); (name, AStop, true)].
Proof. vm_compute. reflexivity. Qed.

(** A group for the prefix of everything is mounted nowhere. *)
Lemma root_group_unmounted : mountGroup [slash] = ([], []) /\ (mountGroup (str "/api/")).2 = [str "/api"; str "/api/"].
Proof. by vm_compute. Qed.
