(* ===== verification/Proto.v ===== *)
(** * Protobuf messages (pkg/proto/marshal.go)

    The conversions between the values of the program and the messages of the
    generated code, both ways.  The protobuf runtime is an interface: a codec
    for each kind of message. *)

From S2P Require Import Prelude Bytes Hash Bits Float NodeId Routing DhtWire DhtNode Dns FileWire.
Local Open Scope Z_scope.

(** [proto.Marshal] and [proto.Unmarshal] for one kind of message. *)
Class ProtoCodec (M : Type) := {
  proto_Marshal : M -> result bytes;
  proto_Unmarshal : bytes -> result M;
  representable : M -> Prop;
  proto_roundtrip : forall m, representable m -> exists b, proto_Marshal m = Ok b /\ proto_Unmarshal b = Ok m;
}.

(** ** The generated messages (peer.pb.go, message.pb.go, dns.pb.go, file.pb.go) *)

Module Pb.
Record PeerInfo := mkPeerInfo {
  Id : bytes;
  PublicKey : bytes;
  Name : bytes;
  Addrs : list bytes;
  Services : list bytes;
  Score : float64;
  LastSeen : Z;
  FirstSeen : Z;
  Version : bytes;
}.

Record Message := mkMessage { MType : Z; Src : bytes; Dst : bytes; Payload : bytes }.

Record DNSRecord := mkDNSRecord { RName : bytes; RType : Z; Class_ : Z; Ttl : Z; RdLength : Z; Rdata : bytes }.

Record Block := mkBlock { BCid : bytes; BData : bytes }.

Record Timestamp := mkTimestamp { Seconds : Z; Nanos : Z }.

Record BlockMeta := mkBlockMeta { MCid : bytes; MSize : Z; Compressed : bool; MCreated : option Timestamp; RefCount : Z }.

Record ACLEntry := mkACL { PubKey : bytes; Read : bool; Write : bool; Admin : bool }.

Record FileMeta := mkFileMeta {
  FCid : bytes;
  FName : bytes;
  FSize : Z;
  MimeType : bytes;
  Modified : option Timestamp;
  FCreated : option Timestamp;
  Acl : list ACLEntry;
  FVersion : Z;
  ParentCid : bytes;
}.
End Pb.

(** ** The values of the file store (files/types.go); an undefined CID is empty *)

Record BlockMeta := mkBlockMeta { bm_CID : bytes; bm_Size : Z; bm_Compressed : bool; bm_Created : Z; bm_RefCount : Z }.

#[global] Instance BlockMeta_eq_dec : EqDecision BlockMeta.
Proof. solve_decision. Defined.

Record ACLEntry := mkACL { acl_PubKey : bytes; acl_Read : bool; acl_Write : bool; acl_Admin : bool }.

Record FileMeta := mkFileMeta {
  fm_CID : bytes;
  fm_Name : bytes;
  fm_Size : Z;
  fm_MimeType : bytes;
  fm_Modified : Z;
  fm_Created : Z;
  fm_ACL : list ACLEntry;
  fm_Version : Z;
  fm_ParentCID : bytes;
}.

(** ** Peers *)

Definition PeerInfoToProto (p : PeerInfo) : Pb.PeerInfo :=
  Pb.mkPeerInfo (ID p) (PublicKey p) (Name p) (Addrs p) (Services p) (Score p) (time_unix_nano (LastSeen p))
    (time_unix_nano (FirstSeen p)) (Version p).

Definition unix_nano_time (n : Z) : Z := unix_epoch * second + n.

Definition PeerInfoFromProto (p : Pb.PeerInfo) : PeerInfo :=
  mkPeerInfo (copy32 (Pb.Id p)) (copy32 (Pb.PublicKey p)) (Pb.Name p) (Pb.Addrs p) (Pb.Services p) (Pb.Score p)
    (unix_nano_time (Pb.LastSeen p)) (unix_nano_time (Pb.FirstSeen p)) (Pb.Version p).

(** ** Messages: their types are numbered from 1, those of the generated code from 0 *)

Definition message_types : list (Z * Z) :=
  [(MsgPing, 0); (MsgPong, 1); (MsgFindNode, 2); (MsgFoundNode, 3); (MsgStore, 4); (MsgFindValue, 5);
   (MsgFoundValue, 6); (MsgRegisterNode, 7)].

Definition message_type_to (t : Z) : Z :=
  match list_find (fun p => p.1 = t) message_types with Some (_, p) => p.2 | None => 0 end.
Definition message_type_from (t : Z) : Z :=
  match list_find (fun p => p.2 = t) message_types with Some (_, p) => p.1 | None => MsgPing end.

Definition MessageToProto (m : Message) : Pb.Message :=
  Pb.mkMessage (message_type_to (Type_ m)) (copy32 (Src m)) (copy32 (Dst m)) (Payload m).
Definition MessageFromProto (m : Pb.Message) : Message :=
  mkMessage (message_type_from (Pb.MType m)) (copy32 (Pb.Src m)) (copy32 (Pb.Dst m)) (Pb.Payload m).

(** ** DNS records *)

Definition record_types : list RecordType :=
  [TypeA; TypeNS; TypeCNAME; TypePTR; TypeMX; TypeTXT; TypeAAAA; TypeSRV; TypeHTTPS; TypeSVCB].

(** The numbers of the generated code are those of DNS, with 0 for the rest. *)
Definition RecordTypeToProto (r : RecordType) : Z := if decide (r ∈ record_types) then r else 0.
Definition RecordTypeFromProto (r : Z) : RecordType := if decide (r ∈ record_types) then r else TypeA.

Definition DNSRecordToProto (r : DNSRecord) : Pb.DNSRecord :=
  Pb.mkDNSRecord (r_Name r) (RecordTypeToProto (r_Type r)) (r_Class r) (TTL r) (RDLength r) (RData r).
Definition DNSRecordFromProto (r : Pb.DNSRecord) : DNSRecord :=
  mkRecord (Pb.RName r) (RecordTypeFromProto (Pb.RType r)) (wrapU 16 (Pb.Class_ r)) (Pb.Ttl r) (wrapU 16 (Pb.RdLength r))
    (Pb.Rdata r).

(** ** Files *)

(** [timestamppb.New] and [AsTime]. *)
Definition timestamp_New (t : Z) : Pb.Timestamp := Pb.mkTimestamp (time_unix t) (t mod second).
Definition AsTime (ts : Pb.Timestamp) : Z := (unix_epoch + Pb.Seconds ts) * second + Pb.Nanos ts.

Definition time_to_proto (t : Z) : option Pb.Timestamp := if time_is_zero t then None else Some (timestamp_New t).
Definition time_from_proto (ts : option Pb.Timestamp) : Z := match ts with Some ts => AsTime ts | None => 0 end.

Section files.
Context `{CidLib}.

Definition BlockToProto (b : Block) : Pb.Block := Pb.mkBlock (CID b) (Data b).
Definition cid_from_proto (b : bytes) : result bytes := if len b =? 0 then Ok [] else cid_cast b.
Definition BlockFromProto (b : Pb.Block) : result Block := (fun c => mkBlock c (Pb.BData b)) <$> cid_from_proto (Pb.BCid b).

Definition BlockMetaToProto (m : BlockMeta) : Pb.BlockMeta :=
  Pb.mkBlockMeta (bm_CID m) (bm_Size m) (bm_Compressed m) (time_to_proto (bm_Created m)) (bm_RefCount m).
Definition BlockMetaFromProto (m : Pb.BlockMeta) : result BlockMeta :=
  match cid_from_proto (Pb.MCid m) with
  | Err e => Err e
  | Ok c => Ok (mkBlockMeta c (Pb.MSize m) (Pb.Compressed m) (time_from_proto (Pb.MCreated m)) (Pb.RefCount m))
  end.

Definition FileMetaToProto (m : FileMeta) : Pb.FileMeta :=
  Pb.mkFileMeta (fm_CID m) (fm_Name m) (fm_Size m) (fm_MimeType m) (time_to_proto (fm_Modified m))
    (time_to_proto (fm_Created m))
    ((fun a => Pb.mkACL (copy32 (acl_PubKey a)) (acl_Read a) (acl_Write a) (acl_Admin a)) <$> fm_ACL m)
    (fm_Version m) (fm_ParentCID m).
Definition FileMetaFromProto (m : Pb.FileMeta) : result FileMeta :=
  match cid_from_proto (Pb.FCid m) with
  | Err e => Err e
  | Ok c =>
      match cid_from_proto (Pb.ParentCid m) with
      | Err e => Err e
      | Ok parent =>
          Ok (mkFileMeta c (Pb.FName m) (Pb.FSize m) (Pb.MimeType m) (time_from_proto (Pb.Modified m))
                (time_from_proto (Pb.FCreated m))
                ((fun a => mkACL (copy32 (Pb.PubKey a)) (Pb.Read a) (Pb.Write a) (Pb.Admin a)) <$> Pb.Acl m)
                (Pb.FVersion m) parent)
      end
  end.
End files.

(** ** Bytes *)

Definition MarshalPeer `{ProtoCodec Pb.PeerInfo} (p : PeerInfo) : result bytes := proto_Marshal (PeerInfoToProto p).
Definition UnmarshalPeer `{ProtoCodec Pb.PeerInfo} (data : bytes) : result PeerInfo :=
  PeerInfoFromProto <$> proto_Unmarshal data.
Definition MarshalMessage `{ProtoCodec Pb.Message} (m : Message) : result bytes := proto_Marshal (MessageToProto m).
Definition UnmarshalMessage `{ProtoCodec Pb.Message} (data : bytes) : result Message :=
  MessageFromProto <$> proto_Unmarshal data.
Definition MarshalDNSRecord `{ProtoCodec Pb.DNSRecord} (r : DNSRecord) : result bytes := proto_Marshal (DNSRecordToProto r).
Definition UnmarshalDNSRecord `{ProtoCodec Pb.DNSRecord} (data : bytes) : result DNSRecord :=
  DNSRecordFromProto <$> proto_Unmarshal data.
Definition bind_result {A B} (r : result A) (f : A -> result B) : result B := match r with Ok a => f a | Err e => Err e end.
Definition MarshalBlock `{ProtoCodec Pb.Block} (b : Block) : result bytes := proto_Marshal (BlockToProto b).
Definition UnmarshalBlock `{ProtoCodec Pb.Block, CidLib} (data : bytes) : result Block :=
  bind_result (proto_Unmarshal data) BlockFromProto.
Definition MarshalBlockMeta `{ProtoCodec Pb.BlockMeta} (m : BlockMeta) : result bytes := proto_Marshal (BlockMetaToProto m).
Definition UnmarshalBlockMeta `{ProtoCodec Pb.BlockMeta, CidLib} (data : bytes) : result BlockMeta :=
  bind_result (proto_Unmarshal data) BlockMetaFromProto.
Definition MarshalFileMeta `{ProtoCodec Pb.FileMeta} (m : FileMeta) : result bytes := proto_Marshal (FileMetaToProto m).
Definition UnmarshalFileMeta `{ProtoCodec Pb.FileMeta, CidLib} (data : bytes) : result FileMeta :=
  bind_result (proto_Unmarshal data) FileMetaFromProto.

(** * Round trips *)

Lemma copy32_id b : length b = 32%nat -> copy32 b = b.
Proof. intros Hb. unfold copy32. by rewrite take_ge, Hb, Nat.sub_diag, app_nil_r by lia. Qed.

Lemma time_proto_roundtrip t : time_from_proto (time_to_proto t) = t.
Proof.
  unfold time_to_proto, time_is_zero. destruct (Z.eqb_spec t 0) as [->|_]; [done|].
  cbn [time_from_proto]. unfold AsTime, timestamp_New, time_unix. cbn [Pb.Seconds Pb.Nanos].
  pose proof (Z.div_mod t second). unfold second in *. lia.
Qed.

Lemma unix_nano_roundtrip t :
  int64_min <= t - unix_epoch * second <= int64_max -> unix_nano_time (time_unix_nano t) = t.
Proof.
  intros Ht. unfold unix_nano_time, time_unix_nano. unfold int64_min, int64_max in Ht.
  rewrite wrapS_small; [lia|lia|]. change (64 - 1) with 63. lia.
Qed.

(** A peer survives if its times are Unix nanoseconds of 64 bits. *)
Definition nano_time (t : Z) : Prop := int64_min <= t - unix_epoch * second <= int64_max.
Lemma peer_proto_roundtrip p :
  length (ID p) = 32%nat -> length (PublicKey p) = 32%nat -> nano_time (LastSeen p) -> nano_time (FirstSeen p) ->
  PeerInfoFromProto (PeerInfoToProto p) = p.
Proof.
  intros Hi Hk Hl Hf. unfold PeerInfoFromProto, PeerInfoToProto.
  cbn [Pb.Id Pb.PublicKey Pb.Name Pb.Addrs Pb.Services Pb.Score Pb.LastSeen Pb.FirstSeen Pb.Version].
  rewrite !copy32_id, !unix_nano_roundtrip by done. by destruct p.
Qed.

Lemma message_types_inverse :
  Forall (fun p => message_type_from (message_type_to p.1) = p.1 /\ message_type_to (message_type_from p.2) = p.2)
    message_types.
Proof. repeat constructor. Qed.

Lemma message_proto_roundtrip m :
  Type_ m ∈ message_types.*1 -> length (Src m) = 32%nat -> length (Dst m) = 32%nat ->
  MessageFromProto (MessageToProto m) = m.
Proof.
  intros Ht Hs Hd. unfold MessageFromProto, MessageToProto. cbn [Pb.MType Pb.Src Pb.Dst Pb.Payload].
  rewrite !copy32_id by (rewrite ?copy32_id; done). apply list_elem_of_fmap in Ht as (p & Hp & Hin).
  pose proof message_types_inverse as Hall. rewrite Forall_forall in Hall. rewrite Hp, (proj1 (Hall p Hin)).
  rewrite <- Hp. by destruct m.
Qed.

Lemma dns_proto_roundtrip r :
  r_Type r ∈ record_types -> 0 <= r_Class r < 2 ^ 16 -> 0 <= RDLength r < 2 ^ 16 ->
  DNSRecordFromProto (DNSRecordToProto r) = r.
Proof.
  intros Ht Hc Hl. unfold DNSRecordFromProto, DNSRecordToProto, RecordTypeToProto.
  cbn [Pb.RName Pb.RType Pb.Class_ Pb.Ttl Pb.RdLength Pb.Rdata]. rewrite !wrapU_small by done.
  rewrite (decide_True _ _ Ht). unfold RecordTypeFromProto. rewrite (decide_True _ _ Ht). by destruct r.
Qed.

Section file_props.
Context `{CidLib}.

(** A CID of the library, or the undefined one. *)
Definition cid_valid (c : bytes) : Prop := c = [] \/ cid_cast c = Ok c.

Lemma cid_proto_roundtrip c : cid_valid c -> cid_from_proto c = Ok c.
Proof. unfold cid_from_proto. intros [->|Hc]; [done|]. destruct c; [done|exact Hc]. Qed.

Lemma block_proto_roundtrip b : cid_valid (CID b) -> BlockFromProto (BlockToProto b) = Ok b.
Proof. intros Hc. unfold BlockFromProto, BlockToProto. cbn [Pb.BCid Pb.BData]. rewrite cid_proto_roundtrip by done. by destruct b. Qed.

Lemma block_meta_proto_roundtrip m : cid_valid (bm_CID m) -> BlockMetaFromProto (BlockMetaToProto m) = Ok m.
Proof.
  intros Hc. unfold BlockMetaFromProto, BlockMetaToProto. cbn [Pb.MCid Pb.MSize Pb.Compressed Pb.MCreated Pb.RefCount].
  rewrite cid_proto_roundtrip, time_proto_roundtrip by done. by destruct m.
Qed.

Lemma file_meta_proto_roundtrip m :
  cid_valid (fm_CID m) -> cid_valid (fm_ParentCID m) -> Forall (fun a => length (acl_PubKey a) = 32%nat) (fm_ACL m) ->
  FileMetaFromProto (FileMetaToProto m) = Ok m.
Proof.
  intros Hc Hp Ha. unfold FileMetaFromProto, FileMetaToProto.
  cbn [Pb.FCid Pb.FName Pb.FSize Pb.MimeType Pb.Modified Pb.FCreated Pb.Acl Pb.FVersion Pb.ParentCid].
  rewrite !cid_proto_roundtrip, !time_proto_roundtrip by done.
  assert ((fun a => mkACL (copy32 (Pb.PubKey a)) (Pb.Read a) (Pb.Write a) (Pb.Admin a)) <$>
    ((fun a => Pb.mkACL (copy32 (acl_PubKey a)) (acl_Read a) (acl_Write a) (acl_Admin a)) <$> fm_ACL m) = fm_ACL m) as ->.
  { rewrite <- list_fmap_compose. rewrite <- (list_fmap_id (fm_ACL m)) at 2. apply list_fmap_ext. intros i a Hi.
    assert (length (acl_PubKey a) = 32%nat) as Hl by (by eapply (Forall_lookup_1 _ _ i a Ha)).
    cbn [compose Pb.PubKey Pb.Read Pb.Write Pb.Admin]. rewrite !copy32_id by (rewrite ?copy32_id; done). by destruct a. }
  by destruct m.
Qed.
End file_props.

(** Through the codec: what is marshalled is unmarshalled to the same value. *)
Lemma peer_bytes_roundtrip `{ProtoCodec Pb.PeerInfo} p :
  length (ID p) = 32%nat -> length (PublicKey p) = 32%nat -> nano_time (LastSeen p) -> nano_time (FirstSeen p) ->
  representable (PeerInfoToProto p) -> exists b, MarshalPeer p = Ok b /\ UnmarshalPeer b = Ok p.
Proof.
  intros Hi Hk Hl Hf Hr. destruct (proto_roundtrip _ Hr) as (b & Hb & Hu). exists b. split; [done|].
  unfold UnmarshalPeer. rewrite Hu. cbn. by rewrite peer_proto_roundtrip.
Qed.

Lemma message_bytes_roundtrip `{ProtoCodec Pb.Message} m :
  Type_ m ∈ message_types.*1 -> length (Src m) = 32%nat -> length (Dst m) = 32%nat ->
  representable (MessageToProto m) -> exists b, MarshalMessage m = Ok b /\ UnmarshalMessage b = Ok m.
Proof.
  intros Ht Hs Hd Hr. destruct (proto_roundtrip _ Hr) as (b & Hb & Hu). exists b. split; [done|].
  unfold UnmarshalMessage. rewrite Hu. cbn. by rewrite message_proto_roundtrip.
Qed.

Lemma file_meta_bytes_roundtrip `{ProtoCodec Pb.FileMeta, CidLib} m :
  cid_valid (fm_CID m) -> cid_valid (fm_ParentCID m) -> Forall (fun a => length (acl_PubKey a) = 32%nat) (fm_ACL m) ->
  representable (FileMetaToProto m) -> exists b, MarshalFileMeta m = Ok b /\ UnmarshalFileMeta b = Ok m.
Proof.
  intros Hc Hp Ha Hr. destruct (proto_roundtrip _ Hr) as (b & Hb & Hu). exists b. split; [done|].
  unfold UnmarshalFileMeta. rewrite Hu. cbn [bind_result]. by apply file_meta_proto_roundtrip.
Qed.

(** * What is not kept *)

(** A peer that was never seen is seen in the year 1754 afterwards: the zero
    time is not a Unix time in nanoseconds. *)
Lemma never_seen_is_seen :
  let p := mkPeerInfo (zeroes 32) (zeroes 32) [] [] [] f64_half 0 0 [] in
  time_unix (LastSeen (PeerInfoFromProto (PeerInfoToProto p))) = -6795364579.
Proof. vm_compute. reflexivity. Qed.

(** Types that are not known become others: a message a ping, a record an
    address. *)
Lemma unknown_types_change :
  Type_ (MessageFromProto (Pb.mkMessage 10 [] [] (str "relay"))) = MsgPing /\
  r_Type (DNSRecordFromProto (DNSRecordToProto (mkRecord [] 6 1 60 0 []))) = TypeA.
Proof. by vm_compute. Qed.
