(* ===== verification/Stores.v ===== *)
(** * The database and the stores on it (pkg/store)

    [Store] is BadgerDB behind a flag for closing, with the block store and the
    peer store in key spaces of their own.  The database is an interface: a map
    that operations may fail to read or to change, as are gob and the text form
    of a CID.  Locks, the cache and the encryption of the database are its own. *)

From S2P Require Import Prelude Bytes Float Qos Multipath LinkManager Discovery Text Federation FileWire BlockStore Proto.
Local Open Scope Z_scope.

(** What is written is a list of changes, the last of a key counting. *)
Definition apply_entry (m : gmap bytes bytes) (e : bytes * option bytes) : gmap bytes bytes :=
  match e.2 with Some v => <[e.1 := v]> m | None => delete e.1 m end.
Definition apply_entries (m : gmap bytes bytes) (l : list (bytes * option bytes)) : gmap bytes bytes :=
  foldl apply_entry m l.

(** BadgerDB: a transaction is applied as a whole or not at all; a range is the
    entries whose key has a prefix, once each. *)
Class Badger := {
  DB : Type;
  contents : DB -> gmap bytes bytes;
  db_get : DB -> bytes -> result (option bytes);
  db_update : DB -> list (bytes * option bytes) -> result DB;
  db_update_ttl : DB -> bytes -> bytes -> Z -> result DB;
  db_scan : DB -> bytes -> result (list (bytes * bytes));
  db_sync : DB -> result unit;
  db_close : DB -> result unit;
  db_get_contents : forall d k v, db_get d k = Ok v -> v = contents d !! k;
  db_update_contents : forall d l d', db_update d l = Ok d' -> contents d' = apply_entries (contents d) l;
  db_update_ttl_contents : forall d k v ttl d', db_update_ttl d k v ttl = Ok d' -> contents d' = <[k := v]> (contents d);
  db_scan_contents : forall d p l, db_scan d p = Ok l ->
    NoDup l.*1 /\ forall k v, (k, v) ∈ l <-> contents d !! k = Some v /\ HasPrefix k p = true;
}.

(** gob and the text form of CIDs. *)
Class StoreCodec := {
  cid_String : bytes -> bytes;
  cid_Decode : bytes -> result bytes;
  cid_decode_string : forall c, cid_Decode (cid_String c) = Ok c;
  gob_meta : Proto.BlockMeta -> result bytes;
  ungob_meta : bytes -> result Proto.BlockMeta;
  gob_meta_roundtrip : forall m b, gob_meta m = Ok b -> b <> [] /\ ungob_meta b = Ok m;
  gob_peer : Discovery.PeerInfo -> result bytes;
  ungob_peer : bytes -> result Discovery.PeerInfo;
  gob_peer_roundtrip : forall p b, gob_peer p = Ok b -> ungob_peer b = Ok p;
}.

Section store.
Context `{HB : Badger}.

Record Store := mkStoreOf { st_db : DB; st_path : bytes; st_closed : bool }.

Definition ErrStoreClosed : goerror := ErrText "store is closed".
Definition checkClosed (s : Store) : result unit := if st_closed s then Err ErrStoreClosed else Ok tt.

Definition Flush (s : Store) : result unit := if st_closed s then Err ErrStoreClosed else db_sync (st_db s).
Definition store_Close (s : Store) : result unit * Store :=
  if st_closed s then (Ok tt, s) else (db_close (st_db s), mkStoreOf (st_db s) (st_path s) true).

Definition magicHeader : bytes := str "LWS".
Definition colon : bytes := str ":".
Fixpoint join_parts (parts : list bytes) : bytes :=
  match parts with
  | [] => []
  | [p] => p
  | p :: parts => p ++ colon ++ join_parts parts
  end.
Definition nsKey (parts : list bytes) : bytes := magicHeader ++ colon ++ join_parts parts.

Definition store_Get (k : bytes) (s : Store) : result bytes :=
  if st_closed s then Err ErrStoreClosed else
  match db_get (st_db s) k with
  | Ok (Some v) => Ok v
  | Ok None => Err (ErrText "key not found")
  | Err _ => Err (ErrText "get: %w")
  end.

(** A transaction that only writes. *)
Definition write (l : list (bytes * option bytes)) (s : Store) : result unit * Store :=
  if st_closed s then (Err ErrStoreClosed, s) else
  match db_update (st_db s) l with
  | Ok d => (Ok tt, mkStoreOf d (st_path s) (st_closed s))
  | Err e => (Err e, s)
  end.

Definition store_Put (k v : bytes) : Store -> result unit * Store := write [(k, Some v)].
Definition store_Delete (k : bytes) : Store -> result unit * Store := write [(k, None)].
Definition Batch (entries : list (bytes * bytes)) : Store -> result unit * Store :=
  write ((fun e => (e.1, if len e.2 =? 0 then None else Some e.2)) <$> entries).

Definition PutWithTTL (k v : bytes) (ttl : Z) (s : Store) : result unit * Store :=
  if st_closed s then (Err ErrStoreClosed, s) else
  match db_update_ttl (st_db s) k v ttl with
  | Ok d => (Ok tt, mkStoreOf d (st_path s) (st_closed s))
  | Err e => (Err e, s)
  end.

Definition store_Has (k : bytes) (s : Store) : result bool :=
  if st_closed s then Err ErrStoreClosed else
  match db_get (st_db s) k with
  | Ok v => Ok (bool_decide (is_Some v))
  | Err _ => Err (ErrText "has: %w")
  end.

(** [Iterator] with a callback that changes a state of type [A]. *)
Fixpoint iterate {A} (fn : bytes -> bytes -> A -> result A) (l : list (bytes * bytes)) (a : A) : result A :=
  match l with
  | [] => Ok a
  | (k, v) :: l => match fn k v a with Ok a => iterate fn l a | Err e => Err e end
  end.

Definition Iterator {A} (prefix : bytes) (fn : bytes -> bytes -> A -> result A) (a : A) (s : Store) : result A :=
  if st_closed s then Err ErrStoreClosed else
  match db_scan (st_db s) prefix with Ok l => iterate fn l a | Err e => Err e end.

Definition Count (prefix : bytes) (s : Store) : result Z :=
  if st_closed s then Err ErrStoreClosed else
  match db_scan (st_db s) prefix with Ok l => Ok (Z.of_nat (length l)) | Err e => Err (ErrText "count: %w") end.

Definition Path (s : Store) : bytes := st_path s.

(** ** Peers (peer_store.go) *)

Context `{HS : StoreCodec}.

Definition peerPrefix : bytes := str "peer".
Definition peer_key (id : bytes) : bytes := nsKey [peerPrefix; fmtHex id].

Definition PutPeer (p : Discovery.PeerInfo) (s : Store) : result unit * Store :=
  match gob_peer p with
  | Err _ => (Err (ErrText "encode peer: %w"), s)
  | Ok data => store_Put (peer_key (Discovery.ID p)) data s
  end.

Definition GetPeer (id : bytes) (s : Store) : result Discovery.PeerInfo :=
  match store_Get (peer_key id) s with
  | Err e => Err e
  | Ok data => match ungob_peer data with Ok p => Ok p | Err _ => Err (ErrText "decode peer: %w") end
  end.

Definition DeletePeer (id : bytes) : Store -> result unit * Store := store_Delete (peer_key id).

Definition ListPeers (s : Store) : result (list Discovery.PeerInfo) :=
  match Iterator (nsKey [peerPrefix])
          (fun _ v peers => match ungob_peer v with Ok p => Ok (peers ++ [p]) | Err _ => Err (ErrText "decode peer: %w") end) [] s with
  | Ok l => Ok l
  | Err _ => Err (ErrText "list peers: %w")
  end.

Definition CountPeers (s : Store) : result Z := Count (nsKey [peerPrefix]) s.

(** ** Blocks (block_store.go) *)

Context `{HC : CidLib}.

Definition blockPrefix : bytes := str "block".
Definition metaPrefix : bytes := str "meta".
Definition block_key (c : bytes) : bytes := nsKey [blockPrefix; cid_String c].
Definition meta_key (c : bytes) : bytes := nsKey [metaPrefix; cid_String c].

Definition PutBlock (now : Z) (block : option Block) (s : Store) : result unit * Store :=
  match block with
  | None => (Err (ErrText "block is empty"), s)
  | Some b =>
      if len (Data b) =? 0 then (Err (ErrText "block is empty"), s) else
      if decide (computeBlockCID (Data b) <> CID b) then (Err (ErrText "CID mismatch: expected %s, got %s"), s) else
      let meta := Proto.mkBlockMeta (CID b) (len (Data b)) (isZstd (Data b)) now 1 in
      match gob_meta meta with
      | Err _ => (Err (ErrText "encode block meta: %w"), s)
      | Ok metaData => Batch [(block_key (CID b), Data b); (meta_key (CID b), metaData)] s
      end
  end.

Definition GetBlock (c : bytes) (s : Store) : result Block :=
  match store_Get (block_key c) s with
  | Err _ => Err (ErrText "block not found: %s")
  | Ok data =>
      if decide (computeBlockCID data <> c) then Err (ErrText "stored data CID mismatch for %s") else Ok (mkBlock c data)
  end.

Definition HasBlock (c : bytes) (s : Store) : bool :=
  match store_Has (block_key c) s with Ok b => b | Err _ => false end.

Definition DeleteBlock (c : bytes) : Store -> result unit * Store := Batch [(block_key c, []); (meta_key c, [])].

(** The callback of [List]; [None] is the slice out of range of a key that is
    the prefix alone. *)
Fixpoint decode_keys (prefix : bytes) (l : list (bytes * bytes)) (cids : list bytes) : option (result (list bytes)) :=
  match l with
  | [] => Some (Ok cids)
  | (k, _) :: l =>
      if len k <? len prefix + 1 then None else
      match cid_Decode (drop (length prefix + 1) k) with
      | Err _ => Some (Err (ErrText "list blocks: %w"))
      | Ok c => decode_keys prefix l (cids ++ [c])
      end
  end.

Definition ListBlocks (s : Store) : option (result (list bytes)) :=
  if st_closed s then Some (Err (ErrText "list blocks: %w")) else
  match db_scan (st_db s) (nsKey [blockPrefix]) with
  | Err _ => Some (Err (ErrText "list blocks: %w"))
  | Ok l => decode_keys (nsKey [blockPrefix]) l []
  end.

Definition SizeOf (c : bytes) (s : Store) : result Z :=
  match store_Get (meta_key c) s with
  | Err _ => Err (ErrText "block not found: %s")
  | Ok data => match ungob_meta data with Ok m => Ok (bm_Size m) | Err _ => Err (ErrText "decode block meta: %w") end
  end.
End store.

(** * Lemmas *)

Section props.
Context `{HB : Badger, HS : StoreCodec, HC : CidLib}.

(** ** Keys *)

Lemma cid_String_inj c c' : cid_String c = cid_String c' -> c = c'.
Proof. intros E. pose proof (cid_decode_string c) as H. rewrite E, cid_decode_string in H. congruence. Qed.

Lemma block_key_inj c c' : block_key c = block_key c' -> c = c'.
Proof. unfold block_key, nsKey. cbn [join_parts]. intros E. do 4 apply app_inv_head in E. by apply cid_String_inj. Qed.

Lemma meta_key_inj c c' : meta_key c = meta_key c' -> c = c'.
Proof. unfold meta_key, nsKey. cbn [join_parts]. intros E. do 4 apply app_inv_head in E. by apply cid_String_inj. Qed.

Lemma keys_disjoint c c' id : block_key c <> meta_key c' /\ block_key c <> peer_key id /\ meta_key c <> peer_key id.
Proof. done. Qed.

Lemma block_prefix k : HasPrefix k (nsKey [blockPrefix]) = true <-> exists r, k = nsKey [blockPrefix] ++ r.
Proof. apply HasPrefix_true. Qed.

(** ** What the database holds when only the stores write to it *)

Inductive StoreOp :=
  | OPutBlock (now : Z) (b : option Block)
  | ODeleteBlock (c : bytes)
  | OPutPeer (p : Discovery.PeerInfo)
  | ODeletePeer (id : bytes)
  | OClose.

Definition store_op (s : Store) (op : StoreOp) : Store :=
  match op with
  | OPutBlock now b => (PutBlock now b s).2
  | ODeleteBlock c => (DeleteBlock c s).2
  | OPutPeer p => (PutPeer p s).2
  | ODeletePeer id => (DeletePeer id s).2
  | OClose => (store_Close s).2
  end.

(** Blocks under their CID with the metadata that goes with them, and peers
    under their ID. *)
Record sound (m : gmap bytes bytes) : Prop := {
  snd_keys : forall k v, m !! k = Some v ->
    (exists c, k = block_key c) \/ (exists c, k = meta_key c) \/ (exists p, k = peer_key (Discovery.ID p) /\ gob_peer p = Ok v);
  snd_blocks : forall c d, m !! block_key c = Some d ->
    computeBlockCID d = c /\ d <> [] /\
    exists now b, gob_meta (Proto.mkBlockMeta c (len d) (isZstd d) now 1) = Ok b /\ m !! meta_key c = Some b;
  snd_meta : forall c, is_Some (m !! meta_key c) -> is_Some (m !! block_key c);
}.

Lemma sound_put m c d now b :
  sound m -> computeBlockCID d = c -> d <> [] -> gob_meta (Proto.mkBlockMeta c (len d) (isZstd d) now 1) = Ok b ->
  sound (<[meta_key c := b]> (<[block_key c := d]> m)).
Proof.
  intros [Hk Hb Hm] Hc Hd Hg. destruct (keys_disjoint c c []) as (Hbm & _ & _). constructor.
  - intros k v. rewrite !lookup_insert_Some. intros [[<- _]|[_ [[<- _]|[_ Hv]]]]; [right; left; by eauto|left; by eauto|by apply Hk].
  - intros c' d'. rewrite lookup_insert_ne by (by intros E; destruct (keys_disjoint c' c [])).
    destruct (decide (c' = c)) as [->|Hne].
    + rewrite lookup_insert_eq. intros [= <-]. split; [done|]. split; [done|]. exists now, b. by rewrite lookup_insert_eq.
    + rewrite lookup_insert_ne by (intros E; apply block_key_inj in E; congruence).
      rewrite lookup_insert_ne by (intros E; apply meta_key_inj in E; congruence).
      rewrite lookup_insert_ne by done. apply Hb.
  - intros c'. rewrite (lookup_insert_ne _ (meta_key c) (block_key c')) by done.
    destruct (decide (c' = c)) as [->|Hne]; [rewrite !lookup_insert_eq; by eauto|].
    rewrite !lookup_insert_ne; [apply Hm| | |].
    + intros E. by apply block_key_inj in E.
    + done.
    + intros E. by apply meta_key_inj in E.
Qed.

Lemma sound_delete m c : sound m -> sound (delete (meta_key c) (delete (block_key c) m)).
Proof.
  intros [Hk Hb Hm]. constructor.
  - intros k v. rewrite !lookup_delete_Some. intros [_ [_ Hv]]. by apply Hk.
  - intros c' d. rewrite !lookup_delete_Some. intros [_ [Hne Hd]]. destruct (Hb c' d Hd) as (? & ? & now & b & ? & Hmeta).
    split; [done|]. split; [done|]. exists now, b. split; [done|].
    assert (c <> c') by (by intros ->). rewrite !lookup_delete_ne; [done| |].
    + done.
    + intros E. by apply meta_key_inj in E.
  - intros c' [v Hv]. rewrite !lookup_delete_Some in Hv. destruct Hv as [Hne [_ Hv]].
    assert (c <> c') by (by intros ->). rewrite !lookup_delete_ne; [by apply Hm| |].
    + intros E. by apply block_key_inj in E.
    + done.
Qed.

Lemma sound_peer m id v :
  sound m -> (forall x, v = Some x -> exists p, Discovery.ID p = id /\ gob_peer p = Ok x) ->
  sound (partial_alter (fun _ => v) (peer_key id) m).
Proof.
  intros [Hk Hb Hm] Hv.
  assert (forall c, partial_alter (fun _ => v) (peer_key id) m !! block_key c = m !! block_key c) as Eb
    by (intros c; by rewrite lookup_partial_alter_ne).
  assert (forall c, partial_alter (fun _ => v) (peer_key id) m !! meta_key c = m !! meta_key c) as Em
    by (intros c; by rewrite lookup_partial_alter_ne).
  constructor.
  - intros k x Hx. destruct (decide (k = peer_key id)) as [->|Hne].
    + rewrite lookup_partial_alter_eq in Hx. destruct (Hv x Hx) as (p & <- & Hp). right. right. by exists p.
    + rewrite lookup_partial_alter_ne in Hx by done. by apply Hk.
  - intros c d. rewrite Eb, Em. apply Hb.
  - intros c. rewrite Eb, Em. apply Hm.
Qed.

Lemma write_contents l s :
  contents (st_db (write l s).2) = contents (st_db s) \/
  contents (st_db (write l s).2) = apply_entries (contents (st_db s)) l.
Proof.
  unfold write. destruct (st_closed s); [by left|]. destruct (db_update _ l) as [d|e] eqn:E; [|by left].
  right. by apply db_update_contents.
Qed.

Lemma sound_op s op : sound (contents (st_db s)) -> sound (contents (st_db (store_op s op))).
Proof.
  intros Hs. destruct op as [now [b|]|c|p|id|]; cbn [store_op PutBlock]; [|done| | | |].
  - destruct (Z.eqb_spec (len (Data b)) 0); [done|]. case_decide as Hc; [done|]. try apply dec_stable in Hc.
    destruct (gob_meta _) as [md|e] eqn:Eg; [|done]. unfold Batch.
    destruct (write_contents ((fun e => (e.1, if len e.2 =? 0 then None else Some e.2)) <$> [(block_key (CID b), Data b); (meta_key (CID b), md)]) s)
      as [->| ->]; [done|].
    destruct (gob_meta_roundtrip _ _ Eg) as [Hmd _]. unfold apply_entries. cbn [fmap list_fmap foldl apply_entry fst snd].
    assert (len (Data b) =? 0 = false) as -> by (by apply Z.eqb_neq).
    assert (len md =? 0 = false) as -> by (by destruct md). cbn [apply_entry fst snd].
    apply (sound_put _ _ _ now); [done|done| |done]. by intros E; rewrite E in n.
  - unfold DeleteBlock, Batch.
    destruct (write_contents ((fun e => (e.1, if len e.2 =? 0 then None else Some e.2)) <$> [(block_key c, []); (meta_key c, [])]) s)
      as [->| ->]; [done|]. by apply sound_delete.
  - unfold PutPeer. destruct (gob_peer p) as [data|e] eqn:Eg; [|done]. unfold store_Put.
    destruct (write_contents [(peer_key (Discovery.ID p), Some data)] s) as [->| ->]; [done|].
    apply (sound_peer _ (Discovery.ID p) (Some data)); [done|]. intros x [= <-]. by exists p.
  - unfold DeletePeer, store_Delete. destruct (write_contents [(peer_key id, None)] s) as [->| ->]; [done|].
    by apply (sound_peer _ id None).
  - unfold store_Close. by destruct (st_closed s).
Qed.

Lemma sound_ops ops s : sound (contents (st_db s)) -> sound (contents (st_db (foldl store_op s ops))).
Proof. revert s. induction ops as [|op ops IH]; intros s Hs; [done|]. cbn [foldl]. by apply IH, sound_op. Qed.

Lemma sound_empty : sound ∅.
Proof. constructor; [done|done|]. intros c [v Hv]. done. Qed.

(** ** Reading *)

Lemma store_Get_Ok k s v : store_Get k s = Ok v -> contents (st_db s) !! k = Some v.
Proof.
  unfold store_Get. destruct (st_closed s); [done|]. destruct (db_get _ k) as [[x|]|e] eqn:E; try done.
  intros [= <-]. symmetry. by apply (db_get_contents _ _ _ E).
Qed.

Lemma GetBlock_sound c s b :
  sound (contents (st_db s)) -> GetBlock c s = Ok b ->
  CID b = c /\ computeBlockCID (Data b) = c /\ Data b <> [] /\ forall n, SizeOf c s = Ok n -> n = len (Data b).
Proof.
  intros Hs. unfold GetBlock. destruct (store_Get (block_key c) s) as [data|e] eqn:E; [|done]. apply store_Get_Ok in E.
  case_decide as Hc; [done|]. try apply dec_stable in Hc. intros [= <-]. cbn [CID Data].
  destruct (snd_blocks _ Hs c data E) as (_ & Hd & now & m & Hm & Hmeta). split_and!; [done|done|done|].
  intros n. unfold SizeOf. destruct (store_Get (meta_key c) s) as [md|e] eqn:Em; [|done]. apply store_Get_Ok in Em.
  rewrite Em in Hmeta. injection Hmeta as ->. destruct (gob_meta_roundtrip _ _ Hm) as [_ Hu]. rewrite Hu. by intros [= <-].
Qed.

Lemma decode_block_keys cs l acc :
  l.*1 = block_key <$> cs -> decode_keys (nsKey [blockPrefix]) l acc = Some (Ok (acc ++ cs)).
Proof.
  revert l acc. induction cs as [|c cs IH]; intros [|[k v] l] acc E; try done; [by rewrite app_nil_r|].
  injection E as -> El. cbn [decode_keys].
  assert (len (block_key c) <? len (nsKey [blockPrefix]) + 1 = false) as ->.
  { apply Z.ltb_ge. unfold block_key, nsKey. cbn [join_parts]. rewrite !len_app. unfold colon, len. cbn [length]. simpl. lia. }
  change (drop (length (nsKey [blockPrefix]) + 1) (block_key c)) with (cid_String c).
  rewrite cid_decode_string, (IH l _ El). by rewrite <- app_assoc.
Qed.

(** A range over the blocks is their keys. *)
Lemma scan_block_keys s l :
  sound (contents (st_db s)) -> db_scan (st_db s) (nsKey [blockPrefix]) = Ok l ->
  exists cs, l.*1 = block_key <$> cs /\ NoDup cs /\ forall c, c ∈ cs <-> is_Some (contents (st_db s) !! block_key c).
Proof.
  intros Hs Hl. destruct (db_scan_contents _ _ _ Hl) as [Hnd Hin].
  assert (forall k v, (k, v) ∈ l -> exists c, k = block_key c) as Hkeys.
  { intros k v Hkv. apply Hin in Hkv as [Hv Hp].
    destruct (snd_keys _ Hs k v Hv) as [?|[[c ->]|(p & -> & _)]]; [done| |]; by vm_compute in Hp. }
  assert (exists cs, l.*1 = block_key <$> cs) as [cs Hcs].
  { clear Hl Hnd Hin. induction l as [|[k v] l IH]; [by exists []|].
    destruct (Hkeys k v ltac:(left)) as [c ->]. destruct IH as [cs Hcs]; [intros k' v' H'; apply (Hkeys k' v'); by right|].
    exists (c :: cs). cbn. by f_equal. }
  exists cs. split; [done|]. split; [rewrite Hcs in Hnd; by apply NoDup_fmap_1 in Hnd|].
  intros c. split.
  - intros Hc. assert (block_key c ∈ l.*1) as Hk by (rewrite Hcs; by apply list_elem_of_fmap_2).
    apply list_elem_of_fmap in Hk as ([k v] & E & Hkv). apply Hin in Hkv as [Hv _]. rewrite E. by exists v.
  - intros [v Hv]. assert (block_key c ∈ l.*1) as Hk.
    { apply list_elem_of_fmap. exists (block_key c, v). split; [done|]. apply Hin. split; [done|]. apply block_prefix.
      exists (colon ++ cid_String c). reflexivity. }
    rewrite Hcs in Hk. apply list_elem_of_fmap in Hk as (c' & E & Hc'). apply block_key_inj in E. by subst.
Qed.

Lemma peers_of_scan l acc peers :
  iterate (fun _ v peers => match ungob_peer v with Ok p => Ok (peers ++ [p]) | Err _ => Err (ErrText "decode peer: %w") end) l acc
  = Ok peers -> forall p, p ∈ peers -> p ∈ acc \/ exists k v, (k, v) ∈ l /\ ungob_peer v = Ok p.
Proof.
  revert acc. induction l as [|[k v] l IH]; intros acc; cbn [iterate]; [intros [= <-]; by left|].
  destruct (ungob_peer v) as [q|e] eqn:E; [|done]. intros Hi p Hp. destruct (IH _ Hi p Hp) as [Ha|(k' & v' & Hin & Hv)].
  - apply elem_of_app in Ha as [Ha|Hq%list_elem_of_singleton]; [by left|]. subst. right. exists k, v. split; [by left|done].
  - right. exists k', v'. split; [by right|done].
Qed.

(** C30: A database that only the stores have written to, from an empty one and
    whatever writes failed: a block that is read has the CID it was asked for,
    which is that of its data, and the size recorded is the size it has; the
    listing never panics and names exactly the blocks held, once each; a
    listed peer is the one that is got under its ID. *)
Theorem stores_hold ops s :
  contents (st_db s) = ∅ ->
  let s' := foldl store_op s ops in
  (forall c b, GetBlock c s' = Ok b ->
     CID b = c /\ computeBlockCID (Data b) = c /\ Data b <> [] /\ forall n, SizeOf c s' = Ok n -> n = len (Data b)) /\
  (exists r, ListBlocks s' = Some r /\ forall cs, r = Ok cs ->
     NoDup cs /\ forall c, c ∈ cs <-> is_Some (contents (st_db s') !! block_key c)) /\
  (forall peers p q, ListPeers s' = Ok peers -> p ∈ peers -> GetPeer (Discovery.ID p) s' = Ok q -> q = p).
Proof.
  intros He s'. assert (sound (contents (st_db s'))) as Hs by (apply sound_ops; rewrite He; apply sound_empty).
  split; [intros c b; by apply GetBlock_sound|]. split.
  - unfold ListBlocks. destruct (st_closed s'); [by eexists|]. destruct (db_scan _ _) as [l|e] eqn:El; [|by eexists].
    destruct (scan_block_keys s' l Hs El) as (cs & Hcs & Hnd & Hin). rewrite (decode_block_keys cs l [] Hcs).
    eexists. split; [done|]. intros cs' [= <-]. by split.
  - intros peers p q Hl Hp Hq. unfold ListPeers, Iterator in Hl. unfold GetPeer in Hq.
    destruct (store_Get _ s') as [data|e] eqn:Eg; [|done]. apply store_Get_Ok in Eg.
    destruct (st_closed s'); [done|]. destruct (db_scan _ _) as [l|e] eqn:El; [|done].
    destruct (iterate _ l []) as [peers'|e] eqn:Ei; [|done]. injection Hl as ->.
    destruct (peers_of_scan l [] peers Ei p Hp) as [?%elem_of_nil|(k & v & Hkv & Hv)]; [done|].
    apply (db_scan_contents _ _ _ El) in Hkv as [Hkv Hpre].
    destruct (snd_keys _ Hs k v Hkv) as [[c ->]|[[c ->]|(p' & -> & Hp')]]; [by vm_compute in Hpre|by vm_compute in Hpre|].
    pose proof (gob_peer_roundtrip _ _ Hp') as E. rewrite Hv in E. injection E as ->. rewrite Hkv in Eg. injection Eg as ->.
    rewrite Hv in Hq. by injection Hq as ->.
Qed.

(** What was put is held, and read back while the database can be read. *)
Lemma put_block_held now b s s' :
  PutBlock now (Some b) s = (Ok tt, s') ->
  CID b = computeBlockCID (Data b) /\ contents (st_db s') !! block_key (CID b) = Some (Data b) /\
  st_closed s' = false /\
  (forall v, db_get (st_db s') (block_key (CID b)) = Ok v -> GetBlock (CID b) s' = Ok b).
Proof.
  unfold PutBlock. destruct (Z.eqb_spec (len (Data b)) 0) as [|Hn]; [done|]. case_decide as Hc; [done|]. try apply dec_stable in Hc.
  destruct (gob_meta _) as [md|e] eqn:Eg; [|done]. destruct (gob_meta_roundtrip _ _ Eg) as [Hmd _].
  unfold Batch, write. destruct (st_closed s) eqn:Ec; [done|]. destruct (db_update _ _) as [d|e] eqn:Eu; [|done].
  intros [= <-]. apply db_update_contents in Eu. unfold apply_entries in Eu. cbn [fmap list_fmap foldl apply_entry fst snd] in Eu.
  assert (len (Data b) =? 0 = false) as Hl by (by apply Z.eqb_neq). assert (len md =? 0 = false) as Hm by (by destruct md).
  rewrite Hl, Hm in Eu. cbn [apply_entry fst snd] in Eu. cbn [st_db st_closed].
  assert (contents d !! block_key (CID b) = Some (Data b)) as Hd.
  { rewrite Eu. rewrite lookup_insert_ne by done. by rewrite lookup_insert_eq. }
  split_and!; [done|done|done|]. intros v Hv. unfold GetBlock, store_Get. cbn [st_db st_closed]. rewrite Hv.
  rewrite (db_get_contents _ _ _ Hv), Hd, decide_False by auto. by destruct b.
Qed.
End props.

(** ** Examples *)

Module StoreSample.
Definition prefixed (p : bytes) (m : gmap bytes bytes) : list (bytes * bytes) :=
  filter (fun e => HasPrefix e.1 p = true) (map_to_list m).

Definition map_badger : Badger.
Proof.
  refine {| DB := gmap bytes bytes; contents := fun d => d; db_get := fun d k => Ok (d !! k);
            db_update := fun d l => Ok (apply_entries d l); db_update_ttl := fun d k v _ => Ok (<[k := v]> d);
            db_scan := fun d p => Ok (prefixed p d); db_sync := fun _ => Ok tt; db_close := fun _ => Ok tt |}.
  - by intros d k v [= <-].
  - by intros d l d' [= <-].
  - by intros d k v ttl d' [= <-].
  - intros d p l [= <-]. unfold prefixed. split.
    + apply (sublist_NoDup _ (map_to_list d).*1); [apply NoDup_fst_map_to_list|apply fmap_sublist, sublist_filter].
    + intros k v. rewrite list_elem_of_filter, elem_of_map_to_list. cbn [fst]. tauto.
Defined.

Definition blank_peer (id : bytes) : Discovery.PeerInfo :=
  Discovery.mkDiscovered id (zeroes 32) [] [] [] [] 0 0 f64_half 0 0 [].
Definition plain_meta (c : bytes) (n : Z) : Proto.BlockMeta := Proto.mkBlockMeta c n false 0 1.

Definition toy_codec : StoreCodec.
Proof.
  refine {| cid_String := fmtHex; cid_Decode := fun b => match hex_pairs b with Some c => Ok c | None => Err (ErrText "cid") end;
            gob_meta := fun m => if decide (m = plain_meta (bm_CID m) (bm_Size m) /\ 0 <= bm_Size m < 2 ^ 64)
                                 then Ok (be_put 8 (bm_Size m) ++ bm_CID m) else Err (ErrText "gob");
            ungob_meta := fun b => Ok (plain_meta (drop 8 b) (be_get (take 8 b)));
            gob_peer := fun p => if decide (p = blank_peer (Discovery.ID p)) then Ok (Discovery.ID p) else Err (ErrText "gob");
            ungob_peer := fun b => Ok (blank_peer b) |}.
  - intros c. by rewrite hex_pairs_fmtHex.
  - intros [c n z t r] b H. cbn [bm_CID bm_Size] in H. case_decide as Hm; [|done].
    assert (b = be_put 8 n ++ c) as -> by congruence. destruct Hm as [Hm Hs]. injection Hm as -> -> ->. split; [done|].
    cbv beta. rewrite drop_app_exact, take_app_exact by apply length_be_put. rewrite be_get_put_small; [done|].
    change (Z.of_nat 8 * 8) with 64. exact Hs.
  - intros p b H. case_decide as Hp; [|done]. injection H as <-. by rewrite <- Hp.
Defined.
End StoreSample.

Import StoreSample.
#[local] Existing Instance map_badger.
#[local] Existing Instance toy_codec.
#[local] Existing Instance digest_cids.

Definition one_block : Block := mkBlock (computeBlockCID (str "hello")) (str "hello").
Definition written : list StoreOp :=
  [OPutBlock 0 (Some one_block); OPutPeer (blank_peer (zeroes 32)); OPutBlock 0 None].

Lemma stores_hold_witness :
  let s := foldl store_op (mkStoreOf (HB := map_badger) ∅ [] false) written in
  GetBlock (CID one_block) s = Ok one_block /\ SizeOf (CID one_block) s = Ok 5 /\ len (Data one_block) = 5.
Proof.
  assert (SizeOf (CID one_block) (foldl store_op (mkStoreOf (HB := map_badger) ∅ [] false) written) = Ok 5) as Hn
    by (vm_compute; reflexivity).
  assert (GetBlock (CID one_block) (foldl store_op (mkStoreOf (HB := map_badger) ∅ [] false) written) = Ok one_block) as Hg
    by (vm_compute; reflexivity).
  destruct (stores_hold written (mkStoreOf (HB := map_badger) ∅ [] false) eq_refl) as (Hb & _ & _).
  destruct (Hb _ _ Hg) as (_ & _ & _ & Hs). split; [exact Hg|]. split; [exact Hn|]. symmetry. exact (Hs 5 Hn).
Defined.

(** The key spaces have no mark at their end: a key a plugin writes into the
    database can be listed as a block, or stop the listing with a panic. *)
Lemma foreign_key_stops_listing :
  let s := (store_Put (nsKey [blockPrefix]) (str "x") (mkStoreOf (HB := map_badger) ∅ [] false)).2 in
  ListBlocks s = None.
Proof. vm_compute. reflexivity. Qed.

(** Putting a block twice and deleting it once leaves nothing: the count of
    references the metadata has is always 1, unlike that of the store in
    memory. *)
Lemma delete_ignores_references :
  let s := foldl store_op (mkStoreOf (HB := map_badger) ∅ [] false)
    [OPutBlock 0 (Some one_block); OPutBlock 1 (Some one_block); ODeleteBlock (CID one_block)] in
  HasBlock (CID one_block) s = false /\
  let m := (BlockStore.Put 1 None one_block (BlockStore.Put 0 None one_block BlockStore.NewMemoryStore).2).2 in
  BlockStore.Has (CID one_block) (BlockStore.Delete (CID one_block) m) = true.
Proof. vm_compute. done. Qed.
