(* ===== verification/FileStore.v ===== *)
(** * Blocks on disk and the metadata of files

    pkg/services/files/store.go, the parts that [BlockStore] leaves out: the
    directory of a file-backed store with its reading at the next start, and
    [fileStore], the table of file metadata; and the mount of fuse.go.

    The directory is a map from file names to contents.  What the operating
    system answers is an argument: whether a write succeeds and what a failed
    one leaves behind, whether a removal succeeds, and the order of a
    directory listing.  The text form of content identifiers is the class
    [CidText]. *)

From S2P Require Import Prelude Bytes Text Federation FileWire Proto BlockStore.

Local Open Scope Z_scope.

Class CidText `{CidLib} := {
  cid_String : bytes -> bytes;
  cid_Decode : bytes -> result bytes;
  cid_decode_sum : forall d, cid_Decode (cid_String (cid_sum d)) = Ok (cid_sum d);
}.

(** [filepath.Ext]: from the last dot of the last path element on. *)
Fixpoint ext_back (r acc : bytes) : bytes :=
  match r with
  | [] => []
  | b :: r => if decide (b = Byte.x2f) then [] else
              if decide (b = Byte.x2e) then b :: acc else ext_back r (b :: acc)
  end.

Definition Ext (path : bytes) : bytes := ext_back (reverse path) [].

Definition block_ext : bytes := str ".block".

(** An entry of a directory, with what [os.ReadFile] returns for it and the
    time of reading it. *)
Record DirEntry := mkEntry { Name : bytes; IsDir : bool; ReadFile : result bytes; ReadAt : Z }.

Inductive ReadDir := Entries (l : list DirEntry) | NotExist | DirErr (e : goerror).

Section files.
Context `{HC : CidLib} `{HT : !CidText}.

(** ** Reading the directory of a store *)

Definition load_entry (s : memoryStore) (e : DirEntry) : memoryStore :=
  if IsDir e || bool_decide (Ext (Name e) <> block_ext) then s else
  match cid_Decode (take (length (Name e) - 6) (Name e)) with
  | Err _ => s
  | Ok c =>
      match ReadFile e with
      | Err _ => s
      | Ok data => mkStore (<[c := data]> (blocks s)) (<[c := mkMeta (len data) false (ReadAt e) 0]> (meta s))
      end
  end.

Definition loadExisting (baseDir : bytes) (dir : ReadDir) (s : memoryStore) : result memoryStore :=
  if decide (baseDir = []) then Ok s else
  match dir with
  | NotExist => Ok s
  | DirErr e => Err e
  | Entries l => Ok (foldl load_entry s l)
  end.

Definition NewFileStore (baseDir : bytes) (mkdir : result unit) (dir : ReadDir) : result memoryStore :=
  match mkdir with
  | Err _ => Err (ErrText "create store dir")
  | Ok _ =>
      match loadExisting baseDir dir NewMemoryStore with
      | Err _ => Err (ErrText "load existing blocks")
      | Ok s => Ok s
      end
  end.

(** ** The directory under puts and deletes *)

Inductive WriteFile := Written | WriteErr (left : option bytes).

Definition write_ok (w : WriteFile) : bool := match w with Written => true | WriteErr _ => false end.

Definition block_path (c : bytes) : bytes := cid_String c ++ block_ext.

Definition write_path (w : WriteFile) (name data : bytes) (disk : gmap bytes bytes) : gmap bytes bytes :=
  match w with
  | Written => <[name := data]> disk
  | WriteErr None => disk
  | WriteErr (Some part) => <[name := part]> disk
  end.

(** The write is reached by a new block only. *)
Definition writes (b : Block) (s : memoryStore) : bool := bool_decide (well_formed b /\ meta s !! CID b = None).

Definition Put_disk (now : Z) (w : WriteFile) (b : Block) (s : memoryStore) (disk : gmap bytes bytes)
    : result unit * memoryStore * gmap bytes bytes :=
  (Put now (Some (write_ok w)) b s, if writes b s then write_path w (block_path (CID b)) (Data b) disk else disk).

(** A delete that only lowers the count does not get to the file. *)
Definition lowers (c : bytes) (s : memoryStore) : bool :=
  match meta s !! c with Some m => 0 <? RefCount m - 1 | None => false end.

Definition Delete_disk (removed : bool) (c : bytes) (s : memoryStore) (disk : gmap bytes bytes)
    : memoryStore * gmap bytes bytes :=
  (Delete c s, if lowers c s then disk else if removed then delete (block_path c) disk else disk).

(** ** The table of file metadata *)

Record fileStore := mkFileStore {
  files : gmap bytes FileMeta;
  versions : gmap bytes (list FileMeta);
}.

Definition NewFileMetadataStore : fileStore := mkFileStore ∅ ∅.

Definition stamp (now : Z) (m : FileMeta) : FileMeta :=
  mkFileMeta (fm_CID m) (fm_Name m) (fm_Size m) (fm_MimeType m) now (fm_Created m) (fm_ACL m) (fm_Version m)
    (fm_ParentCID m).

Definition PutFile (now : Z) (mt : option FileMeta) (data : bytes) (f : fileStore) : result unit * fileStore :=
  match mt with
  | None => (Err (ErrText "metadata is nil"), f)
  | Some m =>
      if decide (fm_CID m = []) then (Err (ErrText "CID is empty"), f) else
      if (match files f !! fm_CID m with Some existing => fm_Version m <=? fm_Version existing | None => false end)
      then (Ok tt, f) else
      let n := stamp now m in
      (Ok tt, mkFileStore (<[fm_CID m := n]> (files f))
        (if decide (fm_ParentCID m = []) then versions f
         else <[fm_ParentCID m := default [] (versions f !! fm_ParentCID m) ++ [n]]> (versions f)))
  end.

(** The content of the file is always [nil]. *)
Definition GetFile (c : bytes) (f : fileStore) : result (FileMeta * bytes) :=
  match files f !! c with
  | None => Err (ErrText "file not found")
  | Some m => Ok (m, [])
  end.

(** In the order of some iteration over the map. *)
Definition ListFiles (f : fileStore) : list FileMeta := (map_to_list (files f)).*2.

Definition StatFile (c : bytes) (f : fileStore) : result FileMeta :=
  match files f !! c with
  | None => Err (ErrText "file not found")
  | Some m => Ok m
  end.

Definition DeleteFile (c : bytes) (f : fileStore) : result unit * fileStore :=
  match files f !! c with
  | None => (Err (ErrText "file not found"), f)
  | Some _ => (Ok tt, mkFileStore (delete c (files f)) (versions f))
  end.

Definition VersionFile (c : bytes) (f : fileStore) : result FileMeta :=
  match last (default [] (versions f !! c)) with
  | None => Err (ErrText "no versions")
  | Some m => Ok m
  end.

End files.

(** ** The mount of fuse.go, which mounts nothing *)

Record fuseMount := mkFuse { path : bytes; mounted : bool; started : Z }.

Definition NewFS : fuseMount := mkFuse [] false 0.

Definition Mount (now : Z) (p : bytes) (f : fuseMount) : result unit * fuseMount :=
  if mounted f then (Err (ErrText "already mounted"), f) else (Ok tt, mkFuse p true now).

Definition Unmount (f : fuseMount) : fuseMount :=
  if mounted f then mkFuse (path f) false (started f) else f.

(** * The directory and the store *)

Section disk.
Context `{HC : CidLib} `{HT : !CidText}.

(** A listing of a directory without subdirectories, in any order, every file
    of which can be read. *)
Definition listing (l : list DirEntry) (disk : gmap bytes bytes) : Prop :=
  Forall (fun e => IsDir e = false) l
  /\ (fun e => (Name e, ReadFile e)) <$> l ≡ₚ (fun p => (p.1, Ok p.2)) <$> map_to_list disk.

(** What happens to a store and its directory while no write leaves part of a
    file behind and no removal fails: puts, deletes and restarts. *)
Inductive disk_step : memoryStore * gmap bytes bytes -> memoryStore * gmap bytes bytes -> Prop :=
| step_put s disk now w b r s' disk' :
    (forall part, w <> WriteErr (Some part)) ->
    Put_disk now w b s disk = (r, s', disk') -> disk_step (s, disk) (s', disk')
| step_delete s disk c :
    cid_Decode (cid_String c) = Ok c -> disk_step (s, disk) (Delete_disk true c s disk)
| step_restart s disk baseDir l s' :
    baseDir <> [] -> listing l disk -> NewFileStore baseDir (Ok tt) (Entries l) = Ok s' ->
    disk_step (s, disk) (s', disk).

(** Every block has its content's identifier and its size recorded. *)
Definition recorded (s : memoryStore) : Prop :=
  (forall c, is_Some (meta s !! c) -> is_Some (blocks s !! c))
  /\ forall c x, blocks s !! c = Some x -> exists m, meta s !! c = Some m /\ Size m = len x.

Definition labelled (s : memoryStore) : Prop :=
  forall c x, blocks s !! c = Some x -> c = computeBlockCID x /\ x <> [].

Definition on_disk (s : memoryStore) (disk : gmap bytes bytes) : Prop :=
  forall n x, disk !! n = Some x <-> exists c, n = block_path c /\ blocks s !! c = Some x.

Definition synced (st : memoryStore * gmap bytes bytes) : Prop :=
  recorded st.1 /\ labelled st.1 /\ on_disk st.1 st.2.

Lemma Ext_block_path c : Ext (block_path c) = block_ext.
Proof. unfold Ext, block_path. rewrite reverse_app. reflexivity. Qed.

Lemma block_path_stem c : take (length (block_path c) - 6) (block_path c) = cid_String c.
Proof. unfold block_path. rewrite length_app. apply take_app_length'. simpl. lia. Qed.

Lemma block_path_inj c c' :
  cid_Decode (cid_String c) = Ok c -> cid_Decode (cid_String c') = Ok c' ->
  block_path c = block_path c' -> c = c'.
Proof. intros H1 H2 E. apply app_inv_tail in E. rewrite E in H1. congruence. Qed.

Lemma labelled_printable s c x : labelled s -> blocks s !! c = Some x -> cid_Decode (cid_String c) = Ok c.
Proof. intros Hl Hx. destruct (Hl c x Hx) as [-> _]. apply cid_decode_sum. Qed.

(** ** Puts *)

Lemma recorded_insert s c x m :
  recorded s -> Size m = len x -> recorded (mkStore (<[c := x]> (blocks s)) (<[c := m]> (meta s))).
Proof.
  intros [H1 H2] Hm. split; intros c'; simpl; destruct (decide (c = c')) as [<-|Hne].
  - rewrite !lookup_insert_eq. by eexists.
  - rewrite !lookup_insert_ne by done. apply H1.
  - rewrite !lookup_insert_eq. intros y [= <-]. by exists m.
  - intros y. rewrite !lookup_insert_ne by done. apply H2.
Qed.

Lemma recorded_count s c m m' :
  recorded s -> meta s !! c = Some m -> Size m' = Size m -> recorded (mkStore (blocks s) (<[c := m']> (meta s))).
Proof.
  intros [H1 H2] Hm Hs. split; intros c'; simpl; destruct (decide (c = c')) as [<-|Hne].
  - intros _. apply H1. by eexists.
  - rewrite lookup_insert_ne by done. apply H1.
  - intros x Hx. rewrite lookup_insert_eq. exists m'. split; [done|].
    destruct (H2 c x Hx) as (m0 & E & <-). by assert (m0 = m) as -> by congruence.
  - intros x. rewrite lookup_insert_ne by done. apply H2.
Qed.

Lemma synced_put s disk now w b r s' disk' :
  (forall part, w <> WriteErr (Some part)) -> Put_disk now w b s disk = (r, s', disk') ->
  synced (s, disk) -> synced (s', disk').
Proof.
  intros Hw E (Hr & Hl & Hd). simpl in Hr, Hl, Hd. unfold Put_disk, writes in E. injection E as Hp <-. unfold Put in Hp.
  case_decide as H1. { injection Hp as _ <-. rewrite bool_decide_false; [done|]. intros [[Hn _] _]. by destruct (Data b). }
  case_decide as H2. { injection Hp as _ <-. rewrite bool_decide_false; [done|]. intros [[_ Hn] _]. by rewrite Hn in H2. }
  destruct (meta s !! CID b) as [m|] eqn:Em.
  { injection Hp as _ <-. rewrite bool_decide_false by (by intros [_ ?]).
    split; [by eapply recorded_count|done]. }
  assert (blocks s !! CID b = None) as Hb.
  { destruct (blocks s !! CID b) as [x|] eqn:Eb; [|done]. destruct (proj2 Hr _ _ Eb) as (m & ? & _). congruence. }
  rewrite bool_decide_true.
  2: { split; [|done]. split; [|done]. intros Hn. by rewrite Hn in H1. }
  destruct w as [|[part|]]; simpl in Hp; injection Hp as _ <-; [|by destruct (Hw part)|].
  - split; [by apply recorded_insert|].
    assert (labelled (mkStore (<[CID b := Data b]> (blocks s))
      (<[CID b := mkMeta (len (Data b)) (isZstd (Data b)) now 1]> (meta s)))) as Hl'.
    { intros c x. simpl. destruct (decide (CID b = c)) as [<-|Hne]; [rewrite lookup_insert_eq|rewrite lookup_insert_ne by done; apply Hl].
      intros [= <-]. split; [done|]. intros Hn. by rewrite Hn in H1. }
    split; [exact Hl'|]. assert (cid_Decode (cid_String (CID b)) = Ok (CID b)) as Hpr.
    { rewrite <- H2. apply cid_decode_sum. }
    intros n x. simpl. destruct (decide (block_path (CID b) = n)) as [<-|Hne].
    + rewrite lookup_insert_eq. split.
      * intros [= <-]. exists (CID b). by rewrite lookup_insert_eq.
      * intros (c & E & Hc). destruct (decide (CID b = c)) as [<-|Hcn]; [by rewrite lookup_insert_eq in Hc|].
        rewrite lookup_insert_ne in Hc by done.
        destruct Hcn. apply block_path_inj; [done| |done]. exact (labelled_printable s c x Hl Hc).
    + rewrite lookup_insert_ne by done. rewrite (Hd n x). simpl.
      split; intros (c & -> & Hc); exists c; (split; [done|]); revert Hc;
        (rewrite lookup_insert_ne by (intros <-; done)); done.
  - rewrite !delete_insert_eq, !delete_id by done. by destruct s.
Qed.

(** ** Deletes *)

Lemma recorded_delete s c : recorded s -> recorded (mkStore (delete c (blocks s)) (delete c (meta s))).
Proof.
  intros [H1 H2]. split; intros c'; simpl; destruct (decide (c = c')) as [<-|Hne];
    rewrite ?lookup_delete_eq, ?lookup_delete_ne by done; [by intros [? ?]|apply H1|done|apply H2].
Qed.

Lemma synced_delete s disk c :
  cid_Decode (cid_String c) = Ok c -> synced (s, disk) -> synced (Delete_disk true c s disk).
Proof.
  intros Hpr (Hr & Hl & Hd). simpl in Hr, Hl, Hd. unfold Delete_disk, lowers, Delete.
  assert (synced (mkStore (delete c (blocks s)) (delete c (meta s)), delete (block_path c) disk)) as Hgone.
  { split; [by apply recorded_delete|]. split.
    - intros c' x. simpl. intros [_ Hx]%lookup_delete_Some. by apply Hl.
    - intros n x. simpl. rewrite lookup_delete_Some, (Hd n x). simpl. split.
      + intros [Hn (c' & -> & Hc)]. exists c'. split; [done|]. rewrite lookup_delete_Some. naive_solver.
      + intros (c' & -> & [Hn Hc]%lookup_delete_Some). split; [|naive_solver].
        intros E. apply Hn. eapply block_path_inj; [done| |done]. eapply labelled_printable; eassumption. }
  destruct (meta s !! c) as [m|] eqn:Em; [|exact Hgone]. simpl.
  destruct (0 <? RefCount m - 1); [|exact Hgone].
  split; [by eapply recorded_count|done].
Qed.

(** ** Restarts *)

(** After loading a part of the listing, what is loaded is right. *)
Lemma load_entries s l :
  labelled s ->
  Forall (fun e => exists c x, IsDir e = false /\ Name e = block_path c /\ ReadFile e = Ok x /\ blocks s !! c = Some x) l ->
  let s' := foldl load_entry NewMemoryStore l in
  recorded s'
  /\ forall c, blocks s' !! c = blocks s !! c \/ (blocks s' !! c = None /\ block_path c ∉ Name <$> l).
Proof.
  intros Hl. induction l as [|e l IH] using rev_ind; intros He; simpl.
  { split; [split; intros c; simpl; rewrite lookup_empty; [by intros [? ?]|done]|].
    intros c. right. split; [done|set_solver]. }
  apply Forall_app in He as [He (c0 & x0 & Hdir & Hname & Hread & Hb0)%Forall_singleton].
  destruct (IH He) as [Hr Hc]. rewrite foldl_app. simpl. set (s1 := foldl load_entry NewMemoryStore l) in *.
  pose proof (labelled_printable s c0 x0 Hl Hb0) as Hpr.
  assert (load_entry s1 e = mkStore (<[c0 := x0]> (blocks s1)) (<[c0 := mkMeta (len x0) false (ReadAt e) 0]> (meta s1))) as ->.
  { unfold load_entry. rewrite Hdir, Hname, Ext_block_path, block_path_stem, Hpr, Hread.
    rewrite bool_decide_false by (intros H; by apply H). done. }
  split; [by apply recorded_insert|]. intros c. simpl.
  destruct (decide (c0 = c)) as [<-|Hne]; [left; by rewrite lookup_insert_eq|].
  rewrite lookup_insert_ne by done. destruct (Hc c) as [E|[E Hn]]; [by left|].
  destruct (blocks s !! c) as [x|] eqn:Ex; [|by left]. right. split; [done|].
  rewrite fmap_app, elem_of_app. intros [?|Hin]; [done|]. simpl in Hin. apply list_elem_of_singleton in Hin.
  apply Hne. eapply block_path_inj; [done|eapply labelled_printable; eassumption|congruence].
Qed.

Lemma restart_blocks s disk baseDir l :
  synced (s, disk) -> baseDir <> [] -> listing l disk ->
  exists s', NewFileStore baseDir (Ok tt) (Entries l) = Ok s' /\ blocks s' = blocks s /\ recorded s'.
Proof.
  intros (Hr & Hl & Hd) Hb [Hdir Hp]. simpl in Hr, Hl, Hd. unfold NewFileStore, loadExisting. rewrite decide_False by done.
  eexists. split; [done|].
  destruct (load_entries s l Hl) as [Hr' Hc].
  { rewrite Forall_forall in Hdir |- *. intros e He.
    assert ((Name e, ReadFile e) ∈ (fun p => (p.1, Ok p.2)) <$> map_to_list disk) as Hin.
    { rewrite <- Hp. apply list_elem_of_fmap. by exists e. }
    apply list_elem_of_fmap in Hin as ([n x] & E & Hx%elem_of_map_to_list). injection E as E1 E2.
    apply (Hd n x) in Hx as (c & -> & Hx). exists c, x. eauto. }
  split; [|done]. apply map_eq. intros c. destruct (Hc c) as [E|[E Hn]]; [done|].
  rewrite E. destruct (blocks s !! c) as [x|] eqn:Ex; [|done]. destruct Hn.
  assert ((block_path c, Ok x) ∈ (fun e => (Name e, ReadFile e)) <$> l) as Hin.
  { rewrite Hp. apply list_elem_of_fmap. exists (block_path c, x). split; [done|].
    apply elem_of_map_to_list, Hd. eauto. }
  apply list_elem_of_fmap in Hin as (e & [= -> _] & He). apply list_elem_of_fmap. eauto.
Qed.

Lemma synced_step st st' : disk_step st st' -> synced st -> synced st'.
Proof.
  intros Hs. destruct Hs as [s disk now w b r s' disk' Hw E|s disk c Hc|s disk baseDir l s' Hb Hl E]; intros Hsy.
  - by eapply synced_put.
  - by apply synced_delete.
  - destruct (restart_blocks s disk baseDir l Hsy Hb Hl) as (s0 & E0 & Hbl & Hr).
    assert (s0 = s') as -> by congruence. destruct Hsy as (_ & Hlab & Hd).
    split; [done|]. split; intros ? ?; simpl; rewrite Hbl; [apply Hlab|apply Hd].
Qed.

Lemma synced_steps st : rtc disk_step (NewMemoryStore, ∅) st -> synced st.
Proof.
  intros Hst. eapply (rtc_ind_r synced); [|intros; by eapply synced_step|exact Hst].
  split; [split; intros c; simpl; rewrite lookup_empty; [by intros [? ?]|done]|].
  split; [by intros c x|]. intros n x. simpl. rewrite lookup_empty. naive_solver.
Qed.

(** C31: A file-backed block store survives restarts.  Start from an empty
    directory and put, delete and restart in any way, where writes may fail
    without leaving part of a file and removals succeed.  Then a start on the
    directory, listed in any order, succeeds with the very blocks the store
    had, each under the identifier of its content, with the same sizes. *)
Theorem blocks_survive_restart s disk baseDir l :
  rtc disk_step (NewMemoryStore, ∅) (s, disk) -> baseDir <> [] -> listing l disk ->
  exists s', NewFileStore baseDir (Ok tt) (Entries l) = Ok s'
    /\ (forall c, Get c s' = Get c s) /\ (forall c, Size_ c s' = Size_ c s)
    /\ forall c b, Get c s' = Ok b -> CID b = c /\ c = computeBlockCID (Data b).
Proof.
  intros Hst Hb Hl. apply synced_steps in Hst as Hsy.
  destruct (restart_blocks s disk baseDir l Hsy Hb Hl) as (s' & E & Hbl & Hr'). exists s'. split; [done|].
  destruct Hsy as (Hr & Hlab & _). simpl in Hr, Hlab. unfold Get, Size_. rewrite Hbl. split; [done|]. split.
  - intros c. destruct (blocks s !! c) as [x|] eqn:Ex.
    + destruct (proj2 Hr c x Ex) as (m & -> & ->). rewrite <- Hbl in Ex.
      by destruct (proj2 Hr' c x Ex) as (m' & -> & ->).
    + assert (forall s0, recorded s0 -> blocks s0 = blocks s -> meta s0 !! c = None) as Hno.
      { intros s0 [H0 _] E0. destruct (meta s0 !! c) eqn:Em; [|done].
        destruct (H0 c) as [y Hy]; [by eexists|]. rewrite E0 in Hy. congruence. }
      by rewrite (Hno s' Hr' Hbl), (Hno s Hr eq_refl).
  - intros c b. destruct (blocks s !! c) as [x|] eqn:Ex; [|done]. intros [= <-]. simpl.
    split; [done|]. by apply Hlab.
Qed.

End disk.

(** * The table of file metadata against its history *)

Section metadata.

Inductive fop :=
| FPut (now : Z) (m : option FileMeta) (data : bytes)
| FDelete (c : bytes).

Definition apply_fop (f : fileStore) (o : fop) : fileStore :=
  match o with
  | FPut now m data => (PutFile now m data f).2
  | FDelete c => (DeleteFile c f).2
  end.

Definition run_files (ops : list fop) : fileStore := foldl apply_fop NewFileMetadataStore ops.

(** What was put under an identifier since it was last deleted, oldest first. *)
Definition put_since (c : bytes) (h : list FileMeta) (o : fop) : list FileMeta :=
  match o with
  | FPut now (Some m) _ => if decide (fm_CID m = c) then h ++ [stamp now m] else h
  | FPut _ None _ => h
  | FDelete c' => if decide (c' = c) then [] else h
  end.

Definition puts_of (c : bytes) (ops : list fop) : list FileMeta := foldl (put_since c) [] ops.

(** The first of the highest version. *)
Definition newest (m : FileMeta) (h : list FileMeta) : Prop :=
  exists h1 h2, h = h1 ++ m :: h2
    /\ Forall (fun x => fm_Version x < fm_Version m) h1 /\ Forall (fun x => fm_Version x <= fm_Version m) h2.

Definition file_rel (c : bytes) (f : fileStore) (h : list FileMeta) : Prop :=
  match files f !! c with Some m => newest m h /\ fm_CID m = c | None => h = [] end.

Lemma newest_snoc_old m h n : newest m h -> fm_Version n <= fm_Version m -> newest m (h ++ [n]).
Proof.
  intros (h1 & h2 & -> & H1 & H2) Hn. exists h1, (h2 ++ [n]). rewrite <- app_assoc. split; [done|].
  split; [done|]. apply Forall_app. split; [done|by constructor].
Qed.

Lemma newest_snoc_new m h n : newest m h -> fm_Version m < fm_Version n -> newest n (h ++ [n]).
Proof.
  intros (h1 & h2 & -> & H1 & H2) Hn. exists (h1 ++ m :: h2), []. split; [done|]. split; [|done].
  apply Forall_app. split; [eapply Forall_impl; [exact H1|simpl; lia]|].
  constructor; [done|]. eapply Forall_impl; [exact H2|simpl; lia].
Qed.

Lemma file_rel_put c f h now m data :
  c <> [] -> file_rel c f h ->
  file_rel c (PutFile now m data f).2 (put_since c h (FPut now m data)).
Proof.
  intros Hc Hr. unfold file_rel, PutFile in *. destruct m as [m|]; simpl; [|done].
  destruct (decide (fm_CID m = [])) as [E0|_]; simpl; [rewrite decide_False by congruence; done|].
  destruct (decide (fm_CID m = c)) as [<-|Hne].
  - destruct (files f !! fm_CID m) as [old|] eqn:Eo; simpl.
    + destruct Hr as [Hr Hid]. destruct (Z.leb_spec (fm_Version m) (fm_Version old)); simpl.
      * rewrite Eo. split; [by apply newest_snoc_old|done].
      * rewrite lookup_insert_eq. split; [by eapply newest_snoc_new|done].
    + rewrite lookup_insert_eq, Hr. split; [by exists [], []|done].
  - destruct (match files f !! fm_CID m with Some existing => _ | None => _ end); simpl; [done|].
    by rewrite lookup_insert_ne.
Qed.

Lemma file_rel_delete c f h c' :
  file_rel c f h -> file_rel c (DeleteFile c' f).2 (put_since c h (FDelete c')).
Proof.
  intros Hr. unfold file_rel, DeleteFile in *. simpl. destruct (decide (c' = c)) as [->|Hne].
  - destruct (files f !! c) eqn:E; simpl; [by rewrite lookup_delete_eq|by rewrite E].
  - destruct (files f !! c') eqn:E; simpl; [by rewrite lookup_delete_ne|done].
Qed.

Lemma run_files_rel ops c : c <> [] -> file_rel c (run_files ops) (puts_of c ops).
Proof.
  intros Hc. induction ops as [|o ops IH] using rev_ind; [done|].
  unfold run_files, puts_of in *. rewrite !foldl_app. simpl.
  destruct o as [now m data|c']; [by apply file_rel_put|by apply file_rel_delete].
Qed.

(** After any puts and deletes the metadata of a file is, with the time of the
    put in place of its own, the first of the highest version put under its
    identifier since that was last deleted; and there is none exactly when
    nothing was.  [StatFile] says the same. *)
Theorem files_newest_version ops c :
  c <> [] ->
  match GetFile c (run_files ops) with
  | Ok (m, data) => newest m (puts_of c ops) /\ fm_CID m = c /\ data = [] /\ StatFile c (run_files ops) = Ok m
  | Err e => puts_of c ops = [] /\ StatFile c (run_files ops) = Err e
  end.
Proof.
  intros Hc. pose proof (run_files_rel ops c Hc) as Hr. unfold file_rel, GetFile, StatFile in *.
  destruct (files (run_files ops) !! c); naive_solver.
Qed.

Lemma files_newest_version_witness :
  fst <$> (match GetFile (str "c") (run_files [FPut 7 (Some (mkFileMeta (str "c") (str "n") 1 [] 0 0 [] 2 [])) (str "x")]) with
           | Ok r => Some r | Err _ => None end)
  = Some (mkFileMeta (str "c") (str "n") 1 [] 7 0 [] 2 [])
  /\ (match GetFile (str "c") (run_files [FPut 7 (Some (mkFileMeta (str "c") (str "n") 1 [] 0 0 [] 2 [])) (str "x")]) with
      | Ok (m, _) => fm_CID m = str "c" | Err _ => False end).
Proof.
  split; [reflexivity|].
  pose proof (files_newest_version [FPut 7 (Some (mkFileMeta (str "c") (str "n") 1 [] 0 0 [] 2 [])) (str "x")] (str "c")) as H.
  assert (str "c" <> []) as Hc by done. specialize (H Hc).
  destruct (GetFile _ _) as [[m d]|e]; [by destruct H as (_ & ? & _)|]. by destruct H as [H _].
Defined.

End metadata.

(** * Concrete runs *)

#[local] Existing Instance digest_cids.

#[local] Instance hex_text : CidText.
Proof.
  refine {| cid_String := fmtHex;
            cid_Decode := fun b => match hex_pairs b with Some c => Ok c | None => Err (ErrText "cid") end |}.
  intros d. by rewrite hex_pairs_fmtHex.
Defined.

Definition ex_block : Block := mkBlock (computeBlockCID (str "b")) (str "b").
Definition ex_name : bytes := block_path (CID ex_block).
Definition ex_listing (content : bytes) : list DirEntry := [mkEntry ex_name false (Ok content) 9].
Definition ex_base : bytes := str "/var/blocks".

Definition twice : memoryStore := (Put 2 (Some true) ex_block (Put 1 (Some true) ex_block NewMemoryStore).2).2.

(** The reference counts are not on disk: a block that was put twice survives
    one delete, and after a restart it does not. *)
Lemma restart_forgets_counts :
  Has (CID ex_block) (Delete (CID ex_block) twice) = true
  /\ match NewFileStore ex_base (Ok tt) (Entries (ex_listing (str "b"))) with
     | Ok s => Has (CID ex_block) s = true /\ Has (CID ex_block) (Delete (CID ex_block) s) = false
     | Err _ => False
     end.
Proof. vm_compute. repeat split. Qed.

Definition zstd_block : Block :=
  let d := [Byte.x28; Byte.xb5; Byte.x2f; Byte.xfd; Byte.x00] in mkBlock (computeBlockCID d) d.

(** Nor is the mark of compressed blocks: it is set by a put and not by the
    loading of the same file. *)
Lemma restart_forgets_compression :
  Compressed <$> meta (Put 1 (Some true) zstd_block NewMemoryStore).2 !! CID zstd_block = Some true
  /\ Compressed <$> meta (load_entry NewMemoryStore (mkEntry (block_path (CID zstd_block)) false (Ok (Data zstd_block)) 9))
       !! CID zstd_block = Some false.
Proof. split; vm_compute; reflexivity. Qed.

(** A write that fails half-way leaves part of the file: the put is refused,
    and after a restart the part is served under the identifier of the whole. *)
Lemma partial_write_served :
  let d := str "bb" in
  let b := mkBlock (computeBlockCID d) d in
  match Put_disk 1 (WriteErr (Some (str "b"))) b NewMemoryStore ∅ with
  | (Err _, s, disk) =>
      Has (CID b) s = false /\ disk !! block_path (CID b) = Some (str "b")
      /\ match NewFileStore ex_base (Ok tt) (Entries [mkEntry (block_path (CID b)) false (Ok (str "b")) 9]) with
         | Ok s' => Get (CID b) s' = Ok (mkBlock (CID b) (str "b")) /\ computeBlockCID (str "b") <> CID b
         | Err _ => False
         end
  | _ => False
  end.
Proof. vm_compute. repeat split. intros E. by apply (f_equal (take 5)) in E. Qed.

Definition child (c : string) (v : Z) : FileMeta := mkFileMeta (str c) [] 0 [] 0 0 [] v (str "p").

(** [VersionFile] is the child stored last, not the one of the highest
    version, and a child that was deleted is still found. *)
Lemma version_file_last_stored :
  let f := (PutFile 2 (Some (child "y" 3)) [] (PutFile 1 (Some (child "x" 5)) [] NewFileMetadataStore).2).2 in
  VersionFile (str "p") f = Ok (stamp 2 (child "y" 3))
  /\ (DeleteFile (str "y") f).1 = Ok tt
  /\ StatFile (str "y") (DeleteFile (str "y") f).2 = Err (ErrText "file not found")
  /\ VersionFile (str "p") (DeleteFile (str "y") f).2 = Ok (stamp 2 (child "y" 3)).
Proof. vm_compute. repeat split. Qed.

(** The content given to [PutFile] is dropped. *)
Lemma put_file_drops_content m data f now :
  (PutFile now m data f) = PutFile now m [] f.
Proof. done. Qed.

Definition ex_run : memoryStore * gmap bytes bytes :=
  let x := Put_disk 1 Written ex_block NewMemoryStore ∅ in (x.1.2, x.2).

Lemma ex_run_disk : listing (ex_listing (str "b")) ex_run.2.
Proof. split; [by constructor|]. vm_compute. reflexivity. Qed.

Lemma blocks_survive_restart_witness :
  match NewFileStore ex_base (Ok tt) (Entries (ex_listing (str "b"))) with
  | Ok s => Get (CID ex_block) s = Ok ex_block
  | Err _ => False
  end.
Proof.
  assert (rtc disk_step (NewMemoryStore, ∅) (ex_run.1, ex_run.2)) as Hst.
  { eapply rtc_once, (step_put NewMemoryStore ∅ 1 Written ex_block (Put_disk 1 Written ex_block NewMemoryStore ∅).1.1); [done|].
    unfold ex_run. by destruct (Put_disk _ _ _ _ _) as [[? ?] ?]. }
  assert (ex_base <> []) as Hb by done.
  destruct (blocks_survive_restart ex_run.1 ex_run.2 ex_base (ex_listing (str "b")) Hst Hb ex_run_disk)
    as (s' & E & Hget & _ & _).
  rewrite E, Hget. vm_compute. reflexivity.
Defined.
