(* ===== verification/NatTraversal.v ===== *)
(** * Reaching peers behind a NAT

    pkg/nat/nat.go: the UPnP client, from the answers to its search to the
    requests for port mappings, and the circuits over relays
    ([CircuitRelay]); pkg/transport/nat.go: detection, hole punching and the
    query for the own address.

    Sockets and HTTP are outcomes: what was read, what a request returned.
    The order in which the map of relays is visited is an argument that may be
    any permutation, which also stands for the instability of [sort.Slice]. *)

From Stdlib Require Import Floats.SpecFloat.
From S2P Require Import Prelude Bytes Decimal Float Text Federation Quic.

Local Open Scope Z_scope.

(** ** Quoted text: an apostrophe stands for a quotation mark *)

Definition strq (s : string) : bytes := (fun b => if decide (b = Byte.x27) then Byte.x22 else b) <$> str s.

(** ** The UPnP client *)

Record UPnPClient := mkUPnP { ctrlURL : bytes; svcType : bytes; available : bool }.

Definition NewUPnPClient : UPnPClient := mkUPnP [] [] false.

(** [strings.ToLower] is only compared with a lower-case key.  An answer has at
    most 2048 bytes, so no line is too long for the scanner. *)
Fixpoint find_header (key : bytes) (lines : list bytes) : bytes :=
  match lines with
  | [] => []
  | line :: lines =>
      if HasPrefix (ToLower line) (ToLower key ++ str ":") then TrimSpace (drop (length key + 1) line)
      else find_header key lines
  end.

Definition extractHeader (resp key : bytes) : bytes :=
  match scan_lines resp with Ok lines => find_header key lines | Err _ => [] end.

Definition found_location (resp : bytes) : option bytes :=
  if Contains resp (str "upnp:rootdevice") then
    let location := extractHeader resp (str "Location") in
    if decide (location = []) then None else Some location
  else None.

(** [setup] is the outcome of opening the socket and sending the search,
    [reads] the answers up to the first error. *)
Fixpoint discover_loop (reads : list bytes) (c : UPnPClient) : result unit * UPnPClient :=
  match reads with
  | [] => (Err (ErrText "no UPnP device found"), c)
  | resp :: reads =>
      match found_location resp with
      | Some location => (Ok tt, mkUPnP location (svcType c) true)
      | None => discover_loop reads c
      end
  end.

Definition Discover (setup : result unit) (reads : list bytes) (c : UPnPClient) : result unit * UPnPClient :=
  match setup with
  | Err e => (Err e, c)
  | Ok _ => discover_loop reads c
  end.

Record SoapRequest := mkSoap { soap_url : bytes; soap_action : bytes; soap_body : bytes }.

Definition UPnPAddPortMap : bytes := str "AddPortMapping".
Definition UPnPDeletePortMap : bytes := str "DeletePortMapping".

Definition soap_head (action : bytes) : bytes :=
  strq "<?xml version='1.0'?>
<s:Envelope xmlns:s='http://schemas.xmlsoap.org/soap/envelope/' s:encodingStyle='http://schemas.xmlsoap.org/soap/encoding/'>
<s:Body><u:" ++ action ++ strq " xmlns:u='urn:schemas-upnp-org:service:WANIPConnection:1'>
<NewRemoteHost></NewRemoteHost>
<NewExternalPort>".

Definition add_body (externalPort internalPort : Z) (protocol : bytes) (leaseDuration : Z) : bytes :=
  soap_head UPnPAddPortMap ++ dec externalPort ++ str "</NewExternalPort>
<NewProtocol>" ++ protocol ++ str "</NewProtocol>
<NewInternalPort>" ++ dec internalPort ++ str "</NewInternalPort>
<NewInternalClient></NewInternalClient>
<NewEnabled>1</NewEnabled>
<NewPortMappingDescription>LocalWEB</NewPortMappingDescription>
<NewLeaseDuration>" ++ dec leaseDuration ++ str "</NewLeaseDuration>
</u:" ++ UPnPAddPortMap ++ str "></s:Body></s:Envelope>".

Definition delete_body (externalPort : Z) (protocol : bytes) : bytes :=
  soap_head UPnPDeletePortMap ++ dec externalPort ++ str "</NewExternalPort>
<NewProtocol>" ++ protocol ++ str "</NewProtocol>
</u:" ++ UPnPDeletePortMap ++ str "></s:Body></s:Envelope>".

Definition soap_action_of (action : bytes) : bytes :=
  strq "'urn:schemas-upnp-org:service:WANIPConnection:1#" ++ action ++ strq "'".

Section http.
(** Whether [http.NewRequest] accepts an address, and what the server answers:
    an error or a status. *)
Context (url_ok : bytes -> bool) (do_request : SoapRequest -> result Z).

(** The error of [NewRequest] is dropped and the request used: with an address
    it refuses the call panics ([None]). *)
Definition post_soap (action body : bytes) (c : UPnPClient) : option (result unit) :=
  if url_ok (ctrlURL c) then
    match do_request (mkSoap (ctrlURL c) (soap_action_of action) body) with
    | Err e => Some (Err e)
    | Ok status => Some (Ok tt)
    end
  else None.

Definition AddPortMapping (externalPort internalPort : Z) (protocol : bytes) (leaseDuration : Z) (c : UPnPClient)
    : option (result unit) :=
  if negb (available c) || bool_decide (ctrlURL c = []) then Some (Err (ErrText "UPnP not available"))
  else post_soap UPnPAddPortMap (add_body externalPort internalPort protocol leaseDuration) c.

Definition DeletePortMapping (externalPort : Z) (protocol : bytes) (c : UPnPClient) : option (result unit) :=
  if negb (available c) || bool_decide (ctrlURL c = []) then Some (Err (ErrText "UPnP not available"))
  else post_soap UPnPDeletePortMap (delete_body externalPort protocol) c.
End http.

Definition WANIPConnection : bytes := str "urn:schemas-upnp-org:service:WANIPConnection:1".

(** [desc] is the outcome of fetching and decoding the description: the types
    and control addresses of the services it lists. *)
Definition fetchDescription (desc : result (list (bytes * bytes))) (c : UPnPClient) : result unit * UPnPClient :=
  match desc with
  | Err e => (Err e, c)
  | Ok services =>
      match list_find (fun s => s.1 = WANIPConnection) services with
      | Some (_, svc) => (Ok tt, mkUPnP (ctrlURL c) svc.1 (available c))
      | None => (Err (ErrText "WANIPConnection service not found"), c)
      end
  end.

(** ** Circuits over relays *)

Record RelayNode := mkRelayNode { ID : bytes; Addr : bytes; Capacity : Z; Load : float64; Score : float64 }.

Record Circuit := mkCircuit { circuit_ID : bytes; Hops : list bytes; Created : Z }.

Record CircuitRelay := mkCircuitRelay { nodes : gmap bytes RelayNode; circles : gmap bytes Circuit }.

Definition NewCircuitRelay : CircuitRelay := mkCircuitRelay ∅ ∅.

Definition RegisterNode (node : RelayNode) (r : CircuitRelay) : CircuitRelay :=
  mkCircuitRelay (<[ID node := node]> (nodes r)) (circles r).

Definition usable (n : RelayNode) : bool := f64_lt f64_half (Score n) && f64_lt (Load n) (f64_of_Z (Capacity n)).

(** The order of the sort: not below. *)
Definition score_ge (a b : RelayNode) : Prop := f64_lt (Score a) (Score b) = false.

#[global] Instance score_ge_dec : RelDecision score_ge.
Proof. intros a b. unfold score_ge. apply _. Defined.

(** [None] is the panic of a slice expression with a negative bound. *)
Definition SelectRelay (order : list RelayNode) (requiredHops : Z) (r : CircuitRelay)
    : option (result (list RelayNode)) :=
  let candidates := filter (fun n => usable n = true) order in
  let n := Z.of_nat (length candidates) in
  if n <? requiredHops then Some (Err (ErrText "insufficient relays")) else
  let sorted := merge_sort score_ge candidates in
  if requiredHops <? n then
    if requiredHops <? 0 then None else Some (Ok (take (Z.to_nat requiredHops) sorted))
  else Some (Ok sorted).

Definition circuit_id (src dst : bytes) : bytes := fmtHex (take 8 src) ++ str "-" ++ fmtHex (take 8 dst).

Definition EstablishCircuit (order : list RelayNode) (now : Z) (src dst : bytes) (hops : Z) (r : CircuitRelay)
    : option (result Circuit * CircuitRelay) :=
  match SelectRelay order hops r with
  | None => None
  | Some (Err e) => Some (Err e, r)
  | Some (Ok relays) =>
      let circuit := mkCircuit (circuit_id src dst) (ID <$> relays) now in
      Some (Ok circuit, mkCircuitRelay (nodes r) (<[circuit_ID circuit := circuit]> (circles r)))
  end.

Definition RelayPacket (circuitID payload : bytes) (hopIndex : Z) (r : CircuitRelay) : result bytes :=
  match circles r !! circuitID with
  | None => Err (ErrText "circuit not found")
  | Some circuit =>
      if (hopIndex <? 0) || (Z.of_nat (length (Hops circuit)) <=? hopIndex) then Err (ErrText "invalid hop index")
      else Ok (str "relayed via hop " ++ dec hopIndex)
  end.

(** ** pkg/transport/nat.go *)

Inductive NATType := NatUnknown | NatNone | NatFullCone | NatRestrictedCone | NatPortRestricted | NatSymmetric.

Definition NATType_String (n : NATType) : bytes :=
  match n with
  | NatNone => str "none"
  | NatFullCone => str "full-cone"
  | NatRestrictedCone => str "restricted-cone"
  | NatPortRestricted => str "port-restricted"
  | NatSymmetric => str "symmetric"
  | NatUnknown => str "unknown"
  end.

(** [IP.IsPrivate]: RFC 1918 for four bytes (also mapped into sixteen), RFC
    4193 for sixteen. *)
Definition v4_of (ip : bytes) : option bytes :=
  if decide (length ip = 4%nat) then Some ip else
  if decide (length ip = 16%nat /\ take 12 ip = zeroes 10 ++ [Byte.xff; Byte.xff]) then Some (drop 12 ip) else None.

Definition IsPrivate (ip : bytes) : bool :=
  match v4_of ip with
  | Some v4 =>
      let a := u8 (nth 0 v4 Byte.x00) in
      let b := u8 (nth 1 v4 Byte.x00) in
      (a =? 10) || ((a =? 172) && (Z.land b 240 =? 16)) || ((a =? 192) && (b =? 168))
  | None => (length ip =? 16)%nat && (Z.land (u8 (nth 0 ip Byte.x00)) 254 =? 252)
  end.

(** [localIP] is [None] for a nil address. *)
Definition DetectNAT (stunPeers : list bytes) (localIP : option bytes) : NATType :=
  if decide (stunPeers = []) then NatUnknown else
  match localIP with
  | Some ip => if IsPrivate ip then NatRestrictedCone else NatNone
  | None => NatNone
  end.

Definition MsgPing : Z := 1.

Definition burst_of (attempts : Z) : nat := if 0 <? attempts then Z.to_nat attempts else 5.

(** The pings sent, up to the first write that fails. *)
Fixpoint send_burst (n : nat) (writes : list (result unit)) : list bytes * result unit :=
  match n with
  | O => ([], Ok tt)
  | S n =>
      match writes with
      | Err e :: _ => ([], Err e)
      | _ =>
          let '(sent, r) := send_burst n (tail writes) in
          (EncodeFrameBare MsgPing (str "localweb-holepunch") :: sent, r)
      end
  end.

Definition HolePunch (dial : result unit) (writes : list (result unit)) (answer : result bytes) (attempts : Z)
    : list bytes * result unit :=
  match dial with
  | Err e => ([], Err e)
  | Ok _ =>
      let '(sent, r) := send_burst (burst_of attempts) writes in
      (sent, match r with
             | Err e => Err e
             | Ok _ => match answer with Err _ => Err (ErrText "hole punch failed") | Ok _ => Ok tt end
             end)
  end.

Definition DeterminePublicAddress (dial write : result unit) (answer : result bytes) : result (bytes * Z) :=
  match dial with
  | Err e => Err e
  | Ok _ =>
      match write with
      | Err e => Err e
      | Ok _ =>
          match answer with
          | Err e => Err e
          | Ok buf => if len buf <? 6 then Err (ErrText "short response")
                      else Ok (take 4 buf, be_get (take 2 (drop 4 buf)))
          end
      end
  end.

(** The request of a mapping: the answer is the port asked for. *)
Definition map_port (port : Z) : result Z := Ok port.

(** * Selection of relays *)

(** On lists whose elements have comparable scores, sorted by neighbours is
    sorted throughout. *)
Lemma Sorted_StronglySorted_on {A} (R : A -> A -> Prop) (P : A -> Prop) l :
  (forall a b c, P b -> R a b -> R b c -> R a c) -> Forall P l -> Sorted R l -> StronglySorted R l.
Proof.
  intros Ht Hp. induction 1 as [|a l Hs IH Hh]; [constructor|].
  apply Forall_cons in Hp as [Ha Hp]. specialize (IH Hp). constructor; [done|].
  destruct Hh as [|b l Hab]; [done|]. constructor; [done|].
  apply StronglySorted_cons in IH as [Hb _]. apply Forall_cons in Hp as [Pb _].
  eapply Forall_impl; [exact Hb|]. intros c. by apply Ht.
Qed.

Lemma usable_score n : usable n = true -> f64_is_nan (Score n) = false.
Proof. unfold usable. intros [H _]%andb_true_iff. by destruct (Score n). Qed.

#[global] Instance score_ge_total : Total score_ge.
Proof.
  intros a b. unfold score_ge. destruct (f64_lt (Score a) (Score b)) eqn:E; [|by left].
  right. by apply f64_lt_asym.
Qed.

Lemma sorted_candidates order :
  let l := merge_sort score_ge (filter (fun n => usable n = true) order) in
  l ≡ₚ filter (fun n => usable n = true) order /\ StronglySorted score_ge l.
Proof.
  simpl. set (c := filter _ order). assert (merge_sort score_ge c ≡ₚ c) as Hp by apply merge_sort_Permutation.
  split; [done|]. apply (Sorted_StronglySorted_on _ (fun n => f64_is_nan (Score n) = false)).
  - intros x y z. apply f64_ge_trans.
  - rewrite Hp. apply Forall_forall. intros n [Hn _]%list_elem_of_filter. by apply usable_score.
  - apply Sorted_merge_sort, _.
Qed.

Lemma StronglySorted_split {A} (R : A -> A -> Prop) k l :
  StronglySorted R l -> StronglySorted R (take k l) /\ forall x y, x ∈ take k l -> y ∈ drop k l -> R x y.
Proof.
  intros Hs. revert k. induction Hs as [|a l Hs IH Ha]; intros [|k]; simpl; try (split; [constructor|set_solver]).
  destruct (IH k) as [H1 H2]. rewrite Forall_forall in Ha. split.
  - constructor; [done|]. apply Forall_forall. intros x Hx. apply Ha. rewrite <- (take_drop k l). set_solver.
  - intros x y [->|Hx]%elem_of_cons Hy; [|by apply H2]. apply Ha. rewrite <- (take_drop k l). set_solver.
Qed.

(** What registering any nodes leaves: the last of each identifier. *)
Definition keyed (r : CircuitRelay) : Prop := forall i n, nodes r !! i = Some n -> ID n = i.

Lemma keyed_register n r : keyed r -> keyed (RegisterNode n r).
Proof.
  intros Hk i m. simpl. destruct (decide (ID n = i)) as [<-|Hne];
    [rewrite lookup_insert_eq; by intros [= ->]|rewrite lookup_insert_ne by done; apply Hk].
Qed.

Lemma keyed_run ns : keyed (foldl (fun r n => RegisterNode n r) NewCircuitRelay ns).
Proof.
  induction ns as [|n ns IH] using rev_ind; [by intros i n|]. rewrite foldl_app. by apply keyed_register.
Qed.

(** The relays in some order of the map. *)
Definition visits (order : list RelayNode) (r : CircuitRelay) : Prop := order ≡ₚ (map_to_list (nodes r)).*2.

Lemma visits_ids order r : keyed r -> visits order r -> NoDup (ID <$> order).
Proof.
  intros Hk Hv. rewrite Hv. assert (ID <$> (map_to_list (nodes r)).*2 = (map_to_list (nodes r)).*1) as ->.
  { rewrite <- list_fmap_compose. apply list_fmap_ext. intros i [k n] Hin. simpl.
    apply Hk. apply elem_of_map_to_list. by eapply list_elem_of_lookup_2. }
  apply NoDup_fst_map_to_list.
Qed.

Lemma visits_elem order r n : visits order r -> n ∈ order <-> exists i, nodes r !! i = Some n.
Proof.
  intros Hv. rewrite Hv, list_elem_of_fmap. split.
  - intros ([i m] & -> & Hin). exists i. by apply elem_of_map_to_list.
  - intros (i & Hi). exists (i, n). split; [done|]. by apply elem_of_map_to_list.
Qed.

(** Selecting relays for a number of hops that is not negative, after any
    registrations and in any order of the map: it fails exactly when fewer
    relays can be used (a score above one half and room left), and otherwise
    gives as many distinct ones as asked for, all registered and usable, in
    descending order of score, none of them below one that was left out. *)
Theorem relay_selection ns order hops :
  let r := foldl (fun r n => RegisterNode n r) NewCircuitRelay ns in
  let can := filter (fun n => usable n = true) order in
  visits order r -> 0 <= hops ->
  if Z.of_nat (length can) <? hops then SelectRelay order hops r = Some (Err (ErrText "insufficient relays"))
  else exists l, SelectRelay order hops r = Some (Ok l)
    /\ Z.of_nat (length l) = hops /\ NoDup (ID <$> l) /\ StronglySorted score_ge l
    /\ (forall n, n ∈ l -> nodes r !! ID n = Some n /\ usable n = true)
    /\ (forall i n, nodes r !! i = Some n -> usable n = true -> n ∈ l \/ forall m, m ∈ l -> score_ge m n).
Proof.
  intros r can Hv Hh. pose proof (keyed_run ns) as Hk. fold r in Hk. unfold SelectRelay. fold can.
  destruct (Z.ltb_spec (Z.of_nat (length can)) hops) as [|Hn]; [done|].
  destruct (sorted_candidates order) as [Hp Hs]. fold can in Hp, Hs. set (L := merge_sort score_ge can) in *.
  assert (length L = length can) as Hlen by by rewrite Hp.
  exists (take (Z.to_nat hops) L). split.
  { destruct (Z.ltb_spec hops (Z.of_nat (length can))).
    - rewrite (proj2 (Z.ltb_ge hops 0)) by done. done.
    - by rewrite take_ge by lia. }
  destruct (StronglySorted_split score_ge (Z.to_nat hops) L Hs) as [Ht Hd].
  assert (NoDup (ID <$> L)) as HndL.
  { rewrite Hp. eapply sublist_NoDup; [apply (visits_ids order r Hk Hv)|]. apply fmap_sublist, sublist_filter. }
  assert (forall n, n ∈ L <-> usable n = true /\ exists i, nodes r !! i = Some n) as Hin.
  { intros n. rewrite Hp. unfold can. by rewrite list_elem_of_filter, (visits_elem order r n Hv). }
  split; [rewrite length_take, Hlen; lia|]. split.
  { rewrite <- (take_drop (Z.to_nat hops) L), fmap_app in HndL. by apply NoDup_app in HndL as [? _]. }
  split; [done|]. split.
  - intros n Hnl. assert (n ∈ L) as [Hu (i & Hi)]%Hin by (rewrite <- (take_drop (Z.to_nat hops) L); set_solver).
    split; [|done]. by rewrite (Hk i n Hi).
  - intros i n Hi Hu. assert (n ∈ L) as HnL by (apply Hin; eauto).
    rewrite <- (take_drop (Z.to_nat hops) L) in HnL. apply elem_of_app in HnL as [?|Hdr]; [by left|].
    right. intros m Hm. by apply Hd.
Qed.

(** A circuit over usable relays is found under its identifier and passes
    packets at each of its hops, and at no other. *)
Lemma circuit_passes order now src dst hops r c r' payload i :
  EstablishCircuit order now src dst hops r = Some (Ok c, r') ->
  circuit_ID c = circuit_id src dst
  /\ RelayPacket (circuit_ID c) payload i r'
     = if decide (0 <= i < Z.of_nat (length (Hops c))) then Ok (str "relayed via hop " ++ dec i)
       else Err (ErrText "invalid hop index").
Proof.
  unfold EstablishCircuit. destruct (SelectRelay order hops r) as [[l|e]|]; [|done..]. intros [= <- <-].
  split; [done|]. unfold RelayPacket. cbn [circles circuit_ID]. rewrite lookup_insert_eq. cbn [Hops].
  destruct (Z.ltb_spec i 0); simpl; [by rewrite decide_False by lia|].
  destruct (Z.leb_spec (Z.of_nat (length (ID <$> l))) i); simpl;
    [by rewrite decide_False by lia|by rewrite decide_True by lia].
Qed.

(** * The answer to a search *)

(** Lines that end in CR LF are the lines of the scanner. *)
Definition lines_crlf (ls : list bytes) : bytes := concat ((fun l => l ++ crlf) <$> ls).

Lemma Split_lines_crlf ls :
  Forall (fun l => Byte.x0a ∉ l) ls ->
  Split Byte.x0a (lines_crlf ls) = ((fun l => l ++ [Byte.x0d]) <$> ls) ++ [[]].
Proof.
  induction 1 as [|l ls Hl _ IH]; [done|]. unfold lines_crlf in *. cbn [fmap list_fmap concat app].
  unfold crlf at 1. replace ((l ++ [Byte.x0d; Byte.x0a]) ++ concat ((fun l => l ++ crlf) <$> ls))
    with ((l ++ [Byte.x0d]) ++ Byte.x0a :: concat ((fun l => l ++ crlf) <$> ls)) by (by rewrite <- !app_assoc).
  rewrite Split_cons; [by f_equal|]. rewrite elem_of_app. set_solver.
Qed.

Lemma drop_cr_app l : drop_cr (l ++ [Byte.x0d]) = l.
Proof. unfold drop_cr. rewrite reverse_snoc. apply reverse_involutive. Qed.

Lemma scan_lines_crlf ls :
  Forall (fun l => Byte.x0a ∉ l /\ len l < MaxScanTokenSize - 1) ls -> scan_lines (lines_crlf ls) = Ok ls.
Proof.
  intros Hf. unfold scan_lines. rewrite Split_lines_crlf by (eapply Forall_impl; [exact Hf|by intros l []]).
  rewrite last_snoc. rewrite (decide_True _ _ eq_refl). rewrite removelast_last. rewrite decide_False.
  - f_equal. rewrite <- list_fmap_compose. rewrite <- (list_fmap_id ls) at 2. apply list_fmap_ext.
    intros i l _. apply drop_cr_app.
  - rewrite Exists_exists. intros (x & (l & -> & Hl)%list_elem_of_fmap & Hx).
    rewrite Forall_forall in Hf. destruct (Hf l Hl) as [_ Hlen]. rewrite len_app in Hx.
    change (len [Byte.x0d]) with 1 in Hx. lia.
Qed.

Lemma length_ToLower s : length (ToLower s) = length s.
Proof. apply length_fmap. Qed.

(** The header is found whatever its case, behind lines that are not it. *)
Lemma extractHeader_found key name v before after :
  ToLower name = ToLower key ->
  Forall (fun l => HasPrefix (ToLower l) (ToLower key ++ str ":") = false) before ->
  Forall (fun l => Byte.x0a ∉ l /\ len l < MaxScanTokenSize - 1) (before ++ (name ++ str ":" ++ v) :: after) ->
  extractHeader (lines_crlf (before ++ (name ++ str ":" ++ v) :: after)) key = TrimSpace v.
Proof.
  intros Hk Hb Hf. unfold extractHeader. rewrite scan_lines_crlf by done.
  assert (length name = length key) as Hlen by (by rewrite <- (length_ToLower name), Hk, length_ToLower).
  induction Hb as [|l before Hl Hb IH]; cbn [app find_header].
  - assert (ToLower (name ++ str ":" ++ v) = (ToLower key ++ str ":") ++ ToLower v) as Hlow.
    { rewrite <- Hk. unfold ToLower. rewrite !fmap_app, <- app_assoc. reflexivity. }
    rewrite (proj2 (HasPrefix_true (ToLower (name ++ str ":" ++ v)) (ToLower key ++ str ":"))) by (by eexists).
    f_equal. rewrite app_assoc. apply drop_app_length'. rewrite length_app. simpl. lia.
  - rewrite Hl. apply IH. by apply Forall_cons in Hf as [_ Hf].
Qed.

(** A search that succeeds has an address; one that fails changes nothing. *)
Lemma Discover_outcome setup reads c :
  match Discover setup reads c with
  | (Ok _, c') => exists resp, resp ∈ reads /\ found_location resp = Some (ctrlURL c')
                    /\ available c' = true /\ ctrlURL c' <> [] /\ svcType c' = svcType c
  | (Err _, c') => c' = c
  end.
Proof.
  unfold Discover. destruct setup; [|done]. induction reads as [|resp reads IH]; simpl; [done|].
  destruct (found_location resp) as [location|] eqn:E.
  - exists resp. split; [by left|]. cbn [ctrlURL available svcType]. split; [done|]. split; [done|]. split; [|done].
    unfold found_location in E. destruct (Contains resp _); [|done]. case_decide; congruence.
  - destruct (discover_loop reads c) as [[u|e] c']; [|done]. destruct IH as (r & Hr & ?). exists r.
    split; [by right|done].
Qed.

(** * Concrete runs *)

Definition relay_of (i : byte) (score : float64) : RelayNode :=
  mkRelayNode (i :: zeroes 31) [] 10 (f64_of_Z 1) score.
Definition f64_of_tenths (n : Z) : float64 := f64_div (f64_of_Z n) (f64_of_Z 10).
Definition ex_relays : list RelayNode :=
  [relay_of Byte.x01 (f64_of_tenths 7); relay_of Byte.x02 (f64_of_tenths 9); relay_of Byte.x03 (f64_of_tenths 5)].
Definition ex_relay : CircuitRelay := foldl (fun r n => RegisterNode n r) NewCircuitRelay ex_relays.
Definition ex_order : list RelayNode := (map_to_list (nodes ex_relay)).*2.

Lemma relay_selection_witness :
  exists l, SelectRelay ex_order 2 ex_relay = Some (Ok l) /\ Z.of_nat (length l) = 2 /\ NoDup (ID <$> l).
Proof.
  assert (visits ex_order ex_relay) as Hv by (unfold visits, ex_order; reflexivity). assert (0 <= 2) as H2 by lia.
  pose proof (relay_selection ex_relays ex_order 2 Hv H2) as H.
  assert ((Z.of_nat (length (filter (fun n => usable n = true) ex_order)) <? 2) = false) as Hc by (vm_compute; reflexivity).
  cbv zeta in H. rewrite Hc in H. destruct H as (l & E & Hl & Hn & _). exists l. split; [exact E|]. by split.
Defined.

(** A negative number of hops panics. *)
Lemma select_negative_panics : SelectRelay ex_order (-1) ex_relay = None.
Proof. vm_compute. reflexivity. Qed.

(** Circuits are told apart by the first eight bytes of their ends: a second
    circuit between identifiers that agree there takes the place of the first. *)
Lemma circuit_replaced order order' now now' src dst src' dst' hops hops' r c r1 c' r2 :
  take 8 src = take 8 src' -> take 8 dst = take 8 dst' ->
  EstablishCircuit order now src dst hops r = Some (Ok c, r1) ->
  EstablishCircuit order' now' src' dst' hops' r1 = Some (Ok c', r2) ->
  circles r2 !! circuit_ID c = Some c'.
Proof.
  intros Hs Hd. unfold EstablishCircuit.
  destruct (SelectRelay order hops r) as [[l|e]|]; [|done..]. intros [= <- <-].
  destruct (SelectRelay order' hops' _) as [[l'|e]|]; [|done..]. intros [= <- <-].
  cbn [circles circuit_ID]. unfold circuit_id. rewrite Hs, Hd. apply lookup_insert_eq.
Qed.

(** The payload of a packet is not passed on. *)
Lemma relay_drops_payload circuitID payload i r : RelayPacket circuitID payload i r = RelayPacket circuitID [] i r.
Proof. done. Qed.

(** A mapping that the router refuses is reported as made. *)
Lemma mapping_status_ignored c url_ok ext int proto lease status :
  available c = true -> ctrlURL c <> [] -> url_ok (ctrlURL c) = true ->
  AddPortMapping url_ok (fun _ => Ok status) ext int proto lease c = Some (Ok tt).
Proof.
  intros Ha Hc Hu. unfold AddPortMapping, post_soap. rewrite Ha, Hu, bool_decide_false by done. done.
Qed.

(** The address of the answer to the search is used as it came: one that
    [http.NewRequest] refuses makes the next call panic. *)
Lemma mapping_bad_address_panics c url_ok do_request ext int proto lease :
  available c = true -> ctrlURL c <> [] -> url_ok (ctrlURL c) = false ->
  AddPortMapping url_ok do_request ext int proto lease c = None.
Proof.
  intros Ha Hc Hu. unfold AddPortMapping, post_soap. rewrite Ha, Hu, bool_decide_false by done. done.
Qed.

(** The request goes to the address of the description, not to the control
    address of the service, which [fetchDescription] does not keep either. *)
Lemma mapping_posted_to_description c setup reads url_ok status ext int proto lease desc :
  (Discover setup reads c).1 = Ok tt ->
  let c' := (Discover setup reads c).2 in
  let seen := fun r => if decide (soap_url r = ctrlURL c') then Ok status else Err EOF in
  url_ok (ctrlURL c') = true ->
  AddPortMapping url_ok seen ext int proto lease c' = Some (Ok tt)
  /\ ctrlURL (fetchDescription desc c').2 = ctrlURL c'.
Proof.
  intros HD c' seen Hu. assert (available c' = true /\ ctrlURL c' <> []) as [Ha Hne].
  { pose proof (Discover_outcome setup reads c) as H. unfold c'.
    destruct (Discover setup reads c) as [[[]|e] c0]; [|done]. naive_solver. }
  split.
  - unfold AddPortMapping, post_soap. rewrite Ha, Hu, bool_decide_false by done. cbn [negb orb].
    unfold seen. by rewrite decide_True.
  - unfold fetchDescription. destruct desc as [l|e]; [|done]. by destruct (list_find _ l) as [[? ?]|].
Qed.

(** Of six types the detection gives three, by the own address alone. *)
Lemma detect_by_own_address peers ip :
  peers <> [] -> DetectNAT peers (Some ip) = if IsPrivate ip then NatRestrictedCone else NatNone.
Proof. intros H. unfold DetectNAT. by rewrite decide_False. Qed.

(** A punched hole has seen as many pings as asked for, or five, each of them
    a frame that decodes. *)
Lemma hole_punch_burst writes answer attempts sent :
  HolePunch (Ok tt) writes answer attempts = (sent, Ok tt) ->
  length sent = burst_of attempts
  /\ Forall (fun f => DecodeFrameBare f = Ok (mkFrame MsgPing 18 (str "localweb-holepunch"))) sent.
Proof.
  unfold HolePunch. destruct (send_burst (burst_of attempts) writes) as [s r] eqn:E. intros H. injection H as -> Hr.
  destruct r as [[]|e]; [|done]. clear Hr. generalize dependent sent. revert writes.
  generalize (burst_of attempts) as n. induction n as [|n IH]; intros writes sent E; cbn [send_burst] in E.
  { injection E as <-. by split. }
  assert (forall k, (let '(sent, r) := k in (EncodeFrameBare MsgPing (str "localweb-holepunch") :: sent, r)) = (sent, Ok tt) ->
    exists sent', k = (sent', Ok tt) /\ sent = EncodeFrameBare MsgPing (str "localweb-holepunch") :: sent') as Hk.
  { intros [s r] [= <- ->]. eauto. }
  destruct writes as [|[[]|e] writes]; [| |done]; apply Hk in E as (sent' & E & ->);
    apply IH in E as [Hl Hf]; (split; [simpl; by f_equal|]); constructor; try done; vm_compute; reflexivity.
Qed.

Lemma detect_examples :
  DetectNAT [str "p"] (Some [Byte.xc0; Byte.xa8; Byte.x01; Byte.x02]) = NatRestrictedCone
  /\ DetectNAT [str "p"] (Some [Byte.x08; Byte.x08; Byte.x08; Byte.x08]) = NatNone
  /\ DetectNAT [] (Some [Byte.x08; Byte.x08; Byte.x08; Byte.x08]) = NatUnknown.
Proof. vm_compute. repeat split. Qed.

Lemma found_location_example :
  found_location (lines_crlf [str "HTTP/1.1 200 OK"; str "ST: upnp:rootdevice"; str "LOCATION: http://10.0.0.1/d.xml"; []])
  = Some (str "http://10.0.0.1/d.xml").
Proof. vm_compute. reflexivity. Qed.
