(* ===== verification/Distribute.v ===== *)
(** * Packages over the DHT (pkg/services/registry/distribute.go)

    The distributor of the package registry: a cache of metadata in front of
    the client operations of the DHT.  JSON is an interface, and [order] is the
    range over the cache.  [None] is the run-time panic of [Store].  The log is
    left out, and so is the ticker around a round. *)

From S2P Require Import Prelude Bytes Hash Bits Float Text Federation Base64 NodeId Routing DhtWire DhtNode DhtProps DhtClient DhtLookup DhtNet Registry.
Local Open Scope Z_scope.

(** The alias of the source: times as nanoseconds of the Unix time. *)
Record MetaAlias := mkAlias {
  al_ID : bytes;
  al_Name : bytes;
  al_Version : bytes;
  al_Description : bytes;
  al_Author : bytes;
  al_Platform : list bytes;
  al_Entry : bytes;
  al_Published : Z;
  al_Updated : Z;
  al_Downloads : Z;
  al_Verified : bool;
  al_PublisherID : bytes;
}.

(** JSON of the alias, for those it can represent: text in UTF-8, numbers of
    64 bits, and an array of 32 bytes. *)
Class MetaJSON := {
  marshalAlias : MetaAlias -> bytes;
  unmarshalAlias : bytes -> result MetaAlias;
  alias_ok : MetaAlias -> Prop;
  alias_roundtrip : forall a, alias_ok a -> unmarshalAlias (marshalAlias a) = Ok a;
}.

Definition alias_of (m : PackageMeta) : MetaAlias :=
  mkAlias (pm_ID m) (pm_Name m) (pm_Version m) (pm_Description m) (pm_Author m) (pm_Platform m) (pm_Entry m)
    (time_unix_nano (pm_Published m)) (time_unix_nano (pm_Updated m)) (pm_Downloads m) (pm_Verified m) (pm_PublisherID m).

Definition time_of_unix_nano (n : Z) : Z := unix_epoch * second + n.

Definition meta_of_alias (a : MetaAlias) : PackageMeta :=
  mkMeta (al_ID a) (al_Name a) (al_Version a) (al_Description a) (al_Author a) (al_Platform a) (al_Entry a)
    (time_of_unix_nano (al_Published a)) (time_of_unix_nano (al_Updated a)) (al_Downloads a) (al_Verified a)
    (al_PublisherID a).

Definition marshalPackageMeta `{MetaJSON} (m : PackageMeta) : bytes := marshalAlias (alias_of m).
Definition unmarshalPackageMeta `{MetaJSON} (data : bytes) : result PackageMeta :=
  meta_of_alias <$> unmarshalAlias data.

Record Distributor := mkDistributor {
  ds_dht : DHT;
  ds_pubKey : bytes;
  ds_local : gmap bytes PackageMeta;
  ds_addr : bytes;
  ds_peersSeen : Z;
}.

Definition NewDHTDistributorAt (d : DHT) (pubKey addr : bytes) : Distributor := mkDistributor d pubKey ∅ addr 0.
Definition NewDHTDistributor (d : DHT) (pubKey : bytes) : Distributor := NewDHTDistributorAt d pubKey [].

Definition with_dht (d : DHT) (s : Distributor) : Distributor :=
  mkDistributor d (ds_pubKey s) (ds_local s) (ds_addr s) (ds_peersSeen s).
Definition with_local (l : gmap bytes PackageMeta) (s : Distributor) : Distributor :=
  mkDistributor (ds_dht s) (ds_pubKey s) l (ds_addr s) (ds_peersSeen s).

Definition Local_ (s : Distributor) : list PackageMeta := (map_to_list (ds_local s)).*2.
Definition AddLocal (m : PackageMeta) (s : Distributor) : Distributor := with_local (<[pm_ID m := m]> (ds_local s)) s.
Definition RemoveLocal (id : bytes) (s : Distributor) : Distributor := with_local (delete id (ds_local s)) s.
Definition PeersSeen (s : Distributor) : Z := ds_peersSeen s.

Definition pkg_key (id : bytes) : bytes := str "pkg:" ++ id.
Definition PackageMetaKey `{PackageLib} (id : bytes) : bytes := fmtHex (take 8 (sha256 (str "lwpkg:" ++ id))).

Section matching.
Variable to_lower : bytes -> bytes.
Definition matchesQuery (m : PackageMeta) (query : bytes) : bool :=
  if decide (query = []) then true else
  let q := to_lower query in
  Contains (to_lower (pm_Name m)) q || Contains (to_lower (pm_Description m)) q || Contains (to_lower (pm_Author m)) q.
End matching.

Section distributor.
Context `{HH : Hash256, HG : PeerListGob, HJ : MetaJSON} {World : Type} `{HN : Network World}.
Variable to_lower : bytes -> bytes.

(** A round: its part with the peers, then every package of the cache. *)
Definition announce_self (w : World) (s : Distributor) : World * Distributor :=
  if decide (ds_addr s = []) then (w, s) else
  let '(_, w, d) := RegisterNode w (ds_pubKey s) (str "localweb") [ds_addr s] MinPoWDifficulty (ds_dht s) in
  (w, with_dht d s).

Definition republish (order : list PackageMeta) (d : DHT) (w : World) : option World :=
  foldl (fun w m => w ← w; snd <$> Store w (pkg_key (pm_ID m)) (marshalPackageMeta m) d) (Some w) order.

Definition announceAndRefresh (order : list PackageMeta) (w : World) (s : Distributor) : option (World * Distributor) :=
  let '(w, s) := announce_self w s in
  let '(_, w, d) := Lookup w (SHA3Hash (str "localweb-refresh")) (ds_dht s) in
  let s := mkDistributor d (ds_pubKey s) (ds_local s) (ds_addr s) (Z.of_nat (PeerCount d)) in
  w ← republish order d w; Some (w, s).

Definition PublishMeta (meta : PackageMeta) (w : World) (s : Distributor) : option (result unit * World * Distributor) :=
  let s := with_local (<[pm_ID meta := meta]> (ds_local s)) s in
  '(_, w) ← Store w (pkg_key (pm_ID meta)) (marshalPackageMeta meta) (ds_dht s); Some (Ok tt, w, s).

Definition SearchMeta (order : list PackageMeta) (query : bytes) (w : World) (s : Distributor)
    : list PackageMeta * World * Distributor :=
  let results := filter (fun m => matchesQuery to_lower m query = true) order in
  let '(_, w, d) := Lookup w (SHA3Hash (str "search:" ++ query)) (ds_dht s) in
  (results, w, with_dht d s).

Definition ResolveMeta (packageID : bytes) (w : World) (s : Distributor)
    : (registry_error + PackageMeta) * World * Distributor :=
  match ds_local s !! packageID with
  | Some meta => (inr meta, w, s)
  | None =>
      match Get w (pkg_key packageID) (ds_dht s) with
      | (Err _, w) => (inl ErrPackageNotFound, w, s)
      | (Ok raw, w) =>
          match unmarshalPackageMeta raw with
          | Err _ => (inl ErrPackageNotFound, w, s)
          | Ok fetched =>
              if decide (pm_ID fetched <> packageID) then (inl ErrPackageNotFound, w, s)
              else (inr fetched, w, AddLocal fetched s)
          end
      end
  end.

(** The loop of [memorySync]. *)
Fixpoint memorySync (metas : list PackageMeta) (w : World) (s : Distributor) : option (result unit * World * Distributor) :=
  match metas with
  | [] => Some (Ok tt, w, s)
  | m :: metas =>
      '(r, w, s) ← PublishMeta m w s;
      match r with Err e => Some (Err e, w, s) | Ok _ => memorySync metas w s end
  end.
End distributor.

(** * Lemmas *)

(** Metadata as the registry makes it: its times are in the range of Unix
    nanoseconds (1678 to 2262), and JSON can represent it. *)
Definition meta_typed `{MetaJSON} (m : PackageMeta) : Prop :=
  int64_min <= pm_Published m - unix_epoch * second <= int64_max /\
  int64_min <= pm_Updated m - unix_epoch * second <= int64_max /\ alias_ok (alias_of m).

Lemma time_nano_roundtrip t :
  int64_min <= t - unix_epoch * second <= int64_max -> time_of_unix_nano (time_unix_nano t) = t.
Proof.
  intros H. unfold time_of_unix_nano, time_unix_nano. unfold int64_min, int64_max in H.
  rewrite wrapS_small; [lia|lia|]. change (64 - 1) with 63. lia.
Qed.

Lemma package_meta_roundtrip `{MetaJSON} m : meta_typed m -> unmarshalPackageMeta (marshalPackageMeta m) = Ok m.
Proof.
  intros (Hp & Hu & Ha). unfold unmarshalPackageMeta, marshalPackageMeta. rewrite alias_roundtrip by done.
  cbn [fmap result_fmap]. f_equal. unfold meta_of_alias.
  change (al_Published (alias_of m)) with (time_unix_nano (pm_Published m)).
  change (al_Updated (alias_of m)) with (time_unix_nano (pm_Updated m)).
  rewrite !time_nano_roundtrip by done. by destruct m.
Qed.

Section props.
Context `{HH : Hash256, HG : PeerListGob, HJ : MetaJSON} {World : Type} `{HN : Network World}.

(** What a node resolves, whatever the network answers, is metadata of the ID
    it asked for; it is in the cache then, and nothing else of it changed. *)
Lemma resolve_only_asked id (w : World) s :
  let '(r, w', s') := ResolveMeta id w s in
  match r with
  | inr m => (map_Forall (fun i m => pm_ID m = i) (ds_local s) -> pm_ID m = id) /\
             s' = with_local (<[id := m]> (ds_local s)) s /\ ResolveMeta id w' s' = (inr m, w', s')
  | inl e => e = ErrPackageNotFound /\ s' = s /\ ds_local s !! id = None
  end.
Proof.
  unfold ResolveMeta. destruct (ds_local s !! id) as [m|] eqn:E.
  { split; [intros Hk; by apply (Hk id m)|]. rewrite E. split; [|done].
    unfold with_local. rewrite insert_id by done. by destruct s. }
  destruct (Get w (pkg_key id) (ds_dht s)) as [[raw|e] w']; [|done].
  destruct (unmarshalPackageMeta raw) as [m|e]; [|done]. case_decide as Hm; [done|]. try apply dec_stable in Hm.
  split; [done|]. unfold AddLocal. rewrite Hm. split; [done|]. cbn [with_local ds_local]. by rewrite lookup_insert_eq.
Qed.

(** Every entry of the cache is under its own ID. *)
Definition cache_keyed (s : Distributor) : Prop := map_Forall (fun i m => pm_ID m = i) (ds_local s).

Lemma search_meta_spec to_lower order q (w : World) s :
  order ≡ₚ Local_ s ->
  let '(res, _, s') := SearchMeta to_lower order q w s in
  ds_local s' = ds_local s /\
  forall m, m ∈ res <-> (exists id, ds_local s !! id = Some m) /\ matchesQuery to_lower m q = true.
Proof.
  intros Ho. unfold SearchMeta. destruct (Lookup _ _ _) as [[r w'] d]. split; [done|].
  intros m. rewrite list_elem_of_filter, Ho. unfold Local_. rewrite list_elem_of_fmap.
  split.
  - intros [Hq ([id m'] & -> & Hin)]. apply elem_of_map_to_list in Hin. by eauto.
  - intros [[id Hid] Hq]. split; [done|]. exists (id, m). split; [done|]. by apply elem_of_map_to_list.
Qed.

Lemma distributor_keyed (w : World) s :
  cache_keyed s ->
  (forall m, match PublishMeta m w s with Some (_, _, s') => cache_keyed s' | None => True end) /\
  (forall id, cache_keyed (ResolveMeta id w s).2) /\ (forall id, cache_keyed (RemoveLocal id s)) /\
  (forall m, cache_keyed (AddLocal m s)) /\
  (forall order, match announceAndRefresh order w s with Some (_, s') => cache_keyed s' | None => True end).
Proof.
  intros Hk. unfold cache_keyed. split; [|split; [|split; [|split]]].
  - intros m. unfold PublishMeta. destruct (Store _ _ _ _) as [[r w']|]; [|done]. by apply map_Forall_insert_2.
  - intros id. pose proof (resolve_only_asked id w s) as Hr. destruct (ResolveMeta id w s) as [[[e|m] w'] s'].
    + by destruct Hr as (_ & -> & _).
    + destruct Hr as (Hm & -> & _). apply map_Forall_insert_2; [by apply Hm|done].
  - intros id. by apply map_Forall_delete.
  - intros m. by apply map_Forall_insert_2.
  - intros order. unfold announceAndRefresh, announce_self. case_decide; [|destruct (RegisterNode _ _ _ _ _ _) as [[r w1] d1]];
      destruct (Lookup _ _ _) as [[r2 w2] d2]; by destruct (republish _ _ _).
Qed.
End props.

(** C18: The metadata one node publishes is what another node resolves for its
    ID: when the first peer the second node would ask for the key is a live
    host among those the first node offers the value to, the second gets the
    metadata as it was published, times included, keeps it, and answers from
    its cache from then on.  Message format, request handlers and JSON are in
    between. *)
Theorem package_metadata_resolves `{HH : Hash256, HG : PeerListGob, HJ : MetaJSON} (w : Net) s1 s2 m p addr more n :
  let key := pkg_key (pm_ID m) in
  let d1 := ds_dht s1 in let d2 := ds_dht s2 in
  running d1 = true -> running d2 = true -> hosts_typed w ->
  length (d_localID d1) = 32%nat -> length (d_localID d2) = 32%nat -> node_ok (node d1) -> node_ok (node d2) ->
  meta_typed m -> len key < 2 ^ 16 -> 2 + len key + len (marshalPackageMeta m) <= 2 ^ 20 ->
  Forall (fun q => Addrs q <> []) (closest_copies (SHA3Hash key) Alpha d1) ->
  localValue key (node d2) = None -> ds_local s2 !! pm_ID m = None ->
  head (closest_copies (SHA3Hash key) Alpha d2) = Some p -> Addrs p = addr :: more ->
  addr ∈ (hd [] ∘ Addrs <$> closest_copies (SHA3Hash key) Alpha d1) -> hosts w !! addr = Some n ->
  exists w' w'' s2',
    PublishMeta m w s1 = Some (Ok tt, w', AddLocal m s1) /\
    ResolveMeta (pm_ID m) w' s2 = (inr m, w'', s2') /\ ds_local s2' = <[pm_ID m := m]> (ds_local s2) /\
    forall later, ResolveMeta (pm_ID m) later s2' = (inr m, later, s2').
Proof.
  intros key d1 d2 Hr1 Hr2 Hw Hl1 Hl2 Hn1 Hn2 Hm Hk Hsz Ha Hloc Hcache Hhd Hap Hin Hhost.
  assert (key <> []) as Hne by done.
  destruct (dht_store_get_roundtrip w d1 d2 key (marshalPackageMeta m) p addr more n Hr1 Hr2 Hw Hl1 Hl2 Hn1 Hn2 Hne Hk Hsz
    Ha Hloc Hhd Hap Hin Hhost) as (w' & Hst & Hget).
  exists w'. unfold PublishMeta. cbn [ds_dht with_local]. fold key d1. rewrite Hst.
  unfold ResolveMeta at 1. rewrite Hcache. fold key d2. destruct (Get w' key d2) as [r w'']. cbn [fst] in Hget. subst r.
  rewrite package_meta_roundtrip by done. rewrite decide_False by auto.
  exists w'', (AddLocal m s2). split_and!; try done.
  intros later. unfold ResolveMeta. cbn [AddLocal with_local ds_local]. by rewrite lookup_insert_eq.
Qed.

(** * Examples *)

Module DistributeSample.
#[local] Existing Instance sha3_256_hash.
#[local] Existing Instance tagged_gob.

Definition pack (a : MetaAlias) : list (list bytes) :=
  [[al_ID a; al_Name a; al_Version a; al_Description a; al_Author a; al_Entry a; al_PublisherID a]; al_Platform a;
   [be_put 8 (al_Published a); be_put 8 (al_Updated a); be_put 8 (al_Downloads a);
    (if al_Verified a then [byte_of 1] else [])]].
Definition unpack (l : list (list bytes)) : option MetaAlias :=
  match l with
  | [[i; n; v; d; a; e; k]; p; [t; u; c; b]] =>
      Some (mkAlias i n v d a p e (wrapS 64 (be_get t)) (wrapS 64 (be_get u)) (wrapS 64 (be_get c)) (negb (len b =? 0)) k)
  | _ => None
  end.
Definition int64 (z : Z) : Prop := int64_min <= z <= int64_max.

Lemma wrapS_be z : int64 z -> wrapS 64 (be_get (be_put 8 z)) = z.
Proof.
  unfold int64, int64_min, int64_max. intros Hz. rewrite be_get_put. change (z mod 2 ^ (Z.of_nat 8 * 8)) with (wrapU 64 z).
  rewrite wrapS_wrapU, wrapS_small; lia.
Qed.

Definition toy_meta_json : MetaJSON.
Proof.
  refine {| marshalAlias := fun a => count_encode (pack a);
            unmarshalAlias := fun b =>
              match count_decode b ≫= unpack with Some a => Ok a | None => Err (ErrText "json") end;
            alias_ok := fun a => int64 (al_Published a) /\ int64 (al_Updated a) /\ int64 (al_Downloads a) |}.
  intros [i n v d a p e t u c b k] (Ht & Hu & Hc). cbn [al_Published al_Updated al_Downloads] in *.
  rewrite count_decode_encode. cbn. rewrite !wrapS_be by done. by destruct b.
Defined.
#[local] Existing Instance toy_meta_json.

Definition app_meta : PackageMeta :=
  mkMeta (str "app") (str "App") (str "1") [] (str "ann") [str "any"] (str "main") (unix_epoch * second + 7)
    (unix_epoch * second + 8) 2 true (zeroes 32).
Definition client : Distributor := NewDHTDistributor ex_client (zeroes 32).
End DistributeSample.
Import DistributeSample.
#[local] Existing Instance sha3_256_hash.
#[local] Existing Instance tagged_gob.
#[local] Existing Instance toy_meta_json.

Lemma package_metadata_resolves_witness :
  exists w' w'' s2', PublishMeta app_meta ex_net client = Some (Ok tt, w', AddLocal app_meta client) /\
    ResolveMeta (pm_ID app_meta) w' client = (inr app_meta, w'', s2').
Proof.
  destruct (package_metadata_resolves ex_net client client app_meta (set_LastSeen 70 (ex_peer Byte.x04))
    (str "10.0.0.1:9094") [] ex_host eq_refl eq_refl ex_net_typed eq_refl eq_refl ex_node_ok ex_node_ok)
    as (w' & w'' & s2' & Hp & Hr & _).
  - repeat split; vm_compute; discriminate.
  - reflexivity.
  - vm_compute. discriminate.
  - vm_compute. repeat constructor; discriminate.
  - reflexivity.
  - reflexivity.
  - vm_compute. reflexivity.
  - reflexivity.
  - apply (list_elem_of_lookup_2 _ 0). vm_compute. reflexivity.
  - reflexivity.
  - exists w', w'', s2'. split; [exact Hp|exact Hr].
Defined.

(** What is resolved is not authenticated beyond its ID: the host that is asked
    answers with any author and publisher, marked as verified. *)
Lemma forged_metadata_resolves :
  let forged := mkMeta (str "app") (str "App") (str "9") [] (str "mallory") [] (str "evil") (unix_epoch * second)
    (unix_epoch * second) 0 true (replicate 32 (byte_of 6)) in
  let reply := frame (mkMessage MsgFoundValue (ex_id Byte.x04) (id ex_node)
    (encodeStore (pkg_key (str "app")) (marshalPackageMeta forged))) in
  (ResolveMeta (HN := lying_network reply) (str "app") tt client).1.1 = inr forged.
Proof. vm_compute. reflexivity. Qed.
