(* ===== verification/Tracks.v ===== *)
(** * Media tracks (pkg/services/voice/track.go, types.go, video.go)

    Codecs and their negotiation, the bitrate controller with its float64
    arithmetic, and the tracks of a peer.  A track is reached through its
    manager; a [Go] map of tracks is listed in the order of the model's map. *)

From S2P Require Import Prelude Bytes Hash Float Federation Calls.
Local Open Scope Z_scope.

(** ** Codecs *)

Definition CodecOpus : Z := 1.
Definition CodecVP8 : Z := 2.
Definition CodecVP9 : Z := 3.

Record CodecProfile := mkProfile {
  cp_ID : Z;
  cp_Name : bytes;
  cp_MimeType : bytes;
  cp_SampleRate : Z;
  cp_FrameRate : Z;
  cp_Width : Z;
  cp_Height : Z;
  cp_Bitrate : Z;
  cp_MinBitrate : Z;
  cp_MaxBitrate : Z;
}.

Definition OpusDefaultBitrate : Z := 64.
Definition VP8DefaultBitrate : Z := 2500.
Definition VP9DefaultBitrate : Z := 1500.
Definition VP8DefaultRate : Z := 30.

Definition SupportedCodecs : list CodecProfile := [
  mkProfile CodecOpus (str "opus") (str "audio/opus") 48000 0 0 0 OpusDefaultBitrate 12 510;
  mkProfile CodecVP8 (str "vp8") (str "video/vp8") 0 VP8DefaultRate 640 480 VP8DefaultBitrate 100 10000;
  mkProfile CodecVP9 (str "vp9") (str "video/vp9") 0 30 1280 720 VP9DefaultBitrate 100 10000].

Definition CodecProfileForID (id : Z) : option CodecProfile :=
  snd <$> list_find (fun p => cp_ID p = id) SupportedCodecs.

Definition ErrUnsupportedCodec : goerror := ErrText "unsupported codec".

Definition pickFirst (local remote : list Z) : result Z :=
  match list_find (fun c => c ∈ local) remote with
  | Some (_, c) => Ok c
  | None => Err ErrUnsupportedCodec
  end.

Definition NegotiateCodecs (localAudio remoteAudio localVideo remoteVideo : list Z) : result (Z * Z) :=
  match pickFirst localAudio remoteAudio, pickFirst localVideo remoteVideo with
  | Err _, Err _ => Err (ErrText "audio and video codec negotiation failed: %w, %w")
  | Err _, Ok video => Ok (0, video)
  | Ok audio, Err _ => Ok (audio, 0)
  | Ok audio, Ok video => Ok (audio, video)
  end.

(** ** The bitrate controller *)

Definition f64_ratio (a b : Z) : float64 := f64_div (f64_of_Z a) (f64_of_Z b).

Definition AdaptiveBitrate (rttMs packetLoss : float64) (currentKbps : Z) : Z :=
  match CodecProfileForID CodecVP9 with
  | None => currentKbps
  | Some profile =>
      let lo := f64_of_Z (cp_MinBitrate profile) in
      let hi := f64_of_Z (cp_MaxBitrate profile) in
      let bitrate := f64_of_Z currentKbps in
      let bitrate :=
        if f64_lt (f64_of_Z 200) rttMs || f64_lt (f64_ratio 5 100) packetLoss then f64_mul bitrate (f64_ratio 7 10)
        else if f64_lt rttMs (f64_of_Z 50) && f64_lt packetLoss (f64_ratio 1 100) && f64_lt bitrate hi
        then f64_mul bitrate (f64_ratio 115 100)
        else bitrate in
      let bitrate := if f64_lt bitrate lo then lo else bitrate in
      let bitrate := if f64_lt hi bitrate then hi else bitrate in
      wrapU 32 (f64_to_int64 bitrate)
  end.

(** ** Tracks *)

Record Track := mkTrackState {
  tr_info : TrackInfo;
  tr_codec : CodecProfile;
  tr_active : bool;
}.

Definition NewTrack (info : TrackInfo) : result Track :=
  match CodecProfileForID (t_Codec info) with
  | None => Err (ErrText "unsupported codec: %d")
  | Some profile => Ok (mkTrackState info profile true)
  end.

Definition IsActive (t : Track) : bool := tr_active t.
Definition Stop (t : Track) : Track := mkTrackState (tr_info t) (tr_codec t) false.

Abbreviation TrackManager := (gmap bytes Track).

Definition NewTrackManager : TrackManager := ∅.

Definition Add (t : TrackInfo) (m : TrackManager) : result unit * TrackManager :=
  match m !! t_ID t with
  | Some _ => (Err (ErrText "track already added: %s"), m)
  | None =>
      match NewTrack t with
      | Err e => (Err e, m)
      | Ok track => (Ok tt, <[t_ID t := track]> m)
      end
  end.

Definition Get (id : bytes) (m : TrackManager) : result Track :=
  match m !! id with Some t => Ok t | None => Err (ErrText "track not found: %s") end.

Definition List_ (m : TrackManager) : list TrackInfo :=
  tr_info <$> filter (fun t => IsActive t = true) (map_to_list m).*2.

Definition StopAll (m : TrackManager) : TrackManager := Stop <$> m.

Definition Remove (id : bytes) (m : TrackManager) : result unit * TrackManager :=
  match m !! id with
  | None => (Err (ErrText "track not found: %s"), m)
  | Some _ => (Ok tt, delete id m)
  end.

Definition TrackID `{Hash256} (kind : Z) (peer : bytes) : bytes :=
  str "track-" ++ fmtHex (take 8 (sha3 (byte_of kind :: peer))).

(** A video frame goes out under the type of its codec. *)
Definition VP8PayloadTyp : Z := 96.
Definition VP9PayloadTyp : Z := 98.
Definition PayloadType (codec : Z) : Z := if codec =? CodecVP9 then VP9PayloadTyp else VP8PayloadTyp.
Definition MimeType (codec : Z) : bytes := if codec =? CodecVP9 then str "video/vp9" else str "video/vp8".

(** * Negotiation *)

(** What a side picks: the first codec of the other's list that it has too. *)
Lemma pickFirst_Ok local remote c :
  pickFirst local remote = Ok c <->
  exists before after, remote = before ++ c :: after /\ c ∈ local /\ Forall (fun x => x ∉ local) before.
Proof.
  unfold pickFirst. split.
  - destruct (list_find _ remote) as [[i x]|] eqn:E; [|done]. intros [= <-].
    apply list_find_Some in E as (Hi & Hin & Hb). exists (take i remote), (drop (S i) remote). split_and!; [|done|].
    + by rewrite take_drop_middle.
    + apply Forall_lookup. intros j y Hj%lookup_take_Some. destruct Hj as [Hj Hlt]. by apply (Hb j y).
  - intros (b & a & -> & Hc & Hb).
    assert (list_find (fun c => c ∈ local) (b ++ c :: a) = Some (length b, c)) as ->; [|done].
    apply list_find_Some. split_and!; [by apply list_lookup_middle|done|].
    intros j y Hj Hlt. rewrite lookup_app_l in Hj by done. by eapply Forall_lookup_1 in Hb.
Qed.

Lemma pickFirst_Err local remote e :
  pickFirst local remote = Err e -> Forall (fun c => c ∉ local) remote.
Proof. unfold pickFirst. destruct (list_find _ remote) as [[i x]|] eqn:E; [done|]. by apply list_find_None in E. Qed.

(** Two ends that list the same codecs in the order of one ranking agree. *)
Lemma pickFirst_agree a b :
  StronglySorted Z.lt a -> StronglySorted Z.lt b -> pickFirst a b = pickFirst b a.
Proof.
  intros Ha Hb. assert (forall u v c, StronglySorted Z.lt u -> StronglySorted Z.lt v -> pickFirst u v = Ok c ->
    pickFirst v u = Ok c) as half.
  { intros u v c Hu Hv. rewrite !pickFirst_Ok. intros (p & q & -> & Hc & Hp).
    apply list_elem_of_split in Hc as (s & t & ->). exists s, t. split_and!; [done|set_solver|].
    apply Forall_forall. intros x Hx Hin. rewrite Forall_forall in Hp.
    assert (x < c) as Hlt by (eapply (StronglySorted_app_1_elem_of Z.lt s (c :: t) x c Hu Hx); set_solver).
    apply elem_of_app in Hin as [Hin|Hin]; [apply (Hp x Hin); set_solver|].
    apply StronglySorted_app_1_r in Hv. inversion Hv as [|? ? _ Hall]; subst.
    apply elem_of_cons in Hin as [->|Hin]; [lia|]. rewrite Forall_forall in Hall. specialize (Hall x Hin). lia. }
  destruct (pickFirst a b) as [c|e] eqn:E; [by rewrite (half a b c)|].
  destruct (pickFirst b a) as [c|e'] eqn:E'; [by rewrite (half b a c) in E|].
  unfold pickFirst in E, E'. repeat case_match; congruence.
Qed.

(** Otherwise each takes the other's favourite. *)
Lemma ends_pick_different_codecs :
  pickFirst [CodecVP8; CodecVP9] [CodecVP9; CodecVP8] = Ok CodecVP9 /\
  pickFirst [CodecVP9; CodecVP8] [CodecVP8; CodecVP9] = Ok CodecVP8.
Proof. by vm_compute. Qed.

(** * The bitrate *)

(** The three reactions to a report: the rate does not depend on more of it. *)
Inductive Report := Bad | Good | Fair.

Definition report (rttMs packetLoss : float64) : Report :=
  if f64_lt (f64_of_Z 200) rttMs || f64_lt (f64_ratio 5 100) packetLoss then Bad
  else if f64_lt rttMs (f64_of_Z 50) && f64_lt packetLoss (f64_ratio 1 100) then Good
  else Fair.

Definition bad_rtt : float64 := f64_of_Z 300.
Definition good_rtt : float64 := f64_of_Z 10.
Definition no_loss : float64 := f64_of_Z 0.
Definition react (r : Report) : Z -> Z :=
  AdaptiveBitrate match r with Bad => bad_rtt | Good => good_rtt | Fair => f64_of_Z 100 end no_loss.

Lemma AdaptiveBitrate_report rtt loss k : AdaptiveBitrate rtt loss k = react (report rtt loss) k.
Proof.
  unfold report. destruct (f64_lt (f64_of_Z 200) rtt || f64_lt (f64_ratio 5 100) loss) eqn:Eb;
    [|destruct (f64_lt rtt (f64_of_Z 50) && f64_lt loss (f64_ratio 1 100)) eqn:Eg]; unfold react, AdaptiveBitrate;
    cbv beta iota; rewrite Eb, ?Eg; reflexivity.
Qed.

(** The same reactions with the constants evaluated. *)
Definition f_min : float64 := Eval vm_compute in f64_of_Z 100.
Definition f_max : float64 := Eval vm_compute in f64_of_Z 10000.
Definition f_down : float64 := Eval vm_compute in f64_ratio 7 10.
Definition f_up : float64 := Eval vm_compute in f64_ratio 115 100.

Definition clamp (b : float64) : Z :=
  let b := if f64_lt b f_min then f_min else b in
  wrapU 32 (f64_to_int64 (if f64_lt f_max b then f_max else b)).

Lemma react_clamp r k :
  let b := f64_of_Z k in
  react r k = clamp match r with
    | Bad => f64_mul b f_down
    | Good => if f64_lt b f_max then f64_mul b f_up else b
    | Fair => b
    end.
Proof.
  assert (CodecProfileForID CodecVP9 = Some (mkProfile CodecVP9 (str "vp9") (str "video/vp9") 0 30 1280 720 VP9DefaultBitrate 100 10000))
    as Hp by reflexivity.
  unfold react, AdaptiveBitrate. rewrite Hp. cbn [cp_MinBitrate cp_MaxBitrate].
  change (f64_of_Z 100) with f_min. change (f64_of_Z 10000) with f_max.
  change (f64_ratio 7 10) with f_down. change (f64_ratio 115 100) with f_up. by destruct r.
Qed.

(** What the controller does, checked on each rate up to 10000: it stays
    within the codec's limits, falls on a bad report and rises on a good one
    unless it is at the limit. *)
Definition in_limits (k : Z) : bool := (100 <=? k) && (k <=? 10000).
Definition controlled (k : Z) : bool :=
  let b := f64_of_Z k in
  let bad := clamp (f64_mul b f_down) in let good := clamp (if f64_lt b f_max then f64_mul b f_up else b) in
  let fair := clamp b in
  in_limits bad && in_limits good && in_limits fair
  && (if 100 <=? k then (fair =? k) && ((bad <? k) || (bad =? 100)) && ((k <? good) || (good =? 10000)) else true).

Lemma controlled_all : forallb (fun c => forallb controlled (seqZ (c * 100) 100)) (seqZ 0 100) = true.
Proof. vm_compute. reflexivity. Qed.

Lemma controlled_max : controlled 10000 = true.
Proof. vm_compute. reflexivity. Qed.

Lemma controlled_at k : 0 <= k <= 10000 -> controlled k = true.
Proof.
  intros Hk. destruct (decide (k = 10000)) as [->|Hne]; [apply controlled_max|].
  pose proof controlled_all as H. rewrite forallb_forall in H. specialize (H (k / 100)).
  rewrite forallb_forall in H. pose proof (Z.div_mod k 100 ltac:(lia)). pose proof (Z.mod_pos_bound k 100 ltac:(lia)).
  apply H; apply list_elem_of_In, elem_of_seqZ; lia.
Qed.

Lemma in_limits_spec k : in_limits k = true <-> 100 <= k <= 10000.
Proof. unfold in_limits. rewrite andb_true_iff, !Z.leb_le. done. Qed.

Lemma react_limits r k : 0 <= k <= 10000 -> 100 <= react r k <= 10000.
Proof.
  intros Hk. apply in_limits_spec. rewrite react_clamp. pose proof (controlled_at k Hk) as H.
  unfold controlled in H. rewrite !andb_true_iff in H. destruct H as (((Hb & Hg) & Hf) & _). by destruct r.
Qed.

Lemma react_moves k :
  100 <= k <= 10000 ->
  react Fair k = k /\ (react Bad k < k \/ react Bad k = 100) /\ (k < react Good k \/ react Good k = 10000).
Proof.
  intros Hk. rewrite !react_clamp. pose proof (controlled_at k ltac:(lia)) as H. unfold controlled in H.
  assert (100 <=? k = true) as Hle by (apply Z.leb_le; lia). rewrite Hle, !andb_true_iff, !orb_true_iff in H.
  rewrite !Z.ltb_lt, !Z.eqb_eq in H. tauto.
Qed.

(** A controller fed back with its own answers. *)
Definition adapt (reports : list (float64 * float64)) (k : Z) : Z :=
  foldl (fun k r => AdaptiveBitrate r.1 r.2 k) k reports.

Lemma iter_reaches (f : Z -> Z) (lo hi : Z) (n : nat) k :
  (forall k, lo <= k <= hi -> lo <= f k <= hi) -> (forall k, lo <= k <= hi -> k < f k \/ f k = hi) ->
  lo <= k <= hi -> hi - k <= Z.of_nat n -> Nat.iter n f k = hi.
Proof.
  intros Hr Hf. revert k. induction n as [|n IH]; intros k Hk Hn; [simpl; lia|].
  rewrite Nat.iter_succ_r. apply IH; [by apply Hr|]. specialize (Hr k Hk). destruct (Hf k Hk); lia.
Qed.

Lemma iter_falls (f : Z -> Z) (lo hi : Z) (n : nat) k :
  (forall k, lo <= k <= hi -> lo <= f k <= hi) -> (forall k, lo <= k <= hi -> f k < k \/ f k = lo) ->
  lo <= k <= hi -> k - lo <= Z.of_nat n -> Nat.iter n f k = lo.
Proof.
  intros Hr Hf. revert k. induction n as [|n IH]; intros k Hk Hn; [simpl; lia|].
  rewrite Nat.iter_succ_r. apply IH; [by apply Hr|]. specialize (Hr k Hk). destruct (Hf k Hk); lia.
Qed.

(** Whatever round-trip times and losses are reported (infinite or not a
    number ones too), a video rate that starts at 10000 kbps or less is between
    100 and 10000 after the first report; a run of bad reports brings it to
    100, a run of good ones to 10000, and a fair one leaves it. *)
Theorem adaptive_bitrate_controls reports rtt loss k n :
  0 <= k <= 10000 ->
  let rate := adapt ((rtt, loss) :: reports) k in
  100 <= rate <= 10000 /\
  (report rtt loss = Fair -> AdaptiveBitrate rtt loss rate = rate) /\
  (report rtt loss = Good -> 9900 <= Z.of_nat n -> adapt (replicate n (rtt, loss)) rate = 10000) /\
  (report rtt loss = Bad -> 9900 <= Z.of_nat n -> adapt (replicate n (rtt, loss)) rate = 100).
Proof.
  intros Hk rate.
  assert (forall l k, 0 <= k <= 10000 -> 100 <= k \/ l <> [] -> 100 <= adapt l k <= 10000) as Hl.
  { intros l. induction l as [|[a b] l IH]; intros j Hj Hne; cbn [adapt foldl]; [destruct Hne; [simpl; lia|done]|].
    rewrite AdaptiveBitrate_report. pose proof (react_limits (report a b) j Hj) as Hr. apply IH; [|left]; cbn [fst snd]; lia. }
  assert (100 <= rate <= 10000) as Hrate by (apply Hl; [done|by right]).
  assert (forall m j, adapt (replicate m (rtt, loss)) j = Nat.iter m (react (report rtt loss)) j) as Hit.
  { intros m. induction m as [|m IH]; intros j; [done|]. rewrite Nat.iter_succ_r. cbn [replicate adapt foldl fst snd].
    rewrite AdaptiveBitrate_report. apply IH. }
  rewrite AdaptiveBitrate_report, Hit. split; [done|]. split_and!.
  - intros ->. by apply react_moves.
  - intros -> Hn. apply (iter_reaches _ 100 10000); [| |done|lia].
    + intros j Hj. apply react_limits. lia.
    + intros j Hj. by apply react_moves.
  - intros -> Hn. apply (iter_falls _ 100 10000); [| |done|lia].
    + intros j Hj. apply react_limits. lia.
    + intros j Hj. by apply react_moves.
Qed.

Lemma adaptive_bitrate_controls_witness :
  let bad := (f64_of_Z 300, f64_of_Z 0) in
  adapt (replicate (Z.to_nat 9900) bad) (AdaptiveBitrate bad.1 bad.2 1500) = 100.
Proof.
  intros bad.
  destruct (adaptive_bitrate_controls [] (f64_of_Z 300) (f64_of_Z 0) 1500 (Z.to_nat 9900)) as (_ & _ & _ & Hb); [lia|].
  apply Hb; [reflexivity|]. rewrite Z2Nat.id; [reflexivity|]. by apply Z.leb_le.
Defined.

(** * The tracks of a peer *)

(** A track that is added can be got, is listed while it is active, and is
    refused a second time; one without a known codec is not added. *)
Lemma track_added t m m' :
  Add t m = (Ok tt, m') ->
  (m !! t_ID t = None) /\ (exists p, CodecProfileForID (t_Codec t) = Some p /\ Get (t_ID t) m' = Ok (mkTrackState t p true)) /\
  t ∈ List_ m' /\ (forall id, id <> t_ID t -> m' !! id = m !! id) /\ Add t m' = (Err (ErrText "track already added: %s"), m').
Proof.
  unfold Add. destruct (m !! t_ID t) eqn:E; [done|]. unfold NewTrack.
  destruct (CodecProfileForID (t_Codec t)) as [p|] eqn:Ep; [|done]. intros [= <-]. split; [done|]. split; [|split; [|split]].
  - exists p. split; [done|]. unfold Get. by rewrite lookup_insert_eq.
  - unfold List_. apply list_elem_of_fmap. exists (mkTrackState t p true). split; [done|].
    apply list_elem_of_filter. split; [done|]. apply list_elem_of_fmap. exists (t_ID t, mkTrackState t p true).
    split; [done|]. apply elem_of_map_to_list. by rewrite lookup_insert_eq.
  - intros id Hid. by rewrite lookup_insert_ne.
  - by rewrite lookup_insert_eq.
Qed.

Lemma stop_all_silences m : List_ (StopAll m) = [].
Proof.
  unfold List_. destruct (filter _ _) as [|t l] eqn:E; [done|].
  assert (t ∈ filter (fun t => IsActive t = true) (map_to_list (StopAll m)).*2) as Ht by (rewrite E; left).
  apply list_elem_of_filter in Ht as [Ha Ht].
  apply list_elem_of_fmap in Ht as ([id u] & -> & Hu). apply elem_of_map_to_list in Hu.
  unfold StopAll in Hu. rewrite lookup_fmap in Hu. by destruct (m !! id); simplify_eq/=.
Qed.
