(* ===== verification/Signaling.v ===== *)
(** * Signalling and the voice service (pkg/services/voice/signal_channel.go, signaling.go, server.go)

    Signals travel over a channel of the messaging store; a waiter polls it
    with a cursor, here over the states of the channel at its polls.  The
    service places, answers and ends calls of [Calls] and hands media to the
    handlers of their tracks.  JSON is an interface, the clock an argument.
    Closing of contexts is a test where the code tests it. *)

From S2P Require Import Prelude Bytes Hash Ed25519 Text Federation Base64 Messaging Tracks Calls.
Local Open Scope Z_scope.

(** ** The channel *)

Definition SignaledContentType : Z := 1.
Definition maxSignaledPayload : Z := Z.shiftl 64 10.
Definition signalingHistoryLimit : Z := 64.

Record Signaled := mkSignaled {
  sg_ID : bytes;
  sg_Sender : bytes;
  sg_ContentType : Z;
  sg_Content : bytes;
}.

(** A notifier is a channel with room for one wakeup: whether it holds one. *)
Record StoreChannel := mkStoreChannel {
  sc_store : memoryStore;
  sc_notifiers : gmap bytes bool;
  sc_seq : Z;
}.

Definition NewStoreChannel (store : memoryStore) : StoreChannel := mkStoreChannel store ∅ 0.

Section channel.
Context `{Hash256}.

Definition channelFor (name : bytes) : ChannelID := sha3 (str "localweb-signal:" ++ name).

Definition nextMessageID (now : Z) (sender content : bytes) (c : StoreChannel) : bytes * StoreChannel :=
  let seq := wrapU 64 (sc_seq c + 1) in
  let counter := be_put 8 seq ++ be_put 8 (wrapU 64 (time_unix_nano now)) in
  (fmtHex (take 16 (sha3 (sender ++ content ++ counter))), mkStoreChannel (sc_store c) (sc_notifiers c) seq).

Definition envelope (sender : bytes) (contentType : Z) (content : bytes) : bytes :=
  sender ++ byte_of contentType :: content.

Definition channel_Publish (alive : bool) (now : Z) (channelID sender : bytes) (contentType : Z) (content : bytes)
    (c : StoreChannel) : result unit * StoreChannel :=
  if maxSignaledPayload <? len content then (Err (ErrText "signalling payload exceeds %d bytes"), c)
  else if negb alive then (Err (ErrText "context canceled"), c)
  else
    let ch := channelFor channelID in
    let '(id, c) := nextMessageID now sender content c in
    let msg := mkMsg id ch sender (time_unix_nano now) (envelope sender contentType content) [] [] contentType in
    (Ok tt, mkStoreChannel (Append ch msg (sc_store c)) ((fun _ => true) <$> sc_notifiers c) (sc_seq c)).

Definition Subscribe (channelID : bytes) (c : StoreChannel) : StoreChannel :=
  match sc_notifiers c !! channelID with
  | Some _ => c
  | None => mkStoreChannel (sc_store c) (<[channelID := false]> (sc_notifiers c)) (sc_seq c)
  end.

Definition Unsubscribe (channelID : bytes) (c : StoreChannel) : StoreChannel :=
  mkStoreChannel (sc_store c) (delete channelID (sc_notifiers c)) (sc_seq c).

(** One message without its envelope; short ones are skipped. *)
Definition unwrap (m : Messaging.Message) : option Signaled :=
  if len (msg_Content m) <? 33 then None
  else Some (mkSignaled (msg_ID m) (take 32 (msg_Content m)) (u8 (nth 32 (msg_Content m) Byte.x00)) (drop 33 (msg_Content m))).

Definition channel_History (channelID after : bytes) (limit : Z) (c : StoreChannel) : list Signaled :=
  omap unwrap (History (channelFor channelID) after limit (sc_store c)).

(** ** Signals *)

Definition SignalTypeOffer : Z := 1.
Definition SignalTypeAnswer : Z := 2.
Definition SignalTypeICECandidate : Z := 3.
Definition SignalTypeBye : Z := 4.
Definition SignalTypeGroupInvite : Z := 5.

Definition ParseSignalType (name : bytes) : result Z :=
  let n := ToLower (TrimSpace name) in
  if decide (n = str "offer") then Ok SignalTypeOffer
  else if decide (n = str "answer") then Ok SignalTypeAnswer
  else if decide (n = str "ice" \/ n = str "ice-candidate" \/ n = str "ice_candidate") then Ok SignalTypeICECandidate
  else if decide (n = str "bye") then Ok SignalTypeBye
  else if decide (n = str "group-invite" \/ n = str "group_invite") then Ok SignalTypeGroupInvite
  else Err (ErrText "unknown signal type").
End channel.

(** The values a signal can have in the code. *)
Definition signal_typed (m : SignalMessage) : Prop :=
  0 <= s_Type m < 256 /\ length (s_CallID m) = 16%nat /\ length (s_Sender m) = 32%nat /\
  int64_min <= s_Timestamp m <= int64_max.

Class SignalJSON := {
  marshalSignal : SignalMessage -> bytes;
  unmarshalSignal : bytes -> result SignalMessage;
  signal_json_roundtrip : forall m, signal_typed m -> unmarshalSignal (marshalSignal m) = Ok m;
  marshalTracks : list TrackInfo -> bytes;
  marshalCandidate : ICECandidate -> bytes;
  marshalPeers : list bytes -> bytes;
}.

Section signals.
Context `{Hash256, Ed25519, SignalJSON}.

(** [SendSignal] of [MessagingSignaling] on its channel. *)
Definition SendSignal (alive : bool) (now : Z) (channel sender : bytes) (msg : SignalMessage) (c : StoreChannel)
    : result unit * StoreChannel :=
  channel_Publish alive now channel sender 1 (marshalSignal msg) c.

(** The loop over a batch: the signal it returns, and the cursor. *)
Fixpoint scan_batch (peer : bytes) (sigType : Z) (batch : list Signaled) (cursor : bytes)
    : option SignalMessage * bytes :=
  match batch with
  | [] => (None, cursor)
  | raw :: batch =>
      let next := scan_batch peer sigType batch (sg_ID raw) in
      if decide (sg_Sender raw <> peer) then next else
      match unmarshalSignal (sg_Content raw) with
      | Err _ => next
      | Ok msg => if decide (s_Type msg <> sigType) then next else (Some msg, sg_ID raw)
      end
  end.

(** The polls, each on the state of the channel at the time; the context ends
    after the last one. *)
Fixpoint poll_signals (channel peer : bytes) (sigType : Z) (polls : list StoreChannel) (cursor : bytes)
    : result SignalMessage * bytes :=
  match polls with
  | [] => (Err (ErrText "context deadline exceeded"), cursor)
  | c :: polls =>
      match scan_batch peer sigType (channel_History channel cursor signalingHistoryLimit c) cursor with
      | (Some msg, cursor) => (Ok msg, cursor)
      | (None, cursor) => poll_signals channel peer sigType polls cursor
      end
  end.

Definition WaitForSignalFrom (channel peer : bytes) (sigType : Z) (afterID : bytes) (start : StoreChannel)
    (polls : list StoreChannel) : result SignalMessage * bytes :=
  let afterID :=
    if decide (afterID = []) then
      match last (channel_History channel [] signalingHistoryLimit start) with Some m => sg_ID m | None => [] end
    else afterID in
  poll_signals channel peer sigType polls afterID.

Definition WaitForSignal (channel peer : bytes) (sigType : Z) (start : StoreChannel) (polls : list StoreChannel)
    : result SignalMessage :=
  (WaitForSignalFrom channel peer sigType [] start polls).1.

Definition new_signal (type now : Z) (callID sender payload : bytes) : SignalMessage :=
  mkSignal type callID sender (time_unix_nano now) payload [].
Definition SignalOffer (now : Z) (callID sender : bytes) (tracks : list TrackInfo) : SignalMessage :=
  new_signal SignalTypeOffer now callID sender (marshalTracks tracks).
Definition SignalAnswer (now : Z) (callID sender : bytes) (tracks : list TrackInfo) : SignalMessage :=
  new_signal SignalTypeAnswer now callID sender (marshalTracks tracks).
Definition SignalICE (now : Z) (callID sender : bytes) (cand : ICECandidate) : SignalMessage :=
  new_signal SignalTypeICECandidate now callID sender (marshalCandidate cand).
Definition SignalBye (now : Z) (callID sender : bytes) : SignalMessage :=
  new_signal SignalTypeBye now callID sender [].
Definition SignalGroupInvite (now : Z) (callID sender : bytes) (peers : list bytes) : SignalMessage :=
  new_signal SignalTypeGroupInvite now callID sender (marshalPeers peers).
Definition DecodeSignal (data : bytes) : result SignalMessage := unmarshalSignal data.

Record CallSignaling := mkCallSignaling {
  cs_callID : bytes;
  cs_caller : bytes;
  cs_callee : bytes;
  cs_channel : bytes;
  cs_callerKey : bytes;
  cs_privKey : bytes;
}.

Definition NewCallSignaling (call : Call) (channel callerKey privKey : bytes) : CallSignaling :=
  mkCallSignaling (c_id call) (c_caller call) (c_callee call) channel callerKey privKey.

Definition send_signed (alive : bool) (now : Z) (msg : SignalMessage) (s : CallSignaling) (c : StoreChannel)
    : result unit * StoreChannel :=
  SendSignal alive now (cs_channel s) (cs_callerKey s) (Calls.Sign msg (cs_privKey s)) c.

Definition SendOffer (alive : bool) (now : Z) (tracks : list TrackInfo) (s : CallSignaling) :=
  send_signed alive now (SignalOffer now (cs_callID s) (cs_caller s) tracks) s.
Definition SendAnswer (alive : bool) (now : Z) (tracks : list TrackInfo) (s : CallSignaling) :=
  send_signed alive now (SignalAnswer now (cs_callID s) (cs_callee s) tracks) s.
Definition SendICE (alive : bool) (now : Z) (cand : ICECandidate) (s : CallSignaling) :=
  send_signed alive now (SignalICE now (cs_callID s) (cs_caller s) cand) s.
Definition SendBye (alive : bool) (now : Z) (s : CallSignaling) :=
  send_signed alive now (SignalBye now (cs_callID s) (cs_caller s)) s.

(** ** The service *)

(** A handler is known by a number. *)
Record VoiceServer := mkVoice {
  vs_calls : CallManager;
  vs_trackers : gmap bytes TrackManager;
  vs_handlers : gmap bytes nat;
  vs_channel : bool;
  vs_closed : bool;
  vs_privKey : bytes;
}.

Definition NewVoiceServer (privKey : bytes) : VoiceServer := mkVoice NewCallManager ∅ ∅ false false privKey.

Definition with_calls (m : CallManager) (v : VoiceServer) : VoiceServer :=
  mkVoice m (vs_trackers v) (vs_handlers v) (vs_channel v) (vs_closed v) (vs_privKey v).
Definition SetSignalingChannel (v : VoiceServer) : VoiceServer :=
  mkVoice (vs_calls v) (vs_trackers v) (vs_handlers v) true (vs_closed v) (vs_privKey v).
Definition RegisterPeerHandler (trackID : bytes) (h : nat) (v : VoiceServer) : VoiceServer :=
  mkVoice (vs_calls v) (vs_trackers v) (<[trackID := h]> (vs_handlers v)) (vs_channel v) (vs_closed v) (vs_privKey v).
(** The manager of a peer, made when it is first asked for; what its holder
    changes is changed in the entry. *)
Definition TrackManager_ (peer : bytes) (v : VoiceServer) : TrackManager * VoiceServer :=
  match vs_trackers v !! peer with
  | Some tm => (tm, v)
  | None =>
      (NewTrackManager,
       mkVoice (vs_calls v) (<[peer := NewTrackManager]> (vs_trackers v)) (vs_handlers v) (vs_channel v) (vs_closed v)
         (vs_privKey v))
  end.
Definition voice_ActiveCalls (v : VoiceServer) : list ref := ActiveCalls (vs_calls v).
Definition voice_Close (v : VoiceServer) : VoiceServer :=
  mkVoice (Calls.Stop (vs_calls v)) (vs_trackers v) (vs_handlers v) (vs_channel v) true (vs_privKey v).

Definition ErrServerClosed : goerror := ErrText "voice server closed".
Definition ErrNoSignalingChannel : goerror := ErrText "the voice service has no signalling channel configured".

Definition StartCall (now : Z) (cfg : CallConfig) (v : VoiceServer) : result CallSignaling * VoiceServer :=
  if vs_closed v then (Err ErrServerClosed, v) else
  match Create now cfg (vs_calls v) with
  | (Some p, m) =>
      let v := with_calls m v in
      match heap m !! p with
      | Some call =>
          let privKey := default (vs_privKey v) (cfg_PrivKey cfg) in
          (Ok (NewCallSignaling call (cfg_ChannelID cfg) (cfg_Caller cfg) privKey), v)
      | None => (Err (ErrText "failed to create call"), v)
      end
  | (None, m) => (Err (ErrText "failed to create call"), with_calls m v)
  end.

Definition PlaceCall (alive : bool) (now : Z) (cfg : CallConfig) (tracks : list TrackInfo) (v : VoiceServer)
    (c : StoreChannel) : result CallSignaling * VoiceServer * StoreChannel :=
  if vs_closed v then (Err ErrServerClosed, v, c)
  else if negb (vs_channel v) then (Err ErrNoSignalingChannel, v, c)
  else
    match StartCall now cfg v with
    | (Err e, v) => (Err e, v, c)
    | (Ok sig, v) =>
        match SendOffer alive now tracks sig c with
        | (Err _, c) => (Err (ErrText "publish offer"), v, c)
        | (Ok _, c) => (Ok sig, v, c)
        end
    end.

Definition AwaitSignal (channelID peer : bytes) (sigType : Z) (v : VoiceServer) (start : StoreChannel)
    (polls : list StoreChannel) : result SignalMessage :=
  if negb (vs_channel v) then Err ErrNoSignalingChannel else WaitForSignal channelID peer sigType start polls.

(** The call behind an ID, as it is after the operation on the table. *)
Definition call_at (callID : bytes) (m : CallManager) : result Call :=
  match Get callID m with
  | Err e => Err e
  | Ok p => match heap m !! p with Some call => Ok call | None => Err ErrCallNotFound end
  end.

Definition AcceptCall (alive : bool) (now : Z) (callID : bytes) (tracks : list TrackInfo) (v : VoiceServer)
    (c : StoreChannel) : result unit * VoiceServer * StoreChannel :=
  if vs_closed v then (Err ErrServerClosed, v, c) else
  match Accept callID (vs_calls v) with
  | (Err e, m) => (Err e, with_calls m v, c)
  | (Ok _, m) =>
      let v := with_calls m v in
      match call_at callID m with
      | Err e => (Err e, v, c)
      | Ok call =>
          let sig := NewCallSignaling call (c_channelID call) (c_callee call) (vs_privKey v) in
          let '(r, c) := SendAnswer alive now tracks sig c in (r, v, c)
      end
  end.

Definition EndCall (alive : bool) (now : Z) (callID : bytes) (v : VoiceServer) (c : StoreChannel)
    : result unit * VoiceServer * StoreChannel :=
  if vs_closed v then (Err ErrServerClosed, v, c) else
  match call_at callID (vs_calls v) with
  | Err e => (Err e, v, c)
  | Ok call =>
      let sig := NewCallSignaling call (c_channelID call) (c_callee call) (vs_privKey v) in
      let '(_, c) := SendBye alive now sig c in
      let '(r, m) := End callID (vs_calls v) in (r, with_calls m v, c)
  end.

(** What a stream of media leads to, given what its one read returned: the
    handler that is called, with its arguments. *)
Definition handleStream (read : result bytes) (v : VoiceServer) : option (nat * bytes * bytes * bytes) :=
  match read with
  | Err _ => None
  | Ok buf =>
      if len buf <? 18 then None else
      let callID := take 16 buf in
      let trackIDLen := be_get (take 2 (drop 16 buf)) in
      if len buf <? 18 + trackIDLen then None else
      let n := Z.to_nat trackIDLen in
      let trackID := take n (drop 18 buf) in
      match call_at callID (vs_calls v) with
      | Err _ => None
      | Ok call =>
          h ← vs_handlers v !! trackID; Some (h, c_callee call, trackID, drop n (drop 18 buf))
      end
  end.
End signals.

(** * Lemmas *)

Section props.
Context `{Hash256, Ed25519, SignalJSON}.

Definition channel_msgs (channel : bytes) (c : StoreChannel) : list Messaging.Message :=
  history_of (channelFor channel) (sc_store c).

(** What makes a cursor over a channel work. *)
Definition readable (l : list Messaging.Message) : Prop :=
  NoDup (msg_ID <$> l) /\ Forall (fun m => msg_ID m <> []) l /\ Forall (fun m => 33 <= len (msg_Content m)) l.

Definition unwrapped (m : Messaging.Message) : Signaled :=
  mkSignaled (msg_ID m) (take 32 (msg_Content m)) (u8 (nth 32 (msg_Content m) Byte.x00)) (drop 33 (msg_Content m)).

Lemma unwrap_all l : Forall (fun m => 33 <= len (msg_Content m)) l -> omap unwrap l = unwrapped <$> l.
Proof.
  induction 1 as [|m l Hm _ IH]; [done|]. cbn [omap list_omap fmap list_fmap]. unfold unwrap at 1.
  assert (len (msg_Content m) <? 33 = false) as -> by (apply Z.ltb_ge; lia). by f_equal.
Qed.

Definition cursor_after (got : list Messaging.Message) : bytes :=
  match last got with Some m => msg_ID m | None => [] end.

Lemma channel_page channel c got rest :
  channel_msgs channel c = got ++ rest -> readable (got ++ rest) ->
  channel_History channel (cursor_after got) signalingHistoryLimit c = unwrapped <$> take 64 rest.
Proof.
  intros Hh (Hnd & Hne & Hl). unfold channel_History, cursor_after.
  rewrite (History_page _ _ _ got rest Hh Hnd Hne).
  change (signalingHistoryLimit <=? 0) with false. change (Z.to_nat signalingHistoryLimit) with 64%nat. cbv iota.
  apply unwrap_all. apply Forall_app in Hl as [_ Hl]. by apply Forall_take.
Qed.

(** Whether a message is a signal of this type from this peer, and which. *)
Definition signal_in (peer : bytes) (sigType : Z) (m : Messaging.Message) : option SignalMessage :=
  if decide (take 32 (msg_Content m) <> peer) then None else
  match unmarshalSignal (drop 33 (msg_Content m)) with
  | Err _ => None
  | Ok msg => if decide (s_Type msg <> sigType) then None else Some msg
  end.

(** The first of them in a list. *)
Fixpoint first_signal (peer : bytes) (sigType : Z) (l : list Messaging.Message) : option SignalMessage :=
  match l with
  | [] => None
  | m :: l => match signal_in peer sigType m with Some s => Some s | None => first_signal peer sigType l end
  end.

Lemma scan_batch_first peer sigType l cursor :
  (scan_batch peer sigType (unwrapped <$> l) cursor).1 = first_signal peer sigType l /\
  (first_signal peer sigType l = None -> (scan_batch peer sigType (unwrapped <$> l) cursor).2
     = match last l with Some m => msg_ID m | None => cursor end).
Proof.
  revert cursor. induction l as [|m l IH]; intros cursor; [done|].
  cbn [fmap list_fmap scan_batch first_signal]. cbn [unwrapped sg_ID sg_Sender sg_Content]. unfold signal_in.
  destruct (IH (msg_ID m)) as [IH1 IH2].
  assert (match last (m :: l) with Some m0 => msg_ID m0 | None => cursor end
    = match last l with Some m0 => msg_ID m0 | None => msg_ID m end) as Hlast.
  { rewrite last_cons. by destruct (last l). }
  rewrite Hlast. case_decide; [by split|]. destruct (unmarshalSignal _); [|by split]. case_decide; by split.
Qed.

Lemma first_signal_app peer sigType l k :
  first_signal peer sigType (l ++ k)
  = match first_signal peer sigType l with Some s => Some s | None => first_signal peer sigType k end.
Proof. induction l as [|m l IH]; cbn [app first_signal]; [done|]. by destruct (signal_in _ _ m). Qed.

(** Polling an unchanging channel finds the first matching signal behind the
    cursor, if there are polls enough to read that far: 64 messages each. *)
Lemma poll_signals_first channel peer sigType n c got rest :
  channel_msgs channel c = got ++ rest -> readable (got ++ rest) -> (length rest <= 64 * n)%nat ->
  (poll_signals channel peer sigType (replicate n c) (cursor_after got)).1
  = match first_signal peer sigType rest with
    | Some s => Ok s
    | None => Err (ErrText "context deadline exceeded")
    end.
Proof.
  revert got rest. induction n as [|n IH]; intros got rest Hh Hr Hl.
  { destruct rest; [done|simpl in Hl; lia]. }
  cbn [replicate poll_signals]. rewrite (channel_page _ _ _ _ Hh Hr).
  destruct (scan_batch_first peer sigType (take 64 rest) (cursor_after got)) as [Hs1 Hs2].
  assert (first_signal peer sigType rest = match first_signal peer sigType (take 64 rest) with
    Some s => Some s | None => first_signal peer sigType (drop 64 rest) end) as -> by (by rewrite <- first_signal_app, take_drop).
  destruct (scan_batch _ _ _ _) as [[s|] cur]; cbn [fst snd] in *; [by rewrite <- Hs1|].
  rewrite <- Hs1. rewrite Hs2 by done.
  assert (match last (take 64 rest) with Some m => msg_ID m | None => cursor_after got end
          = cursor_after (got ++ take 64 rest)) as ->.
  { unfold cursor_after. rewrite last_app. by destruct (last (take 64 rest)). }
  apply IH; rewrite <- ?app_assoc, ?take_drop; try done. rewrite length_drop. lia.
Qed.

(** Polls on which nothing new is there. *)
Lemma poll_idle channel peer sigType n c polls :
  readable (channel_msgs channel c) ->
  poll_signals channel peer sigType (replicate n c ++ polls) (cursor_after (channel_msgs channel c))
  = poll_signals channel peer sigType polls (cursor_after (channel_msgs channel c)).
Proof.
  intros Hr. induction n as [|n IH]; [done|]. cbn [replicate app poll_signals].
  rewrite (channel_page _ _ (channel_msgs channel c) []); [done| |]; by rewrite app_nil_r.
Qed.

Lemma Publish_appends alive now channel sender ty content c :
  len content <= maxSignaledPayload -> alive = true ->
  let id := (nextMessageID now sender content c).1 in
  exists c', channel_Publish alive now channel sender ty content c = (Ok tt, c') /\
    channel_msgs channel c' = channel_msgs channel c
      ++ [mkMsg id (channelFor channel) sender (time_unix_nano now) (envelope sender ty content) [] [] ty].
Proof.
  intros Hl -> id. unfold channel_Publish. assert (maxSignaledPayload <? len content = false) as -> by (apply Z.ltb_ge; lia).
  cbn [negb]. unfold id, nextMessageID. eexists. split; [reflexivity|].
  unfold channel_msgs, history_of, Append. cbn [sc_store]. by rewrite lookup_insert_eq.
Qed.

Lemma envelope_parts sender ty content :
  length sender = 32%nat ->
  take 32 (envelope sender ty content) = sender /\ drop 33 (envelope sender ty content) = content /\
  33 <= len (envelope sender ty content).
Proof.
  intros Hs. unfold envelope. split; [by apply take_app_exact|]. split.
  - change 33%nat with (32 + 1)%nat. rewrite <- drop_drop, drop_app_exact by done. done.
  - rewrite len_app. unfold len. cbn [length]. lia.
Qed.

End props.

(** ** Examples *)

Module SignalSample.
#[local] Existing Instance sha3_256_hash.
#[local] Existing Instance toy_ed25519.

(** A self-delimiting encoding of signals, for the laws of the interface. *)
Fixpoint esc (b : bytes) : bytes := match b with [] => [byte_of 0] | x :: b => byte_of 1 :: x :: esc b end.
Fixpoint unesc (b : bytes) : bytes * bytes :=
  match b with
  | t :: rest => if decide (t = byte_of 0) then ([], rest) else
      match rest with
      | x :: rest => let '(p, rest) := unesc rest in (x :: p, rest)
      | [] => ([], [])
      end
  | [] => ([], [])
  end.

Lemma unesc_esc b rest : unesc (esc b ++ rest) = (b, rest).
Proof. induction b as [|x b IH]; [done|]. cbn [esc app unesc]. rewrite decide_False by done. by rewrite IH. Qed.

Definition put (m : SignalMessage) : bytes :=
  be_put 1 (s_Type m) ++ s_CallID m ++ s_Sender m ++ be_put 8 (s_Timestamp m) ++ esc (s_Payload m) ++ s_Signature m.
Definition get (b : bytes) : result SignalMessage :=
  if len b <? 58 then Err (ErrText "short") else
  let '(payload, sig) := unesc (drop 57 b) in
  Ok (mkSignal (be_get (take 1 b)) (take 16 (drop 1 b)) (take 32 (drop 17 b))
        (wrapS 64 (be_get (take 8 (drop 49 b)))) payload sig).

Lemma get_put m : signal_typed m -> get (put m) = Ok m.
Proof.
  destruct m as [ty id sender ts payload sig]. intros (Hty & Hid & Hsd & Hts). cbn [s_Type s_CallID s_Sender s_Timestamp] in *.
  unfold get, put. cbn [s_Type s_CallID s_Sender s_Timestamp s_Payload s_Signature].
  assert (len (be_put 1 ty ++ id ++ sender ++ be_put 8 ts ++ esc payload ++ sig) <? 58 = false) as ->.
  { apply Z.ltb_ge. unfold len. rewrite !length_app, !length_be_put.
    assert (0 < length (esc payload))%nat by (destruct payload; simpl; lia). lia. }
  assert (forall (a b : bytes) n, length a = n -> forall k, drop (n + k) (a ++ b) = drop k b) as Hd.
  { intros a b n Hn k. by rewrite <- drop_drop, drop_app_exact. }
  rewrite (Hd _ _ 1%nat (length_be_put _ _) 56%nat), (Hd _ _ 1%nat (length_be_put _ _) 0%nat),
    (Hd _ _ 1%nat (length_be_put _ _) 16%nat), (Hd _ _ 1%nat (length_be_put _ _) 48%nat).
  rewrite (Hd _ _ 16%nat Hid 40%nat), (Hd _ _ 16%nat Hid 0%nat), (Hd _ _ 16%nat Hid 32%nat).
  rewrite (Hd _ _ 32%nat Hsd 8%nat), (Hd _ _ 32%nat Hsd 0%nat).
  rewrite (Hd _ _ 8%nat (length_be_put _ _) 0%nat), !drop_0, unesc_esc.
  rewrite !take_app_exact by (done || apply length_be_put).
  rewrite !be_get_put. change (2 ^ (Z.of_nat 1 * 8)) with 256. change (Z.of_nat 8 * 8) with 64. rewrite (Z.mod_small ty) by lia.
  change (ts mod 2 ^ 64) with (wrapU 64 ts). rewrite wrapS_wrapU, wrapS_small by (unfold int64_min, int64_max in Hts; lia). done.
Qed.

Definition toy_json : SignalJSON := {|
  marshalSignal := put;
  unmarshalSignal := get;
  signal_json_roundtrip := get_put;
  marshalTracks := fun l => concat (t_ID <$> l);
  marshalCandidate := i_ID;
  marshalPeers := fun l => concat l;
|}.
#[local] Existing Instance toy_json.

Definition alice : bytes := replicate 32 (byte_of 1).
Definition bob : bytes := replicate 32 (byte_of 2).
Definition room : bytes := str "call:bob".
Definition cfg_ab : CallConfig := mkCallConfig alice bob room 1 0 false false None.
Definition server : VoiceServer := SetSignalingChannel (NewVoiceServer (str "key")).
Definition noon : Z := unix_epoch * second + 1000.
Definition publish (sender content : bytes) (c : StoreChannel) : StoreChannel :=
  (channel_Publish true noon room sender 1 content c).2.
Definition quiet : StoreChannel := publish bob (str "hello") (NewStoreChannel ∅).
End SignalSample.
Import SignalSample.
#[local] Existing Instance sha3_256_hash.
#[local] Existing Instance toy_ed25519.
#[local] Existing Instance toy_json.


(** A waiter takes the 64th message of the channel for its tail: on a busier
    channel it is given a signal published before it began to wait. *)
Lemma waiter_gets_old_signal :
  let busy := Nat.iter 64 (publish bob (str "hello")) (NewStoreChannel ∅) in
  let old := SignalOffer noon (zeroes 16) alice [] in
  let c := publish alice (marshalSignal old) busy in
  WaitForSignal room alice SignalTypeOffer c [c] = Ok old.
Proof. vm_compute. reflexivity. Qed.

(** A page of messages too short for an envelope is skipped without moving the
    cursor: however long the waiter polls, it never sees the offer behind it. *)
Definition short_page : StoreChannel :=
  let m := mkMsg (str "chat") (channelFor room) bob 0 (str "hi") [] [] 0 in
  publish alice (marshalSignal (SignalOffer noon (zeroes 16) alice []))
    (NewStoreChannel (Nat.iter 64 (Append (channelFor room) m) ∅)).

Lemma short_messages_stall n :
  WaitForSignal room alice SignalTypeOffer (NewStoreChannel ∅) (replicate n short_page)
  = Err (ErrText "context deadline exceeded").
Proof.
  assert (channel_History room [] signalingHistoryLimit short_page = []) as Hp by (vm_compute; reflexivity).
  unfold WaitForSignal, WaitForSignalFrom. rewrite decide_True by done.
  change (channel_History room [] signalingHistoryLimit (NewStoreChannel ∅)) with (@nil Signaled). cbn [last].
  induction n as [|n IH]; [done|]. cbn [replicate poll_signals]. rewrite Hp. exact IH.
Qed.

(** What [MarshalFrame] packs is not what the stream handler reads: the
    sequence number and the key flag end up in front of the payload. *)
Lemma stream_keeps_frame_header :
  let v := RegisterPeerHandler (str "mic") 7 (PlaceCall true noon cfg_ab [] server quiet).1.2 in
  handleStream (Ok (MarshalFrame (call_id alice bob) (str "mic") 9 true (str "hi"))) v
  = Some (7%nat, bob, str "mic", be_put 4 9 ++ byte_of 1 :: str "hi").
Proof. vm_compute. reflexivity. Qed.

(** The waiter does not look at signatures: anyone who can publish under the
    peer's identity is heard as the peer. *)
Lemma unsigned_signal_is_delivered :
  let forged := SignalOffer noon (zeroes 16) alice [] in
  AwaitSignal room alice SignalTypeOffer server quiet [publish alice (marshalSignal forged) quiet] = Ok forged /\
  is_ok (ValidateSignal forged (str "key")) = false.
Proof. vm_compute. done. Qed.

(** Whoever ends a call, the goodbye is published as the callee and says it is
    from the caller: a callee who waits for the caller's does not see it. *)
Lemma goodbye_of_the_caller_is_lost :
  let '(_, v, c) := PlaceCall true noon cfg_ab [] server quiet in
  let '(r, _, c') := EndCall true noon (call_id alice bob) v c in
  r = Ok tt /\
  AwaitSignal room alice SignalTypeBye server c [c'] = Err (ErrText "context deadline exceeded") /\
  exists m, AwaitSignal room bob SignalTypeBye server c [c'] = Ok m /\ s_Sender m = alice.
Proof.
  vm_compute. split; [reflexivity|]. split; [reflexivity|]. eexists. split; reflexivity.
Qed.

(** The node that is called has no such call: nothing it can do with the offer
    puts the call into its table, so it cannot accept it. *)
Lemma called_node_cannot_accept alive now id tracks c :
  let '(r, v, c') := AcceptCall alive now id tracks server c in
  r = Err ErrCallNotFound /\ v = server /\ c' = c.
Proof. by unfold AcceptCall. Qed.
