(* ===== verification/Dashboard.v ===== *)
(** * The dashboard of a node (pkg/gui)

    node.go, what the panels for files, documents, comments, presence, health
    and the audit log read and change, and handler.go, the HTTP handlers before
    them, with the services of the other files behind: the table of file
    metadata, the documents service, the synchronisation engine, the audit log.
    Calls and identity are in [DashboardCalls].

    A handler gets the decoded body of its request (or the error of reading
    it) and answers with a status.  Time stamps stay times where the code
    prints them; lists that come from a map are in the order of some iteration.
    The calls hold the mutex of the API for single fields only, and its fields
    are set once, so it is left out; [SaveDoc] makes many calls to the documents
    service, between which others can come ([saves_interleave]). *)

From S2P Require Import Prelude Bytes Text Hash Decimal Federation FileWire Proto BlockStore FileStore FileSync AuditLog Docs Presence DocsServer.

Local Open Scope Z_scope.

Definition maxCommentLen : Z := 4096.
Definition maxDocBytes : Z := Z.shiftl 4 20.
Definition maxUploadBytes : Z := Z.shiftl 256 20.

Record CommentResponse := mkComment { cm_ID : bytes; cm_Author : bytes; cm_Text : bytes; cm_Created : Z }.

Record PresenceUser := mkUser {
  us_PeerID : bytes;
  us_PeerName : bytes;
  us_Connected : bool;
  us_LastSeen : Z;
  us_Line : Z;
  us_Column : Z;
  us_Selection : option (Z * Z * Z * Z);
}.

Inductive SSEEvent :=
| PresenceEvent (docID : bytes) (users : list PresenceUser)
| OtherEvent (type data : bytes).

(** A client's channel is the list of the events in it. *)
Record NodeAPI := mkAPI {
  a_pubKey : bytes;
  a_nodeID : bytes;
  a_fileStore : option fileStore;
  a_docsSvc : option Service;
  a_docAutosave : gmap bytes bytes;
  a_docComments : gmap bytes (list CommentResponse);
  a_services : gmap bytes bool;
  a_auditLog : option AuditLog;
  a_sseClients : gmap nat (list SSEEvent);
}.

Definition with_files (f : option fileStore) (a : NodeAPI) : NodeAPI :=
  mkAPI (a_pubKey a) (a_nodeID a) f (a_docsSvc a) (a_docAutosave a) (a_docComments a) (a_services a) (a_auditLog a)
    (a_sseClients a).
Definition with_docsSvc (s : option Service) (a : NodeAPI) : NodeAPI :=
  mkAPI (a_pubKey a) (a_nodeID a) (a_fileStore a) s (a_docAutosave a) (a_docComments a) (a_services a) (a_auditLog a)
    (a_sseClients a).
Definition with_autosave (m : gmap bytes bytes) (a : NodeAPI) : NodeAPI :=
  mkAPI (a_pubKey a) (a_nodeID a) (a_fileStore a) (a_docsSvc a) m (a_docComments a) (a_services a) (a_auditLog a)
    (a_sseClients a).
Definition with_comments (m : gmap bytes (list CommentResponse)) (a : NodeAPI) : NodeAPI :=
  mkAPI (a_pubKey a) (a_nodeID a) (a_fileStore a) (a_docsSvc a) (a_docAutosave a) m (a_services a) (a_auditLog a)
    (a_sseClients a).
Definition with_services (m : gmap bytes bool) (a : NodeAPI) : NodeAPI :=
  mkAPI (a_pubKey a) (a_nodeID a) (a_fileStore a) (a_docsSvc a) (a_docAutosave a) (a_docComments a) m (a_auditLog a)
    (a_sseClients a).
Definition with_clients (m : gmap nat (list SSEEvent)) (a : NodeAPI) : NodeAPI :=
  mkAPI (a_pubKey a) (a_nodeID a) (a_fileStore a) (a_docsSvc a) (a_docAutosave a) (a_docComments a) (a_services a)
    (a_auditLog a) m.

Definition NewAPI `{Hash256} (pubKey : bytes) : NodeAPI :=
  mkAPI pubKey (SHA3Hash pubKey) None None ∅ ∅ ∅ None ∅.

Definition SetFileStore (fs : fileStore) (a : NodeAPI) : NodeAPI := with_files (Some fs) a.
Definition SetDocsService (s : Service) (a : NodeAPI) : NodeAPI := with_docsSvc (Some s) a.

(** ** Answers *)

Inductive Response (A : Type) :=
| HttpError (status : Z) (e : goerror)
| Json (status : Z) (body : A).
Arguments HttpError {A} status e.
Arguments Json {A} status body.

Definition StatusOK : Z := 200.
Definition StatusCreated : Z := 201.
Definition StatusBadRequest : Z := 400.
Definition StatusNotFound : Z := 404.
Definition StatusMethodNotAllowed : Z := 405.
Definition StatusRequestEntityTooLarge : Z := 413.
Definition StatusInternalServerError : Z := 500.
Definition StatusServiceUnavailable : Z := 503.

Definition not_allowed {A} : Response A := HttpError StatusMethodNotAllowed (ErrText "method not allowed").

Definition GET : bytes := str "GET".
Definition POST : bytes := str "POST".
Definition PUT : bytes := str "PUT".

(** ** Files *)

Definition mimeForName (name : bytes) : bytes :=
  let e := ToLower (Ext name) in
  if decide (e = str ".txt" \/ e = str ".md") then str "text/plain"
  else if decide (e = str ".json") then str "application/json"
  else if decide (e = str ".html") then str "text/html"
  else if decide (e = str ".css") then str "text/css"
  else if decide (e = str ".js") then str "text/javascript"
  else if decide (e = str ".go") then str "text/x-go"
  else if decide (e = str ".png") then str "image/png"
  else if decide (e = str ".jpg" \/ e = str ".jpeg") then str "image/jpeg"
  else if decide (e = str ".pdf") then str "application/pdf"
  else str "application/octet-stream".

Record FileResponse := mkFileResponse {
  fr_ID : bytes;
  fr_Name : bytes;
  fr_Size : Z;
  fr_MimeType : bytes;
  fr_Modified : Z;
  fr_Version : Z;
}.

Section files.
Context `{HC : CidLib} `{HT : !CidText}.

Definition CidFor (data : bytes) : result bytes :=
  if decide (data = []) then Err (ErrText "cannot identify an empty block") else Ok (computeBlockCID data).

(** [now] is read once here, and again ([put_at]) inside [PutFile]. *)
Definition StoreFile (now put_at : Z) (name data : bytes) (a : NodeAPI) : result FileMeta * NodeAPI :=
  match a_fileStore a with
  | None => (Err (ErrText "this node has no file store, so nothing was saved"), a)
  | Some fs =>
      if decide (data = []) then (Err (ErrText "refusing to store an empty file"), a) else
      match CidFor data with
      | Err _ => (Err (ErrText "identify file"), a)
      | Ok c =>
          let m := mkFileMeta c name (len data) (mimeForName name) now now [] 1 [] in
          match PutFile put_at (Some m) data fs with
          | (Err _, fs) => (Err (ErrText "store file"), with_files (Some fs) a)
          | (Ok _, fs) => (Ok m, with_files (Some fs) a)
          end
      end
  end.

Definition file_row (m : FileMeta) : FileResponse :=
  mkFileResponse (cid_String (fm_CID m)) (fm_Name m) (fm_Size m) (fm_MimeType m) (fm_Modified m) (fm_Version m).

Definition Files (a : NodeAPI) : list FileResponse :=
  match a_fileStore a with None => [] | Some fs => file_row <$> ListFiles fs end.

Definition handleFilesList (method : bytes) (a : NodeAPI) : Response (list FileResponse) :=
  if decide (method = GET) then Json StatusOK (Files a) else not_allowed.

(** [filepath.Clean] of a rooted path, as the list of its elements, last
    first: empty ones and dots are dropped, two dots take the one before away. *)
Definition clean_step (stack : list bytes) (e : bytes) : list bytes :=
  if decide (e = [] \/ e = str ".") then stack
  else if decide (e = str "..") then tail stack
  else e :: stack.

Definition clean_rooted (path : bytes) : list bytes := foldl clean_step [] (Split Byte.x2f path).

(** [filepath.Base(filepath.Clean("/" + name))] *)
Definition base_name (name : bytes) : bytes :=
  match clean_rooted (Byte.x2f :: name) with [] => [Byte.x2f] | e :: _ => e end.

(** [http.MaxBytesReader]: reading beyond the limit is an error. *)
Definition read_body (limit : Z) (body : result bytes) : result bytes :=
  match body with
  | Ok b => if limit <? len b then Err (ErrText "http: request body too large") else Ok b
  | Err e => Err e
  end.

Definition handleFilesUpload (now put_at : Z) (method name : bytes) (body : result bytes) (a : NodeAPI)
    : Response (bytes * bytes * Z) * NodeAPI :=
  if decide (method <> POST) then (not_allowed, a) else
  if decide (name = []) then (HttpError StatusBadRequest (ErrText "name is required"), a) else
  let name := base_name name in
  if decide (name = str "." \/ name = [Byte.x2f] \/ name = [])
  then (HttpError StatusBadRequest (ErrText "invalid name"), a) else
  match read_body maxUploadBytes body with
  | Err _ => (HttpError StatusBadRequest (ErrText "read body"), a)
  | Ok data =>
      if decide (data = []) then (HttpError StatusBadRequest (ErrText "empty upload"), a) else
      match StoreFile now put_at name data a with
      | (Err e, a) => (HttpError StatusInternalServerError e, a)
      | (Ok m, a) => (Json StatusCreated (cid_String (fm_CID m), fm_Name m, fm_Size m), a)
      end
  end.
End files.

(** ** Transfers *)

Record TransferResponse := mkTransfer {
  tr_Name : bytes;
  tr_Status : bytes;
  tr_PeerName : bytes;
  tr_TotalSize : Z;
  tr_BlocksTotal : Z;
  tr_BlocksDone : Z;
  tr_BlocksFailed : Z;
  tr_BytesRecv : Z;
  tr_Error : option goerror;
}.

Definition transfer_status (p : SyncProgress) : bytes :=
  match pr_Err p with
  | Some _ => str "failed"
  | None =>
      match pr_InFlight p with
      | [] => if 0 <? pr_BytesRecv p then str "complete" else str "idle"
      | _ => str "in-flight"
      end
  end.

Definition transfer_row (p : SyncProgress) : TransferResponse :=
  let peer := fmtHex (take 6 (pr_PeerID p)) in
  let total := Z.of_nat (length (pr_Have p)) in
  let flying := Z.of_nat (length (pr_InFlight p)) in
  mkTransfer (str "sync-" ++ peer) (transfer_status p) peer (pr_TotalBytes p) total (total - flying) flying
    (pr_BytesRecv p) (pr_Err p).

(** The engine with the block store it measures against. *)
Definition Transfers (engine : option (memoryStore * syncEngine)) : list TransferResponse :=
  match engine with None => [] | Some (st, e) => transfer_row <$> Progress st e end.

(** ** Services and the audit log *)

Definition serviceNames : list bytes :=
  str <$> ["dns"; "http"; "email"; "messaging"; "files"; "docs"; "registry"; "voice"; "vpn"]%string.

Definition SetServiceRunning (name : bytes) (running : bool) (a : NodeAPI) : NodeAPI :=
  with_services (<[name := running]> (a_services a)) a.

(** [None] is the panic on an unknown name. *)
Definition SetServiceLive (running : bool) (name : bytes) (a : NodeAPI) : option NodeAPI :=
  if decide (name ∈ serviceNames) then Some (SetServiceRunning name running a) else None.

(** [store], [peerStore] and [discovery] say which of them are wired. *)
Definition ServiceHealth (store peerStore discovery : bool) (a : NodeAPI) : gmap bytes bool :=
  let own : gmap bytes bool :=
    {[ str "store" := store; str "peerStore" := peerStore; str "discovery" := discovery;
       str "audit" := bool_decide (is_Some (a_auditLog a)); str "gui" := true ]} in
  foldl (fun health svc => <[svc := default false (a_services a !! svc)]> health) own serviceNames.

Inductive AuditState := AuditStateUnavailable | AuditStateVerified | AuditStateTampered.

Section audit.
Context `{Hash256} `{EventJSON}.

Definition AuditIntegrity (a : NodeAPI) : AuditState * bool :=
  match a_auditLog a with
  | None => (AuditStateUnavailable, false)
  | Some l => match VerifyIntegrity l with
              | Err _ => (AuditStateTampered, true)
              | Ok _ => (AuditStateVerified, true)
              end
  end.

Definition AuditLogVerified (a : NodeAPI) : bool :=
  match a_auditLog a with
  | None => false
  | Some l => match VerifyIntegrity l with Ok _ => true | Err _ => false end
  end.

(** The body: whether the log verified, and the state. *)
Definition handleAuditVerify (a : NodeAPI) : Response (bool * AuditState) :=
  let '(state, hasLog) := AuditIntegrity a in
  if hasLog then Json StatusOK (match state with AuditStateVerified => true | _ => false end, state)
  else Json StatusInternalServerError (false, AuditStateUnavailable).
End audit.

Definition status_NodeID (a : NodeAPI) : bytes := fmtHex (take 8 (a_nodeID a)).

Definition handleReadyz (a : NodeAPI) : Response bytes :=
  if decide (status_NodeID a = []) then Json StatusServiceUnavailable (str "not ready")
  else Json StatusOK (str "ready").

(** ** Documents *)

Definition TrimPrefix (s p : bytes) : bytes := match strip_prefix p s with Some r => r | None => s end.

Definition docIDFromPath (prefix path : bytes) : option bytes :=
  let id := TrimPrefix path prefix in
  if decide (id = [] \/ Byte.x2f ∈ id) then None else Some id.

(** The body as decoded, or the error of reading or decoding it. *)
Definition decodeDocContent (body : result bytes) : bytes + Response bytes :=
  match body with
  | Err _ => inr (HttpError StatusBadRequest (ErrText "invalid JSON body"))
  | Ok content => if maxDocBytes <? len content
                  then inr (HttpError StatusRequestEntityTooLarge (ErrText "document too large"))
                  else inl content
  end.

Definition DocContent (docID : bytes) (a : NodeAPI) : option bytes :=
  svc ← a_docsSvc a; d ← GetDocument docID svc; Some (Text d).

Record DocResponse := mkDocResponse { dr_ID : bytes; dr_Title : bytes; dr_Content : bytes; dr_Version : Z }.

Definition Doc (docID : bytes) (a : NodeAPI) : option DocResponse :=
  svc ← a_docsSvc a; d ← GetDocument docID svc; Some (mkDocResponse (d_id d) (d_title d) (Text d) (d_version d)).

Definition CreateDoc (docID title : bytes) (a : NodeAPI) : result bytes * NodeAPI :=
  match a_docsSvc a with
  | None => (Err (ErrText "docs service not running"), a)
  | Some svc =>
      if decide (docID = []) then (Err (ErrText "document id is required"), a) else
      let '(d, svc) := CreateDocument docID title svc in
      (Ok (d_id d), with_docsSvc (Some svc) a)
  end.

Definition save_result : Type := result unit * Service * list Broadcast.

(** One call to the service; its broadcasts follow those before. *)
Definition then_call (sent : list Broadcast) (msg : string) (r : option (result OpResult * Service * list Broadcast))
    (k : Service -> list Broadcast -> option save_result) : option save_result :=
  '(r, s, b) ← r;
  match r with
  | Err _ => Some (Err (ErrText msg), s, sent ++ b)
  | Ok _ => k s (sent ++ b)
  end.

(** The clock is read by every call: [now k] by the one at line [k]. *)
Fixpoint delete_lines (now : nat -> Z) (docID author : bytes) (n : nat) (s : Service) (sent : list Broadcast)
    (k : Service -> list Broadcast -> option save_result) : option save_result :=
  match n with
  | O => k s sent
  | S i => then_call sent "delete line" (DeleteLine (now i) docID author (Z.of_nat i) s)
             (fun s sent => delete_lines now docID author i s sent k)
  end.

Fixpoint insert_lines (now : nat -> Z) (docID author : bytes) (i : nat) (lines : list bytes) (s : Service)
    (sent : list Broadcast) : option save_result :=
  match lines with
  | [] => Some (Ok tt, s, sent)
  | line :: lines =>
      then_call sent "insert line" (InsertText (now i) docID author (Z.of_nat i) line s)
        (fun s sent => insert_lines now docID author (S i) lines s sent)
  end.

(** [None] is a panic in the documents service. *)
Definition SaveDoc (now now' : nat -> Z) (docID content : bytes) (a : NodeAPI)
    : option (result unit * NodeAPI * list Broadcast) :=
  if maxDocBytes <? len content then Some (Err (ErrText "document too large"), a, []) else
  match a_docsSvc a with
  | None => Some (Err (ErrText "docs service not running"), a, [])
  | Some svc =>
      match GetDocument docID svc with
      | None => Some (Err (ErrText "document not found"), a, [])
      | Some d =>
          '(r, svc, sent) ← delete_lines now docID (a_pubKey a) (length (d_lines d)) svc []
                             (insert_lines now' docID (a_pubKey a) 0 (Split Byte.x0a content));
          let a := with_docsSvc (Some svc) a in
          Some (match r with
                | Err e => (Err e, a, sent)
                | Ok _ => (Ok tt, with_autosave (<[docID := content]> (a_docAutosave a)) a, sent)
                end)
      end
  end.

Definition save_prefix : bytes := str "/api/docs/save/".
Definition autosave_prefix : bytes := str "/api/docs/autosave/".

(** [handleDocsSave] and [handleDocsAutosave] differ in the prefix and in the
    word of the answer. *)
Definition handle_save (prefix word : bytes) (now now' : nat -> Z) (method path : bytes) (body : result bytes)
    (a : NodeAPI) : option (Response bytes * NodeAPI * list Broadcast) :=
  if decide (method <> POST /\ method <> PUT) then Some (not_allowed, a, []) else
  match docIDFromPath prefix path with
  | None => Some (HttpError StatusBadRequest (ErrText "document id required"), a, [])
  | Some docID =>
      match decodeDocContent body with
      | inr r => Some (r, a, [])
      | inl content =>
          '(r, a, sent) ← SaveDoc now now' docID content a;
          Some (match r with
                | Err e => (HttpError StatusServiceUnavailable e, a, sent)
                | Ok _ => (Json StatusOK word, a, sent)
                end)
      end
  end.

Definition handleDocsSave := handle_save save_prefix (str "saved").
Definition handleDocsAutosave := handle_save autosave_prefix (str "autosaved").

Record CreateBody := mkCreate { cb_ID : bytes; cb_Name : bytes; cb_Title : bytes }.

(** The answer: the ID and the title asked for. *)
Definition handleDocsCreate (now : Z) (method : bytes) (body : result CreateBody) (a : NodeAPI)
    : Response (bytes * bytes) * NodeAPI :=
  if decide (method <> POST) then (not_allowed, a) else
  match body with
  | Err _ => (HttpError StatusBadRequest (ErrText "invalid JSON body"), a)
  | Ok b =>
      let title := if decide (cb_Title b = []) then cb_Name b else cb_Title b in
      let id := if decide (cb_ID b = []) then str "doc-" ++ dec (time_unix_nano now) else cb_ID b in
      match CreateDoc id title a with
      | (Err e, a) => (HttpError StatusServiceUnavailable e, a)
      | (Ok id, a) => (Json StatusOK (id, title), a)
      end
  end.

Definition handleDocsContent (method path : bytes) (a : NodeAPI) : Response (bytes * bytes) :=
  if decide (method <> GET) then not_allowed else
  match docIDFromPath (str "/api/docs/content/") path with
  | None => HttpError StatusBadRequest (ErrText "document id required")
  | Some docID => match DocContent docID a with
                  | None => HttpError StatusNotFound (ErrText "document not found")
                  | Some content => Json StatusOK (docID, content)
                  end
  end.

Definition handleDocsDocument (method path : bytes) (a : NodeAPI) : Response DocResponse :=
  if decide (method <> GET) then not_allowed else
  match docIDFromPath (str "/api/docs/documents/") path with
  | None => HttpError StatusBadRequest (ErrText "document id required")
  | Some docID => match Doc docID a with
                  | None => HttpError StatusNotFound (ErrText "document not found")
                  | Some doc => Json StatusOK doc
                  end
  end.

(** ** Comments *)

Definition DocComments (docID : bytes) (a : NodeAPI) : list CommentResponse := default [] (a_docComments a !! docID).

Definition AddDocComment (now created : Z) (docID author text : bytes) (a : NodeAPI)
    : result CommentResponse * NodeAPI :=
  if decide (docID = []) then (Err (ErrText "document id is required"), a) else
  let text := TrimSpace text in
  if decide (text = []) then (Err (ErrText "comment text is required"), a) else
  if maxCommentLen <? len text then (Err (ErrText "comment too long"), a) else
  let author := if 256 <? len author then take 256 author else author in
  let c := mkComment (str "c-" ++ dec (time_unix_nano now)) author text created in
  (Ok c, with_comments (<[docID := DocComments docID a ++ [c]]> (a_docComments a)) a).

Definition handleDocsComments (now created : Z) (method path : bytes) (body : result (bytes * bytes)) (a : NodeAPI)
    : Response (list CommentResponse + CommentResponse) * NodeAPI :=
  match docIDFromPath (str "/api/docs/comments/") path with
  | None => (HttpError StatusBadRequest (ErrText "document id required"), a)
  | Some docID =>
      if decide (method = GET) then (Json StatusOK (inl (DocComments docID a)), a)
      else if decide (method = POST) then
        match body with
        | Err _ => (HttpError StatusBadRequest (ErrText "invalid JSON body"), a)
        | Ok (author, text) =>
            match AddDocComment now created docID author text a with
            | (Err e, a) => (HttpError StatusBadRequest e, a)
            | (Ok c, a) => (Json StatusOK (inr c), a)
            end
        end
      else (not_allowed, a)
  end.

(** ** Presence and events *)

Definition presence_user (p : PeerPresence) : PresenceUser :=
  mkUser (pp_PeerID p) (pp_PeerName p) (pp_Connected p) (pp_LastSeen p) (cu_Line (pp_Cursor p))
    (cu_Column (pp_Cursor p))
    ((fun s => (StartLine s, StartCol s, EndLine s, EndCol s)) <$> pp_Selection p).

(** Asking for the list also drops who has expired. *)
Definition DocPresence (now : Z) (docID : bytes) (a : NodeAPI) : list PresenceUser * NodeAPI :=
  match a_docsSvc a with
  | None => ([], a)
  | Some svc => let '(peers, svc) := GetDocPresence now docID svc in
                (presence_user <$> peers, with_docsSvc (Some svc) a)
  end.

Definition sse_capacity : nat := 16.

(** A channel that is full does not get the event. *)
Definition offer_event (e : SSEEvent) (ch : list SSEEvent) : list SSEEvent :=
  if decide (length ch < sse_capacity)%nat then ch ++ [e] else ch.

Definition BroadcastEvent (e : SSEEvent) (a : NodeAPI) : NodeAPI :=
  with_clients (offer_event e <$> a_sseClients a) a.

Definition Subscribe (ch : nat) (a : NodeAPI) : NodeAPI := with_clients (<[ch := []]> (a_sseClients a)) a.
Definition Unsubscribe (ch : nat) (a : NodeAPI) : NodeAPI := with_clients (delete ch (a_sseClients a)) a.

Definition BroadcastDocPresence (now : Z) (docID : bytes) (a : NodeAPI) : NodeAPI :=
  let '(users, a) := DocPresence now docID a in BroadcastEvent (PresenceEvent docID users) a.

Section presence.
Context `{Hash256}.

Definition presence_peer (peerName : bytes) : bytes := SHA3Hash (sha3 (str "presence:" ++ peerName)).

Definition UpdateDocPresence (now now' : Z) (docID peerName : bytes) (line column : Z) (a : NodeAPI)
    : NodeAPI * list Broadcast :=
  match a_docsSvc a with
  | None => (a, [])
  | Some svc =>
      if decide (docID = [] \/ peerName = []) then (a, []) else
      let '(svc, sent) := UpdatePresence now docID peerName (presence_peer peerName) line column svc in
      (BroadcastDocPresence now' docID (with_docsSvc (Some svc) a), sent)
  end.

Record PresenceBody := mkPresenceBody { pb_PeerName : bytes; pb_Line : Z; pb_Column : Z }.

Definition handleDocsPresence (now now' now'' : Z) (method path : bytes) (body : result PresenceBody) (a : NodeAPI)
    : Response (list PresenceUser) * NodeAPI * list Broadcast :=
  match docIDFromPath (str "/api/docs/presence/") path with
  | None => (HttpError StatusBadRequest (ErrText "document id required"), a, [])
  | Some docID =>
      if decide (method = GET) then let '(users, a) := DocPresence now docID a in (Json StatusOK users, a, [])
      else if decide (method = POST) then
        match body with
        | Err _ => (HttpError StatusBadRequest (ErrText "invalid json"), a, [])
        | Ok b =>
            if (pb_Line b <? 0) || (1000000 <? pb_Line b) || (pb_Column b <? 0) || (1000000 <? pb_Column b)
            then (HttpError StatusBadRequest (ErrText "cursor position out of range"), a, [])
            else if decide (pb_PeerName b = []) then (HttpError StatusBadRequest (ErrText "peer_name required"), a, [])
            else if 128 <? len (pb_PeerName b)
            then (HttpError StatusBadRequest (ErrText "peer_name too long"), a, [])
            else
              let '(a, sent) := UpdateDocPresence now now' docID (pb_PeerName b) (pb_Line b) (pb_Column b) a in
              let '(users, a) := DocPresence now'' docID a in
              (Json StatusOK users, a, sent)
        end
      else (not_allowed, a, [])
  end.
End presence.

(** * Saving a document *)

Lemma Split_not_nil sep s : Split sep s <> [].
Proof. destruct s as [|b s]; simpl; [done|]. case_decide; [done|]. by destruct (Split sep s). Qed.

Lemma joinLines_cons l ls : ls <> [] -> joinLines (l :: ls) = l ++ newline ++ joinLines ls.
Proof. by destruct ls. Qed.

Lemma joinLines_Split s : joinLines (Split Byte.x0a s) = s.
Proof.
  induction s as [|b s IH]; [done|]. cbn [Split]. case_decide as E.
  - subst b. rewrite joinLines_cons by apply Split_not_nil. by rewrite IH.
  - destruct (Split Byte.x0a s) as [|a rest] eqn:Es; [by apply Split_not_nil in Es|].
    destruct rest as [|c rest]; cbn [joinLines] in *; by rewrite <- IH.
Qed.

(** What a call to the service does to the document it edits, and to nothing
    else. *)
Definition rewritten (docID : bytes) (lines : list bytes) (s s' : Service) : Prop :=
  exists d d', sv_docs s !! docID = Some d /\ sv_docs s' = <[docID := d']> (sv_docs s)
    /\ d_lines d' = lines /\ doc_ok d' /\ d_id d' = d_id d /\ d_title d' = d_title d
    /\ sv_presence s' = sv_presence s /\ sv_notifier s' = sv_notifier s.

Definition holds (docID : bytes) (lines : list bytes) (s : Service) : Prop :=
  exists d, sv_docs s !! docID = Some d /\ d_lines d = lines /\ doc_ok d.

Lemma rewritten_refl docID lines s : holds docID lines s -> rewritten docID lines s s.
Proof.
  intros (d & Hd & Hl & Hok). exists d, d. rewrite insert_id by done. split_and!; done.
Qed.

Lemma rewritten_trans docID l1 l2 s1 s2 s3 :
  rewritten docID l1 s1 s2 -> rewritten docID l2 s2 s3 -> rewritten docID l2 s1 s3.
Proof.
  intros (d1 & d2 & H1 & H2 & _ & _ & Hi & Ht & Hp & Hn) (d2' & d3 & H3 & H4 & Hl & Hok & Hi' & Ht' & Hp' & Hn').
  rewrite H2, lookup_insert_eq in H3. injection H3 as <-. exists d1, d3.
  rewrite H4, H2, insert_insert_eq. split_and!; congruence || done.
Qed.

Lemma rewritten_holds docID lines s s' : rewritten docID lines s s' -> holds docID lines s'.
Proof.
  intros (d & d' & _ & H & Hl & Hok & _). exists d'. rewrite H, lookup_insert_eq. done.
Qed.

(** A call whose operation the document applies. *)
Lemma applied_call now docID op s d r d' :
  sv_docs s !! docID = Some d -> ApplyOp now op d = Some (r, d') -> Applied r = true ->
  d_id d' = d_id d -> d_title d' = d_title d -> doc_ok d' ->
  exists s' b, ApplyLocalOp now docID op s = Some (Ok r, s', b) /\ rewritten docID (d_lines d') s s'
    /\ length b = (match sv_notifier s with Some _ => 1 | None => 0 end)%nat.
Proof.
  intros Hd Ha Hr Hi Ht Hok. unfold ApplyLocalOp, GetDocument. rewrite Hd, Ha. cbn [mbind option_bind]. rewrite Hr.
  do 2 eexists. split; [done|]. split.
  - exists d, d'. split_and!; done.
  - unfold broadcast. simpl. by destruct (sv_notifier s).
Qed.

Lemma delete_last now docID author ls l s :
  holds docID (ls ++ [l]) s ->
  exists r s' b, DeleteLine now docID author (Z.of_nat (length ls)) s = Some (Ok r, s', b) /\ rewritten docID ls s s'
    /\ length b = (match sv_notifier s with Some _ => 1 | None => 0 end)%nat.
Proof.
  intros (d & Hd & Hl & Hok). unfold DeleteLine. set (op := NewDeleteOp _ _ _ _).
  destruct (ApplyOp_total now op d Hok) as (r & d' & Ha & Hok').
  assert (Ha' := Ha). unfold ApplyOp, op in Ha'. cbn [o_Type NewDeleteOp] in Ha'. unfold applyDelete in Ha'.
  cbn [o_Position NewDeleteOp] in Ha'. unfold line_count in Ha'. rewrite Hl, length_app in Ha'. cbn [length] in Ha'.
  assert ((Z.of_nat (length ls) <? 0) || (Z.of_nat (length ls + 1) <=? Z.of_nat (length ls)) = false) as Hpos
    by (apply orb_false_iff; split; [apply Z.ltb_ge; lia|apply Z.leb_gt; lia]).
  assert (removeSlice (ls ++ [l]) (length ls) = Some ls) as Hrm
    by (rewrite <- (insertSlice_end ls l); by apply removeSlice_insertSlice).
  rewrite Hpos, Nat2Z.id, Hrm in Ha'. cbn [mbind option_bind] in Ha'.
  destruct (removeSlice (d_blockTypes d) (length ls)) as [bts|]; [|done]. cbn [mbind option_bind] in Ha'.
  injection Ha' as <- <-.
  destruct (applied_call now docID op s d _ _ Hd Ha eq_refl eq_refl eq_refl Hok') as (s' & b & E & Hrw & Hb).
  do 3 eexists. split; [exact E|]. by split.
Qed.

Lemma insert_at_end now docID author ls l s :
  holds docID ls s ->
  exists r s' b, InsertText now docID author (Z.of_nat (length ls)) l s = Some (Ok r, s', b)
    /\ rewritten docID (ls ++ [l]) s s' /\ length b = (match sv_notifier s with Some _ => 1 | None => 0 end)%nat.
Proof.
  intros (d & Hd & Hl & Hok). unfold InsertText. set (op := NewInsertOp _ _ _ _ _).
  destruct (ApplyOp_total now op d Hok) as (r & d' & Ha & Hok').
  assert (Ha' := Ha). unfold ApplyOp, op in Ha'. cbn [o_Type NewInsertOp] in Ha'.
  rewrite applyInsert_spec in Ha'; [|done|unfold line_count; cbn [o_Position NewInsertOp]; rewrite Hl; lia].
  injection Ha' as <- <-.
  destruct (applied_call now docID op s d _ _ Hd Ha eq_refl eq_refl eq_refl Hok') as (s' & b & E & Hrw & Hb).
  do 3 eexists. split; [exact E|]. split; [|done]. cbn [edited d_lines] in Hrw.
  unfold op in Hrw. cbn [o_Position o_Value NewInsertOp] in Hrw.
  by rewrite Nat2Z.id, Hl, insertSlice_end in Hrw.
Qed.

(** The number of broadcasts of [n] calls. *)
Definition broadcasts (s : Service) (n : nat) : nat := match sv_notifier s with Some _ => n | None => O end.

Lemma rewritten_broadcasts docID lines s s' n : rewritten docID lines s s' -> broadcasts s' n = broadcasts s n.
Proof. intros (d & d' & _ & _ & _ & _ & _ & _ & _ & Hn). unfold broadcasts. by rewrite Hn. Qed.

Lemma broadcasts_S s (b : list Broadcast) n :
  length b = (match sv_notifier s with Some _ => 1 | None => 0 end)%nat -> (length b + broadcasts s n)%nat = broadcasts s (S n).
Proof. unfold broadcasts. intros ->. by destruct (sv_notifier s). Qed.

Lemma delete_lines_spec now docID author ls s sent k :
  holds docID ls s ->
  exists s' b, delete_lines now docID author (length ls) s sent k = k s' (sent ++ b)
    /\ rewritten docID [] s s' /\ length b = broadcasts s (length ls).
Proof.
  revert s sent. induction ls as [|l ls IH] using rev_ind; intros s sent Hh.
  { exists s, []. rewrite app_nil_r. split_and!; [done|by apply rewritten_refl|]. unfold broadcasts. by case_match. }
  rewrite length_app, Nat.add_1_r. cbn [delete_lines].
  destruct (delete_last (now (length ls)) docID author ls l s Hh) as (r & s1 & b1 & E & Hrw & Hb). rewrite E.
  cbn [then_call mbind option_bind].
  destruct (IH s1 (sent ++ b1)) as (s2 & b2 & E2 & Hrw2 & Hb2); [by eapply rewritten_holds|].
  exists s2, (b1 ++ b2). rewrite E2, app_assoc. split; [done|]. split; [by eapply rewritten_trans|].
  rewrite length_app, Hb2, (rewritten_broadcasts _ _ _ _ _ Hrw). by apply broadcasts_S.
Qed.

Lemma insert_lines_spec now docID author ls lines s sent :
  holds docID ls s ->
  exists s' b, insert_lines now docID author (length ls) lines s sent = Some (Ok tt, s', sent ++ b)
    /\ rewritten docID (ls ++ lines) s s' /\ length b = broadcasts s (length lines).
Proof.
  revert ls s sent. induction lines as [|l lines IH]; intros ls s sent Hh.
  { exists s, []. rewrite !app_nil_r. split_and!; [done|by apply rewritten_refl|]. unfold broadcasts. by case_match. }
  cbn [insert_lines].
  destruct (insert_at_end (now (length ls)) docID author ls l s Hh) as (r & s1 & b1 & E & Hrw & Hb). rewrite E.
  cbn [then_call mbind option_bind].
  destruct (IH (ls ++ [l]) s1 (sent ++ b1)) as (s2 & b2 & E2 & Hrw2 & Hb2); [by eapply rewritten_holds|].
  rewrite length_app, Nat.add_1_r in E2. rewrite <- app_assoc in Hrw2.
  exists s2, (b1 ++ b2). rewrite E2, app_assoc. split; [done|]. split; [by eapply rewritten_trans|].
  rewrite length_app, Hb2, (rewritten_broadcasts _ _ _ _ _ Hrw). cbn [length]. by apply broadcasts_S.
Qed.


(** * Uploads *)

Lemma Split_no_sep sep s : Forall (fun x => sep ∉ x) (Split sep s).
Proof.
  induction s as [|b s IH]; cbn [Split]; [by repeat constructor; set_solver|].
  case_decide as E; [constructor; [set_solver|done]|].
  destruct (Split sep s) as [|x rest]; [by repeat constructor; set_solver|].
  apply Forall_cons in IH as [Hx Hrest]. constructor; [|done]. set_solver.
Qed.

(** A name that stays in its directory. *)
Definition plain_name (n : bytes) : Prop := n <> [] /\ n <> str "." /\ n <> str ".." /\ Byte.x2f ∉ n.

Lemma clean_rooted_plain path : Forall plain_name (clean_rooted path).
Proof.
  unfold clean_rooted. assert (Forall plain_name []) as H0 by constructor. revert H0.
  generalize (@nil bytes) as stack. pose proof (Split_no_sep Byte.x2f path) as Hs. revert Hs.
  generalize (Split Byte.x2f path) as l. induction l as [|e l IH]; intros Hs stack Hst; simpl; [done|].
  apply Forall_cons in Hs as [He Hs]. apply IH; [done|]. unfold clean_step.
  case_decide as E1; [done|]. case_decide as E2; [by destruct Hst|].
  constructor; [|done]. split_and!; [..|done]; naive_solver.
Qed.

Lemma base_name_cases name : plain_name (base_name name) \/ base_name name = [Byte.x2f].
Proof.
  unfold base_name. pose proof (clean_rooted_plain (Byte.x2f :: name)) as H.
  destruct (clean_rooted _) as [|e l]; [by right|left]. by apply Forall_cons in H as [? _].
Qed.

Section uploads.
Context `{HC : CidLib} `{HT : !CidText}.

Lemma cid_nonempty data : computeBlockCID data <> [].
Proof. intros E. pose proof (cid_sum_length data) as H. unfold computeBlockCID in E. by rewrite E in H. Qed.

(** An upload that is accepted has a name without separators that is no
    reference to a directory, whatever the request called it; the answer has
    the identifier and the size of the content, which is at most 256 MiB; and
    content that is new is listed under the name of the answer. *)
Theorem upload_accepted now put_at method name body a st id n size a' :
  handleFilesUpload now put_at method name body a = (Json st (id, n, size), a') ->
  plain_name n
  /\ exists fs data, a_fileStore a = Some fs /\ body = Ok data /\ data <> [] /\ len data <= maxUploadBytes
     /\ id = cid_String (computeBlockCID data) /\ size = len data
     /\ (files fs !! computeBlockCID data = None ->
         mkFileResponse id n size (mimeForName n) put_at 1 ∈ Files a').
Proof.
  unfold handleFilesUpload. case_decide; [done|]. case_decide; [done|]. cbv zeta. case_decide as Hn; [done|].
  assert (plain_name (base_name name)) as Hplain by (destruct (base_name_cases name); [done|naive_solver]).
  unfold read_body. destruct body as [data|e]; [|done].
  destruct (Z.ltb_spec maxUploadBytes (len data)) as [|Hlen]; [done|]. case_decide as Hd; [done|].
  unfold StoreFile. destruct (a_fileStore a) as [fs|] eqn:Hfs; [|done]. rewrite decide_False by done.
  unfold CidFor. rewrite decide_False by done. unfold PutFile. cbn [fm_CID].
  rewrite decide_False by apply cid_nonempty.
  destruct (match files fs !! computeBlockCID data with Some existing => _ | None => false end) eqn:Eold;
    intros [= <- <- <- <- <-]; (split; [done|]); exists fs, data; (split_and!; [done..|]); intros Hnew.
  { by rewrite Hnew in Eold. }
  unfold Files. cbn [a_fileStore with_files]. apply list_elem_of_fmap. eexists. split; [|].
  2: { unfold ListFiles. apply list_elem_of_fmap. exists (computeBlockCID data, stamp put_at
         (mkFileMeta (computeBlockCID data) (base_name name) (len data) (mimeForName (base_name name)) now now [] 1 [])).
       split; [reflexivity|]. apply elem_of_map_to_list. cbn [files]. by rewrite lookup_insert_eq. }
  reflexivity.
Qed.

(** The content of an upload is kept nowhere: all that is changed is the table
    of metadata, and reading the file gives no content. *)
Lemma upload_content_lost now put_at name data a m a' :
  StoreFile now put_at name data a = (Ok m, a') ->
  (exists fs', a' = with_files (Some fs') a /\ exists m', GetFile (computeBlockCID data) fs' = Ok (m', [])) /\ data <> [].
Proof.
  unfold StoreFile. destruct (a_fileStore a) as [fs|]; [|done]. case_decide as Hd; [done|].
  unfold CidFor. rewrite decide_False by done. unfold PutFile. cbn [fm_CID].
  rewrite decide_False by apply cid_nonempty.
  destruct (match files fs !! computeBlockCID data with Some existing => _ | None => false end) eqn:Eold;
    intros [= <- <-]; (split; [|done]); eexists; (split; [reflexivity|]); unfold GetFile; cbn [files].
  - destruct (files fs !! computeBlockCID data) as [m|]; [by eexists|done].
  - rewrite lookup_insert_eq. by eexists.
Qed.

(** A second upload of the same content is answered with its own name and
    listed with the first. *)
Lemma reupload_keeps_name now put_at name data a m a1 now' put_at' name' m' a2 :
  StoreFile now put_at name data a = (Ok m, a1) ->
  StoreFile now' put_at' name' data a1 = (Ok m', a2) ->
  fm_Name m' = name' /\ a2 = a1.
Proof.
  unfold StoreFile. destruct (a_fileStore a) as [fs|]; [|done]. case_decide as Hd; [done|].
  unfold CidFor. rewrite decide_False by done. unfold PutFile at 1. cbn [fm_CID fm_Version].
  rewrite decide_False by apply cid_nonempty.
  destruct (match files fs !! computeBlockCID data with Some existing => _ | None => false end) eqn:Eold;
    intros [= <- <-]; cbn [a_fileStore with_files]; unfold PutFile; cbn [fm_CID fm_Version files];
    rewrite decide_False by apply cid_nonempty.
  - rewrite Eold. intros [= <- <-]. done.
  - rewrite lookup_insert_eq. cbn [fm_Version stamp Z.leb]. intros [= <- <-]. done.
Qed.
End uploads.

(** * Health, presence, comments *)

Lemma foldl_insert_names (f : bytes -> bool) (l : list bytes) (m : gmap bytes bool) (k : bytes) :
  foldl (fun h svc => <[svc := f svc]> h) m l !! k = if decide (k ∈ l) then Some (f k) else m !! k.
Proof.
  revert m. induction l as [|x l IH]; intros m; simpl; [done|]. rewrite IH.
  destruct (decide (k ∈ l)) as [Hin|Hin]; [by rewrite decide_True by set_solver|].
  destruct (decide (x = k)) as [->|Hne]; [rewrite decide_True by set_solver; apply lookup_insert_eq|].
  rewrite decide_False by set_solver. by apply lookup_insert_ne.
Qed.

(** The health of a service is what was last said about it, and the panic is
    for unknown names only. *)
Lemma health_reports_last store peerStore discovery running name a :
  match SetServiceLive running name a with
  | None => name ∉ serviceNames
  | Some a' => ServiceHealth store peerStore discovery a' !! name = Some running
      /\ forall other, other ∈ serviceNames -> other <> name ->
         ServiceHealth store peerStore discovery a' !! other = ServiceHealth store peerStore discovery a !! other
  end.
Proof.
  unfold SetServiceLive. case_decide as Hin; [|done]. unfold ServiceHealth, SetServiceRunning.
  cbn [a_services with_services a_auditLog]. split.
  - rewrite foldl_insert_names, decide_True by done. by rewrite lookup_insert_eq.
  - intros other Ho Hne. rewrite !foldl_insert_names, !decide_True by done. by rewrite lookup_insert_ne.
Qed.

(** Comments are kept in order, trimmed, not empty and within their limits. *)
Lemma comment_added now created docID author text a c a' :
  AddDocComment now created docID author text a = (Ok c, a') ->
  DocComments docID a' = DocComments docID a ++ [c] /\ cm_Text c = TrimSpace text /\ cm_Text c <> []
  /\ len (cm_Text c) <= maxCommentLen /\ len (cm_Author c) <= 256
  /\ forall other, other <> docID -> DocComments other a' = DocComments other a.
Proof.
  unfold AddDocComment. case_decide; [done|]. cbv zeta. case_decide; [done|].
  destruct (Z.ltb_spec maxCommentLen (len (TrimSpace text))); [done|]. intros [= <- <-].
  unfold DocComments. cbn [a_docComments with_comments cm_Text cm_Author]. rewrite lookup_insert_eq.
  split_and!; [done..| |].
  - destruct (Z.ltb_spec 256 (len author)); [|done]. unfold len in *. rewrite length_take. lia.
  - intros other Hne. by rewrite lookup_insert_ne.
Qed.

(** The state of the audit log is that of its hash chain. *)
Lemma audit_answer `{Hash256} `{EventJSON} a :
  handleAuditVerify a
  = match a_auditLog a with
    | None => Json StatusInternalServerError (false, AuditStateUnavailable)
    | Some l => match VerifyIntegrity l with
                | Ok _ => Json StatusOK (true, AuditStateVerified)
                | Err _ => Json StatusOK (false, AuditStateTampered)
                end
    end.
Proof.
  unfold handleAuditVerify, AuditIntegrity. destruct (a_auditLog a) as [l|]; [|done].
  by destruct (VerifyIntegrity l).
Qed.

(** A subscriber whose channel is full stays subscribed and misses the event;
    the others get it at the end of their channels. *)
Lemma broadcast_event e a ch l :
  a_sseClients a !! ch = Some l ->
  a_sseClients (BroadcastEvent e a) !! ch = Some (if decide (length l < 16)%nat then l ++ [e] else l).
Proof. intros H. unfold BroadcastEvent. cbn [a_sseClients with_clients]. by rewrite lookup_fmap, H. Qed.

(** A node is always ready: its ID is never empty. *)
Lemma readyz_always_ready a : length (a_nodeID a) = 32%nat -> handleReadyz a = Json StatusOK (str "ready").
Proof.
  intros Hl. unfold handleReadyz, status_NodeID. rewrite decide_False; [done|].
  intros E%(f_equal length). rewrite length_fmtHex, length_take, Hl in E. done.
Qed.

(** The blocks that are under way are shown as failed. *)
Lemma in_flight_shown_failed p :
  pr_Err p = None -> pr_InFlight p <> [] ->
  tr_Status (transfer_row p) = str "in-flight" /\ tr_BlocksFailed (transfer_row p) = Z.of_nat (length (pr_InFlight p)).
Proof.
  intros He Hf. unfold transfer_row, transfer_status. cbn [tr_Status tr_BlocksFailed]. rewrite He.
  by destruct (pr_InFlight p).
Qed.

(** Creating a document that exists is answered with the title asked for; the
    document keeps its own. *)
Lemma create_existing_answers_new_title now b a svc d :
  a_docsSvc a = Some svc -> service_ok svc -> sv_docs svc !! cb_ID b = Some d -> cb_ID b <> [] -> cb_Title b <> [] ->
  (handleDocsCreate now POST (Ok b) a).1 = Json StatusOK (cb_ID b, cb_Title b)
  /\ dr_Title <$> Doc (cb_ID b) (handleDocsCreate now POST (Ok b) a).2 = Some (d_title d).
Proof.
  intros Ha Hok Hd Hid Ht. destruct (so_docs _ Hok _ _ Hd) as [Hdid _].
  unfold handleDocsCreate, CreateDoc, CreateDocument. rewrite decide_False by (intros H; by apply H).
  rewrite !decide_False by done. cbv zeta. rewrite Ha, decide_False, Hd by done. rewrite Hdid. split; [done|].
  unfold Doc, GetDocument. cbn [snd a_docsSvc with_docsSvc mbind option_bind]. by rewrite Hd.
Qed.

(** * Concrete runs *)

Module DashboardSample.
Definition alice : bytes := replicate 32 (byte_of 200).
Definition service : Service := snd (CreateDocument (str "d1") (str "Notes") (NewService (str "n") None)).
Definition node : NodeAPI := mkAPI alice alice None (Some service) ∅ ∅ ∅ None ∅.
Definition clock (_ : nat) : Z := 7.
Definition saved (content : bytes) (a : NodeAPI) : NodeAPI :=
  match SaveDoc clock clock (str "d1") content a with Some (Ok _, a, _) => a | _ => a end.
Definition two_lines : bytes := str "one" ++ newline ++ str "two".
End DashboardSample.
Import DashboardSample.

Lemma service_ok_sample : service_ok service.
Proof. apply CreateDocument_ok, NewService_ok. Qed.


(** A save loses the block types: a heading is a paragraph after saving the
    text it was loaded with. *)
Lemma save_resets_blocks :
  let types a := (fun d => d_blockTypes d) <$> (a_docsSvc a ≫= GetDocument (str "d1")) in
  match FormatBlock_ 7 (str "d1") alice 0 1 (default service (a_docsSvc (saved two_lines node))) with
  | Some (Ok _, s, _) =>
      let a := with_docsSvc (Some s) node in
      types a = Some [1; 0] /\ types (saved two_lines a) = Some [0; 0]
  | _ => False
  end.
Proof. vm_compute. split; reflexivity. Qed.

(** The calls to the service of one save with those of another between them. *)
Definition call_of (s : option Service) (c : Z + (Z * bytes)) : option Service :=
  s ← s;
  '(_, s, _) ← match c with
               | inl i => DeleteLine 7 (str "d1") alice i s
               | inr (i, l) => InsertText 7 (str "d1") alice i l s
               end;
  Some s.

(** Two saves at once of two lines each leave a mixture: both find no lines to
    delete, and their insertions alternate. *)
Lemma saves_interleave :
  let calls := [inr (0, str "a0"); inr (0, str "b0"); inr (1, str "a1"); inr (1, str "b1")] in
  (s ← foldl call_of (Some service) calls; d ← GetDocument (str "d1") s; Some (d_lines d))
  = Some [str "b0"; str "b1"; str "a1"; str "a0"].
Proof. decide_vm. Qed.

Lemma base_name_examples :
  base_name (str "../../etc/passwd") = str "passwd" /\ base_name (str "..") = [Byte.x2f]
  /\ base_name (str "a/b/") = str "b" /\ base_name (str "notes.txt") = str "notes.txt".
Proof. repeat split. Qed.

#[local] Existing Instance digest_cids.
#[local] Instance plain_text : CidText.
Proof. by refine {| cid_String := fmtHex;
                    cid_Decode := fun b => match hex_pairs b with Some c => Ok c | None => Err (ErrText "cid") end |};
  intros d; rewrite hex_pairs_fmtHex. Defined.

Definition uploading : NodeAPI := SetFileStore NewFileMetadataStore node.

Lemma upload_accepted_witness :
  match handleFilesUpload 1 2 POST (str "../x.md") (Ok (str "hi")) uploading with
  | (Json st (id, n, size), a') => plain_name n /\ n = str "x.md" /\ size = 2
  | _ => False
  end.
Proof.
  destruct (handleFilesUpload 1 2 POST (str "../x.md") (Ok (str "hi")) uploading) as [[st e|st [[id n] size]] a'] eqn:E.
  - apply (f_equal fst) in E. vm_compute in E. discriminate E.
  - destruct (upload_accepted _ _ _ _ _ _ _ _ _ _ _ E) as [Hn _]. split; [exact Hn|].
    apply (f_equal fst) in E. vm_compute in E. injection E as _ _ <- <-. split; reflexivity.
Defined.
