(* ===== verification/DashboardCalls.v ===== *)
(** * Calls and identity on the dashboard (pkg/gui)

    node.go and handler.go: placing a call and waiting for a signal through the
    voice service, its status, and the backup of the identity; String methods
    of services/voice/types.go.  The voice service is [Signaling]'s, the keys
    and backups are [Identity]'s.  [alive] is whether the context of a request
    still is when it publishes; a waiter reads the channel at its start and at
    each of its polls. *)

From S2P Require Import Prelude Bytes Text Decimal Hash Ed25519 Noise Federation Base64 Messaging Tracks Calls Signaling Identity Dashboard.

Local Open Scope Z_scope.

(** ** Names *)

Definition SignalType_String (t : Z) : bytes :=
  if t =? SignalTypeOffer then str "offer"
  else if t =? SignalTypeAnswer then str "answer"
  else if t =? SignalTypeICECandidate then str "ice"
  else if t =? SignalTypeBye then str "bye"
  else if t =? SignalTypeGroupInvite then str "group-invite"
  else str "signal(" ++ dec t ++ str ")".

Definition CodecID_String (c : Z) : bytes :=
  if c =? CodecOpus then str "opus" else if c =? CodecVP8 then str "vp8" else if c =? CodecVP9 then str "vp9"
  else str "codec(" ++ dec c ++ str ")".

Definition CallState_String (s : CallState) : bytes :=
  match s with
  | CallStateIdle => str "idle"
  | CallStateCalling => str "calling"
  | CallStateRinging => str "ringing"
  | CallStateConnected => str "connected"
  | CallStateEnded => str "ended"
  end.

(** ** Peers in requests *)

Definition hex_char (c : byte) : bool :=
  ((48 <=? u8 c) && (u8 c <=? 57)) || ((97 <=? u8 c) && (u8 c <=? 102)) || ((65 <=? u8 c) && (u8 c <=? 70)).

Definition isNodeIDHex (s : bytes) : bool := (length s =? 64)%nat && forallb hex_char s.

Definition parse_peer (peerHex : bytes) : option bytes :=
  b ← hex_DecodeString peerHex; if decide (length b = 32%nat) then Some b else None.

Definition call_channel (peerHex : bytes) : bytes := str "call:" ++ peerHex.

(** ** Calls *)

Record PlaceCallResponse := mkPlaced { pl_CallID : bytes; pl_Channel : bytes; pl_State : bytes; pl_Tracks : list TrackInfo }.

Definition TrackKindAudio : Z := 1.
Definition TrackKindVideo : Z := 2.
Definition TrackDirectionSendRecv : Z := 3.

Definition audio_track : TrackInfo :=
  mkTrack (str "audio-1") TrackKindAudio TrackDirectionSendRecv CodecOpus (str "audio/opus") 0 0 0 0 0.
Definition video_track (vpx : bool) : TrackInfo :=
  mkTrack (str "video-1") TrackKindVideo TrackDirectionSendRecv (if vpx then CodecVP9 else CodecVP8)
    (if vpx then str "video/vp9" else str "video/vp8") 0 0 0 0 0.

Definition call_tracks (vpx enableVideo : bool) : list TrackInfo :=
  audio_track :: (if enableVideo then [video_track vpx] else []).

(** The configuration names no caller, so it is the zero peer. *)
Definition call_config (vpx : bool) (peer peerHex : bytes) (enableVideo : bool) : CallConfig :=
  mkCallConfig (zeroes 32) peer (call_channel peerHex) CodecOpus
    (if enableVideo then t_Codec (video_track vpx) else 0) enableVideo false None.

Section calls.
Context `{Hash256, Ed25519, SignalJSON}.

Definition dash_PlaceCall (vpx alive : bool) (now : Z) (peerHex : bytes) (enableVideo : bool)
    (svc : option VoiceServer) (c : StoreChannel) : result PlaceCallResponse * option VoiceServer * StoreChannel :=
  match svc with
  | None => (Err (ErrText "the voice service is not running"), None, c)
  | Some v =>
      if negb (vs_channel v) then (Err ErrNoSignalingChannel, Some v, c) else
      match parse_peer peerHex with
      | None => (Err (ErrText "peer_id must be 64 hex characters, got %d characters"), Some v, c)
      | Some peer =>
          let tracks := call_tracks vpx enableVideo in
          let '(r, v, c) := PlaceCall alive now (call_config vpx peer peerHex enableVideo) tracks v c in
          (match r with
           | Err e => Err e
           | Ok sig => Ok (mkPlaced (fmtHex (cs_callID sig)) (call_channel peerHex) (str "offer_sent") tracks)
           end, Some v, c)
      end
  end.

Record AwaitSignalResponse := mkAwaited { aw_CallID : bytes; aw_Type : bytes; aw_Sender : bytes; aw_Message : bytes }.

(** [Ok None] is an answer with [Found] false. *)
Definition dash_AwaitSignal (peerHex sigType : bytes) (svc : option VoiceServer) (start : StoreChannel)
    (polls : list StoreChannel) : result (option AwaitSignalResponse) :=
  match svc with
  | None => Err (ErrText "the voice service is not running")
  | Some v =>
      match parse_peer peerHex with
      | None => Err (ErrText "peer_id must be 64 hex characters")
      | Some peer =>
          match ParseSignalType sigType with
          | Err e => Err e
          | Ok ty =>
              match AwaitSignal (call_channel peerHex) peer ty v start polls with
              | Err e => if decide (e = ErrText "context deadline exceeded") then Ok None else Err e
              | Ok msg => Ok (Some (mkAwaited (fmtHex (s_CallID msg)) (SignalType_String (s_Type msg))
                                      (fmtHex (s_Sender msg)) (s_Payload msg)))
              end
          end
      end
  end.

Definition handleVoiceCall (vpx alive : bool) (now : Z) (method : bytes) (body : result (bytes * bool))
    (svc : option VoiceServer) (c : StoreChannel) : Response PlaceCallResponse * option VoiceServer * StoreChannel :=
  if decide (method <> POST) then (not_allowed, svc, c) else
  match body with
  | Err _ => (HttpError StatusBadRequest (ErrText "invalid json"), svc, c)
  | Ok (peer, video) =>
      if 128 <? len peer then (HttpError StatusBadRequest (ErrText "peer_id too long"), svc, c) else
      if negb (isNodeIDHex peer)
      then (HttpError StatusBadRequest (ErrText "peer_id must be 64 hex characters"), svc, c) else
      let '(r, svc, c) := dash_PlaceCall vpx alive now peer video svc c in
      (match r with Err e => HttpError StatusServiceUnavailable e | Ok p => Json StatusOK p end, svc, c)
  end.

(** The wait in milliseconds: five seconds unless the request says otherwise. *)
Definition wait_ms (v : bytes) : option Z :=
  if decide (v = []) then Some 5000 else
  match Atoi v with
  | Some ms => if (ms <? 0) || (30000 <? ms) then None else Some ms
  | None => None
  end.

(** [polls ms] are the states of the channel a waiter reads within [ms]. *)
Definition handleVoiceSignal (method peer sigType wait : bytes) (svc : option VoiceServer) (start : StoreChannel)
    (polls : Z -> list StoreChannel) : Response (option AwaitSignalResponse) :=
  if decide (method <> GET) then not_allowed else
  if decide (peer = [] \/ sigType = []) then HttpError StatusBadRequest (ErrText "peer_id and type are required") else
  if (128 <? len peer) || (32 <? len sigType) then HttpError StatusBadRequest (ErrText "query parameter too long") else
  if negb (isNodeIDHex peer) then HttpError StatusBadRequest (ErrText "peer_id must be 64 hex characters") else
  match ParseSignalType sigType with
  | Err e => HttpError StatusBadRequest e
  | Ok _ =>
      match wait_ms wait with
      | None => HttpError StatusBadRequest (ErrText "wait_ms must be 0..30000")
      | Some ms => match dash_AwaitSignal peer sigType svc start (polls ms) with
                   | Err e => HttpError StatusServiceUnavailable e
                   | Ok r => Json StatusOK r
                   end
      end
  end.
End calls.

(** ** The status of the voice service *)

Record VoiceStatusResponse := mkVoiceStatus {
  vr_ServiceLive : bool;
  vr_Signaling : bool;
  vr_CanSendAudio : bool;
  vr_CanSendVideo : bool;
  vr_Calls : list (bytes * bytes);
  vr_Reason : bytes;
  vr_EncoderHint : bytes;
}.

Definition call_row (m : CallManager) (p : ref) : option (bytes * bytes) :=
  (fun c => (fmtHex (c_id c), CallState_String (c_state c))) <$> heap m !! p.

(** [opus] and [vpx] say which encoders the build has. *)
Definition VoiceStatus (opus vpx : bool) (svc : option VoiceServer) : VoiceStatusResponse :=
  let live := bool_decide (is_Some svc) in
  let '(reason, hint) :=
    if negb live then (str "the voice service is not running, so a peer opening a voice stream gets no handler", [])
    else if negb opus then
      (str "this build has no audio encoder, so this node can receive a call but not send audio",
       str "rebuild with -tags libopus (needs libopus)")
    else ([], []) in
  mkVoiceStatus live (match svc with Some v => vs_channel v | None => false end) opus vpx
    (match svc with Some v => omap (call_row (vs_calls v)) (voice_ActiveCalls v) | None => [] end) reason hint.

(** ** The identity *)

Record BackupResponse := mkBackupResponse { bk_Backup : bytes; bk_Success : bool; bk_Message : goerror }.
Record RestoreResponse := mkRestoreResponse {
  rs_Success : bool; rs_Message : goerror; rs_NodeID : bytes; rs_Name : bytes }.

Section identity.
Context `{Hash256, Ed25519, NoiseCrypto, IdentityLib}.

Definition backup_failed (e : goerror) : BackupResponse := mkBackupResponse [] false e.

(** What is sealed as the private key is the public key. *)
Definition dash_BackupIdentity (salt nonce : bytes) (now : Z) (passphrase name : bytes) (a : NodeAPI) : BackupResponse :=
  if decide (passphrase = []) then backup_failed (ErrText "passphrase required") else
  let name := if decide (name = []) then str "localweb-node" else name in
  let backup := BackupIdentity salt nonce now (a_pubKey a) (a_pubKey a) name passphrase in
  match ExportIdentityBackupJSON backup with
  | Err e => backup_failed e
  | Ok json => mkBackupResponse (EncodeToString json) true (ErrText "identity backed up successfully")
  end.

Definition restore_failed (e : goerror) : RestoreResponse := mkRestoreResponse false e [] [].

(** The keys are checked and dropped: nothing of the node changes. *)
Definition dash_RestoreIdentity (backup passphrase : bytes) : RestoreResponse :=
  if decide (backup = []) then restore_failed (ErrText "backup data required") else
  if decide (passphrase = []) then restore_failed (ErrText "passphrase required") else
  match DecodeString backup with
  | None => restore_failed (ErrText "invalid backup encoding")
  | Some json =>
      match ImportIdentityBackupJSON json with
      | Err e => restore_failed e
      | Ok b => match RestoreIdentity b passphrase with
                | Err e => restore_failed e
                | Ok _ => mkRestoreResponse true (ErrText "identity restored successfully") (NodeID b) (Name b)
                end
      end
  end.

Definition handleOnboardingBackup (salt nonce : bytes) (now : Z) (method : bytes) (body : result (bytes * bytes))
    (a : NodeAPI) : Response BackupResponse :=
  if decide (method <> POST) then not_allowed else
  match body with
  | Err _ => HttpError StatusBadRequest (ErrText "invalid request body")
  | Ok (passphrase, name) => Json StatusOK (dash_BackupIdentity salt nonce now passphrase name a)
  end.

Definition handleOnboardingRestore (method : bytes) (body : result (bytes * bytes)) : Response RestoreResponse :=
  if decide (method <> POST) then not_allowed else
  match body with
  | Err _ => HttpError StatusBadRequest (ErrText "invalid request body")
  | Ok (backup, passphrase) => Json StatusOK (dash_RestoreIdentity backup passphrase)
  end.
End identity.

Record OnboardingStatus := mkOnboarding { ob_Step : Z; ob_HasIdentity : bool; ob_NodeName : bytes; ob_NeedsBackup : bool }.

Definition OnboardingStatus_ (store : bool) : OnboardingStatus := mkOnboarding 0 store (str "localweb-node") store.

(** * Calls placed from a dashboard are not received on one *)

Section unheard.
Context `{Hash256, Ed25519, SignalJSON}.

Lemma channel_Publish_other alive now name sender ty content c ch r c' :
  channel_Publish alive now name sender ty content c = (r, c') -> length sender = 32%nat ->
  forall peer sigType, peer <> sender ->
  first_signal peer sigType (channel_msgs ch c') = first_signal peer sigType (channel_msgs ch c).
Proof.
  unfold channel_Publish. destruct (maxSignaledPayload <? len content); [by intros [= _ <-]|].
  destruct (negb alive); [by intros [= _ <-]|]. unfold nextMessageID. intros [= _ <-] Hs peer sigType Hne.
  unfold channel_msgs, Append, history_of. cbn [sc_store].
  destruct (decide (channelFor name = channelFor ch)) as [<-|Hch].
  - rewrite lookup_insert_eq. cbn [default from_option id]. rewrite first_signal_app. cbn [first_signal].
    unfold signal_in at 1. cbn [msg_Content].
    destruct (envelope_parts sender ty content Hs) as (-> & _ & _). rewrite decide_True by congruence.
    by destruct (first_signal _ _ _).
  - by rewrite lookup_insert_ne.
Qed.

(** Whatever call a node places from its dashboard, and whichever channel a
    peer listens on, for a node that is not the zero peer: the first signal it
    can find is what it was before the call.  The offer has no caller in it,
    and goes to the channel named after the callee, where the callee, which
    waits on the channel named after the caller, does not look. *)
Lemma dashboard_call_unheard vpx alive now peerHex video svc c r svc' c' ch peer sigType :
  dash_PlaceCall vpx alive now peerHex video svc c = (r, svc', c') -> peer <> zeroes 32 ->
  first_signal peer sigType (channel_msgs ch c') = first_signal peer sigType (channel_msgs ch c).
Proof.
  intros E Hne. unfold dash_PlaceCall in E. destruct svc as [v|]; [|by injection E as _ _ <-].
  destruct (negb (vs_channel v)); [by injection E as _ _ <-|].
  destruct (parse_peer peerHex) as [p|]; [|by injection E as _ _ <-].
  unfold PlaceCall in E. destruct (vs_closed v) eqn:Hcl; [by injection E as _ _ <-|].
  destruct (negb (vs_channel v)); [by injection E as _ _ <-|].
  unfold StartCall in E. rewrite Hcl, Create_spec in E. cbn [heap] in E.
  rewrite lookup_app_r, Nat.sub_diag in E by lia. cbn [lookup list_lookup] in E.
  unfold SendOffer, send_signed, SendSignal in E.
  cbn [NewCallSignaling cs_channel cs_callerKey cs_callID cs_caller cs_privKey cfg_Caller call_config] in E.
  destruct (channel_Publish _ _ _ _ _ _ _) as [[u|e] c1] eqn:Ep; injection E as _ _ <-;
    eapply channel_Publish_other in Ep; [apply Ep|reflexivity|done|apply Ep|reflexivity|done].
Qed.

(** A peer that waits on a readable channel for longer than it takes to read it
    is answered as if the call had not been placed. *)
Lemma dashboard_wait_unchanged vpx alive now peerHex video svc c r svc' c' w ch peer sigType n :
  dash_PlaceCall vpx alive now peerHex video svc c = (r, svc', c') -> peer <> zeroes 32 ->
  readable (channel_msgs ch c) -> readable (channel_msgs ch c') ->
  (length (channel_msgs ch c) <= 64 * n)%nat -> (length (channel_msgs ch c') <= 64 * n)%nat ->
  AwaitSignal ch peer sigType w (NewStoreChannel ∅) (replicate n c')
  = AwaitSignal ch peer sigType w (NewStoreChannel ∅) (replicate n c).
Proof.
  intros E Hne Hr Hr' Hl Hl'. unfold AwaitSignal, WaitForSignal, WaitForSignalFrom.
  destruct (negb (vs_channel w)); [done|]. rewrite decide_True by done.
  assert (channel_History ch [] signalingHistoryLimit (NewStoreChannel ∅) = []) as ->.
  { apply (channel_page ch _ [] []); [done|]. by split_and!; constructor. }
  cbn [last]. change (@nil byte) with (cursor_after []).
  rewrite !(poll_signals_first ch peer sigType n _ [] (channel_msgs ch _)) by done.
  by rewrite (dashboard_call_unheard _ _ _ _ _ _ _ _ _ _ ch peer sigType E Hne).
Qed.
End unheard.

(** * Requests *)

Lemma hex_char_val c : hex_char c = true <-> is_Some (hexVal c).
Proof.
  unfold hex_char, hexVal.
  destruct ((48 <=? u8 c) && (u8 c <=? 57)); cbn [orb]; [by split|].
  destruct ((97 <=? u8 c) && (u8 c <=? 102)); cbn [orb]; [by split|].
  destruct ((65 <=? u8 c) && (u8 c <=? 70)); by split; [|intros [? ?]].
Qed.

Lemma hex_pairs_chars n s :
  length s = (2 * n)%nat -> forallb hex_char s = true <-> exists b, hex_pairs s = Some b /\ length b = n.
Proof.
  revert s. induction n as [|n IH]; intros s Hl.
  { destruct s; [|done]. split; [by exists []|done]. }
  destruct s as [|a [|b s]]; [done|simpl in Hl; lia|]. specialize (IH s). cbn [forallb hex_pairs].
  rewrite !andb_true_iff, !hex_char_val, IH by (simpl in Hl; lia). split.
  - intros ([x ->] & [y ->] & t & -> & Ht). eexists. split; [reflexivity|]. simpl. by rewrite Ht.
  - intros (t & E & Ht). destruct (hexVal a), (hexVal b); try done.
    destruct (hex_pairs s) as [t'|]; [|done]. injection E as <-. split_and!; eauto.
Qed.

Lemma hex_pairs_length m s b : (length s <= m)%nat -> hex_pairs s = Some b -> length b = (length s / 2)%nat.
Proof.
  revert s b. induction m as [|m IH]; intros [|x [|y s]] b Hm E; simpl in Hm; try lia; try (by injection E as <-).
  cbn [hex_pairs] in E. destruct (hexVal x), (hexVal y); try done.
  destruct (hex_pairs s) as [t|] eqn:Et; [|done]. injection E as <-. cbn [length].
  rewrite (IH s t) by (done || lia). change (S (S (length s))) with (2 + length s)%nat.
  replace (2 + length s)%nat with (length s + 1 * 2)%nat by lia. rewrite Nat.div_add by done. lia.
Qed.

(** The check of the handlers accepts exactly what the API can read as a peer:
    a request that passes it never fails for its peer. *)
Lemma isNodeIDHex_parses s : isNodeIDHex s = true <-> exists peer, parse_peer s = Some peer.
Proof.
  unfold isNodeIDHex, parse_peer, hex_DecodeString. rewrite andb_true_iff, Nat.eqb_eq. split.
  - intros [Hl Hc]. apply (hex_pairs_chars 32 s Hl) in Hc as (b & E & Hb).
    rewrite decide_True by (unfold len; by rewrite Hl). rewrite E. cbn [mbind option_bind].
    rewrite decide_True by done. by exists b.
  - intros [peer E]. case_decide as Hm; [|done]. destruct (hex_pairs s) as [b|] eqn:Eb; [|done].
    cbn [mbind option_bind] in E. case_decide as Hb; [|done].
    pose proof (hex_pairs_length _ s b (Nat.le_refl _) Eb) as Hlen.
    assert (length s = 64%nat) as Hl.
    { unfold len in Hm. rewrite Hb in Hlen. pose proof (Nat.div_mod_eq (length s) 2) as Hd.
      pose proof (Nat2Z.inj_mod (length s) 2) as Hz. change (Z.of_nat 2) with 2 in Hz. lia. }
    split; [done|]. apply (hex_pairs_chars 32 s Hl). eauto.
Qed.

Lemma voice_call_bad_peer `{Hash256, Ed25519, SignalJSON} vpx alive now peer video svc c :
  parse_peer peer = None ->
  exists e, handleVoiceCall vpx alive now POST (Ok (peer, video)) svc c = (HttpError StatusBadRequest e, svc, c).
Proof.
  intros Hp. unfold handleVoiceCall. rewrite decide_False by (intros Hn; by apply Hn).
  destruct (128 <? len peer); [by eexists|]. destruct (isNodeIDHex peer) eqn:E; [|by eexists].
  apply isNodeIDHex_parses in E as [? ?]. congruence.
Qed.

(** The wait is never longer than half a minute. *)
Lemma wait_ms_bounds v ms : wait_ms v = Some ms -> 0 <= ms <= 30000.
Proof.
  unfold wait_ms. case_decide; [intros [= <-]; lia|]. destruct (Atoi v) as [n|]; [|done].
  destruct (Z.ltb_spec n 0); [done|]. destruct (Z.ltb_spec 30000 n); [done|]. intros [= <-]. lia.
Qed.

(** The names of the signal types are read back. *)
Lemma signal_type_names :
  Forall (fun t => ParseSignalType (SignalType_String t) = Ok t)
    [SignalTypeOffer; SignalTypeAnswer; SignalTypeICECandidate; SignalTypeBye; SignalTypeGroupInvite].
Proof. repeat constructor. Qed.

(** * Backups from the dashboard *)

Section backups.
Context `{Hash256, Ed25519, NoiseCrypto, IdentityLib}.

(** A backup made on the dashboard is restored without an error, and what it
    restores is the public key in both places: the private key of the node is
    in no backup. *)
Lemma dashboard_backup_lacks_private_key salt nonce now pub name passphrase :
  length pub = 32%nat ->
  RestoreIdentity (BackupIdentity salt nonce now pub pub name passphrase) passphrase = Ok (pub, pub).
Proof.
  intros Hl. unfold RestoreIdentity. cbn [Version Encrypted Nonce Salt NodeID BackupIdentity].
  rewrite open_seal, payload_roundtrip. unfold len. rewrite Hl. cbn [Z.eqb Z.of_nat negb orb].
  unfold hexadecimal. rewrite hex_decoded_fmtHex, bool_decide_eq_true_2 by done. by rewrite andb_false_r.
Qed.

Lemma dashboard_backup_restores salt nonce now passphrase name a :
  length (a_pubKey a) = 32%nat -> passphrase <> [] ->
  let b := BackupIdentity salt nonce now (a_pubKey a) (a_pubKey a) (if decide (name = []) then str "localweb-node" else name)
             passphrase in
  backup_ok b -> EncodeToString (default [] (match marshalBackup b with Ok j => Some j | Err _ => None end)) <> [] ->
  let r := dash_BackupIdentity salt nonce now passphrase name a in
  bk_Success r = true /\ rs_Success (dash_RestoreIdentity (bk_Backup r) passphrase) = true.
Proof.
  intros Hl Hp b Hb Hne. unfold dash_BackupIdentity. rewrite decide_False by done. cbv zeta.
  change (BackupIdentity salt nonce now (a_pubKey a) (a_pubKey a) _ passphrase) with b.
  destruct (backup_roundtrip b Hb) as (json & Hm & Hu). rewrite Hm in Hne. cbn [default from_option id] in Hne.
  unfold ExportIdentityBackupJSON. rewrite Hm. cbn [bk_Success bk_Backup]. split; [done|].
  unfold dash_RestoreIdentity, ImportIdentityBackupJSON. rewrite decide_False by done. rewrite decide_False by done.
  rewrite decode_encode_string, Hu. unfold b. by rewrite dashboard_backup_lacks_private_key.
Qed.
End backups.
