(* ===== verification/NodeConfig.v ===== *)
(** * Configuration of the daemon (cmd/node)

    config.go: where the configuration file is looked for, and how its settings
    become values of flags that the command line leaves open; and from main.go
    the address the node advertises for the DHT, with the other readers of
    addresses and lists.

    Flags are a map from names to texts.  Which texts a flag takes
    ([flag.Set]), JSON, the files and the address of the outgoing interface are
    arguments. *)

From S2P Require Import Prelude Bytes Text Decimal Federation Imap.

Local Open Scope Z_scope.

(** The settings that the daemon reads.  An absent text is empty, an absent
    truth value [None]; the blocks that are accepted and ignored are left out. *)
Record nodeConfig := mkConfig {
  node_Name : bytes;
  node_Listen : bytes;
  node_DataDir : bytes;
  node_Storage : bytes;
  rv_URL : bytes;
  rv_Register : option bool;
  rv_PollInterval : bytes;
  dht_Bootstrap : list bytes;
  gui_Listen : bytes;
  qos_Enabled : option bool;
}.

(** ** The file *)

Definition nodeConfigPaths (etc dataDir : bytes) : list bytes :=
  (if decide (dataDir = []) then [] else [dataDir ++ str "/config.json"])
  ++ (if decide (etc = []) then [] else [etc ++ str "/config.json"])
  ++ [str "/etc/localweb/config.json"].

Inductive FileRead := Missing | Unreadable (e : goerror) | Content (raw : bytes).

Section file.
Context (read : bytes -> FileRead) (decode : bytes -> result nodeConfig).

(** The first file that exists decides: its configuration with its path, [None]
    when there is none, or the error of reading or decoding it. *)
Fixpoint load_first (paths : list bytes) : result (option (nodeConfig * bytes)) :=
  match paths with
  | [] => Ok None
  | p :: paths =>
      match read p with
      | Missing => load_first paths
      | Unreadable _ => Err (ErrText "read")
      | Content raw => match decode raw with
                       | Err _ => Err (ErrText "parse")
                       | Ok cfg => Ok (Some (cfg, p))
                       end
      end
  end.

Definition loadNodeConfig (etc dataDir : bytes) : result (option (nodeConfig * bytes)) :=
  load_first (nodeConfigPaths etc dataDir).
End file.

(** ** The flags *)

Record flags := mkFlags { values : gmap bytes bytes; applied : list (bytes * bytes) }.

Definition boolString (b : bool) : bytes := if b then str "true" else str "false".

Definition normaliseListen (listen : bytes) : bytes :=
  let listen := TrimSpace listen in
  if decide (listen = []) then []
  else if decide (listen = str "localhost:8080") then str "127.0.0.1:8080"
  else listen.

Section flags.
(** Whether a flag is defined and takes a text, and which flags are on the
    command line. *)
Context (takes : bytes -> bytes -> bool) (explicit : gset bytes).

Definition setFlag (name value : bytes) (f : flags) : result flags :=
  if takes name value then Ok (mkFlags (<[name := value]> (values f)) (applied f))
  else Err (ErrText "config: setting flag").

Definition set (name value : bytes) (f : flags) : result flags :=
  if decide (value = [] \/ name ∈ explicit) then Ok f else
  match setFlag name value f with
  | Err e => Err e
  | Ok f => Ok (mkFlags (values f) (applied f ++ [(name, value)]))
  end.

Definition set_bool (name : bytes) (b : option bool) (f : flags) : result flags :=
  match b with Some b => set name (boolString b) f | None => Ok f end.

Definition applyNodeConfig (cfg : option nodeConfig) (f : flags) : result flags :=
  match cfg with
  | None => Ok f
  | Some cfg =>
      f ← set (str "addr") (node_Listen cfg) f;
      f ← set (str "gui-addr") (normaliseListen (gui_Listen cfg)) f;
      f ← set (str "name") (node_Name cfg) f;
      f ← set (str "rendezvous") (rv_URL cfg) f;
      f ← set_bool (str "rendezvous-register") (rv_Register cfg) f;
      f ← (let d := TrimSpace (rv_PollInterval cfg) in
           if decide (d = []) then Ok f else set (str "rendezvous-poll") d f);
      f ← (if decide (dht_Bootstrap cfg = []) then Ok f
           else set (str "dht-bootstrap") (Join (str ",") (dht_Bootstrap cfg)) f);
      set_bool (str "qos") (qos_Enabled cfg) f
  end.
End flags.

(** ** Settings without effect *)

Definition honoured : list bytes := str <$> ["node"; "discovery"; "dht"; "gui"; "qos"]%string.

(** [keys] are those of the document, [None] when it is no object; the order
    of its map does not matter, they are sorted. *)
Definition unmappedKeys (keys : option (list bytes)) : list bytes :=
  match keys with
  | None => []
  | Some keys => merge_sort bytes_le (filter (fun k => k ∉ honoured) keys)
  end.

(** The loop of [itoa], a round per digit; the negation is an int's. *)
Fixpoint itoa_digits (fuel : nat) (n : Z) (b : bytes) : bytes :=
  match fuel with
  | O => b
  | S fuel => if 0 <? n then itoa_digits fuel (n / 10) (byte_of (48 + n mod 10) :: b) else b
  end.

Definition itoa (n : Z) : bytes :=
  if n =? 0 then str "0" else
  let neg := n <? 0 in
  let b := itoa_digits 20 (if neg then wrapS 64 (- n) else n) [] in
  if neg then byte_of 45 :: b else b.

Definition durationOr (ParseDuration : bytes -> result Z) (s : bytes) (fallback : Z) : Z :=
  match ParseDuration s with Err _ => fallback | Ok d => d end.

(** ** main.go *)

(** [os.Args] behind the name of the program. *)
Definition stripLeadingSubcommand (args : list bytes) : list bytes :=
  match args with
  | a :: rest => if HasPrefix a (str "-") then args else rest
  | [] => []
  end.

Definition isWildcardHost (ParseIP : bytes -> option bytes) (host : bytes) : bool :=
  match ParseIP host with
  | Some ip => bool_decide (ip = zeroes 4 \/ ip = zeroes 16 \/ ip = zeroes 10 ++ [Byte.xff; Byte.xff] ++ zeroes 4)
  | None => false
  end.

Definition JoinHostPort (host port : bytes) : bytes :=
  if decide (byte_of 58 ∈ host) then str "[" ++ host ++ str "]:" ++ port else host ++ str ":" ++ port.

(** [outbound] is what [outboundIPv4] returns, empty when there is none. *)
Definition dhtAdvertisedAddr (ParseIP : bytes -> option bytes) (outbound explicit bound : bytes) : bytes :=
  if decide (explicit <> []) then explicit else
  match SplitHostPort bound with
  | Err _ => bound
  | Ok (host, port) =>
      if decide (host <> [] /\ isWildcardHost ParseIP host = false /\ host <> str "localhost") then bound
      else if decide (outbound <> []) then JoinHostPort outbound port
      else []
  end.

Definition portOf (addr : bytes) : bytes := match SplitHostPort addr with Err _ => [] | Ok (_, port) => port end.

Definition portNum (addr : bytes) : Z := default 0 (Atoi (portOf addr)).

Definition splitList (v : bytes) : list bytes := filter (fun p => p <> []) (TrimSpace <$> Split (byte_of 44) v).

(** * A setting of the file takes effect unless the command line has the flag *)

Section precedence.
Context (takes : bytes -> bytes -> bool) (explicit : gset bytes).

(** The settings in the order they are applied; absent ones are empty. *)
Definition bool_setting (b : option bool) : bytes := match b with Some b => boolString b | None => [] end.

Definition settings (cfg : nodeConfig) : list (bytes * bytes) :=
  [(str "addr", node_Listen cfg);
   (str "gui-addr", normaliseListen (gui_Listen cfg));
   (str "name", node_Name cfg);
   (str "rendezvous", rv_URL cfg);
   (str "rendezvous-register", bool_setting (rv_Register cfg));
   (str "rendezvous-poll", TrimSpace (rv_PollInterval cfg));
   (str "dht-bootstrap", Join (str ",") (dht_Bootstrap cfg));
   (str "qos", bool_setting (qos_Enabled cfg))].

Fixpoint set_all (l : list (bytes * bytes)) (f : flags) : result flags :=
  match l with
  | [] => Ok f
  | (name, value) :: l => f ← set takes explicit name value f; set_all l f
  end.

Lemma set_empty name f : set takes explicit name [] f = Ok f.
Proof. unfold set. rewrite decide_True by (by left). done. Qed.

Lemma applyNodeConfig_settings cfg f : applyNodeConfig takes explicit (Some cfg) f = set_all (settings cfg) f.
Proof.
  unfold applyNodeConfig, settings. cbn [set_all].
  destruct (set takes explicit (str "addr") _ f) as [f1|]; [cbn [mbind result_bind]|done].
  destruct (set takes explicit (str "gui-addr") _ f1) as [f2|]; [cbn [mbind result_bind]|done].
  destruct (set takes explicit (str "name") _ f2) as [f3|]; [cbn [mbind result_bind]|done].
  destruct (set takes explicit (str "rendezvous") _ f3) as [f4|]; [cbn [mbind result_bind]|done].
  replace (set_bool takes explicit (str "rendezvous-register") (rv_Register cfg) f4)
    with (set takes explicit (str "rendezvous-register") (bool_setting (rv_Register cfg)) f4)
    by (destruct (rv_Register cfg); [done|apply set_empty]).
  destruct (set takes explicit (str "rendezvous-register") _ f4) as [f5|]; [cbn [mbind result_bind]|done].
  replace (if decide (TrimSpace (rv_PollInterval cfg) = []) then Ok f5
           else set takes explicit (str "rendezvous-poll") (TrimSpace (rv_PollInterval cfg)) f5)
    with (set takes explicit (str "rendezvous-poll") (TrimSpace (rv_PollInterval cfg)) f5)
    by (case_decide as E; [rewrite E; apply set_empty|done]).
  destruct (set takes explicit (str "rendezvous-poll") _ f5) as [f6|]; [cbn [mbind result_bind]|done].
  replace (if decide (dht_Bootstrap cfg = []) then Ok f6
           else set takes explicit (str "dht-bootstrap") (Join (str ",") (dht_Bootstrap cfg)) f6)
    with (set takes explicit (str "dht-bootstrap") (Join (str ",") (dht_Bootstrap cfg)) f6)
    by (case_decide as E; [rewrite E; apply set_empty|done]).
  destruct (set takes explicit (str "dht-bootstrap") _ f6) as [f7|]; [cbn [mbind result_bind]|done].
  replace (set_bool takes explicit (str "qos") (qos_Enabled cfg) f7)
    with (set takes explicit (str "qos") (bool_setting (qos_Enabled cfg)) f7)
    by (destruct (qos_Enabled cfg); [done|apply set_empty]).
  by destruct (set takes explicit (str "qos") _ f7).
Qed.

(** Whether a setting is applied. *)
Definition open_setting (p : bytes * bytes) : Prop := p.2 <> [] /\ p.1 ∉ explicit.

#[global] Instance open_setting_dec p : Decision (open_setting p).
Proof. unfold open_setting. apply _. Defined.

Lemma set_spec name value f f' :
  set takes explicit name value f = Ok f' ->
  f' = if decide (open_setting (name, value)) then mkFlags (<[name := value]> (values f)) (applied f ++ [(name, value)]) else f.
Proof.
  unfold set, setFlag. case_decide as E; [intros [= <-]|].
  - rewrite decide_False; [done|]. unfold open_setting. naive_solver.
  - rewrite decide_True by (unfold open_setting; naive_solver). by destruct (takes name value); intros [= <-].
Qed.

Lemma set_all_spec l f f' :
  NoDup l.*1 -> set_all l f = Ok f' ->
  applied f' = applied f ++ filter open_setting l
  /\ forall name, values f' !! name
       = match list_find (fun p => p.1 = name /\ open_setting p) l with
         | Some (_, p) => Some p.2
         | None => values f !! name
         end.
Proof.
  revert f. induction l as [|[n v] l IH]; intros f Hnd E; simpl in E.
  { injection E as <-. by rewrite app_nil_r. }
  apply NoDup_cons in Hnd as [Hn Hnd]. destruct (set takes explicit n v f) as [f1|] eqn:Es; [|done].
  cbn [mbind result_bind] in E. apply set_spec in Es. destruct (IH f1 Hnd E) as [Ha Hv]. subst f1. split.
  - rewrite Ha, filter_cons. destruct (decide (open_setting (n, v))); cbn [applied]; [by rewrite <- app_assoc|done].
  - intros name. rewrite Hv. cbn [list_find].
    destruct (decide (open_setting (n, v))) as [Ho|Ho].
    + destruct (decide ((n, v).1 = name /\ open_setting (n, v))) as [[<- _]|Hnot].
      * cbn [fst snd]. rewrite (proj2 (list_find_None _ l)).
        { cbn [values]. apply lookup_insert_eq. }
        apply Forall_forall. intros [n' v'] Hin [Heq _]. cbn [fst] in Heq. subst n'. apply Hn.
        apply list_elem_of_fmap. by exists (n, v').
      * destruct (list_find _ l) as [[i p]|]; [done|]. cbn [values fmap option_fmap option_map].
        rewrite lookup_insert_ne; [done|]. intros ->. by apply Hnot.
    + rewrite (decide_False (P := (n, v).1 = name /\ open_setting (n, v))) by (by intros [_ ?]).
      by destruct (list_find _ l) as [[i p]|].
Qed.

(** A file is applied without an error or not at all as far as the node is
    concerned; when it is, a flag that is on the command line keeps its value,
    every other flag has the value of the file where the file gives one, and
    what is logged as applied is exactly what was, in order. *)
Theorem config_precedence cfg f f' :
  applyNodeConfig takes explicit (Some cfg) f = Ok f' ->
  applied f' = applied f ++ filter open_setting (settings cfg)
  /\ (forall name, name ∈ explicit -> values f' !! name = values f !! name)
  /\ (forall name value, (name, value) ∈ settings cfg -> name ∉ explicit -> value <> [] -> values f' !! name = Some value)
  /\ (forall name, name ∉ (settings cfg).*1 -> values f' !! name = values f !! name).
Proof.
  rewrite applyNodeConfig_settings. intros E.
  assert (NoDup (settings cfg).*1) as Hnd by decide_vm. destruct (set_all_spec _ _ _ Hnd E) as [Ha Hv].
  split; [done|]. split_and!.
  - intros name Hin. rewrite Hv. destruct (list_find _ _) as [[i p]|] eqn:El; [|done].
    apply list_find_Some in El as (_ & [<- [_ Hno]] & _). done.
  - intros name value Hin Hno Hne. rewrite Hv.
    destruct (list_find (fun p => p.1 = name /\ open_setting p) (settings cfg)) as [[i p]|] eqn:El.
    + apply list_find_Some in El as (Hi & [Hp _] & _). f_equal.
      apply list_elem_of_lookup_2 in Hi. destruct p as [n v]. cbn [fst snd] in *. subst n.
      apply elem_of_list_to_map in Hin; [|done]. apply elem_of_list_to_map in Hi; [|done].
      rewrite Hin in Hi. by injection Hi.
    + exfalso. apply list_find_None in El. rewrite Forall_forall in El. by apply (El _ Hin).
  - intros name Hno. rewrite Hv. destruct (list_find _ _) as [[i p]|] eqn:El; [|done].
    apply list_find_Some in El as (Hi & [<- _] & _). destruct Hno. apply list_elem_of_fmap.
    exists p. split; [done|]. by eapply list_elem_of_lookup_2.
Qed.
End precedence.

(** ** Bootstrap peers, from the file to the list the DHT is given *)

Lemma Split_Join sep l : l <> [] -> Forall (fun x => sep ∉ x) l -> Split sep (Join [sep] l) = l.
Proof.
  intros Hne. induction l as [|x l IH]; [done|]. intros [Hx Hl]%Forall_cons. destruct l as [|y l].
  - cbn [Join]. by apply Split_one.
  - change (Join [sep] (x :: y :: l)) with (x ++ [sep] ++ Join [sep] (y :: l)). cbn [app].
    rewrite Split_cons by done. by rewrite IH.
Qed.

(** The peers of the file without commas reach the DHT in order, trimmed and
    without the blank ones. *)
Lemma bootstrap_reaches_dht takes explicit cfg f f' :
  applyNodeConfig takes explicit (Some cfg) f = Ok f' -> str "dht-bootstrap" ∉ explicit ->
  Join (str ",") (dht_Bootstrap cfg) <> [] -> Forall (fun x => byte_of 44 ∉ x) (dht_Bootstrap cfg) ->
  splitList (default [] (values f' !! str "dht-bootstrap"))
  = filter (fun p => p <> []) (TrimSpace <$> dht_Bootstrap cfg).
Proof.
  rewrite applyNodeConfig_settings. intros E Hno Hne Hf.
  assert (NoDup (settings cfg).*1) as Hnd by decide_vm. destruct (set_all_spec _ _ _ _ _ Hnd E) as [_ Hv]. rewrite Hv.
  destruct (list_find _ _) as [[i p]|] eqn:El.
  - apply list_find_Some in El as (Hi & [Hp _] & _). cbn [default from_option id].
    assert (p.2 = Join (str ",") (dht_Bootstrap cfg)) as ->.
    { apply list_elem_of_lookup_2 in Hi. destruct p as [n v]. cbn [fst snd] in *. subst n.
      apply elem_of_list_to_map in Hi; [|done].
      assert ((str "dht-bootstrap", Join (str ",") (dht_Bootstrap cfg)) ∈ settings cfg) as Hin
        by (unfold settings; do 6 right; left).
      apply elem_of_list_to_map in Hin; [|done]. rewrite Hin in Hi. by injection Hi. }
    unfold splitList. change (str ",") with [byte_of 44]. rewrite Split_Join; [done| |done].
    intros E0. by rewrite E0 in Hne.
  - exfalso. apply list_find_None in El. rewrite Forall_forall in El.
    apply (El (str "dht-bootstrap", Join (str ",") (dht_Bootstrap cfg))); [unfold settings; do 6 right; left|].
    by split_and!.
Qed.

(** * Addresses and numbers *)

(** An advertised address that was not given is never a wildcard: it is the
    bound one where that names a host, or the outgoing address with the bound
    port, or empty. *)
Lemma advertised_not_wildcard ParseIP outbound bound host port :
  SplitHostPort bound = Ok (host, port) ->
  dhtAdvertisedAddr ParseIP outbound [] bound
  = if decide (host <> [] /\ isWildcardHost ParseIP host = false /\ host <> str "localhost") then bound
    else if decide (outbound = []) then [] else JoinHostPort outbound port.
Proof.
  intros E. unfold dhtAdvertisedAddr. rewrite decide_False by (intros H; by apply H). rewrite E.
  case_decide; [done|]. destruct (decide (outbound = [])) as [->|Hne]; [by rewrite decide_False by (intros H'; by apply H')|].
  by rewrite decide_True.
Qed.

(** A loopback address that is bound is advertised: only its name is left out. *)
Lemma loopback_advertised ParseIP outbound :
  ParseIP (str "127.0.0.1") = Some (byte_of 127 :: zeroes 2 ++ [byte_of 1]) ->
  dhtAdvertisedAddr ParseIP outbound [] (str "127.0.0.1:9094") = str "127.0.0.1:9094"
  /\ dhtAdvertisedAddr ParseIP (str "10.0.0.7") [] (str "localhost:9094") = str "10.0.0.7:9094".
Proof.
  intros Hp. split.
  - rewrite (advertised_not_wildcard _ _ _ (str "127.0.0.1") (str "9094")) by reflexivity.
    rewrite decide_True; [done|]. split; [done|]. split; [|done]. unfold isWildcardHost. by rewrite Hp.
  - rewrite (advertised_not_wildcard _ _ _ (str "localhost") (str "9094")) by reflexivity.
    rewrite decide_False by (intros (_ & _ & H); by apply H). reflexivity.
Qed.

(** [itoa] prints what [%d] does, but for the smallest number, of which only
    the sign is left. *)
Lemma itoa_dec n : int64_min < n <= int64_max -> itoa n = dec n.
Proof.
  intros Hn. unfold itoa, dec. destruct (n =? 0); [done|].
  assert (forall fuel m b, itoa_digits fuel m b = digits fuel m b) as Hd.
  { induction fuel as [|fuel IH]; intros m b; [done|]. cbn [itoa_digits digits]. by destruct (0 <? m). }
  cbv zeta. destruct (Z.ltb_spec n 0); [|by rewrite Hd].
  rewrite wrapS_small by (unfold int64_min, int64_max in *; lia). by rewrite Hd.
Qed.

Lemma itoa_smallest : itoa int64_min = str "-".
Proof. vm_compute. reflexivity. Qed.

(** The directory and storage of the file reach no flag. *)
Lemma data_dir_ignored takes explicit cfg dir storage f :
  applyNodeConfig takes explicit (Some (mkConfig (node_Name cfg) (node_Listen cfg) dir storage (rv_URL cfg)
    (rv_Register cfg) (rv_PollInterval cfg) (dht_Bootstrap cfg) (gui_Listen cfg) (qos_Enabled cfg))) f
  = applyNodeConfig takes explicit (Some cfg) f.
Proof. done. Qed.

Lemma normalise_examples :
  normaliseListen (str " localhost:8080 ") = str "127.0.0.1:8080"
  /\ normaliseListen (str "localhost:9000") = str "localhost:9000"
  /\ splitList (str "a:1, ,b:2,") = [str "a:1"; str "b:2"]
  /\ stripLeadingSubcommand [str "node"; str "--data-dir"; str "x"] = [str "--data-dir"; str "x"]
  /\ unmappedKeys (Some [str "security"; str "dht"; str "links"]) = [str "links"; str "security"].
Proof. vm_compute. repeat split. Qed.

Definition ex_config : nodeConfig :=
  mkConfig (str "box") [] [] [] [] (Some false) [] [str "10.0.0.5:7777"; str " 10.0.0.6:7777"] (str "localhost:8080") None.

Lemma config_precedence_witness :
  match applyNodeConfig (fun _ _ => true) {[ str "name" ]} (Some ex_config) (mkFlags ∅ []) with
  | Ok f => values f !! str "name" = None /\ values f !! str "rendezvous-register" = Some (str "false")
      /\ splitList (default [] (values f !! str "dht-bootstrap")) = [str "10.0.0.5:7777"; str "10.0.0.6:7777"]
  | Err _ => False
  end.
Proof.
  destruct (applyNodeConfig (fun _ _ => true) {[ str "name" ]} (Some ex_config) (mkFlags ∅ [])) as [f|e] eqn:E.
  - destruct (config_precedence _ _ _ _ _ E) as (_ & Hx & Hs & _). split_and!.
    + rewrite Hx by set_solver. reflexivity.
    + apply Hs; [unfold settings; do 4 right; left|decide_vm|done].
    + rewrite (Hs (str "dht-bootstrap") (Join (str ",") (dht_Bootstrap ex_config)));
        [vm_compute; reflexivity|unfold settings; do 6 right; left|decide_vm|done].
  - vm_compute in E. discriminate E.
Defined.
